(* ===== verification/_CoqProject ===== *)
-Q . S2P
Prelude.v
RustStd.v
Core.v
Interfaces.v
Tracing.v
Retry.v
Atomics.v
CircuitBreaker.v
BreakerConcurrency.v
BreakerProgress.v
BreakerTests.v
BreakerProgram.v
BreakerEvents.v
WeakMemory.v
BreakerWeakMemory.v
LoadBalance.v
ServiceIdentity.v
CallerContext.v
Tls.v
ClientMetadata.v
Security.v
Transport.v
DiscoveryMetadata.v
DiscoveryLifecycle.v
Leases.v
Server.v
LifecycleEvents.v
DiscoveryResolver.v
ControlPlane.v
WatchingResolver.v
WatchReplay.v
WatchControl.v
WatchConcurrency.v
WatchCursor.v
ClientEvents.v
Binary64.v
Binary64Error.v
RetryBudget.v
RetryBudgetBounds.v
RetryEvents.v
Testing.v
TestsResilience.v
TestsCore.v
TestsDiscovery.v
TestsClient.v
TestsServer.v
TestsArchitecture.v
