(* ===== verification/Prelude.v ===== *)
(** * Verification of sdkwork-rpc-framework

    The repository is a Rust framework around gRPC (tonic) in five crates under
    [src/crates]: [sdkwork-rpc-core] (errors, profiles, service identities,
    signed caller contexts), [sdkwork-rpc-resilience] (retry decisions, back-off,
    circuit breaker), [sdkwork-rpc-client] (resolvers, load balancing, channels,
    outbound metadata, retry budget), [sdkwork-rpc-discovery] (registration and
    lease renewal) and [sdkwork-rpc-server] (request admission, serving and
    shutdown). This library is a shallow embedding of all five, in the order of
    [_CoqProject].

    ** Files

    - [Prelude]: Rust's [Result] with its [?] notation, tactics, hints.
    - [RustStd]: integers at their widths, [Duration], byte strings ([trim],
      [strip_prefix], decimal numbers), [BTreeSet].
    - [Interfaces]: the crates the repository only depends on, one class of
      operations and one class of documented laws each, and instances that show
      the laws can hold (used by witnesses only).
    - [Core]: [core/src/lib.rs], [profile.rs], [surface.rs], [identity.rs],
      [bootstrap.rs].
    - [Retry]: [resilience/src/lib.rs], [backoff.rs], [idempotency.rs],
      [pushback.rs]. The decision of [should_retry_call_with_pushback] is
      characterised on every branch; budget, deadline and delay bounds.
    - [Atomics], [CircuitBreaker], [BreakerConcurrency], [BreakerProgress],
      [BreakerTests]: [resilience/src/circuit_breaker.rs]. Each method is a
      program of atomic actions on the breaker's memory. Run alone, the programs
      refine an abstract three-state breaker for every sequence of calls and
      ticks of the clock; interleaved, they keep the memory's invariant, and two
      schedules show what the code does not guarantee. [BreakerProgress] bounds
      the steps any schedule of [n] concurrent calls can take by [6n^2 + 12n]
      (a compare-and-exchange only fails because another call wrote), so the
      retry loops terminate under contention. [BreakerTests] proves that
      concurrent failures are all counted, in every schedule.
    - [BreakerProgram], [BreakerEvents], [WeakMemory], [BreakerWeakMemory]: the
      same methods as syntax, with the memory ordering of each operation and the
      log events. Erasing both gives back the programs above. [BreakerEvents]:
      the log announces each change of state exactly once. [WeakMemory] is a release/acquire machine (histories
      of writes, thread views); on it [BreakerWeakMemory] proves the invariant of
      the atomics and a bound on half-open probes for any number of threads and
      arbitrarily stale reads, that a lone caller gets the answers of the abstract
      breaker, and that every interleaving of the other files is an execution of this machine too.
    - [LoadBalance]: [client/src/resolver.rs], [load_balance.rs]. The resolver
      trait is the class [NameResolver]; [NonEmptyResolver] is what the discovery
      resolvers promise. Selection is sound and exactly fair over a cycle, until
      the cursor saturates.
    - [ServiceIdentity], [CallerContext]: [core/src/service_identity.rs],
      [caller_context.rs]. Exact acceptance conditions of certificates and of
      signed contexts, and the sign-then-verify round trip.
    - [Tls], [Transport]: [client/src/tls.rs], [transport.rs],
      [discovery/src/endpoint.rs], the TLS half of [server/src/lib.rs].
    - [ClientMetadata], [Security]: [client/src/metadata.rs],
      [server/src/security.rs]. The theorem [credential_end_to_end] follows a
      credential from the issuing service to the handler.
    - [DiscoveryMetadata], [DiscoveryLifecycle], [Server]: registration, renewal
      and the ordered shutdown ([discovery/src/rpc_metadata.rs], [metadata.rs],
      [lifecycle.rs], [server/src/lib.rs]). The renewal task runs beside the
      server until it is aborted, so renewals may follow the deregistration.
    - [Leases]: the renewal loop against a control plane with a clock: how many
      failed renewals in a row a lease survives, for any settings and runs of any
      length, and that a lease that has ended is never held again.
    - [DiscoveryResolver], [WatchingResolver]: [client/src/discovery_resolver.rs],
      [watching_discovery_resolver.rs]. The watch cache refines a map from
      addresses; an invariant holds in every state reachable by messages and
      resolutions in any order.
    - [WatchReplay], [WatchControl], [WatchConcurrency], [WatchCursor]: the watch
      loop against the control plane's durable log. Reconnecting neither loses nor
      repeats a mutation of a service watched alone; a second watched service can
      hide some. Watchers follow the registrations and deregistrations of servers
      as long as no address is reused; the late deregistration of an earlier
      instance at the same address hides a live one.
      Loops and resolutions, interleaved action by action, are linearizable; with
      stale reads of the revision cursor a loop still never falls behind itself.
    - [ControlPlane]: the composition of registration, serving and resolution
      through a control plane, which is a class with laws: what a server
      registers is what a client dials, until an orderly shutdown unlists it,
      provided that a late renewal registers nothing; a failed bind leaves it
      listed.
    - [Binary64], [RetryBudget]: [client/src/retry_budget.rs] on binary64 numbers,
      which implement an integer token bucket exactly at whole seconds.
    - [Binary64Error], [RetryBudgetBounds]: the error of a rounded operation as a
      rational number, and with it the budget at arbitrary nanoseconds and rates:
      in every period at most the capacity and the refill are admitted, and
      [2 ^ -49] of the refill and [2 ^ -50] of the capacity a call for rounding;
      a pause earns a retry.
    - [Tracing], [RetryEvents], [LifecycleEvents], [ClientEvents]: the log. An
      event is a record, a function that logs returns its events beside its
      value. Every function that emits an event is given with its events and
      shown to compute the value of its model without them; the theorems say
      which runs leave which log: refusals of retries, renewals, shutdown,
      resolutions and watch sessions.
    - [Testing], [TestsResilience], [TestsCore], [TestsDiscovery], [TestsClient],
      [TestsServer], [TestsArchitecture]: the repository's own unit and
      architecture tests. Each test is a definition that runs the modelled
      operations on the test's input and returns whether its assertions hold;
      the theorems say that they do, for every draw and waiting time the test
      leaves open. The tests that compare jittered samples depend on the draws:
      they pass under a stated condition or are shown to fail for some draws.

    ** Conventions

    Integers are [Z] with the width's wrap-around, saturation or check written
    out; durations and instants are nanoseconds. Fallible functions return
    [result]; functions that take [&mut] or talk to the outside return the state
    they leave behind, also on errors. Clocks, random draws and UUIDs are
    arguments or draws of a parameter. A cargo feature is a boolean argument.
    Loops that never return (lease renewal, watch reconnect) run once per random
    generator of a list, so a theorem about every list covers every finite
    prefix of their execution; the serve functions return
    [None] when the code would wait for ever. The breaker's compare-and-exchange
    loop runs with fuel 12, and [breaker_refines_spec] shows that every
    sequential call returns within it, while the concurrent semantics has no
    fuel; all other recursion is structural.

    ** Not modelled

    What a subscriber does with the log events; the interior of tonic, rustls,
    serde, x509-parser and the discovery control plane, which are parameters;
    accessors that only return a field; the tests that open sockets or generate
    certificates (their subject is tonic, rustls and rcgen); and assertions on
    [Send], [Sync] or the shape of a type, which the compiler settles. The log of
    a server run is that of the serving task; its renewal task logs on its own,
    as [renewal_log_exact] says. In the release/acquire machine the clock is one
    monotonic counter that all threads read, as [Instant] documents.

    ** Open

    The cache of the watching resolver, which is behind a lock, is not composed
    with the stale cursor of [WatchCursor]; the exact (not only the bounded)
    behaviour of the retry budget at fractions of a second; a lone caller of the
    release/acquire breaker between whose calls time passes. *)
From stdpp Require Export base gmap strings list fin_maps pretty.
From Stdlib Require Export ZArith Lia Ascii.

(** ** Rust's [Result] *)

(** [result E A] is Rust's [Result<A, E>]; the error type comes first so that
    [result E] is a monad. *)
Inductive result (E A : Type) : Type :=
| Ok (a : A)
| Err (e : E).
Arguments Ok {E A} a.
Arguments Err {E A} e.

Definition result_bind {E A B} (r : result E A) (k : A → result E B) : result E B :=
  match r with
  | Ok a => k a
  | Err e => Err e
  end.

Definition result_map {E A B} (f : A → B) (r : result E A) : result E B :=
  match r with
  | Ok a => Ok (f a)
  | Err e => Err e
  end.

Definition map_err {E F A} (f : E → F) (r : result E A) : result F A :=
  match r with
  | Ok a => Ok a
  | Err e => Err (f e)
  end.

Definition ok_or {E A} (e : E) (o : option A) : result E A :=
  match o with
  | Some a => Ok a
  | None => Err e
  end.

Definition result_ok {E A} (r : result E A) : option A :=
  match r with
  | Ok a => Some a
  | Err _ => None
  end.

Definition is_ok {E A} (r : result E A) : bool :=
  match r with
  | Ok _ => true
  | Err _ => false
  end.

(** [Option::transpose] on an option of results. *)
Definition transpose {E A} (o : option (result E A)) : result E (option A) :=
  match o with
  | None => Ok None
  | Some (Ok a) => Ok (Some a)
  | Some (Err e) => Err e
  end.

Declare Scope rust_scope.
Delimit Scope rust_scope with rust.
Open Scope rust_scope.

(** [let? x := e in k] is [let x = e?; k]; [e ;? k] is [e?; k]. *)
Notation "'let?' x ':=' c 'in' k" := (result_bind c (λ x, k))
  (at level 10, x binder, c at level 100, k at level 200) : rust_scope.
Notation "c ';?' k" := (result_bind c (λ _ : (), k))
  (at level 100, k at level 200, right associativity) : rust_scope.

#[global] Instance result_eq_dec {E A} `{EqDecision E, EqDecision A} :
  EqDecision (result E A).
Proof. solve_decision. Defined.

(** ** Automation *)

Create HintDb rust discriminated.

Lemma result_bind_Ok {E A B} (r : result E A) (k : A → result E B) b :
  result_bind r k = Ok b ↔ ∃ a, r = Ok a ∧ k a = Ok b.
Proof. destruct r; naive_solver. Qed.

Lemma result_bind_Err {E A B} (r : result E A) (k : A → result E B) e :
  result_bind r k = Err e ↔ r = Err e ∨ ∃ a, r = Ok a ∧ k a = Err e.
Proof. destruct r; naive_solver. Qed.

Lemma ok_or_Ok {E A} (e : E) (o : option A) a : ok_or e o = Ok a ↔ o = Some a.
Proof. destruct o; naive_solver. Qed.

Lemma ok_or_Err {E A} (e e' : E) (o : option A) : ok_or e o = Err e' ↔ o = None ∧ e' = e.
Proof. destruct o; naive_solver. Qed.

Lemma map_err_Ok {E F A} (f : E → F) (r : result E A) a : map_err f r = Ok a ↔ r = Ok a.
Proof. destruct r; naive_solver. Qed.

Lemma transpose_Ok {E A} (o : option (result E A)) oa :
  transpose o = Ok oa ↔ o = Ok <$> oa.
Proof. destruct o as [[]|], oa; naive_solver. Qed.

(** [invert_ok] turns hypotheses saying that a chain of fallible steps
    succeeded into one equation per step. *)
Ltac invert_ok :=
  repeat match goal with
  | H : result_bind _ _ = Ok _ |- _ =>
      apply result_bind_Ok in H as (? & ? & ?)
  | H : ok_or _ _ = Ok _ |- _ => apply ok_or_Ok in H
  | H : map_err _ _ = Ok _ |- _ => apply map_err_Ok in H
  | H : transpose _ = Ok _ |- _ => apply transpose_Ok in H
  | H : Ok _ = Ok _ |- _ => injection H as H; try subst
  | H : Err _ = Ok _ |- _ => discriminate H
  | H : Ok _ = Err _ |- _ => discriminate H
  | H : () |- _ => destruct H
  end.

(** Boolean tests of the code, reflected into propositions. *)
Ltac reflect_bools :=
  repeat match goal with
  | H : (_ && _)%bool = true |- _ => apply andb_true_iff in H as [? ?]
  | H : (_ || _)%bool = false |- _ => apply orb_false_iff in H as [? ?]
  | H : negb _ = true |- _ => apply negb_true_iff in H
  | H : negb _ = false |- _ => apply negb_false_iff in H
  | H : (_ <? _)%Z = true |- _ => apply Z.ltb_lt in H
  | H : (_ <? _)%Z = false |- _ => apply Z.ltb_ge in H
  | H : (_ <=? _)%Z = true |- _ => apply Z.leb_le in H
  | H : (_ <=? _)%Z = false |- _ => apply Z.leb_gt in H
  | H : (_ =? _)%Z = true |- _ => apply Z.eqb_eq in H
  | H : (_ =? _)%Z = false |- _ => apply Z.eqb_neq in H
  | H : bool_decide _ = true |- _ => apply bool_decide_eq_true in H
  | H : bool_decide _ = false |- _ => apply bool_decide_eq_false in H
  end.

(** [case_if] splits on the innermost boolean test and reflects it. *)
Ltac case_if :=
  match goal with
  | |- context [if ?b then _ else _] =>
      lazymatch b with context [if _ then _ else _] => fail | _ => idtac end;
      let E := fresh "Hif" in destruct b eqn:E
  | H : context [if ?b then _ else _] |- _ =>
      lazymatch b with context [if _ then _ else _] => fail | _ => idtac end;
      let E := fresh "Hif" in destruct b eqn:E
  end; reflect_bools; simplify_eq.

(** [by_compute] decides a closed hypothesis: equations by evaluation,
    comparisons of numbers by their sign, conjunctions by parts, and any other
    decidable proposition by its decision procedure. *)
Ltac by_compute :=
  solve [ repeat first [ split | vm_compute; reflexivity | vm_compute; discriminate ]
        | apply (bool_decide_unpack _); vm_compute; exact I ].
