(* ===== verification/RustStd.v ===== *)
(** * RustStd: the part of the Rust language and [std] the crates use

    Machine integers are [Z] with the width of the Rust type written out in
    the operation; [Duration] and [Instant] are nanosecond counts; [str] is
    the string of its UTF-8 bytes. *)
From S2P Require Import Prelude.

(** ** Machine integers *)

Open Scope Z_scope.

Definition u8_max : Z := 255.
Definition u32_max : Z := 4294967295.
Definition u64_max : Z := 18446744073709551615.
(** [usize] on the 64-bit targets the workspace builds for. *)
Definition usize_max : Z := u64_max.
Definition i64_min : Z := -9223372036854775808.
Definition i64_max : Z := 9223372036854775807.

Definition u32 (n : Z) : Prop := 0 ≤ n ≤ u32_max.
Definition u64 (n : Z) : Prop := 0 ≤ n ≤ u64_max.
Definition i64 (n : Z) : Prop := i64_min ≤ n ≤ i64_max.

#[global] Instance u32_dec n : Decision (u32 n) := _.
#[global] Instance u64_dec n : Decision (u64 n) := _.
#[global] Instance i64_dec n : Decision (i64 n) := _.

(** Unsigned saturating operations at the width whose maximum is [max]. *)
Definition saturating_add (max a b : Z) : Z := Z.min max (a + b).
Definition saturating_sub (a b : Z) : Z := Z.max 0 (a - b).
Definition saturating_mul (max a b : Z) : Z := Z.min max (a * b).
(** [fetch_add] on an [AtomicU32] wraps around. *)
Definition wrapping_add_u32 (a b : Z) : Z := (a + b) mod (u32_max + 1).
(** [as u64] on a [u128] keeps the low 64 bits. *)
Definition as_u64 (a : Z) : Z := a mod (u64_max + 1).

Definition i64_clamp (a : Z) : Z := Z.max i64_min (Z.min i64_max a).
Definition i64_saturating_add (a b : Z) : Z := i64_clamp (a + b).
Definition i64_saturating_sub (a b : Z) : Z := i64_clamp (a - b).
Definition i64_checked (a : Z) : option Z :=
  if bool_decide (i64 a) then Some a else None.
Definition i64_checked_add (a b : Z) : option Z := i64_checked (a + b).
Definition i64_checked_sub (a b : Z) : option Z := i64_checked (a - b).
(** [i64::try_from] and [u64::try_from]. *)
Definition i64_try_from (a : Z) : option Z := i64_checked a.
Definition u64_try_from (a : Z) : option Z :=
  if bool_decide (u64 a) then Some a else None.

Lemma i64_checked_Some a b : i64_checked a = Some b ↔ i64 a ∧ b = a.
Proof. unfold i64_checked. case_bool_decide; naive_solver. Qed.

Lemma u64_try_from_Some a b : u64_try_from a = Some b ↔ u64 a ∧ b = a.
Proof. unfold u64_try_from. case_bool_decide; naive_solver. Qed.

(** ** [Duration]: whole nanoseconds, at most [u64::MAX] seconds *)

Module Duration.
Definition NANOS_PER_SEC : Z := 1000000000.
Definition NANOS_PER_MILLI : Z := 1000000.
Definition MAX : Z := u64_max * NANOS_PER_SEC + 999999999.
Definition valid (d : Z) : Prop := 0 ≤ d ≤ MAX.
Definition from_secs (s : Z) : Z := s * NANOS_PER_SEC.
Definition from_millis (m : Z) : Z := m * NANOS_PER_MILLI.
Definition as_secs (d : Z) : Z := d / NANOS_PER_SEC.
Definition as_millis (d : Z) : Z := d / NANOS_PER_MILLI.
Definition as_nanos (d : Z) : Z := d.
Definition is_zero (d : Z) : bool := d =? 0.
(** [Duration::saturating_mul] by a [u32]. *)
Definition saturating_mul (d n : Z) : Z := Z.min MAX (d * n).

#[global] Instance valid_dec d : Decision (valid d) := _.
End Duration.

(** Unfolds the width constants so that [lia] sees numerals. *)
Ltac unfold_widths :=
  unfold u32, u64, i64, Duration.valid, Duration.MAX, Duration.from_secs,
    Duration.from_millis, Duration.as_secs, Duration.as_millis,
    Duration.as_nanos, Duration.saturating_mul, Duration.NANOS_PER_SEC,
    Duration.NANOS_PER_MILLI, saturating_add, saturating_sub, saturating_mul,
    i64_saturating_add, i64_saturating_sub, i64_clamp,
    u8_max, u32_max, u64_max, usize_max, i64_min, i64_max in *.
Ltac zlia := unfold_widths; try (Z.to_euclidean_division_equations; lia); lia.

(** ** Byte strings *)

Definition byte_of (c : ascii) : Z := Z.of_N (N_of_ascii c).
Definition byte_in (lo hi : Z) (c : ascii) : bool := (lo <=? byte_of c) && (byte_of c <=? hi).

Definition is_ascii_digit (c : ascii) : bool := byte_in 48 57 c.
Definition is_ascii_uppercase (c : ascii) : bool := byte_in 65 90 c.
Definition is_ascii_alphanumeric (c : ascii) : bool :=
  is_ascii_digit c || is_ascii_uppercase c || byte_in 97 122 c.

(** [bytes().all(p)] and [contains(c)] on a [str]. *)
Fixpoint str_all (p : ascii → bool) (s : string) : bool :=
  match s with
  | EmptyString => true
  | String c s' => p c && str_all p s'
  end.
Definition str_contains (c : ascii) (s : string) : bool :=
  negb (str_all (λ d, negb (bool_decide (d = c))) s).

Fixpoint strip_prefix (p s : string) : option string :=
  match p, s with
  | EmptyString, _ => Some s
  | String a p', String b s' => if bool_decide (a = b) then strip_prefix p' s' else None
  | String _ _, EmptyString => None
  end.
Definition starts_with (p s : string) : bool := bool_decide (is_Some (strip_prefix p s)).

Definition str_len (s : string) : Z := Z.of_nat (String.length s).
Definition str_is_empty (s : string) : bool := bool_decide (s = "").

Fixpoint str_map (f : ascii → ascii) (s : string) : string :=
  match s with
  | EmptyString => EmptyString
  | String c s' => String (f c) (str_map f s')
  end.
Definition ascii_lower (c : ascii) : ascii :=
  if is_ascii_uppercase c then ascii_of_N (N_of_ascii c + 32) else c.
Definition to_ascii_lowercase (s : string) : string := str_map ascii_lower s.

(** [slice.join(sep)]. *)
Fixpoint str_join (sep : string) (l : list string) : string :=
  match l with
  | [] => ""
  | [s] => s
  | s :: l' => s +:+ sep +:+ str_join sep l'
  end.

(** *** [str::trim]

    The bytes of the UTF-8 encodings of the characters with the Unicode
    [White_Space] property: one byte (U+0009..U+000D, U+0020), two bytes
    (U+0085, U+00A0) or three (U+1680, U+2000..U+200A, U+2028, U+2029,
    U+202F, U+205F, U+3000). *)
Definition ws1 (a : ascii) : bool := byte_in 9 13 a || byte_in 32 32 a.
Definition ws2 (a b : ascii) : bool :=
  byte_in 194 194 a && (byte_in 133 133 b || byte_in 160 160 b).
Definition ws3 (a b c : ascii) : bool :=
  (byte_in 225 225 a && byte_in 154 154 b && byte_in 128 128 c)
  || (byte_in 226 226 a && byte_in 128 128 b
      && (byte_in 128 138 c || byte_in 168 169 c || byte_in 175 175 c))
  || (byte_in 226 226 a && byte_in 129 129 b && byte_in 159 159 c)
  || (byte_in 227 227 a && byte_in 128 128 b && byte_in 128 128 c).

(** Drops leading whitespace characters, whose bytes are read in the order
    given by [w2] and [w3]: a reversed string is read with the bytes of each
    character swapped. *)
Fixpoint drop_ws (w2 : ascii → ascii → bool) (w3 : ascii → ascii → ascii → bool)
    (s : string) : string :=
  match s with
  | EmptyString => EmptyString
  | String a s1 =>
      if ws1 a then drop_ws w2 w3 s1
      else match s1 with
           | EmptyString => s
           | String b s2 =>
               if w2 a b then drop_ws w2 w3 s2
               else match s2 with
                    | EmptyString => s
                    | String c s3 => if w3 a b c then drop_ws w2 w3 s3 else s
                    end
           end
  end.
Definition trim_start (s : string) : string := drop_ws ws2 ws3 s.
Definition trim_end (s : string) : string :=
  String.rev (drop_ws (λ a b, ws2 b a) (λ a b c, ws3 c b a) (String.rev s)).
Definition trim (s : string) : string := trim_end (trim_start s).

(** *** [str::parse::<u64>]: an optional [+], then decimal digits *)
Definition digit_value (c : ascii) : option Z :=
  if is_ascii_digit c then Some (byte_of c - 48) else None.
Fixpoint parse_digits (acc : Z) (s : string) : option Z :=
  match s with
  | EmptyString => Some acc
  | String c s' =>
      match digit_value c with
      | None => None
      | Some d =>
          if acc * 10 + d <=? u64_max then parse_digits (acc * 10 + d) s' else None
      end
  end.
Definition parse_u64 (s : string) : option Z :=
  match s with
  | EmptyString => None
  | String c s' =>
      if bool_decide (c = "+"%char)
      then (if str_is_empty s' then None else parse_digits 0 s')
      else parse_digits 0 s
  end.

(** ** [BTreeSet<String>]: the elements in ascending byte order *)

Module BTreeSet.
Fixpoint insert (s : string) (l : list string) : list string :=
  match l with
  | [] => [s]
  | x :: l' =>
      match String.compare s x with
      | Lt => s :: l
      | Eq => l
      | Gt => x :: insert s l'
      end
  end.
Definition from_iter (l : list string) : list string :=
  foldl (λ acc s, insert s acc) [] l.
Definition contains (s : string) (l : list string) : bool := bool_decide (s ∈ l).
Definition lt (a b : string) : Prop := String.compare a b = Lt.
End BTreeSet.

(** ** Lemmas *)

Lemma strip_prefix_Some p s r : strip_prefix p s = Some r ↔ s = p +:+ r.
Proof.
  revert s. induction p as [|a p IH]; intros s; simpl.
  { split; [by intros [= ->]|by intros ->]. }
  destruct s as [|b s]; simpl; [split; [done|by intros [=]]|].
  case_bool_decide as Hab; subst; [rewrite IH|].
  - split; [by intros ->|by intros [= ->]].
  - split; [done|by intros [= ->]].
Qed.

Lemma strip_prefix_app p r : strip_prefix p (p +:+ r) = Some r.
Proof. by apply strip_prefix_Some. Qed.

Lemma starts_with_spec p s : starts_with p s = true ↔ ∃ r, s = p +:+ r.
Proof.
  unfold starts_with. rewrite bool_decide_eq_true. unfold is_Some.
  by setoid_rewrite strip_prefix_Some.
Qed.

Lemma str_app_assoc a b c : (a +:+ b) +:+ c = a +:+ (b +:+ c).
Proof. induction a as [|x a IH]; [done|]. change (String x ((a +:+ b) +:+ c) = String x (a +:+ b +:+ c)). by rewrite IH. Qed.

Lemma str_app_inj p a b : p +:+ a = p +:+ b → a = b.
Proof. induction p; [done|]. intros [= ?]. auto. Qed.

Lemma str_app_nil_r a : a +:+ "" = a.
Proof. induction a as [|c a IH]; [done|]. change (String c (a +:+ "") = String c a). by rewrite IH. Qed.

Lemma str_all_app p a b : str_all p (a +:+ b) = str_all p a && str_all p b.
Proof.
  induction a as [|c a IH]; [done|].
  change (p c && str_all p (a +:+ b) = p c && str_all p a && str_all p b).
  by rewrite IH, andb_assoc.
Qed.

Lemma str_all_impl (p q : ascii → bool) s :
  (∀ c, p c = true → q c = true) → str_all p s = true → str_all q s = true.
Proof. intros Hpq. induction s; simpl; [done|]. intros [??]%andb_true_iff. apply andb_true_iff; auto. Qed.

Lemma str_contains_false c s :
  str_contains c s = false ↔ str_all (λ d, negb (bool_decide (d = c))) s = true.
Proof. unfold str_contains. by rewrite negb_false_iff. Qed.

Lemma str_len_app a b : str_len (a +:+ b) = str_len a + str_len b.
Proof.
  unfold str_len. induction a as [|c a IH]; [done|].
  change (Z.of_nat (S (String.length (a +:+ b))) = Z.of_nat (S (String.length a)) + Z.of_nat (String.length b)).
  lia.
Qed.

Lemma str_len_nonneg s : 0 ≤ str_len s.
Proof. unfold str_len; lia. Qed.

Lemma str_len_zero s : str_len s = 0 ↔ s = "".
Proof. unfold str_len. destruct s; simpl; split; intros; by try (lia || discriminate). Qed.

(** Every decimal numeral a peer prints is read back. *)
Lemma digit_value_pretty d :
  (d < 10)%N → digit_value (pretty_N_char d) = Some (Z.of_N d).
Proof.
  intros. assert (d = 0 ∨ d = 1 ∨ d = 2 ∨ d = 3 ∨ d = 4 ∨ d = 5 ∨ d = 6
    ∨ d = 7 ∨ d = 8 ∨ d = 9)%N by lia.
  by destruct_or!; subst.
Qed.

Lemma pretty_N_go_digits x s :
  str_all is_ascii_digit s = true → str_all is_ascii_digit (pretty_N_go x s) = true.
Proof.
  revert s. induction (N.lt_wf_0 x) as [x _ IH]; intros s Hs.
  assert (x = 0 ∨ 0 < x)%N as [->|?] by lia; [done|].
  rewrite pretty_N_go_step by done. apply IH; [by apply N.div_lt|].
  simpl. rewrite Hs, andb_true_r.
  assert (is_Some (digit_value (pretty_N_char (x `mod` 10)))) as [? Hd].
  { rewrite digit_value_pretty by (apply N.mod_lt; done). eauto. }
  unfold digit_value in Hd. by case_if.
Qed.

Lemma parse_digits_pretty x s :
  Z.of_N x ≤ u64_max → parse_digits 0 (pretty_N_go x s) = parse_digits (Z.of_N x) s.
Proof.
  revert s. induction (N.lt_wf_0 x) as [x _ IH]; intros s Hx.
  assert (x = 0 ∨ 0 < x)%N as [->|?] by lia; [done|].
  rewrite pretty_N_go_step by done.
  rewrite IH by (try apply N.div_lt; try done; rewrite N2Z.inj_div; zlia). simpl.
  rewrite digit_value_pretty by (apply N.mod_lt; done).
  replace (Z.of_N (x `div` 10) * 10 + Z.of_N (x `mod` 10)) with (Z.of_N x)
    by (rewrite N2Z.inj_div, N2Z.inj_mod; zlia).
  by rewrite (proj2 (Z.leb_le _ _)).
Qed.

Lemma pretty_N_go_ne_nil x s : (0 < x)%N ∨ s ≠ "" → pretty_N_go x s ≠ "".
Proof.
  revert s. induction (N.lt_wf_0 x) as [x _ IH]; intros s Hs.
  assert (x = 0 ∨ 0 < x)%N as [->|?] by lia; [rewrite pretty_N_go_0; naive_solver lia|].
  rewrite pretty_N_go_step by done. apply IH; [by apply N.div_lt|by right].
Qed.

Lemma parse_u64_digits s :
  str_all is_ascii_digit s = true → s ≠ "" → parse_u64 s = parse_digits 0 s.
Proof.
  destruct s as [|c s]; [done|]. simpl. intros [Hc _]%andb_true_iff _.
  case_bool_decide; [subst; discriminate|done].
Qed.

Lemma parse_u64_pretty (n : N) :
  Z.of_N n ≤ u64_max → parse_u64 (pretty n) = Some (Z.of_N n).
Proof.
  intros Hn. unfold pretty, pretty_N. case_decide; [by subst|].
  rewrite parse_u64_digits by first [by apply pretty_N_go_digits | apply pretty_N_go_ne_nil; lia].
  by rewrite parse_digits_pretty.
Qed.

(** Membership in, and order of, a [BTreeSet]. *)
Lemma btree_elem_of_insert s x l : x ∈ BTreeSet.insert s l ↔ x = s ∨ x ∈ l.
Proof.
  induction l as [|y l IH]; simpl; [set_solver|].
  destruct (String.compare s y) eqn:E; try set_solver.
  apply String.compare_eq_iff in E. set_solver.
Qed.

Lemma btree_elem_of_foldl x l acc :
  x ∈ foldl (λ acc s, BTreeSet.insert s acc) acc l ↔ x ∈ l ∨ x ∈ acc.
Proof.
  revert acc. induction l as [|y l IH]; intros acc; simpl; [set_solver|].
  rewrite IH, btree_elem_of_insert. set_solver.
Qed.

Lemma btree_elem_of_from_iter x l : x ∈ BTreeSet.from_iter l ↔ x ∈ l.
Proof. unfold BTreeSet.from_iter. rewrite btree_elem_of_foldl. set_solver. Qed.

Lemma btree_from_iter_nil l : BTreeSet.from_iter l = [] ↔ l = [].
Proof.
  split; [|by intros ->]. intros H. destruct l as [|x l]; [done|].
  assert (x ∈ BTreeSet.from_iter (x :: l)) by (apply btree_elem_of_from_iter; set_solver).
  rewrite H in *. set_solver.
Qed.

(** A separator that occurs in neither left part splits a string uniquely. *)
Lemma str_split_inj c a b a' b' :
  str_contains c a = false → str_contains c a' = false →
  a +:+ String c b = a' +:+ String c b' → a = a' ∧ b = b'.
Proof.
  rewrite !str_contains_false. revert a'.
  induction a as [|x a IH]; intros [|x' a']; simpl.
  - by intros _ _ [= ->].
  - intros _ [Hx _]%andb_true_iff [= -> _]. by rewrite bool_decide_eq_true_2 in Hx.
  - intros [Hx _]%andb_true_iff _ [= -> _]. by rewrite bool_decide_eq_true_2 in Hx.
  - intros [_ Ha]%andb_true_iff [_ Ha']%andb_true_iff [= -> Heq].
    destruct (IH a' Ha Ha' Heq) as [-> ->]. done.
Qed.

(** *** Trimming *)

(** A printable ASCII byte other than the space: no part of any whitespace. *)
Definition plain (c : ascii) : bool := byte_in 33 126 c.

(** The two-byte and three-byte tests that do not look past a plain byte. *)
Definition plain_stops (w2 : ascii → ascii → bool) (w3 : ascii → ascii → ascii → bool) : Prop :=
  (∀ a b, plain a = true ∨ plain b = true → w2 a b = false) ∧
  (∀ a b c, plain a = true ∨ plain b = true ∨ plain c = true → w3 a b c = false).

Lemma byte_in_plain lo hi c : plain c = true → 127 ≤ lo → byte_in lo hi c = false.
Proof.
  unfold plain, byte_in. intros. reflect_bools. apply andb_false_iff. left. apply Z.leb_gt. lia.
Qed.

Lemma ws2_plain a b : plain a = true ∨ plain b = true → ws2 a b = false.
Proof.
  unfold ws2. intros [H|H]; rewrite !(byte_in_plain _ _ _ H) by lia; [done|apply andb_false_r].
Qed.

Lemma ws3_plain a b c : plain a = true ∨ plain b = true ∨ plain c = true → ws3 a b c = false.
Proof.
  unfold ws3. intros [H|[H|H]]; rewrite !(byte_in_plain _ _ _ H) by lia;
    by rewrite ?andb_false_r.
Qed.

Lemma ws1_plain a : plain a = true → ws1 a = false.
Proof.
  unfold ws1, plain, byte_in. intros. reflect_bools.
  apply orb_false_iff; split; apply andb_false_iff; rewrite !Z.leb_gt; lia.
Qed.

Lemma plain_stops_forward : plain_stops ws2 ws3.
Proof. split; [apply ws2_plain|apply ws3_plain]. Qed.

Lemma plain_stops_backward : plain_stops (λ a b, ws2 b a) (λ a b c, ws3 c b a).
Proof. split; intros; [apply ws2_plain|apply ws3_plain]; naive_solver. Qed.

Lemma str_app_cons a s t : String a s +:+ t = String a (s +:+ t).
Proof. done. Qed.
Lemma str_app_nil_l t : "" +:+ t = t.
Proof. done. Qed.

Lemma string_len_ind (P : string → Prop) :
  (∀ s, (∀ t, (String.length t < String.length s)%nat → P t) → P s) → ∀ s, P s.
Proof.
  intros H s. remember (String.length s) as n eqn:Hn. revert s Hn.
  induction (lt_wf n) as [n _ IH]. intros s ->. apply H. intros t Ht. by apply (IH _ Ht).
Qed.

Section DropWs.
Context (w2 : ascii → ascii → bool) (w3 : ascii → ascii → ascii → bool).

(** Does the string start with a whitespace character? *)
Definition starts_ws (s : string) : bool :=
  match s with
  | EmptyString => false
  | String a EmptyString => ws1 a
  | String a (String b EmptyString) => ws1 a || w2 a b
  | String a (String b (String c _)) => ws1 a || w2 a b || w3 a b c
  end.

Lemma drop_ws_id s : starts_ws s = false → drop_ws w2 w3 s = s.
Proof.
  destruct s as [|a [|b [|c s]]]; cbn [drop_ws starts_ws]; [done|..]; intros; reflect_bools;
    repeat match goal with H : _ = false |- _ => rewrite H end; done.
Qed.

Lemma drop_ws_step s :
  starts_ws s = true →
  ∃ p t, s = p +:+ t ∧ p ≠ "" ∧ drop_ws w2 w3 s = drop_ws w2 w3 t.
Proof.
  destruct s as [|a [|b [|c s]]]; cbn [starts_ws]; [done|..]; intros Hs;
    rewrite ?orb_true_iff in Hs.
  - exists (String a ""), "". cbn. by rewrite Hs.
  - destruct (ws1 a) eqn:Ha;
      [exists (String a ""), (String b "")|exists (String a (String b "")), ""];
      (split; [done|]; split; [done|]); cbn [drop_ws]; rewrite Ha; [done|].
    destruct Hs as [|Hs]; [done|]. by rewrite Hs.
  - destruct (ws1 a) eqn:Ha; [exists (String a ""), (String b (String c s))|].
    { split; [done|]. split; [done|]. cbn [drop_ws]. by rewrite Ha. }
    destruct (w2 a b) eqn:Hb;
      [exists (String a (String b "")), (String c s)|exists (String a (String b (String c ""))), s];
      (split; [done|]; split; [done|]); cbn [drop_ws]; rewrite Ha, Hb; [done|].
    destruct Hs as [[|]|Hs]; [done..|]. by rewrite Hs.
Qed.

Lemma drop_ws_spec s : ∃ p, s = p +:+ drop_ws w2 w3 s ∧ starts_ws (drop_ws w2 w3 s) = false.
Proof.
  induction s as [s IH] using string_len_ind.
  destruct (starts_ws s) eqn:Hs; [|exists ""; by rewrite drop_ws_id].
  destruct (drop_ws_step s Hs) as (p & t & -> & Hp & ->).
  destruct (IH t) as (q & Hq & Hstop).
  { apply Nat2Z.inj_lt. fold (str_len t) (str_len (p +:+ t)). rewrite str_len_app.
    pose proof (str_len_nonneg p). assert (str_len p ≠ 0) by (by rewrite str_len_zero). lia. }
  exists (p +:+ q). split; [|done]. rewrite str_app_assoc. by f_equal.
Qed.

Lemma starts_ws_prefix s t : starts_ws (s +:+ t) = false → starts_ws s = false.
Proof.
  destruct s as [|a [|b [|c s]]]; rewrite ?str_app_cons, ?str_app_nil_l; [done|..|done].
  - destruct t as [|b [|c t]]; cbn; intros; by reflect_bools.
  - destruct t as [|c t]; cbn; [done|]. intros; reflect_bools. by apply orb_false_iff.
Qed.

Lemma starts_ws_app_plain s t :
  plain_stops w2 w3 → str_all plain t = true → starts_ws s = false →
  starts_ws (s +:+ t) = false.
Proof.
  intros [H2 H3] Ht Hs.
  assert (∀ x t', t = String x t' → plain x = true) as Hp.
  { intros x t' ->. cbn in Ht. by reflect_bools. }
  destruct s as [|a [|b [|c s]]]; rewrite ?str_app_cons, ?str_app_nil_l; [| | |exact Hs].
  - destruct t as [|a t]; [done|]. specialize (Hp _ _ eq_refl).
    destruct t as [|b [|c t]]; cbn; rewrite (ws1_plain _ Hp), ?H2, ?H3 by auto; done.
  - destruct t as [|b t]; [done|]. specialize (Hp _ _ eq_refl). cbn in Hs.
    destruct t as [|c t]; cbn; rewrite Hs, H2, ?H3 by auto; done.
  - destruct t as [|c t]; [done|]. specialize (Hp _ _ eq_refl). cbn in Hs |- *. reflect_bools.
    rewrite H3 by auto. by rewrite orb_false_r, orb_false_iff.
Qed.
End DropWs.

Lemma str_rev_app_spec s t : String.rev_app s t = String.rev s +:+ t.
Proof.
  unfold String.rev. revert t. induction s as [|c s IH]; intros t; [done|]. cbn [String.rev_app].
  rewrite IH, (IH (String c "")). by rewrite str_app_assoc.
Qed.

Lemma str_rev_cons c s : String.rev (String c s) = String.rev s +:+ String c "".
Proof. exact (str_rev_app_spec s (String c "")). Qed.

Lemma str_rev_app s t : String.rev (s +:+ t) = String.rev t +:+ String.rev s.
Proof.
  induction s as [|c s IH]; [by rewrite str_app_nil_r|].
  by rewrite str_app_cons, !str_rev_cons, IH, str_app_assoc.
Qed.

Lemma str_rev_involutive s : String.rev (String.rev s) = s.
Proof. induction s as [|c s IH]; [done|]. by rewrite str_rev_cons, str_rev_app, IH. Qed.

Lemma str_all_rev p s : str_all p (String.rev s) = str_all p s.
Proof.
  induction s as [|c s IH]; [done|]. rewrite str_rev_cons, str_all_app, IH. cbn.
  by rewrite andb_true_r, andb_comm.
Qed.

(** Nothing to trim at either end. *)
Definition trimmed (s : string) : Prop :=
  starts_ws ws2 ws3 s = false ∧
  starts_ws (λ a b, ws2 b a) (λ a b c, ws3 c b a) (String.rev s) = false.

Lemma trim_trimmed s : trimmed (trim s).
Proof.
  unfold trim, trim_end, trim_start, trimmed.
  destruct (drop_ws_spec ws2 ws3 s) as (p & _ & Hf). set (u := drop_ws _ _ s) in *.
  destruct (drop_ws_spec (λ a b, ws2 b a) (λ a b c, ws3 c b a) (String.rev u)) as (q & Hq & Hb).
  set (v := drop_ws _ _ (String.rev u)) in *. rewrite str_rev_involutive. split; [|done].
  apply (starts_ws_prefix _ _ _ (String.rev q)).
  by rewrite <-str_rev_app, <-Hq, str_rev_involutive.
Qed.

Lemma trim_id s : trimmed s → trim s = s.
Proof.
  intros [Hf Hb]. unfold trim, trim_end, trim_start. rewrite (drop_ws_id _ _ s) by done.
  rewrite drop_ws_id by done. apply str_rev_involutive.
Qed.

Lemma trim_idem s : trim (trim s) = trim s.
Proof. apply trim_id, trim_trimmed. Qed.

Lemma trimmed_app_plain p s : str_all plain p = true → trimmed s → trimmed (p +:+ s).
Proof.
  intros Hp [Hf Hb]. split.
  - destruct p as [|c p]; [done|]. cbn in Hp. reflect_bools. rewrite str_app_cons.
    destruct (p +:+ s) as [|d [|e t]]; cbn;
      rewrite ws1_plain, ?(ws2_plain c), ?(ws3_plain c) by auto; done.
  - rewrite str_rev_app. apply starts_ws_app_plain; [apply plain_stops_backward| |done].
    by rewrite str_all_rev.
Qed.

Lemma trim_plain s : str_all plain s = true → trim s = s.
Proof.
  intros Hs. apply trim_id. rewrite <-(str_app_nil_r s). by apply trimmed_app_plain.
Qed.
