(* ===== verification/Core.v ===== *)
(** * Core: error type, profiles, surfaces, identity URI and stage names

    Models [sdkwork-rpc-core]: [lib.rs] ([RpcFrameworkError]), [profile.rs],
    [surface.rs], [identity.rs] and [bootstrap.rs]. *)
From S2P Require Import Prelude RustStd.

(** ** [lib.rs]: the framework error *)

Inductive RpcFrameworkError : Type :=
| Validation (message : string)
| Configuration (message : string)
| Transport (message : string)
| Discovery (message : string).

#[global] Instance RpcFrameworkError_eq_dec : EqDecision RpcFrameworkError.
Proof. solve_decision. Defined.

Abbreviation RpcFrameworkResult := (result RpcFrameworkError).

(** The [Display] text derived by [thiserror]. *)
Definition RpcFrameworkError_to_string (e : RpcFrameworkError) : string :=
  match e with
  | Validation m => "validation failed: " +:+ m
  | Configuration m => "configuration error: " +:+ m
  | Transport m => "transport error: " +:+ m
  | Discovery m => "discovery error: " +:+ m
  end.

(** ** [profile.rs] *)

Module ResolverProfile.
Inductive t : Type := Static | StaticComposite | Discovery | Composite.

#[global] Instance eq_dec : EqDecision t.
Proof. solve_decision. Defined.

Definition parse (value : string) : option t :=
  let v := to_ascii_lowercase (trim value) in
  if bool_decide (v = "static") then Some Static
  else if bool_decide (v = "static-composite") then Some StaticComposite
  else if bool_decide (v = "discovery") then Some Discovery
  else if bool_decide (v = "composite") then Some Composite
  else None.
End ResolverProfile.

Module ResilienceProfile.
Inductive t : Type :=
| RpcDefault
| RpcReadOnly
| RpcIdempotentWrite
| RpcCriticalWrite
| RpcStream
| RpcLocalDev.

#[global] Instance eq_dec : EqDecision t.
Proof. solve_decision. Defined.

Definition as_str (p : t) : string :=
  match p with
  | RpcDefault => "rpc-default"
  | RpcReadOnly => "rpc-read-only"
  | RpcIdempotentWrite => "rpc-idempotent-write"
  | RpcCriticalWrite => "rpc-critical-write"
  | RpcStream => "rpc-stream"
  | RpcLocalDev => "rpc-local-dev"
  end.

Definition parse (value : string) : option t :=
  let v := trim value in
  if bool_decide (v = "rpc-default") then Some RpcDefault
  else if bool_decide (v = "rpc-read-only") then Some RpcReadOnly
  else if bool_decide (v = "rpc-idempotent-write") then Some RpcIdempotentWrite
  else if bool_decide (v = "rpc-critical-write") then Some RpcCriticalWrite
  else if bool_decide (v = "rpc-stream") then Some RpcStream
  else if bool_decide (v = "rpc-local-dev") then Some RpcLocalDev
  else None.

Definition is_production_safe (p : t) : bool :=
  negb (bool_decide (p = RpcLocalDev)).
End ResilienceProfile.

(** ** [surface.rs] *)

Module RpcSurface.
Inductive t : Type := App | Backend | Internal | Common.

#[global] Instance eq_dec : EqDecision t.
Proof. solve_decision. Defined.

Definition as_str (s : t) : string :=
  match s with
  | App => "app"
  | Backend => "backend"
  | Internal => "internal"
  | Common => "common"
  end.

Definition parse (value : string) : option t :=
  let v := trim value in
  if bool_decide (v = "app") then Some App
  else if bool_decide (v = "backend") then Some Backend
  else if bool_decide (v = "internal") then Some Internal
  else if bool_decide (v = "common") then Some Common
  else None.
End RpcSurface.

Definition validate_rpc_surface (value : string) : result string RpcSurface.t :=
  ok_or ("rpc_surface must be one of app, backend, internal, common (got "
           +:+ value +:+ ")")
    (RpcSurface.parse value).

(** ** [identity.rs] *)

Record RpcIdentityParts : Type := {
  namespace : string;
  environment : string;
  rpc_surface : string;
  proto_package : string;
  service : string;
  method : string;
  operation_id : string
}.

Definition build_rpc_identity_uri (parts : RpcIdentityParts) : string :=
  "sdkwork-rpc://" +:+ namespace parts
  +:+ "/" +:+ environment parts
  +:+ "/" +:+ rpc_surface parts
  +:+ "/" +:+ proto_package parts
  +:+ "/" +:+ service parts
  +:+ "/" +:+ method parts
  +:+ "?operationId=" +:+ operation_id parts.

(** ** [bootstrap.rs] *)

Definition STAGE_VALIDATE_RPC_CONTRACTS := "validate-rpc-contracts".
Definition STAGE_INITIALIZE_RPC_FRAMEWORK := "initialize-rpc-framework".
Definition STAGE_BIND_RPC_SERVICES := "bind-rpc-services".
Definition STAGE_REGISTER_DISCOVERY_INSTANCE := "register-discovery-instance".
Definition STAGE_START_DISCOVERY_RENEW_LOOP := "start-discovery-renew-loop".
Definition STAGE_DRAIN_RPC_SERVERS := "drain-rpc-servers".
Definition STAGE_DEREGISTER_DISCOVERY_INSTANCE := "deregister-discovery-instance".
Definition STAGE_STOP_DISCOVERY_RENEW_LOOP := "stop-discovery-renew-loop".

Definition BOOTSTRAP_STAGES : list string :=
  [STAGE_VALIDATE_RPC_CONTRACTS; STAGE_INITIALIZE_RPC_FRAMEWORK;
   STAGE_BIND_RPC_SERVICES; STAGE_REGISTER_DISCOVERY_INSTANCE;
   STAGE_START_DISCOVERY_RENEW_LOOP].

Definition SHUTDOWN_STAGES : list string :=
  [STAGE_DRAIN_RPC_SERVERS; STAGE_DEREGISTER_DISCOVERY_INSTANCE;
   STAGE_STOP_DISCOVERY_RENEW_LOOP].

(** ** Properties *)

(** A part that contains none of the URI's separators. *)
Definition separator_free (s : string) : Prop :=
  str_contains "/" s = false ∧ str_contains "?" s = false.

Definition identity_well_formed (p : RpcIdentityParts) : Prop :=
  separator_free (namespace p) ∧ separator_free (environment p) ∧
  separator_free (rpc_surface p) ∧ separator_free (proto_package p) ∧
  separator_free (service p) ∧ separator_free (method p).

#[global] Instance identity_well_formed_dec p : Decision (identity_well_formed p) := _.

Lemma build_uri_inj (p q : RpcIdentityParts) :
  identity_well_formed p → identity_well_formed q →
  build_rpc_identity_uri p = build_rpc_identity_uri q → p = q.
Proof.
  unfold identity_well_formed, separator_free, build_rpc_identity_uri.
  destruct p as [p1 p2 p3 p4 p5 p6 p7], q as [q1 q2 q3 q4 q5 q6 q7]; simpl.
  intros Hp Hq H. destruct_and!. apply str_app_inj in H.
  do 5 (apply str_split_inj in H as [-> H]; [|done..]).
  apply str_split_inj in H as [-> H]; [|done..].
  by apply (str_app_inj "operationId=") in H as ->.
Qed.

Lemma resilience_parse_Some s p :
  ResilienceProfile.parse s = Some p ↔ trim s = ResilienceProfile.as_str p.
Proof.
  unfold ResilienceProfile.parse. repeat case_bool_decide; destruct p; simpl; naive_solver congruence.
Qed.

Lemma surface_parse_Some s p :
  RpcSurface.parse s = Some p ↔ trim s = RpcSurface.as_str p.
Proof.
  unfold RpcSurface.parse. repeat case_bool_decide; destruct p; simpl; naive_solver congruence.
Qed.
