(* ===== verification/Interfaces.v ===== *)
(** * Interfaces: what the crates use of code outside the repository

    Every crate the repository only depends on appears here as a type class:
    its operations in one class, the documented behaviour that proofs rely on
    in a second one. The modelled functions take the operations as parameters
    and the theorems that need a law name it; the instances at the end of the
    file (used by witnesses only) show that the laws can hold together. *)
From S2P Require Import Prelude RustStd.

(** ** tonic: status codes *)

(** The gRPC status codes, the variants of [tonic::Code]. *)
Module Code.
Inductive t : Type :=
| Ok | Cancelled | Unknown | InvalidArgument | DeadlineExceeded | NotFound
| AlreadyExists | PermissionDenied | ResourceExhausted | FailedPrecondition
| Aborted | OutOfRange | Unimplemented | Internal | Unavailable | DataLoss
| Unauthenticated.

#[global] Instance eq_dec : EqDecision t.
Proof. solve_decision. Defined.
End Code.

(** ** tonic: metadata maps *)

(** A metadata key is its canonical (lower-case) name. [key_from_bytes] is
    [MetadataKey::<Ascii>::from_bytes], [value_try_from] is
    [MetadataValue::try_from(&str)], [value_to_str] is
    [MetadataValue::to_str]. *)
Class MetadataApi : Type := {
  MetadataMap : Type;
  MetadataValue : Type;
  metadata_new : MetadataMap;
  metadata_get : string → MetadataMap → option MetadataValue;
  metadata_insert : string → MetadataValue → MetadataMap → MetadataMap;
  key_from_bytes : string → option string;
  value_try_from : string → option MetadataValue;
  value_to_str : MetadataValue → option string
}.

(** Names gRPC allows for ASCII metadata: lower-case letters, digits, [-],
    [_] and [.], without the [-bin] suffix. *)
Definition canonical_key_byte (c : ascii) : bool :=
  byte_in 97 122 c || is_ascii_digit c
  || byte_in 45 46 c || byte_in 95 95 c.
Definition canonical_key (k : string) : bool :=
  negb (str_is_empty k) && str_all canonical_key_byte k
  && negb (starts_with (String.rev "-bin") (String.rev k)).

(** Printable ASCII, the values every HTTP/2 header can carry. *)
Definition visible_ascii (s : string) : bool := str_all (byte_in 32 126) s.

Class MetadataLaws `{MetadataApi} : Prop := {
  metadata_get_new k : metadata_get k metadata_new = None;
  metadata_get_insert k v m :
    canonical_key k = true → metadata_get k (metadata_insert k v m) = Some v;
  metadata_get_insert_ne k k' v m :
    canonical_key k = true → canonical_key k' = true → k ≠ k' →
    metadata_get k (metadata_insert k' v m) = metadata_get k m;
  key_from_bytes_canonical k :
    canonical_key k = true → key_from_bytes k = Some k;
  value_try_from_visible s :
    visible_ascii s = true → is_Some (value_try_from s);
  value_to_str_try_from s v :
    value_try_from s = Some v → value_to_str v = Some s
}.

(** ** tonic: statuses *)

Module Status.
Record t `{MetadataApi} : Type := {
  code : Code.t;
  message : string;
  metadata : MetadataMap
}.

Definition new `{MetadataApi} (c : Code.t) (m : string) : t :=
  {| code := c; message := m; metadata := metadata_new |}.
Definition unauthenticated `{MetadataApi} := new Code.Unauthenticated.
Definition failed_precondition `{MetadataApi} := new Code.FailedPrecondition.
Definition invalid_argument `{MetadataApi} := new Code.InvalidArgument.
Definition unavailable `{MetadataApi} := new Code.Unavailable.
End Status.

(** ** rand: a uniform draw *)

(** [random_range lo hi] is one draw of [rng.random_range(lo..=hi)]. *)
Class RandomApi : Type := {
  random_range : Z → Z → Z
}.
Class RandomLaws `{RandomApi} : Prop := {
  random_range_bounds lo hi : lo ≤ hi → lo ≤ random_range lo hi ≤ hi
}.

(** ** sdkwork-utils: blank tests and trimming *)

Class UtilsApi : Type := {
  is_blank : option string → bool;
  utils_trim : string → string
}.
Class UtilsLaws `{UtilsApi} : Prop := {
  utils_trim_std s : utils_trim s = trim s;
  is_blank_None : is_blank None = true;
  is_blank_Some s : is_blank (Some s) = str_is_empty (trim s)
}.

(** ** x509-parser and hashing *)

(** Byte slices are byte strings. *)
Abbreviation bytes := string.

(** The general names of a subject alternative name; only URIs are read. *)
Inductive GeneralName : Type :=
| URI (uri : string)
| OtherName.

(** Errors are the text of their [Display]. *)
Class X509Api : Type := {
  X509Certificate : Type;
  x509_from_der : bytes → result string X509Certificate;
  x509_subject_alternative_name :
    X509Certificate → result string (option (list GeneralName));
  sha256_hash : bytes → string
}.

(** ** sdkwork-utils: base64url and HMAC-SHA256 *)

Definition base64url_byte (c : ascii) : bool :=
  is_ascii_alphanumeric c || bool_decide (c ∈ ["-"; "_"]%char).

(** [hmac_sha256_base64url data key] is the unpadded base64url text of the
    MAC; [verify_hmac_sha256_base64url data key mac] takes the raw MAC. *)
Class CodecApi : Type := {
  base64url_encode : bytes → string;
  base64url_decode : string → option bytes;
  hmac_sha256_base64url : bytes → bytes → string;
  verify_hmac_sha256_base64url : bytes → bytes → bytes → bool
}.
Class CodecLaws `{CodecApi} : Prop := {
  base64url_decode_encode b : base64url_decode (base64url_encode b) = Some b;
  (** Base64 takes four characters for three bytes, so never more than two
      characters a byte. *)
  base64url_encode_len b : str_len (base64url_encode b) ≤ 2 * str_len b;
  base64url_encode_alphabet b : str_all base64url_byte (base64url_encode b) = true;
  (** The base64url text of a 32-byte MAC. *)
  hmac_base64url data key :
    ∃ mac, hmac_sha256_base64url data key = base64url_encode mac ∧ str_len mac = 32;
  verify_hmac_spec data key mac :
    verify_hmac_sha256_base64url data key mac = true ↔
    hmac_sha256_base64url data key = base64url_encode mac
}.

(** ** The file system *)

(** [Path::exists] and [std::fs::read]; a path is its text. *)
Class FsApi : Type := {
  path_exists : string → bool;
  fs_read : string → result string bytes
}.

(** ** tonic: client channels and server TLS *)

(** [endpoint_settings] sets the connect timeout, the keepalive interval and
    timeout and the idle flag; the certificate types are PEM byte strings. *)
Class TransportApi : Type := {
  Endpoint : Type;
  ClientTlsConfig : Type;
  Channel : Type;
  endpoint_from_shared : string → result string Endpoint;
  endpoint_settings : Z → Z → Z → bool → Endpoint → Endpoint;
  endpoint_tls_config : ClientTlsConfig → Endpoint → result string Endpoint;
  endpoint_connect : Endpoint → result string Channel;
  client_tls_new : ClientTlsConfig;
  client_tls_domain_name : string → ClientTlsConfig → ClientTlsConfig;
  client_tls_ca_certificate : bytes → ClientTlsConfig → ClientTlsConfig;
  client_tls_with_webpki_roots : ClientTlsConfig → ClientTlsConfig;
  client_tls_identity : bytes → bytes → ClientTlsConfig → ClientTlsConfig
}.

Class ServerTlsApi : Type := {
  ServerBuilder : Type;
  ServerTlsConfig : Type;
  server_tls_new : ServerTlsConfig;
  server_tls_identity : bytes → bytes → ServerTlsConfig → ServerTlsConfig;
  server_tls_client_ca_root : bytes → ServerTlsConfig → ServerTlsConfig;
  server_tls_client_auth_optional : bool → ServerTlsConfig → ServerTlsConfig;
  server_builder_tls_config : ServerTlsConfig → ServerBuilder → result string ServerBuilder
}.

(** ** Instances for witnesses *)

(** A metadata map as a finite map of printable strings. *)
Definition toy_value_try_from (s : string) : option string :=
  if visible_ascii s then Some s else None.

Definition toy_metadata : MetadataApi := {|
  MetadataMap := gmap string string;
  MetadataValue := string;
  metadata_new := ∅;
  metadata_get k m := m !! k;
  metadata_insert k v m := <[k := v]> m;
  key_from_bytes k := if canonical_key k then Some k else None;
  value_try_from := toy_value_try_from;
  value_to_str v := Some v
|}.

Lemma toy_metadata_laws : @MetadataLaws toy_metadata.
Proof.
  split; simpl.
  - intros. apply lookup_empty.
  - intros. apply lookup_insert_eq.
  - intros. by apply lookup_insert_ne.
  - by intros k ->.
  - unfold toy_value_try_from. intros s ->. eauto.
  - unfold toy_value_try_from. intros s v. by case_if.
Qed.

(** Draws the largest value of the range. *)
Definition toy_random : RandomApi := {| random_range lo hi := hi |}.

Lemma toy_random_laws : @RandomLaws toy_random.
Proof. split. simpl. lia. Qed.

Definition toy_utils : UtilsApi := {|
  is_blank o := match o with Some s => str_is_empty (trim s) | None => true end;
  utils_trim := trim
|}.

Lemma toy_utils_laws : @UtilsLaws toy_utils.
Proof. by split. Qed.

(** An encoding with two letters a byte and a MAC that is the key. *)
Definition nibble (n : N) : ascii := ascii_of_N (97 + n).
Definition unnibble (c : ascii) : N := N_of_ascii c - 97.
Fixpoint toy_encode (s : string) : string :=
  match s with
  | EmptyString => ""
  | String c s' =>
      String (nibble (N.div (N_of_ascii c) 16))
        (String (nibble (N.modulo (N_of_ascii c) 16)) (toy_encode s'))
  end.
Fixpoint toy_decode (s : string) : option string :=
  match s with
  | EmptyString => Some ""
  | String a (String b s') =>
      String (ascii_of_N (16 * unnibble a + unnibble b)) <$> toy_decode s'
  | String _ EmptyString => None
  end.

Definition toy_mac (key : bytes) : bytes :=
  if str_len key =? 32 then key else "00000000000000000000000000000000".

Definition toy_codec : CodecApi := {|
  base64url_encode := toy_encode;
  base64url_decode := toy_decode;
  hmac_sha256_base64url data key := toy_encode (toy_mac key);
  verify_hmac_sha256_base64url data key mac := bool_decide (toy_mac key = mac)
|}.

Lemma toy_decode_encode b : toy_decode (toy_encode b) = Some b.
Proof.
  induction b as [|c b IH]; cbn [toy_encode toy_decode]; [done|]. rewrite IH. cbn.
  do 2 f_equal. destruct c as [[] [] [] [] [] [] [] []]; reflexivity.
Qed.

Lemma toy_encode_shape b :
  str_len (toy_encode b) = 2 * str_len b ∧ str_all base64url_byte (toy_encode b) = true.
Proof.
  unfold str_len.
  induction b as [|c b [IHl IHv]]; cbn [toy_encode str_all String.length]; [done|].
  split; [lia|]. rewrite IHv. destruct c as [[] [] [] [] [] [] [] []]; reflexivity.
Qed.

Lemma toy_codec_laws : @CodecLaws toy_codec.
Proof.
  split; simpl.
  - apply toy_decode_encode.
  - intros b. destruct (toy_encode_shape b). lia.
  - intros b. apply toy_encode_shape.
  - intros _ key. exists (toy_mac key). split; [done|]. unfold toy_mac. by case_if.
  - intros _ key mac. rewrite bool_decide_eq_true. split; [by intros ->|].
    intros Heq%(f_equal toy_decode). rewrite !toy_decode_encode in Heq. by simplify_eq.
Qed.

(** A file system with the given files. *)
Definition toy_fs (files : gmap string bytes) : FsApi := {|
  path_exists p := bool_decide (is_Some (files !! p));
  fs_read p := ok_or "not found" (files !! p)
|}.

(** Channels that remember the URI they were dialled with and whether TLS was
    configured. *)
Definition toy_transport : TransportApi := {|
  Endpoint := string * bool;
  ClientTlsConfig := ();
  Channel := string * bool;
  endpoint_from_shared uri := Ok (uri, false);
  endpoint_settings _ _ _ _ e := e;
  endpoint_tls_config _ e := Ok (fst e, true);
  endpoint_connect e := Ok e;
  client_tls_new := ();
  client_tls_domain_name _ c := c;
  client_tls_ca_certificate _ c := c;
  client_tls_with_webpki_roots c := c;
  client_tls_identity _ _ c := c
|}.
