(* ===== verification/Tracing.v ===== *)
(** * Tracing: log events as data

    The events of the [tracing] macros ([info!], [warn!], ...) the crates emit,
    as values, and the functions that emit them in a writer monad: a [logged A]
    is the value a function returns and the events it has emitted on the way,
    in order. The target of an event that names none is the path of its module,
    as [tracing] documents. *)
From S2P Require Import Prelude.

Inductive Level : Type := DEBUG | INFO | WARN | ERROR.

Inductive FieldValue : Type :=
| Text (s : string)
| Num (n : Z)
| Flag (b : bool).

Record Event : Type := {
  level : Level;
  target : string;
  fields : list (string * FieldValue);
  message : string
}.

#[global] Instance Level_eq_dec : EqDecision Level.
Proof. solve_decision. Defined.
#[global] Instance FieldValue_eq_dec : EqDecision FieldValue.
Proof. solve_decision. Defined.
#[global] Instance Event_eq_dec : EqDecision Event.
Proof. solve_decision. Defined.

(** The field [name] of an event, as a subscriber reads it. *)
Fixpoint field_of (name : string) (fs : list (string * FieldValue)) : option FieldValue :=
  match fs with
  | [] => None
  | (n, v) :: fs' => if bool_decide (n = name) then Some v else field_of name fs'
  end.
Definition event_field (name : string) (e : Event) : option FieldValue := field_of name (fields e).
Definition event_num (name : string) (e : Event) : option Z :=
  match event_field name e with Some (Num n) => Some n | _ => None end.

(** ** The writer monad *)

Record logged (A : Type) : Type := Logged {
  value : A;
  events : list Event
}.
Arguments Logged {A} value events.
Arguments value {A} l.
Arguments events {A} l.

Definition quiet {A} (a : A) : logged A := Logged a [].
Definition emit (e : Event) : logged () := Logged () [e].
Definition logged_bind {A B} (l : logged A) (k : A → logged B) : logged B :=
  Logged (value (k (value l))) (events l ++ events (k (value l))).

Declare Scope logged_scope.
Delimit Scope logged_scope with logged.
(** [let! p := l in k]: run [l], bind its value; [l ;! k]: run [l] for its
    events. *)
Notation "'let!' p ':=' l 'in' k" := (logged_bind l (λ p, k%logged))
  (at level 10, p pattern, l at level 100, k at level 200) : logged_scope.
Notation "l ';!' k" := (logged_bind l (λ _ : (), k%logged))
  (at level 100, k at level 200, right associativity) : logged_scope.

(** ** Lemmas *)

Section Writer.
Context {A B : Type}.

Lemma value_bind (l : logged A) (k : A → logged B) :
  value (logged_bind l k) = value (k (value l)).
Proof. reflexivity. Qed.

Lemma events_bind (l : logged A) (k : A → logged B) :
  events (logged_bind l k) = events l ++ events (k (value l)).
Proof. reflexivity. Qed.
End Writer.
