(* ===== verification/Retry.v ===== *)
(** * Retry: retry policy, backoff, deadline check, admission and pushback

    Models [sdkwork-rpc-resilience] without the circuit breaker: [lib.rs],
    [backoff.rs], [idempotency.rs] and [pushback.rs]. A [&mut
    RetryBudgetTracker] argument is passed in and returned; a draw of the
    random generator is [random_range] of {!Interfaces}. *)
From S2P Require Import Prelude RustStd Core Interfaces.

(** ** [lib.rs]: the per-call budget *)

Record RetryBudgetTracker : Type := { remaining : Z }.

Module Tracker.
Definition new (budget : Z) : RetryBudgetTracker := {| remaining := budget |}.

Definition consume (self : RetryBudgetTracker) : bool * RetryBudgetTracker :=
  if remaining self =? 0 then (false, self)
  else (true, {| remaining := remaining self - 1 |}).

(** The field holds a [u32]. *)
Definition wf (self : RetryBudgetTracker) : Prop := u32 (remaining self).
End Tracker.

(** ** [lib.rs]: deadline check *)

Definition MIN_RPC_DEADLINE_RESERVE_MS : Z := 10.

(** What [deadline_covers_backoff] asks the remaining deadline to cover. *)
Definition required_ms (backoff_ms : Z) : Z :=
  let rpc_estimate_ms := Z.max (backoff_ms / 2) MIN_RPC_DEADLINE_RESERVE_MS in
  saturating_add u64_max backoff_ms rpc_estimate_ms.

Definition deadline_covers_backoff (backoff_ms : Z) (remaining : Z) : bool :=
  match u64_try_from (Duration.as_millis remaining) with
  | Some remaining_ms => required_ms backoff_ms <=? remaining_ms
  | None => true
  end.

(** ** [lib.rs]: the policy and its profiles *)

Record RetryPolicy : Type := {
  max_attempts : Z;
  retry_budget : Z;
  initial_backoff_ms : Z;
  max_backoff_ms : Z;
  retryable_codes : list Code.t
}.

(** The integer fields hold [u32] and [u64] values. *)
Definition policy_wf (p : RetryPolicy) : Prop :=
  u32 (max_attempts p) ∧ u32 (retry_budget p) ∧
  u64 (initial_backoff_ms p) ∧ u64 (max_backoff_ms p).

#[global] Instance policy_wf_dec p : Decision (policy_wf p) := _.

Definition for_profile (profile : ResilienceProfile.t) : RetryPolicy :=
  match profile with
  | ResilienceProfile.RpcReadOnly =>
      {| max_attempts := 3; retry_budget := 32;
         initial_backoff_ms := 50; max_backoff_ms := 2000;
         retryable_codes := [Code.Unavailable; Code.ResourceExhausted] |}
  | ResilienceProfile.RpcIdempotentWrite =>
      {| max_attempts := 2; retry_budget := 16;
         initial_backoff_ms := 100; max_backoff_ms := 2000;
         retryable_codes := [Code.Unavailable] |}
  | ResilienceProfile.RpcCriticalWrite =>
      {| max_attempts := 1; retry_budget := 4;
         initial_backoff_ms := 100; max_backoff_ms := 500;
         retryable_codes := [] |}
  | ResilienceProfile.RpcStream =>
      {| max_attempts := 1; retry_budget := 4;
         initial_backoff_ms := 100; max_backoff_ms := 500;
         retryable_codes := [] |}
  | ResilienceProfile.RpcLocalDev =>
      {| max_attempts := 5; retry_budget := 64;
         initial_backoff_ms := 25; max_backoff_ms := 1000;
         retryable_codes := [Code.Unavailable; Code.ResourceExhausted] |}
  | ResilienceProfile.RpcDefault =>
      {| max_attempts := 3; retry_budget := 24;
         initial_backoff_ms := 50; max_backoff_ms := 2000;
         retryable_codes := [Code.Unavailable] |}
  end.

Definition codes_contain (codes : list Code.t) (code : Code.t) : bool :=
  bool_decide (code ∈ codes).

Definition allows_retry (self : RetryPolicy) (code : Code.t) (remaining_budget : Z) : bool :=
  (0 <? remaining_budget) && codes_contain (retryable_codes self) code.

Section Decisions.
Context `{RandomApi}.

(** ** [backoff.rs] *)

(** The exponential ceiling of attempt [attempt > 0], before jitter. *)
Definition backoff_base (policy : RetryPolicy) (attempt : Z) : Z :=
  let exponent := Z.min (saturating_sub attempt 1) 16 in
  Z.min (saturating_mul u64_max (initial_backoff_ms policy) (Z.shiftl 1 exponent))
    (max_backoff_ms policy).

Definition retry_backoff_ms (policy : RetryPolicy) (attempt : Z) : Z :=
  if attempt =? 0 then initial_backoff_ms policy
  else
    let base := backoff_base policy attempt in
    if base =? 0 then initial_backoff_ms policy
    else random_range 0 base.

(** ** [lib.rs]: the decision without admission *)

Definition should_retry_with_deadline (self : RetryPolicy) (code : Code.t)
    (attempt : Z) (budget : RetryBudgetTracker) (remaining_deadline : Z) :
    bool * RetryBudgetTracker :=
  if max_attempts self <=? attempt then (false, budget)
  else if negb (allows_retry self code (remaining budget)) then (false, budget)
  else
    let backoff_ms := retry_backoff_ms self attempt in
    if negb (deadline_covers_backoff backoff_ms remaining_deadline) then (false, budget)
    else
      let (consumed, budget') := Tracker.consume budget in
      if negb consumed then (false, budget') else (true, budget').

Definition should_retry (self : RetryPolicy) (code : Code.t) (attempt : Z)
    (budget : RetryBudgetTracker) : bool * RetryBudgetTracker :=
  should_retry_with_deadline self code attempt budget Duration.MAX.

(** ** [idempotency.rs] *)

Record RetryAdmission : Type := {
  method_requires_idempotency : bool;
  has_idempotency_key : bool
}.

Definition allows_retry_metadata (self : RetryAdmission) : bool :=
  if method_requires_idempotency self && negb (has_idempotency_key self)
  then false else true.

Definition should_retry_call_with_deadline (policy : RetryPolicy) (code : Code.t)
    (attempt : Z) (budget : RetryBudgetTracker) (admission : RetryAdmission)
    (remaining_deadline : Z) : bool * RetryBudgetTracker :=
  if negb (allows_retry_metadata admission) then (false, budget)
  else should_retry_with_deadline policy code attempt budget remaining_deadline.

Definition should_retry_call (policy : RetryPolicy) (code : Code.t) (attempt : Z)
    (budget : RetryBudgetTracker) (admission : RetryAdmission) :
    bool * RetryBudgetTracker :=
  should_retry_call_with_deadline policy code attempt budget admission Duration.MAX.

(** ** [pushback.rs] *)

Context `{MetadataApi}.

Definition GRPC_RETRY_PUSHBACK_MS : string := "grpc-retry-pushback-ms".

Inductive RetryDecision : Type :=
| Stop
| Retry (backoff_ms : Z).

Definition extract_retry_pushback_ms (status : Status.t) : option Z :=
  value ← metadata_get GRPC_RETRY_PUSHBACK_MS (Status.metadata status);
  text ← value_to_str value;
  parse_u64 text.

Definition effective_retry_backoff_ms (policy : RetryPolicy) (attempt : Z)
    (pushback_ms : option Z) : Z :=
  match pushback_ms with
  | Some ms => Z.min ms (max_backoff_ms policy)
  | None => retry_backoff_ms policy attempt
  end.

Definition should_retry_call_with_pushback (policy : RetryPolicy) (status : Status.t)
    (attempt : Z) (budget : RetryBudgetTracker) (admission : RetryAdmission)
    (remaining_deadline : Z) : RetryDecision * RetryBudgetTracker :=
  if negb (allows_retry_metadata admission) then (Stop, budget)
  else if max_attempts policy <=? attempt then (Stop, budget)
  else
    let code := Status.code status in
    let pushback_ms :=
      if bool_decide (code = Code.ResourceExhausted)
      then extract_retry_pushback_ms status else None in
    let code_allowed :=
      if bool_decide (code = Code.ResourceExhausted)
      then bool_decide (is_Some pushback_ms)
           && codes_contain (retryable_codes policy) code
      else codes_contain (retryable_codes policy) code in
    if negb code_allowed then (Stop, budget)
    else
      let backoff_ms := effective_retry_backoff_ms policy attempt pushback_ms in
      if negb (deadline_covers_backoff backoff_ms remaining_deadline) then (Stop, budget)
      else
        let (consumed, budget') := Tracker.consume budget in
        if negb consumed then (Stop, budget') else (Retry backoff_ms, budget').
End Decisions.

#[global] Instance RetryDecision_eq_dec : EqDecision RetryDecision.
Proof. solve_decision. Defined.

(** ** Specification of the canonical entry point *)

Section Spec.
Context `{RandomApi, MetadataApi}.

(** When a call may be retried, and after which delay: admission, attempt
    limit, whitelist, server pushback, deadline and budget, each read off
    the documentation of [should_retry_call_with_pushback]. *)
Record retry_conditions (policy : RetryPolicy) (status : Status.t) (attempt : Z)
    (budget : RetryBudgetTracker) (admission : RetryAdmission)
    (remaining_deadline : Z) (b : Z) : Prop := {
  rc_admitted :
    method_requires_idempotency admission = true → has_idempotency_key admission = true;
  rc_attempt : attempt < max_attempts policy;
  rc_code : Status.code status ∈ retryable_codes policy;
  rc_pushback :
    Status.code status = Code.ResourceExhausted →
    ∃ ms, extract_retry_pushback_ms status = Some ms ∧ b = Z.min ms (max_backoff_ms policy);
  rc_jitter :
    Status.code status ≠ Code.ResourceExhausted → b = retry_backoff_ms policy attempt;
  rc_deadline :
    u64_max < Duration.as_millis remaining_deadline ∨
    required_ms b ≤ Duration.as_millis remaining_deadline;
  rc_budget : 0 < remaining budget
}.

Lemma consume_spec budget c budget' :
  Tracker.wf budget → Tracker.consume budget = (c, budget') ↔
  (0 < remaining budget ∧ c = true ∧ remaining budget' = remaining budget - 1) ∨
  (remaining budget = 0 ∧ c = false ∧ budget' = budget).
Proof.
  unfold Tracker.wf, Tracker.consume. intros Hwf. destruct budget as [n], budget' as [n'].
  simpl in *. case_if; zlia || naive_solver (zlia || congruence).
Qed.

Lemma deadline_covers_spec b d :
  0 ≤ d → deadline_covers_backoff b d = true ↔
  u64_max < Duration.as_millis d ∨ required_ms b ≤ Duration.as_millis d.
Proof.
  intros Hd. unfold deadline_covers_backoff, u64_try_from.
  assert (0 ≤ Duration.as_millis d) by (unfold Duration.as_millis; apply Z.div_pos; zlia).
  case_bool_decide as Hu; rewrite ?Z.leb_le; unfold u64 in Hu; [|naive_solver lia].
  split; [by right|]. intros [?|?]; [lia|done].
Qed.

Lemma admission_spec a :
  allows_retry_metadata a = true ↔
  (method_requires_idempotency a = true → has_idempotency_key a = true).
Proof. destruct a as [[] []]; naive_solver. Qed.

(** The pushback that governs [status], and the whitelist test under it. *)
Definition governing_pushback (status : Status.t) : option Z :=
  if bool_decide (Status.code status = Code.ResourceExhausted)
  then extract_retry_pushback_ms status else None.
Definition code_gate (policy : RetryPolicy) (status : Status.t) : bool :=
  if bool_decide (Status.code status = Code.ResourceExhausted)
  then bool_decide (is_Some (governing_pushback status))
       && codes_contain (retryable_codes policy) (Status.code status)
  else codes_contain (retryable_codes policy) (Status.code status).

(** The pushback and jitter conditions together fix the whitelist test and
    the delay, and are fixed by them. *)
Lemma code_gate_spec policy status attempt b :
  code_gate policy status = true ∧
  b = effective_retry_backoff_ms policy attempt (governing_pushback status) ↔
  Status.code status ∈ retryable_codes policy ∧
  (Status.code status = Code.ResourceExhausted →
   ∃ ms, extract_retry_pushback_ms status = Some ms ∧ b = Z.min ms (max_backoff_ms policy)) ∧
  (Status.code status ≠ Code.ResourceExhausted → b = retry_backoff_ms policy attempt).
Proof.
  unfold code_gate, governing_pushback, codes_contain.
  case_bool_decide as Hc; rewrite ?andb_true_iff, ?bool_decide_eq_true; [|naive_solver].
  destruct (extract_retry_pushback_ms status) as [ms|]; simpl; [naive_solver|].
  split; [by intros [[[? [=]] ?] ?]|]. naive_solver.
Qed.

(** Every evaluation either retries under the conditions, spending exactly
    one token, or stops with the budget untouched and the conditions false. *)
Lemma pushback_cases policy status attempt budget admission d :
  Tracker.wf budget → 0 ≤ d →
  let r := should_retry_call_with_pushback policy status attempt budget admission d in
  (∃ b budget', r = (Retry b, budget') ∧ remaining budget' = remaining budget - 1 ∧
     retry_conditions policy status attempt budget admission d b) ∨
  (r = (Stop, budget) ∧ ∀ b, ¬ retry_conditions policy status attempt budget admission d b).
Proof.
  intros Hb Hd. simpl. unfold should_retry_call_with_pushback.
  fold (governing_pushback status). fold (code_gate policy status).
  destruct (allows_retry_metadata admission) eqn:Ha; simpl; cycle 1.
  { right. split; [done|]. intros b []. by rewrite (proj2 (admission_spec _)) in Ha. }
  destruct (max_attempts policy <=? attempt) eqn:Hm; reflect_bools.
  { right. split; [done|]. intros b Hc%rc_attempt. lia. }
  assert (∀ b, retry_conditions policy status attempt budget admission d b →
    code_gate policy status = true ∧
    b = effective_retry_backoff_ms policy attempt (governing_pushback status)) as Hnec.
  { intros b []. by apply code_gate_spec. }
  destruct (code_gate policy status) eqn:Hall; simpl; cycle 1.
  { right. split; [done|]. intros b [? _]%Hnec. done. }
  destruct (deadline_covers_backoff _ d) eqn:Hdl; simpl; cycle 1.
  { right. split; [done|]. intros b Hc. destruct (Hnec b Hc) as [_ ->].
    apply rc_deadline, deadline_covers_spec in Hc; [congruence|done]. }
  destruct (Tracker.consume budget) as [c budget'] eqn:Hcons.
  apply consume_spec in Hcons as [(?&->&?)|(?&->&->)]; [| |done]; simpl.
  - left. eexists _, _. split; [done|]. split; [done|].
    destruct (proj1 (code_gate_spec policy status attempt _) (conj Hall eq_refl)) as (?&?&?).
    split; try done; [by apply admission_spec|by apply deadline_covers_spec].
  - right. split; [done|]. intros b Hc%rc_budget. lia.
Qed.
End Spec.

(** ** Lemmas on backoff *)

Section Backoff.
Context `{RandomApi}.

(** The exponential the documentation of [retry_backoff_ms] gives, without
    the exponent cap and without saturation. *)
Definition documented_base (policy : RetryPolicy) (attempt : Z) : Z :=
  Z.min (initial_backoff_ms policy * 2 ^ (attempt - 1)) (max_backoff_ms policy).

Lemma backoff_base_unsaturated policy attempt :
  policy_wf policy → 0 < attempt →
  backoff_base policy attempt =
  Z.min (initial_backoff_ms policy * 2 ^ Z.min (attempt - 1) 16) (max_backoff_ms policy).
Proof.
  intros (?&?&?&?) Ha. unfold backoff_base, saturating_mul, saturating_sub.
  replace (Z.max 0 (attempt - 1)) with (attempt - 1) by lia.
  rewrite Z.shiftl_mul_pow2, Z.mul_1_l by lia. unfold u64 in *. lia.
Qed.

Lemma backoff_base_nonneg policy attempt :
  policy_wf policy → 0 < attempt → 0 ≤ backoff_base policy attempt ≤ max_backoff_ms policy.
Proof.
  intros Hwf Ha. rewrite backoff_base_unsaturated by done.
  destruct Hwf as (?&?&?&?). unfold u64 in *.
  assert (0 ≤ initial_backoff_ms policy * 2 ^ Z.min (attempt - 1) 16).
  { apply Z.mul_nonneg_nonneg; [lia|]. apply Z.pow_nonneg. lia. }
  lia.
Qed.

(** Capping the exponent at 16 changes nothing once the ceiling is below
    the sixteenth doubling. *)
Lemma backoff_base_documented policy attempt :
  policy_wf policy → 0 < attempt →
  attempt ≤ 17 ∨ max_backoff_ms policy ≤ initial_backoff_ms policy * 2 ^ 16 →
  backoff_base policy attempt = documented_base policy attempt.
Proof.
  intros Hwf Ha Hcap. rewrite backoff_base_unsaturated by done. unfold documented_base.
  destruct (decide (attempt ≤ 17)) as [?|Hbig]; [by rewrite (Z.min_l (attempt - 1)) by lia|].
  destruct Hcap as [?|Hcap]; [lia|]. rewrite (Z.min_r (attempt - 1)) by lia.
  assert (2 ^ 16 ≤ 2 ^ (attempt - 1)) by (apply Z.pow_le_mono_r; lia).
  destruct Hwf as (_&_&[? _]&_). rewrite !Z.min_r; nia.
Qed.

Lemma retry_backoff_le `{!RandomLaws} policy attempt :
  policy_wf policy → 0 ≤ attempt →
  0 ≤ retry_backoff_ms policy attempt ≤
    Z.max (initial_backoff_ms policy) (max_backoff_ms policy).
Proof.
  intros Hwf Ha. pose proof Hwf as (_&_&[??]&[??]). unfold retry_backoff_ms.
  case_if; [lia|]. pose proof (backoff_base_nonneg policy attempt Hwf ltac:(lia)).
  case_if; [lia|]. pose proof (random_range_bounds 0 (backoff_base policy attempt)). lia.
Qed.

Lemma for_profile_wf p : policy_wf (for_profile p).
Proof. destruct p; by vm_compute. Qed.
End Backoff.
#[export] Hint Resolve for_profile_wf : rust.

(** ** A sequence of retry evaluations against one budget *)

Record retry_call `{MetadataApi} : Type := {
  rcall_random : RandomApi;
  rcall_policy : RetryPolicy;
  rcall_status : Status.t;
  rcall_attempt : Z;
  rcall_admission : RetryAdmission;
  rcall_deadline : Z
}.

(** The decisions taken for [calls] in order, threading the tracker. *)
Fixpoint decide_calls `{MetadataApi} (calls : list retry_call) (budget : RetryBudgetTracker) :
    list RetryDecision * RetryBudgetTracker :=
  match calls with
  | [] => ([], budget)
  | c :: calls' =>
      let (d, budget') :=
        @should_retry_call_with_pushback (rcall_random c) _ (rcall_policy c)
          (rcall_status c) (rcall_attempt c) budget (rcall_admission c) (rcall_deadline c) in
      let (ds, budget'') := decide_calls calls' budget' in
      (d :: ds, budget'')
  end.

Definition retries_granted (ds : list RetryDecision) : Z :=
  Z.of_nat (length (filter (λ d, d ≠ Stop) ds)).

Lemma decide_calls_budget `{MetadataApi} calls budget :
  Tracker.wf budget → Forall (λ c, 0 ≤ rcall_deadline c) calls →
  let (ds, budget') := decide_calls calls budget in
  retries_granted ds + remaining budget' = remaining budget ∧ 0 ≤ remaining budget'.
Proof.
  unfold retries_granted. revert budget. induction calls as [|c calls IH]; simpl.
  { unfold Tracker.wf. intros budget Hb _. zlia. }
  intros budget Hb [Hc Hcs]%Forall_cons.
  destruct (@pushback_cases (rcall_random c) _ (rcall_policy c) (rcall_status c)
    (rcall_attempt c) budget (rcall_admission c) (rcall_deadline c) Hb Hc)
    as [(b & budget' & -> & Hb' & Hcond)|[-> _]].
  - apply rc_budget in Hcond. assert (Tracker.wf budget') as Hwf'.
    { unfold Tracker.wf in *. zlia. }
    specialize (IH budget' Hwf' Hcs). destruct (decide_calls calls budget') as [ds budget''].
    rewrite filter_cons_True by done. simpl. lia.
  - specialize (IH budget Hb Hcs). destruct (decide_calls calls budget) as [ds budget''].
    rewrite filter_cons_False by naive_solver. done.
Qed.

(** ** Properties *)

(** C7: [should_retry_call_with_pushback] answers [Retry b] exactly when the
    call is admitted, below its attempt limit, on the profile's whitelist,
    pushed back by the server if the code is [RESOURCE_EXHAUSTED], within its
    deadline and within its budget, and then [b] is the clamped pushback or
    the jittered delay and exactly one token is spent; otherwise it answers
    [Stop] and leaves the budget untouched. *)
Theorem pushback_decision_correct `{RandomApi, MetadataApi} policy status attempt budget admission d :
  Tracker.wf budget → 0 ≤ d →
  (∀ b budget',
    should_retry_call_with_pushback policy status attempt budget admission d = (Retry b, budget') ↔
    retry_conditions policy status attempt budget admission d b ∧
    remaining budget' = remaining budget - 1) ∧
  (∀ budget',
    should_retry_call_with_pushback policy status attempt budget admission d = (Stop, budget') ↔
    budget' = budget ∧ ∀ b, ¬ retry_conditions policy status attempt budget admission d b).
Proof.
  intros Hb Hd.
  destruct (pushback_cases policy status attempt budget admission d Hb Hd)
    as [(b & [r] & -> & Hr & Hcond)|[-> Hno]]; split.
  - intros b' [r']. simpl in *. split; [by intros [= <- <-]|]. intros [Hcond' ->].
    f_equal; [|congruence]. f_equal. destruct Hcond as [_ _ _ Hp Hj _ _], Hcond' as [_ _ _ Hp' Hj' _ _].
    destruct (decide (Status.code status = Code.ResourceExhausted)) as [Hc|Hc]; [|naive_solver].
    destruct (Hp Hc) as (?&Heq&->), (Hp' Hc) as (?&Heq'&->). by simplify_eq.
  - intros budget'. split; [done|]. intros [_ Hno]. by destruct (Hno b).
  - intros b budget'. split; [done|]. intros [Hcond _]. by destruct (Hno b).
  - intros budget'. naive_solver.
Qed.

(** C31: for every code but [RESOURCE_EXHAUSTED] the pushback-aware entry point
    and [should_retry_call_with_deadline] are equivalent: with the same draw of
    the jitter they take the same decision and leave the same budget, although
    one checks the budget before the deadline and the other after it, so the
    pushback path differs from the other on [RESOURCE_EXHAUSTED] only. *)
Theorem pushback_refines_deadline `{RandomApi, MetadataApi} policy status attempt budget admission d :
  Tracker.wf budget → Status.code status ≠ Code.ResourceExhausted →
  should_retry_call_with_deadline policy (Status.code status) attempt budget admission d =
  let (decision, budget') :=
    should_retry_call_with_pushback policy status attempt budget admission d in
  (bool_decide (decision ≠ Stop), budget').
Proof.
  intros Hb Hc. unfold should_retry_call_with_deadline, should_retry_with_deadline,
    should_retry_call_with_pushback, allows_retry.
  rewrite !bool_decide_eq_false_2 by done. simpl.
  case_if; [done|]. case_if; [done|].
  destruct (codes_contain _ _); rewrite ?andb_false_r, ?andb_true_r; [|done].
  unfold Tracker.wf, Tracker.consume in *. destruct (0 <? remaining budget) eqn:Hr; reflect_bools; simpl.
  - case_if; [done|]. by rewrite (proj2 (Z.eqb_neq _ _)) by lia.
  - rewrite (proj2 (Z.eqb_eq _ _)) by zlia. by destruct (deadline_covers_backoff _ _).
Qed.

(** over any sequence of evaluations sharing one tracker, the retries
    granted and the tokens left add up to the tokens it started with, so a
    call is retried at most [budget] times. *)
Theorem retries_bounded_by_budget `{MetadataApi} calls (budget : Z) :
  u32 budget → Forall (λ c, 0 ≤ rcall_deadline c) calls →
  let (ds, budget') := decide_calls calls (Tracker.new budget) in
  retries_granted ds + remaining budget' = budget ∧ retries_granted ds ≤ budget.
Proof.
  intros Hb Hcs. pose proof (decide_calls_budget calls (Tracker.new budget) Hb Hcs) as Hd.
  destruct (decide_calls calls _) as [ds budget']. simpl in *. lia.
Qed.

(** after the first retry the delay is a draw between 0 and the documented
    ceiling [min(initial * 2^(attempt-1), max)], for every profile and every
    attempt, although the code caps the exponent at 16 and saturates; and the
    first retry waits exactly [initial_backoff_ms], below the ceiling. *)
Theorem profile_backoff_bounds `{RandomApi, !RandomLaws} profile attempt :
  0 ≤ attempt →
  let policy := for_profile profile in
  if attempt =? 0 then retry_backoff_ms policy attempt = initial_backoff_ms policy
  else 0 ≤ retry_backoff_ms policy attempt ≤ documented_base policy attempt ∧
       documented_base policy attempt ≤ max_backoff_ms policy.
Proof.
  intros Ha policy. unfold retry_backoff_ms. case_if; [done|].
  assert (backoff_base policy attempt = documented_base policy attempt) as Hbase.
  { apply backoff_base_documented; [apply for_profile_wf|lia|].
    right. by destruct profile. }
  assert (0 < documented_base policy attempt ≤ max_backoff_ms policy).
  { unfold documented_base. assert (0 < 2 ^ (attempt - 1)) by (apply Z.pow_pos_nonneg; lia).
    assert (0 < initial_backoff_ms policy) by (by destruct profile).
    assert (0 < max_backoff_ms policy) by (by destruct profile). nia. }
  rewrite Hbase. case_if; [lia|]. split; [|lia]. apply random_range_bounds. lia.
Qed.

(** a granted retry leaves room in the deadline for its delay and for half
    of it again, at least 10 ms: the check cannot be passed through an
    overflowing sum. *)
Theorem granted_retry_fits_deadline `{RandomApi, MetadataApi} policy status attempt budget admission d b budget' :
  Tracker.wf budget → 0 ≤ d → Duration.as_millis d < u64_max →
  should_retry_call_with_pushback policy status attempt budget admission d = (Retry b, budget') →
  b + Z.max (b / 2) MIN_RPC_DEADLINE_RESERVE_MS ≤ Duration.as_millis d.
Proof.
  intros Hb Hd Hms Hr.
  destruct (pushback_cases policy status attempt budget admission d Hb Hd)
    as [(b' & ? & Heq & _ & Hcond)|[Heq _]]; rewrite Heq in Hr; simplify_eq.
  apply rc_deadline in Hcond. unfold required_ms, saturating_add in Hcond. lia.
Qed.

(** calls on the critical-write and stream profiles are never retried, by
    any of the entry points, whatever the status, attempt, budget, admission
    and deadline. *)
Theorem no_retry_profiles `{RandomApi, MetadataApi} profile status code attempt budget admission d :
  profile ∈ [ResilienceProfile.RpcCriticalWrite; ResilienceProfile.RpcStream] →
  let policy := for_profile profile in
  should_retry_call_with_pushback policy status attempt budget admission d = (Stop, budget) ∧
  should_retry_call_with_deadline policy code attempt budget admission d = (false, budget) ∧
  should_retry_call policy code attempt budget admission = (false, budget) ∧
  should_retry policy code attempt budget = (false, budget).
Proof.
  intros Hp policy.
  assert (∀ c, codes_contain (retryable_codes policy) c = false) as Hnone.
  { intros c. set_unfold in Hp. by destruct Hp as [->|[->|[]]]. }
  assert (∀ d, should_retry_with_deadline policy code attempt budget d = (false, budget)) as Hw.
  { intros d'. unfold should_retry_with_deadline, allows_retry.
    rewrite Hnone, andb_false_r. by case_if. }
  unfold should_retry_call_with_pushback, should_retry_call, should_retry_call_with_deadline,
    should_retry. rewrite !Hnone, !Hw, andb_false_r.
  by repeat case_if.
Qed.

(** a server that prints its pushback as a decimal number of milliseconds
    is understood: the trailer is read back as that number, for every [u64]. *)
Theorem pushback_trailer_roundtrip `{MetadataApi, !MetadataLaws} code message metadata (ms : N) v :
  Z.of_N ms ≤ u64_max → value_try_from (pretty ms) = Some v →
  extract_retry_pushback_ms
    {| Status.code := code; Status.message := message;
       Status.metadata := metadata_insert GRPC_RETRY_PUSHBACK_MS v metadata |}
  = Some (Z.of_N ms).
Proof.
  intros Hms Hv. unfold extract_retry_pushback_ms; simpl.
  rewrite metadata_get_insert by done. simpl.
  rewrite (value_to_str_try_from _ _ Hv). simpl. by apply parse_u64_pretty.
Qed.

(** ** Witnesses *)

Definition example_status (code : Code.t) (trailers : gmap string string) : @Status.t toy_metadata :=
  @Status.Build_t toy_metadata code "test" trailers.
Definition example_pushback : gmap string string := {[GRPC_RETRY_PUSHBACK_MS := "100"]}.
Definition plain_admission : RetryAdmission :=
  {| method_requires_idempotency := false; has_idempotency_key := false |}.

Lemma pushback_decision_correct_witness :
  @retry_conditions toy_random toy_metadata (for_profile ResilienceProfile.RpcReadOnly)
    (example_status Code.ResourceExhausted example_pushback) 1 (Tracker.new 10)
    plain_admission (Duration.from_secs 10) 100 ∧
  remaining (Tracker.new 9) = remaining (Tracker.new 10) - 1.
Proof.
  destruct (@pushback_decision_correct toy_random toy_metadata
    (for_profile ResilienceProfile.RpcReadOnly)
    (example_status Code.ResourceExhausted example_pushback) 1 (Tracker.new 10)
    plain_admission (Duration.from_secs 10)) as [Hr _]; [by vm_compute..|].
  apply Hr. reflexivity.
Defined.

Lemma pushback_refines_deadline_witness :
  @should_retry_call_with_deadline toy_random (for_profile ResilienceProfile.RpcDefault)
    Code.Unavailable 1 (Tracker.new 10) plain_admission (Duration.from_secs 10)
  = (true, Tracker.new 9).
Proof.
  rewrite (@pushback_refines_deadline toy_random toy_metadata
    (for_profile ResilienceProfile.RpcDefault) (example_status Code.Unavailable ∅));
    [reflexivity|by vm_compute|done].
Defined.

Definition example_call (attempt : Z) : @retry_call toy_metadata :=
  @Build_retry_call toy_metadata toy_random (for_profile ResilienceProfile.RpcDefault)
    (example_status Code.Unavailable ∅) attempt plain_admission (Duration.from_secs 10).

Lemma retries_bounded_by_budget_witness :
  retries_granted (@decide_calls toy_metadata [example_call 0; example_call 1; example_call 2]
    (Tracker.new 2)).1 ≤ 2.
Proof.
  pose proof (@retries_bounded_by_budget toy_metadata
    [example_call 0; example_call 1; example_call 2] 2) as H.
  destruct (@decide_calls toy_metadata _ _) as [ds b]. simpl. apply H; [by vm_compute|].
  repeat constructor; by vm_compute.
Defined.

Lemma profile_backoff_bounds_witness :
  @retry_backoff_ms toy_random (for_profile ResilienceProfile.RpcDefault) 3 ≤ 200.
Proof.
  destruct (@profile_backoff_bounds toy_random toy_random_laws ResilienceProfile.RpcDefault 3)
    as [[_ H] _]; [done|exact H].
Defined.

Lemma granted_retry_fits_deadline_witness :
  100 + Z.max (100 / 2) MIN_RPC_DEADLINE_RESERVE_MS ≤ Duration.as_millis (Duration.from_secs 10).
Proof.
  apply (@granted_retry_fits_deadline toy_random toy_metadata
    (for_profile ResilienceProfile.RpcReadOnly)
    (example_status Code.ResourceExhausted example_pushback) 1 (Tracker.new 10)
    plain_admission (Duration.from_secs 10) 100 (Tracker.new 9)); [by vm_compute..|reflexivity].
Defined.

Lemma no_retry_profiles_witness :
  @should_retry_call toy_random (for_profile ResilienceProfile.RpcStream) Code.Unavailable 0
    (Tracker.new 4) plain_admission = (false, Tracker.new 4).
Proof.
  apply (@no_retry_profiles toy_random toy_metadata ResilienceProfile.RpcStream
    (example_status Code.Unavailable ∅) Code.Unavailable 0 (Tracker.new 4) plain_admission 0).
  set_solver.
Defined.

Lemma pushback_trailer_roundtrip_witness :
  @extract_retry_pushback_ms toy_metadata
    (example_status Code.ResourceExhausted {[GRPC_RETRY_PUSHBACK_MS := "250"]}) = Some 250.
Proof.
  apply (@pushback_trailer_roundtrip toy_metadata toy_metadata_laws Code.ResourceExhausted
    "test" ∅ 250 "250"); [by vm_compute|reflexivity].
Defined.

(** ** Divergences from the documentation *)

(** the deadline-aware entry point retries a [RESOURCE_EXHAUSTED] answer
    that carries no pushback trailer, on the read-only profile, where the
    pushback-aware one stops. *)
Theorem deadline_variant_ignores_pushback `{RandomApi, !RandomLaws} :
  let policy := for_profile ResilienceProfile.RpcReadOnly in
  let status := example_status Code.ResourceExhausted ∅ in
  @should_retry_call_with_deadline _ policy (@Status.code toy_metadata status) 1 (Tracker.new 10)
    plain_admission (Duration.from_secs 10) = (true, Tracker.new 9) ∧
  @should_retry_call_with_pushback _ toy_metadata policy status 1 (Tracker.new 10)
    plain_admission (Duration.from_secs 10) = (Stop, Tracker.new 10).
Proof.
  intros policy status. split; [|reflexivity].
  unfold should_retry_call_with_deadline, should_retry_with_deadline.
  assert (deadline_covers_backoff (retry_backoff_ms policy 1) (Duration.from_secs 10) = true) as Hd.
  { apply deadline_covers_spec; [done|]. right. unfold required_ms, MIN_RPC_DEADLINE_RESERVE_MS.
    pose proof (retry_backoff_le policy 1 (for_profile_wf _) ltac:(lia)) as Hb. simpl in Hb. zlia. }
  by rewrite Hd.
Qed.

Lemma deadline_variant_ignores_pushback_witness :
  (@should_retry_call_with_deadline toy_random (for_profile ResilienceProfile.RpcReadOnly)
    Code.ResourceExhausted 1 (Tracker.new 10) plain_admission (Duration.from_secs 10)).1 = true.
Proof.
  destruct (@deadline_variant_ignores_pushback toy_random toy_random_laws) as [H _].
  exact (f_equal fst H).
Defined.

(** the delay is not monotone in the attempt: two lawful generators draw a
    longer delay for attempt 1 than for attempt 3, so the bound
    [later >= first] holds only by luck. *)
Theorem backoff_not_monotone :
  ∃ r1 r3 : RandomApi, @RandomLaws r1 ∧ @RandomLaws r3 ∧
  let policy := for_profile ResilienceProfile.RpcReadOnly in
  @retry_backoff_ms r3 policy 3 < @retry_backoff_ms r1 policy 1.
Proof.
  exists toy_random, {| random_range lo hi := lo |}.
  split; [apply toy_random_laws|]. split; [split; simpl; lia|]. done.
Qed.
