(* ===== verification/Atomics.v ===== *)
(** * Atomics: lock-free methods as programs over shared memory

    A method that works on atomics is a tree of atomic actions. The same tree
    is executed sequentially by {!run} (one caller, no interference) and
    interleaved with the actions of other threads by {!pool_step}. The memory
    is sequentially consistent: every action reads and writes the one current
    memory. *)
From Stdlib Require Import FunctionalExtensionality.
From S2P Require Import Prelude.

Section Prog.
Context {Mem : Type}.

(** One atomic action: the value it returns and the memory it leaves. *)
Definition action (B : Type) : Type := Mem → B * Mem.

Inductive prog : Type → Type :=
| Ret {A} (a : A) : prog A
| Act {A B} (op : action B) (k : B → prog A) : prog A
(** [Loop body k]: run [body] until it answers [Some b], then [k b]. *)
| Loop {A B} (body : prog (option B)) (k : B → prog A) : prog A.

Fixpoint prog_bind {A B} (p : prog A) : (A → prog B) → prog B :=
  match p in prog A return (A → prog B) → prog B with
  | Ret a => λ f, f a
  | Act op k => λ f, Act op (λ b, prog_bind (k b) f)
  | Loop body k => λ f, Loop body (λ b, prog_bind (k b) f)
  end.

Definition act {B} (op : action B) : prog B := Act op Ret.

(** One more iteration of a loop. *)
Definition unroll {A B} (body : prog (option B)) (k : B → prog A) : prog A :=
  prog_bind body (λ o, match o with Some b => k b | None => Loop body k end).

(** ** Sequential execution *)

(** [run fuel p m] executes [p] alone; one unit of fuel per action and per
    loop iteration. *)
Fixpoint run {A} (fuel : nat) (p : prog A) (m : Mem) : option (A * Mem) :=
  match fuel with
  | O => None
  | S fuel' =>
      match p in prog A return option (A * Mem) with
      | Ret a => Some (a, m)
      | Act op k => let (b, m') := op m in run fuel' (k b) m'
      | Loop body k => run fuel' (unroll body k) m
      end
  end.

Lemma prog_bind_assoc {A B C} (p : prog A) (f : A → prog B) (g : B → prog C) :
  prog_bind (prog_bind p f) g = prog_bind p (λ a, prog_bind (f a) g).
Proof.
  revert f. induction p as [A a|A D op k IH|A D body IHb k IHk]; intros f; simpl; [done| |];
    f_equal; apply functional_extensionality; auto.
Qed.

Lemma unroll_bind {A B C} (body : prog (option C)) (k : C → prog A) (f : A → prog B) :
  prog_bind (unroll body k) f = unroll body (λ c, prog_bind (k c) f).
Proof.
  unfold unroll. rewrite prog_bind_assoc. f_equal. apply functional_extensionality. by intros [c|].
Qed.

Lemma run_mono {A} n k (p : prog A) m r : run n p m = Some r → run (n + k) p m = Some r.
Proof.
  revert p m. induction n as [|n IH]; intros p m; [done|].
  destruct p as [A a|A B op c|A B body c]; simpl; [done| |apply IH]. destruct (op m). apply IH.
Qed.

(** One call after the other. *)
Lemma run_bind {A B} n k (p : prog A) (f : A → prog B) m a m' r :
  run n p m = Some (a, m') → run k (f a) m' = Some r → run (n + k) (prog_bind p f) m = Some r.
Proof.
  revert p f m. induction n as [|n IH]; intros p f m; [done|].
  destruct p as [A a'|A C op c|A C body c]; intros Hp Hf.
  - simpl in Hp. simplify_eq. rewrite (Nat.add_comm _ k). by apply run_mono.
  - simpl in *. destruct (op m). by eapply IH.
  - simpl in *. rewrite <- unroll_bind. by eapply IH.
Qed.

(** ** Interleaved execution *)

(** One step of a thread; a finished thread has none. *)
Definition thread_step {A} (p : prog A) (m : Mem) : option (prog A * Mem) :=
  match p in prog A return option (prog A * Mem) with
  | Ret _ => None
  | Act op k => let (b, m') := op m in Some (k b, m')
  | Loop body k => Some (unroll body k, m)
  end.

Lemma run_step {A} n (p p' : prog A) m m' :
  thread_step p m = Some (p', m') → run (S n) p m = run n p' m'.
Proof.
  destruct p as [A a|A B op k|A B body k]; simpl; [done| |by intros [= <- <-]].
  destruct (op m). by intros [= <- <-].
Qed.

(** What the environment (the clock) may do to the memory between steps. *)
Context (env : Mem → Mem → Prop).

Inductive pool_step {A} : list (prog A) * Mem → list (prog A) * Mem → Prop :=
| PoolThread ts m i p p' m' :
    ts !! i = Some p → thread_step p m = Some (p', m') →
    pool_step (ts, m) (<[i := p']> ts, m')
| PoolEnv ts m m' :
    env m m' → pool_step (ts, m) (ts, m').

(** ** Invariants *)

(** Every action [p] may perform, whatever the others do in between, keeps
    [inv]: a thread is checked against memories that satisfy [inv] only. *)
Fixpoint safe (inv : Mem → Prop) {A} (p : prog A) : Prop :=
  match p with
  | Ret _ => True
  | Act op k => ∀ m, inv m → inv (op m).2 ∧ safe inv (k (op m).1)
  | Loop body k => safe inv body ∧ ∀ b, safe inv (k b)
  end.

Lemma safe_bind inv {A B} (p : prog A) (f : A → prog B) :
  safe inv p → (∀ a, safe inv (f a)) → safe inv (prog_bind p f).
Proof.
  revert f. induction p as [A a|A C op k IH|A C body IHb k IHk];
    intros f Hp Hf; simpl in *; [done| |].
  - intros m Hm. destruct (Hp m Hm). split; [done|]. by apply IH.
  - destruct Hp as [Hb Hk]. split; [done|]. intros b. by apply IHk.
Qed.

Lemma safe_unroll inv {A B} (body : prog (option B)) (k : B → prog A) :
  safe inv body → (∀ b, safe inv (k b)) → safe inv (unroll body k).
Proof. intros ? Hk. apply safe_bind; [done|]. by intros [b|]. Qed.

Lemma safe_thread_step inv {A} (p p' : prog A) m m' :
  safe inv p → inv m → thread_step p m = Some (p', m') → safe inv p' ∧ inv m'.
Proof.
  destruct p as [A a|A B op k|A B body k]; simpl; intros Hp Hm Hstep; [done| |].
  - destruct (Hp m Hm). destruct (op m). by simplify_eq/=.
  - simplify_eq. split; [|done]. by apply safe_unroll; destruct Hp.
Qed.

(** An invariant of the memory that every thread's program and the
    environment keep holds in every reachable configuration. *)
Lemma pool_invariant inv {A} (ts ts' : list (prog A)) m m' :
  (∀ m m', inv m → env m m' → inv m') →
  Forall (safe inv) ts → inv m → rtc pool_step (ts, m) (ts', m') →
  Forall (safe inv) ts' ∧ inv m'.
Proof.
  intros Henv Hts Hm Hsteps.
  remember (ts, m) as c eqn:Hc. remember (ts', m') as c' eqn:Hc'.
  revert ts m Hts Hm Hc. induction Hsteps as [c|c c2 c' Hstep Hsteps IH];
    intros ts m Hts Hm Hc; simplify_eq; [done|].
  inversion Hstep; simplify_eq.
  - match goal with H : _ !! _ = Some ?p |- _ => pose proof (Forall_lookup_1 _ _ _ _ Hts H) as Hp end.
    destruct (safe_thread_step inv p p' m m'0) as [? ?]; [done..|].
    eapply IH; [done| |done|done]. by apply Forall_insert.
  - eapply (IH eq_refl ts m'0); [done|by eapply Henv|done].
Qed.
End Prog.

Arguments prog Mem A : clear implicits.
Arguments action Mem B : clear implicits.

Declare Scope prog_scope.
Delimit Scope prog_scope with prog.
(** [do x := op; k]: perform the atomic action [op], bind its answer. *)
Notation "'do' x ':=' op ';' k" := (Act op (λ x, k%prog))
  (at level 10, x binder, op at level 100, k at level 200) : prog_scope.
(** [do! op; k]: perform [op] for its effect. *)
Notation "'do!' op ';' k" := (Act op (λ _, k%prog))
  (at level 10, op at level 100, k at level 200) : prog_scope.
(** [call x := p; k]: call the method [p] of the same object. *)
Notation "'call' x ':=' p ';' k" := (prog_bind p (λ x, k%prog))
  (at level 10, x binder, p at level 100, k at level 200) : prog_scope.
