(* ===== verification/CircuitBreaker.v ===== *)
(** * CircuitBreaker: the per-target circuit breaker

    Models [sdkwork-rpc-resilience/src/circuit_breaker.rs]. The five atomics
    (and the clock the breaker reads) are the fields of [Mem]; each method is
    a [prog] whose actions are, in order, the atomic operations the method
    performs, so the sequential theorems and the interleaved ones are about
    the same definitions. Instants are nanoseconds since [created_at]; the
    memory orderings and the log events are in {!BreakerProgram}. *)
From S2P Require Import Prelude RustStd Atomics.

(** ** State names *)

Inductive CircuitBreakerState : Type := Closed | Open | HalfOpen.

#[global] Instance CircuitBreakerState_eq_dec : EqDecision CircuitBreakerState.
Proof. solve_decision. Defined.

Definition CLOSED_U8 : Z := 0.
Definition OPEN_U8 : Z := 1.
Definition HALF_OPEN_U8 : Z := 2.

Definition from_u8 (value : Z) : CircuitBreakerState :=
  if value =? OPEN_U8 then Open
  else if value =? HALF_OPEN_U8 then HalfOpen
  else Closed.

Record CircuitBreakerConfig : Type := {
  failure_threshold : Z;
  recovery_timeout : Z;
  half_open_max_probes : Z
}.

Definition default_config : CircuitBreakerConfig :=
  {| failure_threshold := 5;
     recovery_timeout := Duration.from_secs 30;
     half_open_max_probes := 1 |}.

Definition config_wf (config : CircuitBreakerConfig) : Prop :=
  u32 (failure_threshold config) ∧ Duration.valid (recovery_timeout config) ∧
  u32 (half_open_max_probes config).

#[global] Instance config_wf_dec config : Decision (config_wf config) := _.

(** ** The shared memory: the breaker's atomics and the monotonic clock *)

Record Mem : Type := mkMem {
  state : Z;
  consecutive_failures : Z;
  half_open_probes : Z;
  opened_at_nanos : Z;
  clock : Z
}.

#[global] Instance Mem_eq_dec : EqDecision Mem.
Proof. solve_decision. Defined.

Definition new_breaker : Mem := mkMem CLOSED_U8 0 0 0 0.

Definition set_state (v : Z) (m : Mem) : Mem :=
  mkMem v (consecutive_failures m) (half_open_probes m) (opened_at_nanos m) (clock m).
Definition set_failures (v : Z) (m : Mem) : Mem :=
  mkMem (state m) v (half_open_probes m) (opened_at_nanos m) (clock m).
Definition set_probes (v : Z) (m : Mem) : Mem :=
  mkMem (state m) (consecutive_failures m) v (opened_at_nanos m) (clock m).
Definition set_opened_at (v : Z) (m : Mem) : Mem :=
  mkMem (state m) (consecutive_failures m) (half_open_probes m) v (clock m).
Definition set_clock (v : Z) (m : Mem) : Mem :=
  mkMem (state m) (consecutive_failures m) (half_open_probes m) (opened_at_nanos m) v.

(** The atomic operations the methods perform. *)
Definition load {B} (field : Mem → B) : action Mem B := λ m, (field m, m).
Definition store (update : Z → Mem → Mem) (v : Z) : action Mem () := λ m, ((), update v m).
Definition swap (field : Mem → Z) (update : Z → Mem → Mem) (v : Z) : action Mem Z :=
  λ m, (field m, update v m).
Definition compare_exchange (field : Mem → Z) (update : Z → Mem → Mem) (old v : Z) :
    action Mem bool :=
  λ m, if field m =? old then (true, update v m) else (false, m).
Definition fetch_add (field : Mem → Z) (update : Z → Mem → Mem) (v : Z) : action Mem Z :=
  λ m, (field m, update (wrapping_add_u32 (field m) v) m).
(** [created_at.elapsed()]. *)
Definition elapsed : action Mem Z := load clock.

(** ** The methods *)

Section Methods.
Context (config : CircuitBreakerConfig).
Open Scope prog_scope.

Definition refresh_state : prog Mem () :=
  do observed := load state;
  if bool_decide (from_u8 observed ≠ Open) then Ret ()
  else
    do opened_nanos := load opened_at_nanos;
    if opened_nanos =? 0 then Ret ()
    else
      do now := elapsed;
      (** [opened_at.elapsed()], which saturates at zero. *)
      if saturating_sub now opened_nanos <? recovery_timeout config then Ret ()
      else
        do exchanged := compare_exchange state set_state observed HALF_OPEN_U8;
        if (exchanged : bool) then
          do! store set_probes 0;
          do! store set_failures 0;
          Ret ()
        else Ret ().

Definition state_method : prog Mem CircuitBreakerState :=
  call _ := refresh_state;
  do v := load state;
  Ret (from_u8 v).

(** One iteration of the compare-and-swap loop. *)
Definition acquire_attempt : prog Mem (option bool) :=
  do observed := load half_open_probes;
  if half_open_max_probes config <=? observed then Ret (Some false)
  else
    do exchanged := compare_exchange half_open_probes set_probes observed
                      (saturating_add u32_max observed 1);
    if (exchanged : bool) then Ret (Some true) else Ret None.

Definition acquire_half_open_probe : prog Mem bool := Loop acquire_attempt Ret.

Definition allow_request : prog Mem bool :=
  call _ := refresh_state;
  do v := load state;
  match from_u8 v with
  | Closed => Ret true
  | Open => Ret false
  | HalfOpen => acquire_half_open_probe
  end.

Definition record_success : prog Mem () :=
  call _ := refresh_state;
  do! swap state set_state CLOSED_U8;
  do! store set_failures 0;
  do! store set_probes 0;
  do! store set_opened_at 0;
  Ret ().

Definition open : prog Mem () :=
  do! swap state set_state OPEN_U8;
  do now := elapsed;
  do! store set_opened_at (as_u64 (Duration.as_nanos now));
  do! store set_probes 0;
  Ret ().

Definition record_failure : prog Mem () :=
  call _ := refresh_state;
  do v := load state;
  if bool_decide (from_u8 v = HalfOpen) then open
  else
    do prev := fetch_add consecutive_failures set_failures 1;
    let failures := saturating_add u32_max prev 1 in
    if failure_threshold config <=? failures then open else Ret ().
End Methods.

(** ** Abstract breaker

    What the documentation promises: a closed breaker counts consecutive
    failures, an open one remembers when it opened, a half-open one counts the
    probes it has admitted. *)

Inductive breaker : Type :=
| AClosed (failures : Z)
| AOpen (since failures : Z)
| AHalfOpen (probes : Z).

#[global] Instance breaker_eq_dec : EqDecision breaker.
Proof. solve_decision. Defined.

Section Abstract.
Context (config : CircuitBreakerConfig).

(** Time-based recovery, observed at instant [now]. *)
Definition a_refresh (now : Z) (b : breaker) : breaker :=
  match b with
  | AOpen since _ =>
      if bool_decide (since ≠ 0 ∧ recovery_timeout config ≤ saturating_sub now since)
      then AHalfOpen 0 else b
  | _ => b
  end.

Definition a_state (b : breaker) : CircuitBreakerState :=
  match b with
  | AClosed _ => Closed
  | AOpen _ _ => Open
  | AHalfOpen _ => HalfOpen
  end.

Definition a_allow (b : breaker) : bool * breaker :=
  match b with
  | AClosed _ => (true, b)
  | AOpen _ _ => (false, b)
  | AHalfOpen probes =>
      if bool_decide (probes < half_open_max_probes config)
      then (true, AHalfOpen (probes + 1)) else (false, b)
  end.

(** A failure reported at instant [now]: a half-open breaker opens again; a
    closed or open one counts it and (re)opens at the threshold. *)
Definition a_failure (now : Z) (b : breaker) : breaker :=
  match b with
  | AHalfOpen _ => AOpen now 0
  | AClosed f =>
      if bool_decide (failure_threshold config ≤ f + 1)
      then AOpen now (f + 1) else AClosed (f + 1)
  | AOpen since f =>
      if bool_decide (failure_threshold config ≤ saturating_add u32_max f 1)
      then AOpen now (wrapping_add_u32 f 1) else AOpen since (wrapping_add_u32 f 1)
  end.

(** Operations of one caller, with the time that passes between them. *)
Inductive op : Type :=
| OpState
| OpAllow
| OpSuccess
| OpFailure
| OpTick (d : Z).

Inductive answer : Type :=
| AnsState (s : CircuitBreakerState)
| AnsAllow (b : bool)
| AnsUnit.

Definition a_exec (o : op) (now : Z) (b : breaker) : answer * Z * breaker :=
  match o with
  | OpState => let b := a_refresh now b in (AnsState (a_state b), now, b)
  | OpAllow => let (r, b) := a_allow (a_refresh now b) in (AnsAllow r, now, b)
  | OpSuccess => (AnsUnit, now, AClosed 0)
  | OpFailure => (AnsUnit, now, a_failure now (a_refresh now b))
  | OpTick d => (AnsUnit, now + d, b)
  end.

Fixpoint a_exec_all (os : list op) (now : Z) (b : breaker) : list answer * Z * breaker :=
  match os with
  | [] => ([], now, b)
  | o :: os' =>
      let '(a, now', b') := a_exec o now b in
      let '(answers, now'', b'') := a_exec_all os' now' b' in
      (a :: answers, now'', b'')
  end.
End Abstract.

(** ** The breaker's own operations, run by one caller *)

(** No method performs more than 12 actions when nobody interferes. *)
Definition seq_fuel : nat := 12.

Definition exec (config : CircuitBreakerConfig) (o : op) (m : Mem) : option (answer * Mem) :=
  match o with
  | OpState => '(s, m') ← run seq_fuel (state_method config) m; Some (AnsState s, m')
  | OpAllow => '(r, m') ← run seq_fuel (allow_request config) m; Some (AnsAllow r, m')
  | OpSuccess => '(_, m') ← run seq_fuel (record_success config) m; Some (AnsUnit, m')
  | OpFailure => '(_, m') ← run seq_fuel (record_failure config) m; Some (AnsUnit, m')
  | OpTick d => Some (AnsUnit, set_clock (clock m + d) m)
  end.

Fixpoint exec_all (config : CircuitBreakerConfig) (os : list op) (m : Mem) :
    option (list answer * Mem) :=
  match os with
  | [] => Some ([], m)
  | o :: os' =>
      '(a, m') ← exec config o m;
      '(answers, m'') ← exec_all config os' m';
      Some (a :: answers, m'')
  end.

(** The memory of a breaker in abstract state [b]. *)
Definition models (m : Mem) (b : breaker) : Prop :=
  0 ≤ clock m ≤ u64_max ∧
  match b with
  | AClosed f =>
      state m = CLOSED_U8 ∧ consecutive_failures m = f ∧ 0 ≤ f < u32_max ∧
      half_open_probes m = 0 ∧ opened_at_nanos m = 0
  | AOpen since f =>
      state m = OPEN_U8 ∧ consecutive_failures m = f ∧ 0 ≤ f ≤ u32_max ∧
      half_open_probes m = 0 ∧ opened_at_nanos m = since ∧ 0 ≤ since ≤ clock m
  | AHalfOpen p =>
      state m = HALF_OPEN_U8 ∧ consecutive_failures m = 0 ∧
      half_open_probes m = p ∧ 0 ≤ p ≤ u32_max
  end.

(** ** Sequential refinement *)

Lemma wrapping_add_u32_bounds f : 0 ≤ wrapping_add_u32 f 1 ≤ u32_max.
Proof. unfold wrapping_add_u32. pose proof (Z.mod_pos_bound (f + 1) (u32_max + 1)). zlia. Qed.

Lemma wrapping_add_u32_small f : 0 ≤ f < u32_max → wrapping_add_u32 f 1 = f + 1.
Proof. intros. unfold wrapping_add_u32. apply Z.mod_small. lia. Qed.

Lemma as_u64_small n : 0 ≤ n ≤ u64_max → as_u64 n = n.
Proof. intros. unfold as_u64. apply Z.mod_small. lia. Qed.

(** Splits on the next test of a running method. *)
Ltac run_case :=
  match goal with
  | |- context [bool_decide ?P] => destruct (bool_decide_reflect P)
  | |- context [Z.ltb ?a ?b] => destruct (Z.ltb_spec a b)
  | |- context [Z.leb ?a ?b] => destruct (Z.leb_spec a b)
  | |- context [Z.eqb ?a ?b] => destruct (Z.eqb_spec a b)
  end.

(** Executes a method on a memory whose fields are known, case by case. *)
Ltac run_method :=
  unfold state_method, allow_request, record_success, record_failure, refresh_state,
    acquire_half_open_probe, acquire_attempt, open, from_u8, compare_exchange, fetch_add,
    swap, store, elapsed, load, CLOSED_U8, OPEN_U8, HALF_OPEN_U8 in *;
  repeat (simpl; run_case; try (exfalso; first [tauto|congruence|zlia|intuition zlia]));
  simpl; rewrite ?Z.eqb_refl; simpl.

(** One operation of the code, against one step of the abstract breaker. *)
Lemma exec_refines config o m b :
  config_wf config → models m b → (∀ d, o = OpTick d → 0 ≤ d ∧ clock m + d ≤ u64_max) →
  let '(a, now', b') := a_exec config o (clock m) b in
  ∃ m', exec config o m = Some (a, m') ∧ clock m' = now' ∧ models m' b'.
Proof.
  intros (Hthr & Hto & Hmax) [Hck Hm] Htick.
  destruct m as [st f p oa ck], b as [g|since g|q];
    simpl in *; destruct_and!; subst; destruct o as [| | | |d].
  all: unfold exec, a_exec; try (specialize (Htick _ eq_refl)).
  all: try pose proof (wrapping_add_u32_bounds g).
  all: try pose proof (wrapping_add_u32_small g).
  all: run_method; eexists; (split; [reflexivity|]); (split; [done|]).
  all: unfold models, CLOSED_U8, OPEN_U8, HALF_OPEN_U8, Duration.as_nanos; simpl;
    rewrite ?as_u64_small by lia; zlia.
Qed.

(** The time an operation sequence lets pass. *)
Definition op_ticks (o : op) : Z :=
  match o with OpTick d => d | _ => 0 end.
Fixpoint ticks (os : list op) : Z :=
  match os with
  | [] => 0
  | o :: os' => op_ticks o + ticks os'
  end.
Definition forward (os : list op) : Prop := Forall (λ o, 0 ≤ op_ticks o) os.

#[global] Instance forward_dec os : Decision (forward os) := _.

Lemma ticks_nonneg os : forward os → 0 ≤ ticks os.
Proof. induction 1; simpl; lia. Qed.

Lemma a_exec_clock config o now b :
  (a_exec config o now b).1.2 = now + op_ticks o.
Proof. destruct o; simpl; try case_match; simpl; lia. Qed.

Lemma exec_all_refines config os m b :
  config_wf config → models m b → forward os → clock m + ticks os ≤ u64_max →
  let '(answers, now', b') := a_exec_all config os (clock m) b in
  ∃ m', exec_all config os m = Some (answers, m') ∧ clock m' = now' ∧ models m' b'.
Proof.
  intros Hc. revert m b. induction os as [|o os IH]; intros m b Hm Hf Ht; simpl.
  { eauto. }
  apply Forall_cons in Hf as [Ho Hos]. pose proof (ticks_nonneg os Hos). simpl in Ht.
  pose proof (exec_refines config o m b Hc Hm) as Hstep.
  pose proof (a_exec_clock config o (clock m) b) as Hck.
  destruct (a_exec config o (clock m) b) as [[a now'] b']. simpl in Hck.
  destruct Hstep as (m' & Hex & Hnow & Hm').
  { intros d ->. simpl in *. lia. }
  rewrite Hex. simpl. subst now'.
  specialize (IH m' b' Hm' Hos ltac:(lia)). rewrite Hnow in IH.
  destruct (a_exec_all config os (clock m + op_ticks o) b') as [[answers now''] b''].
  destruct IH as (m'' & -> & ? & ?). simpl. eauto.
Qed.

Lemma models_new : models new_breaker (AClosed 0).
Proof. by vm_compute. Qed.

(** ** Facts about the abstract breaker *)

(** Operations that report no outcome. *)
Definition observing (o : op) : Prop :=
  match o with OpSuccess | OpFailure => False | _ => True end.
#[global] Instance observing_dec o : Decision (observing o).
Proof. destruct o; apply _. Defined.

#[global] Instance answer_eq_dec : EqDecision answer.
Proof. solve_decision. Defined.
#[global] Instance op_eq_dec : EqDecision op.
Proof. solve_decision. Defined.

Definition admitted (answers : list answer) : Z :=
  Z.of_nat (length (filter (λ a, a = AnsAllow true) answers)).

Definition requests (os : list op) : Z :=
  Z.of_nat (length (filter (λ o, o = OpAllow) os)).
Definition failures (os : list op) : Z :=
  Z.of_nat (length (filter (λ o, o = OpFailure) os)).

Lemma admitted_cons a answers :
  admitted (a :: answers) = (if bool_decide (a = AnsAllow true) then 1 else 0) + admitted answers.
Proof. unfold admitted. rewrite filter_cons. case_bool_decide; case_decide; simpl; naive_solver lia. Qed.

Lemma requests_cons o os :
  requests (o :: os) = (if bool_decide (o = OpAllow) then 1 else 0) + requests os.
Proof. unfold requests. rewrite filter_cons. case_bool_decide; case_decide; simpl; naive_solver lia. Qed.

Lemma failures_cons o os :
  failures (o :: os) = (if bool_decide (o = OpFailure) then 1 else 0) + failures os.
Proof. unfold failures. rewrite filter_cons. case_bool_decide; case_decide; simpl; naive_solver lia. Qed.

Lemma requests_nonneg os : 0 ≤ requests os.
Proof. unfold requests. lia. Qed.

Section AbstractFacts.
Context (config : CircuitBreakerConfig).

(** A half-open breaker hands out its remaining probes and no more. *)
Lemma a_half_open_probes os now p :
  Forall observing os → 0 ≤ p ≤ half_open_max_probes config →
  let '(answers, _, b) := a_exec_all config os now (AHalfOpen p) in
  let n := Z.min (requests os) (half_open_max_probes config - p) in
  admitted answers = n ∧ b = AHalfOpen (p + n).
Proof.
  intros Hos. revert now p. induction Hos as [|o os Ho Hos IH]; intros now p Hp; simpl.
  { rewrite Z.add_comm. unfold requests, admitted; simpl. split; [lia|f_equal; lia]. }
  pose proof (requests_nonneg os). destruct o; simpl in *; try done.
  - specialize (IH now p Hp). destruct (a_exec_all config os now _) as [[ans ?] b].
    by rewrite admitted_cons, requests_cons.
  - case_bool_decide as Hlt; simpl.
    + specialize (IH now (p + 1) ltac:(lia)). destruct (a_exec_all config os now _) as [[ans ?] b].
      rewrite admitted_cons, requests_cons, !bool_decide_eq_true_2 by done.
      destruct IH as [-> ->]. split; [lia|f_equal; lia].
    + specialize (IH now p Hp). destruct (a_exec_all config os now _) as [[ans ?] b].
      rewrite admitted_cons, requests_cons. rewrite bool_decide_eq_false_2 by done.
      rewrite bool_decide_eq_true_2 by done. destruct IH as [-> ->]. split; [lia|f_equal; lia].
  - specialize (IH (now + d) p Hp). destruct (a_exec_all config os (now + d) _) as [[ans ?] b].
    by rewrite admitted_cons, requests_cons.
Qed.

(** Until the recovery timeout has passed an open breaker only refuses. *)
Lemma a_open_rejects os now since f :
  Forall observing os → forward os → 0 ≤ since ≤ now →
  now + ticks os < since + recovery_timeout config →
  let '(answers, _, b) := a_exec_all config os now (AOpen since f) in
  Forall (λ a, a ∈ [AnsAllow false; AnsState Open; AnsUnit]) answers ∧ b = AOpen since f.
Proof.
  intros Hos. revert now. induction Hos as [|o os Ho Hos IH]; intros now Hf Hs Ht; simpl; [done|].
  apply Forall_cons in Hf as [Hfo Hf]. pose proof (ticks_nonneg os Hf). simpl in Ht.
  assert (a_refresh config now (AOpen since f) = AOpen since f) as Hr.
  { simpl. rewrite bool_decide_eq_false_2; [done|]. unfold saturating_sub. destruct o; simpl in *; lia. }
  destruct o; simpl in Ho, Hfo, Ht; try done; cbn [a_exec]; rewrite ?Hr; simpl;
    match goal with |- context [a_exec_all config os ?n _] =>
      specialize (IH n Hf ltac:(lia) ltac:(lia));
      destruct (a_exec_all config os n _) as [[ans ?] b] end;
    destruct IH; (split; [constructor; [set_solver|done]|done]).
Qed.

(** Below the threshold a closed breaker counts failures and admits. *)
Lemma a_closed_counts os now f :
  OpSuccess ∉ os → 0 ≤ f → f + failures os < failure_threshold config →
  let '(answers, _, b) := a_exec_all config os now (AClosed f) in
  Forall (λ a, a ∈ [AnsAllow true; AnsState Closed; AnsUnit]) answers ∧
  b = AClosed (f + failures os).
Proof.
  revert now f. induction os as [|o os IH]; intros now f Hns Hf Ht; simpl.
  { split; [done|]. unfold failures; simpl. f_equal. lia. }
  rewrite failures_cons in *. apply not_elem_of_cons in Hns as [Ho Hns].
  assert (0 ≤ failures os) by (unfold failures; lia).
  destruct o; try done; cbn [a_exec a_refresh a_allow a_failure a_state]; simpl in *;
    rewrite ?bool_decide_eq_false_2 by lia;
    match goal with |- context [a_exec_all config os ?n (AClosed ?g)] =>
      specialize (IH n g Hns ltac:(lia) ltac:(lia));
      destruct (a_exec_all config os n _) as [[ans ?] b] end;
    destruct IH as [? ->]; (split; [constructor; [set_solver|done]|f_equal; lia]).
Qed.
End AbstractFacts.

Lemma a_exec_all_app config os1 os2 now b :
  a_exec_all config (os1 ++ os2) now b =
  let '(a1, now1, b1) := a_exec_all config os1 now b in
  let '(a2, now2, b2) := a_exec_all config os2 now1 b1 in
  (a1 ++ a2, now2, b2).
Proof.
  revert now b. induction os1 as [|o os1 IH]; intros now b; simpl.
  { by destruct (a_exec_all config os2 now b) as [[??]?]. }
  destruct (a_exec config o now b) as [[a now'] b']. rewrite IH.
  destruct (a_exec_all config os1 now' b') as [[? now1] b1].
  by destruct (a_exec_all config os2 now1 b1) as [[??]?].
Qed.

Lemma a_exec_all_clock config os now b :
  (a_exec_all config os now b).1.2 = now + ticks os.
Proof.
  revert now b. induction os as [|o os IH]; intros now b; simpl; [lia|].
  pose proof (a_exec_clock config o now b) as Hck.
  destruct (a_exec config o now b) as [[a now'] b']. simpl in Hck. subst now'.
  specialize (IH (now + op_ticks o) b').
  destruct (a_exec_all config os (now + op_ticks o) b') as [[? now'] b'']. simpl in *. lia.
Qed.

Lemma a_refresh_open config now since f :
  since = 0 ∨ saturating_sub now since < recovery_timeout config →
  a_refresh config now (AOpen since f) = AOpen since f.
Proof. intros Hs. simpl. by rewrite bool_decide_eq_false_2 by lia. Qed.

Lemma a_refresh_due config now since f :
  since ≠ 0 → recovery_timeout config ≤ saturating_sub now since →
  a_refresh config now (AOpen since f) = AHalfOpen 0.
Proof. intros Hs Ht. simpl. by rewrite bool_decide_eq_true_2. Qed.

Lemma a_failure_closed config now f :
  failure_threshold config ≤ f + 1 → a_failure config now (AClosed f) = AOpen now (f + 1).
Proof. intros. simpl. by rewrite bool_decide_eq_true_2. Qed.

(** A breaker that opened after the first nanosecond of its life, and not in the
    future. *)
Definition opened_within (now : Z) (b : breaker) : Prop :=
  match b with AOpen since _ => 0 < since ≤ now | _ => True end.

Lemma a_refresh_opened config now b : opened_within now b → opened_within now (a_refresh config now b).
Proof. destruct b; simpl; [done| |done]. by case_bool_decide. Qed.

Lemma a_failure_opened config now b :
  0 < now → opened_within now b →
  opened_within now (a_failure config now b) ∧ ∀ p, a_failure config now b ≠ AHalfOpen p.
Proof. intros Hn Hb. destruct b; simpl in *; try case_bool_decide; simpl; (split; [lia|done]). Qed.

Lemma a_exec_opened config o now b :
  0 < now → 0 ≤ op_ticks o → opened_within now b →
  opened_within (now + op_ticks o) (a_exec config o now b).2.
Proof.
  intros Hn Ho Hb. pose proof (a_refresh_opened config now b Hb) as Hr.
  destruct o; simpl in *; rewrite ?Z.add_0_r; [done| |done|by apply a_failure_opened|].
  - destruct (a_refresh config now b); simpl in *; [done..|]. by case_bool_decide.
  - destruct b; simpl in *; [done|lia|done].
Qed.

Lemma a_exec_all_opened config os now b :
  0 < now → forward os → opened_within now b →
  opened_within (now + ticks os) (a_exec_all config os now b).2.
Proof.
  intros Hn Hf. revert now b Hn. induction Hf as [|o os Ho Hf IH]; intros now b Hn Hb; simpl.
  { by rewrite Z.add_0_r. }
  pose proof (a_exec_clock config o now b) as Hck. pose proof (a_exec_opened config o now b Hn Ho Hb) as Hb'.
  destruct (a_exec config o now b) as [[a now'] b']. simpl in *. subst now'.
  specialize (IH (now + op_ticks o) b' ltac:(lia) Hb'). rewrite Z.add_assoc.
  by destruct (a_exec_all config os _ b') as [[??]?].
Qed.

(** A breaker with no probe out admits once the recovery timeout has passed. *)
Lemma a_allow_after_wait config now d b :
  opened_within now b → (∀ p, b ≠ AHalfOpen p) → recovery_timeout config ≤ d →
  1 ≤ half_open_max_probes config → (a_allow config (a_refresh config (now + d) b)).1 = true.
Proof.
  intros Hb Hp Hd Hmax. destruct b as [f|since f|p]; [done| |by destruct (Hp p)].
  simpl in Hb. rewrite a_refresh_due by (unfold saturating_sub; lia). simpl.
  by rewrite bool_decide_eq_true_2 by lia.
Qed.

(** After a report and a wait. *)
Lemma a_report_recovers config now d report b :
  0 < now → opened_within now b → recovery_timeout config ≤ d → 1 ≤ half_open_max_probes config →
  (report = OpSuccess ∨ report = OpFailure) →
  (a_exec_all config [report; OpTick d; OpAllow] now b).1.1 = [AnsUnit; AnsUnit; AnsAllow true].
Proof.
  intros Hn Hb Hd Hmax [-> | ->]; [done|]. cbn [a_exec_all a_exec].
  destruct (a_failure_opened config now (a_refresh config now b)) as [Hb' Hnp];
    [done|by apply a_refresh_opened|].
  pose proof (a_allow_after_wait config _ d _ Hb' Hnp Hd Hmax) as Hallow.
  destruct (a_allow config _) as [? ?]. simpl in Hallow. by subst.
Qed.

(** The probe of an open breaker and its two outcomes. *)
Lemma a_probe_outcomes config now d since f :
  opened_within now (AOpen since f) → recovery_timeout config ≤ d → 1 ≤ half_open_max_probes config →
  (a_exec_all config [OpTick d; OpAllow; OpSuccess; OpState] now (AOpen since f)).1.1 =
    [AnsUnit; AnsAllow true; AnsUnit; AnsState Closed] ∧
  (0 < recovery_timeout config → 0 ≤ d →
   (a_exec_all config [OpTick d; OpAllow; OpFailure; OpAllow; OpState] now (AOpen since f)).1.1 =
     [AnsUnit; AnsAllow true; AnsUnit; AnsAllow false; AnsState Open]).
Proof.
  intros Hb Hd Hmax. simpl in Hb. cbn [a_exec_all a_exec].
  rewrite a_refresh_due by (unfold saturating_sub; lia). cbn [a_allow].
  rewrite bool_decide_eq_true_2 by lia. split; [done|]. intros Hpos Hd'.
  assert (∀ f', a_refresh config (now + d) (AOpen (now + d) f') = AOpen (now + d) f') as Hsame.
  { intros f'. apply a_refresh_open. unfold saturating_sub. lia. }
  cbn [a_exec_all a_exec]. change (a_refresh config (now + d) (AHalfOpen (0 + 1))) with (AHalfOpen (0 + 1)).
  cbn [a_failure]. rewrite Hsame. cbn [a_allow]. by rewrite Hsame.
Qed.

(** The tail of a history, against the abstract breaker. *)
Lemma exec_all_after config history tail :
  config_wf config → forward (history ++ tail) → ticks (history ++ tail) ≤ u64_max →
  let '(answers, now, b) := a_exec_all config history 0 (AClosed 0) in
  ∃ m, exec_all config (history ++ tail) new_breaker =
    Some (answers ++ (a_exec_all config tail now b).1.1, m).
Proof.
  intros Hc Hf Ht. pose proof (exec_all_refines config _ new_breaker _ Hc models_new Hf Ht) as Hex.
  rewrite a_exec_all_app in Hex. change (clock new_breaker) with 0 in Hex.
  destruct (a_exec_all config history 0 (AClosed 0)) as [[answers now] b].
  destruct (a_exec_all config tail now b) as [[answers' ?] ?]. destruct Hex as (m & Hex & _). by exists m.
Qed.

Lemma ticks_app os1 os2 : ticks (os1 ++ os2) = ticks os1 + ticks os2.
Proof. induction os1 as [|o os1 IH]; simpl; lia. Qed.

(** Evaluates a concrete operation sequence of the abstract breaker. *)
Ltac a_run Hex :=
  cbn [a_exec_all a_exec] in Hex;
  change (clock new_breaker) with 0 in Hex;
  repeat first
    [ progress change (a_refresh ?c ?n (AClosed ?f)) with (AClosed f) in Hex
    | progress change (a_refresh ?c ?n (AHalfOpen ?p)) with (AHalfOpen p) in Hex
    | rewrite a_refresh_open in Hex by (unfold saturating_sub; lia)
    | rewrite a_refresh_due in Hex by (unfold saturating_sub; lia)
    | rewrite a_failure_closed in Hex by lia
    | progress cbn [a_allow a_state] in Hex
    | progress change (a_failure ?c ?n (AHalfOpen ?p)) with (AOpen n 0) in Hex
    | rewrite (bool_decide_eq_true_2 (0 < _)) in Hex by lia ].

(** ** Properties of a breaker used by one caller *)

(** C1: the breaker implements its abstract specification: for every sequence
    of calls, with any time passing in between, the code terminates within its
    fuel, gives the answers of the abstract state machine and ends in a memory
    that represents the machine's state. *)
Theorem breaker_refines_spec config os :
  config_wf config → forward os → ticks os ≤ u64_max →
  let '(answers, now, b) := a_exec_all config os 0 (AClosed 0) in
  ∃ m, exec_all config os new_breaker = Some (answers, m) ∧ clock m = now ∧ models m b.
Proof. intros Hc Hf Ht. apply (exec_all_refines config os new_breaker); auto using models_new. Qed.

(** once half-open with [p] probes out, the breaker admits exactly the
    first [half_open_max_probes - p] of the requests that arrive before an
    outcome is reported, and rejects all others. *)
Theorem half_open_probe_limit config os m p :
  config_wf config → models m (AHalfOpen p) → p ≤ half_open_max_probes config →
  Forall observing os → forward os → clock m + ticks os ≤ u64_max →
  ∃ answers m', exec_all config os m = Some (answers, m') ∧
    admitted answers = Z.min (requests os) (half_open_max_probes config - p).
Proof.
  intros Hc Hm Hp Hobs Hf Ht. pose proof (exec_all_refines config os m _ Hc Hm Hf Ht) as Hex.
  pose proof (a_half_open_probes config os (clock m) p Hobs) as Ha.
  destruct Hm as (_ & _ & _ & _ & ?).
  destruct (a_exec_all config os _ _) as [[answers ?] b].
  destruct Hex as (m' & ? & _). exists answers, m'. split; [done|]. apply Ha. lia.
Qed.

(** while the recovery timeout has not elapsed since the breaker opened,
    every request is rejected and the state stays [Open]. *)
Theorem open_breaker_fails_fast config os m since f :
  config_wf config → models m (AOpen since f) → Forall observing os → forward os →
  clock m + ticks os ≤ u64_max → clock m + ticks os < since + recovery_timeout config →
  ∃ answers m', exec_all config os m = Some (answers, m') ∧ models m' (AOpen since f) ∧
    Forall (λ a, a ∈ [AnsAllow false; AnsState Open; AnsUnit]) answers.
Proof.
  intros Hc Hm Hobs Hf Ht Hto. pose proof (exec_all_refines config os m _ Hc Hm Hf Ht) as Hex.
  destruct Hm as (_ & _ & _ & _ & _ & _ & ?).
  pose proof (a_open_rejects config os (clock m) since f Hobs Hf) as Ha.
  destruct (a_exec_all config os _ _) as [[answers ?] b].
  destruct Ha as [? ->]; [lia..|]. destruct Hex as (m' & ? & _ & ?). eauto 6.
Qed.

(** a new breaker admits every request until [failure_threshold] failures
    have been reported with no success in between; the failure that reaches
    the threshold opens it, and the next request is rejected. *)
Theorem opens_exactly_at_threshold config os :
  config_wf config → 0 < recovery_timeout config → forward os → ticks os ≤ u64_max →
  OpSuccess ∉ os → failures os + 1 = failure_threshold config →
  ∃ answers m, exec_all config (os ++ [OpFailure; OpAllow; OpState]) new_breaker =
      Some (answers ++ [AnsUnit; AnsAllow false; AnsState Open], m) ∧
    Forall (λ a, a ∈ [AnsAllow true; AnsState Closed; AnsUnit]) answers.
Proof.
  intros Hc Hto Hf Ht Hns Hthr.
  assert (forward (os ++ [OpFailure; OpAllow; OpState])) as Hf'.
  { apply Forall_app; split; [done|]. repeat constructor; done. }
  assert (ticks (os ++ [OpFailure; OpAllow; OpState]) = ticks os) as Ht'.
  { clear. induction os as [|o os IH]; simpl; [done|]. by rewrite IH. }
  pose proof (exec_all_refines config _ new_breaker _ Hc models_new Hf' ltac:(simpl; lia)) as Hex.
  rewrite a_exec_all_app in Hex.
  pose proof (a_closed_counts config os 0 0 Hns ltac:(lia) ltac:(lia)) as Ha.
  change (clock new_breaker) with 0 in Hex.
  destruct (a_exec_all config os 0 (AClosed 0)) as [[answers now] b]. destruct Ha as [? ->].
  a_run Hex. destruct Hex as (m & Hex & _). exists answers, m. split; [exact Hex|done].
Qed.

(** C33: a breaker that admits at least one probe does not lock its callers out:
    whatever its history of calls and waits, if its first call came after time
    had passed, then after one more report - of a success or of a failure - and a
    wait of the recovery timeout the next request is admitted. A breaker that is
    open and has waited so long admits a probe without any report; if the probe
    succeeds the breaker is closed, and if it fails (and the timeout is not zero)
    the breaker is open again and rejects the next request. *)
Theorem breaker_recovers config t os report d :
  config_wf config → 1 ≤ half_open_max_probes config →
  0 < t → forward os → recovery_timeout config ≤ d → t + ticks os + d ≤ u64_max →
  (report = OpSuccess ∨ report = OpFailure) →
  let history := OpTick t :: os in
  (∃ answers m, exec_all config (history ++ [report; OpTick d; OpAllow]) new_breaker =
     Some (answers ++ [AnsUnit; AnsUnit; AnsAllow true], m)) ∧
  (a_state (a_exec_all config history 0 (AClosed 0)).2 = Open →
   (∃ answers m, exec_all config (history ++ [OpTick d; OpAllow; OpSuccess; OpState]) new_breaker =
      Some (answers ++ [AnsUnit; AnsAllow true; AnsUnit; AnsState Closed], m)) ∧
   (0 < recovery_timeout config →
    ∃ answers m, exec_all config (history ++ [OpTick d; OpAllow; OpFailure; OpAllow; OpState]) new_breaker =
      Some (answers ++ [AnsUnit; AnsAllow true; AnsUnit; AnsAllow false; AnsState Open], m))).
Proof.
  intros Hc Hmax Ht Hf Hd Hlim Hreport history. pose proof Hc as (_ & [Hto _] & _).
  assert (∀ tail, forward tail → ticks tail = d →
    forward (history ++ tail) ∧ ticks (history ++ tail) ≤ u64_max) as Hlegal.
  { intros tail Htail Hticks. rewrite ticks_app. split; [|unfold history; simpl; lia].
    apply Forall_app. split; [constructor; [simpl; lia|done]|done]. }
  pose proof (a_exec_all_opened config os t (AClosed 0) Ht Hf I) as Hopened.
  pose proof (a_exec_all_clock config os t (AClosed 0)) as Hclock.
  assert (∀ tail, forward tail → ticks tail = d → let '(answers, now, b) :=
    a_exec_all config history 0 (AClosed 0) in ∃ m, exec_all config (history ++ tail) new_breaker =
    Some (answers ++ (a_exec_all config tail now b).1.1, m)) as Hafter.
  { intros tail Htail Hticks. by apply exec_all_after; [|apply Hlegal..]. }
  unfold history in *. cbn [a_exec_all a_exec] in *. rewrite Z.add_0_l in *.
  pose proof (ticks_nonneg os Hf).
  destruct (a_exec_all config os t (AClosed 0)) as [[answers now] b]. simpl in Hopened, Hclock. subst now.
  split; [|intros Hopen; destruct b as [|since f|]; try done;
    destruct (a_probe_outcomes config _ d since f Hopened Hd Hmax) as [Hsucc Hfail]; split; [|intros Hpos]].
  - destruct (Hafter [report; OpTick d; OpAllow]) as [m Hex];
      [by destruct Hreport; subst; repeat constructor; simpl; lia|by destruct Hreport; subst; simpl; lia|].
    rewrite a_report_recovers in Hex by (done || lia). by exists (AnsUnit :: answers), m.
  - destruct (Hafter [OpTick d; OpAllow; OpSuccess; OpState]) as [m Hex];
      [by repeat constructor; simpl; lia|simpl; lia|].
    rewrite Hsucc in Hex. by exists (AnsUnit :: answers), m.
  - destruct (Hafter [OpTick d; OpAllow; OpFailure; OpAllow; OpState]) as [m Hex];
      [by repeat constructor; simpl; lia|simpl; lia|].
    rewrite Hfail in Hex by lia. by exists (AnsUnit :: answers), m.
Qed.

(** an opening recorded at elapsed time 0 is taken for "never opened":
    a breaker that trips before its clock has advanced stays open for ever,
    whatever the recovery timeout. *)
Theorem opened_at_zero_never_recovers config d :
  config_wf config → failure_threshold config ≤ 1 → 0 ≤ d ≤ u64_max →
  ∃ m, exec_all config [OpFailure; OpTick d; OpAllow; OpState] new_breaker =
    Some ([AnsUnit; AnsUnit; AnsAllow false; AnsState Open], m).
Proof.
  intros Hc Hthr Hd.
  pose proof (exec_all_refines config [OpFailure; OpTick d; OpAllow; OpState] new_breaker _
    Hc models_new) as Hex.
  a_run Hex.
  destruct Hex as (m & ? & _); [repeat constructor; simpl; lia|simpl; lia|eauto].
Qed.

(** ** Witnesses: the configuration of the crate's own tests *)

Definition test_config : CircuitBreakerConfig :=
  {| failure_threshold := 2; recovery_timeout := Duration.from_millis 1;
     half_open_max_probes := 1 |}.
Definition half_open_mem : Mem := mkMem HALF_OPEN_U8 0 0 1 3000000.
Definition open_mem : Mem := mkMem OPEN_U8 2 0 5 10.

Lemma breaker_refines_spec_witness :
  ∃ m, exec_all test_config [OpTick 7; OpFailure; OpAllow; OpFailure; OpAllow] new_breaker =
    Some ([AnsUnit; AnsUnit; AnsAllow true; AnsUnit; AnsAllow false], m) ∧ clock m = 7 ∧
    models m (AOpen 7 2).
Proof.
  apply (breaker_refines_spec test_config [OpTick 7; OpFailure; OpAllow; OpFailure; OpAllow]);
    [by vm_compute|repeat constructor; by vm_compute|by vm_compute].
Defined.

Lemma half_open_probe_limit_witness :
  ∃ answers m, exec_all test_config [OpAllow; OpAllow; OpAllow] half_open_mem = Some (answers, m) ∧
    admitted answers = 1.
Proof.
  apply (half_open_probe_limit test_config [OpAllow; OpAllow; OpAllow] half_open_mem 0);
    [by vm_compute..|repeat constructor|repeat constructor; by vm_compute|by vm_compute].
Defined.

Lemma open_breaker_fails_fast_witness :
  ∃ answers m, exec_all test_config [OpAllow; OpTick 100; OpAllow] open_mem = Some (answers, m) ∧
    models m (AOpen 5 2) ∧ Forall (λ a, a ∈ [AnsAllow false; AnsState Open; AnsUnit]) answers.
Proof.
  apply open_breaker_fails_fast;
    [by vm_compute|by vm_compute|repeat constructor|repeat constructor; by vm_compute|by vm_compute..].
Defined.

Lemma opens_exactly_at_threshold_witness :
  ∃ answers m, exec_all test_config ([OpFailure; OpAllow] ++ [OpFailure; OpAllow; OpState]) new_breaker =
      Some (answers ++ [AnsUnit; AnsAllow false; AnsState Open], m) ∧
    Forall (λ a, a ∈ [AnsAllow true; AnsState Closed; AnsUnit]) answers.
Proof.
  apply opens_exactly_at_threshold;
    [by vm_compute|by vm_compute|repeat constructor; by vm_compute|by vm_compute|set_solver|done].
Defined.

Lemma breaker_recovers_witness :
  ∃ answers m, exec_all test_config
      ([OpTick 7; OpFailure; OpFailure; OpAllow] ++ [OpFailure; OpTick 1000000; OpAllow]) new_breaker =
    Some (answers ++ [AnsUnit; AnsUnit; AnsAllow true], m).
Proof.
  refine (proj1 (breaker_recovers test_config 7 [OpFailure; OpFailure; OpAllow] OpFailure 1000000
    _ _ _ _ _ _ _));
    [by vm_compute|by vm_compute|by vm_compute|repeat constructor; by vm_compute|by vm_compute
    |by vm_compute|by right].
Defined.

Lemma opened_at_zero_never_recovers_witness :
  ∃ m, exec_all {| failure_threshold := 1; recovery_timeout := 1; half_open_max_probes := 1 |}
      [OpFailure; OpTick 1000000000; OpAllow; OpState] new_breaker =
    Some ([AnsUnit; AnsUnit; AnsAllow false; AnsState Open], m).
Proof. apply opened_at_zero_never_recovers; by vm_compute. Defined.
