(* ===== verification/BreakerConcurrency.v ===== *)
(** * BreakerConcurrency: the circuit breaker shared between threads

    The methods of {!CircuitBreaker} interleaved atomic action by atomic
    action, as concurrent RPC calls sharing one [Arc<CircuitBreaker>] do. *)
From S2P Require Import Prelude RustStd Atomics CircuitBreaker.

(** Time passes between the actions of the threads. *)
Definition time_passes (m m' : Mem) : Prop := ∃ d, 0 ≤ d ∧ m' = set_clock (clock m + d) m.

(** A thread runs one method and keeps its answer. *)
Definition call_thread (config : CircuitBreakerConfig) (o : op) : prog Mem answer :=
  match o with
  | OpState => prog_bind (state_method config) (λ s, Ret (AnsState s))
  | OpAllow => prog_bind (allow_request config) (λ r, Ret (AnsAllow r))
  | OpSuccess => prog_bind (record_success config) (λ _, Ret AnsUnit)
  | OpFailure => prog_bind (record_failure config) (λ _, Ret AnsUnit)
  | OpTick _ => Ret AnsUnit
  end.

(** ** The invariant of the atomics *)

Definition mem_inv (config : CircuitBreakerConfig) (m : Mem) : Prop :=
  (state m = CLOSED_U8 ∨ state m = OPEN_U8 ∨ state m = HALF_OPEN_U8) ∧
  u32 (consecutive_failures m) ∧
  0 ≤ half_open_probes m ≤ half_open_max_probes config ∧
  u64 (opened_at_nanos m).

Section Safe.
Context (config : CircuitBreakerConfig) (Hwf : config_wf config).

Lemma mem_inv_state v m :
  v = CLOSED_U8 ∨ v = OPEN_U8 ∨ v = HALF_OPEN_U8 →
  mem_inv config m → mem_inv config (set_state v m).
Proof. unfold mem_inv. simpl. tauto. Qed.

Lemma mem_inv_failures v m : u32 v → mem_inv config m → mem_inv config (set_failures v m).
Proof. unfold mem_inv. simpl. tauto. Qed.

Lemma mem_inv_probes v m :
  0 ≤ v ≤ half_open_max_probes config → mem_inv config m → mem_inv config (set_probes v m).
Proof. unfold mem_inv. simpl. tauto. Qed.

Lemma mem_inv_opened v m : u64 v → mem_inv config m → mem_inv config (set_opened_at v m).
Proof. unfold mem_inv. simpl. tauto. Qed.

Lemma as_u64_bounds n : u64 (as_u64 n).
Proof. unfold as_u64, u64. pose proof (Z.mod_pos_bound n (u64_max + 1)). zlia. Qed.

Lemma zero_bounds : u32 0 ∧ u64 0 ∧ 0 ≤ 0 ≤ half_open_max_probes config.
Proof using Hwf. destruct Hwf as (_&_&?). zlia. Qed.

#[local] Hint Resolve mem_inv_state mem_inv_failures mem_inv_probes mem_inv_opened
  as_u64_bounds : core.

(** Walks a method action by action: the memory before each action is any
    memory that satisfies the invariant. *)
Ltac safe_walk :=
  repeat match goal with
  | |- True => exact I
  | |- safe _ (prog_bind _ _) => apply safe_bind
  | |- safe _ (Act _ _) => let m := fresh "m" in let Hm := fresh "Hm" in
      intros m Hm; unfold elapsed, load, store, swap, compare_exchange, fetch_add;
      cbn [fst snd]; split
  | |- safe _ (Ret _) => exact I
  | |- ∀ _, safe _ _ => intros ?
  | |- safe _ (if ?b then _ else _) => destruct b eqn:?
  | |- safe _ (match ?x with _ => _ end) => destruct x
  | |- mem_inv _ _ => first [assumption | solve [eauto 6 using zero_bounds]]
  | |- context [if ?b then (true, _) else (false, _)] => destruct b eqn:?; cbn [fst snd]
  end.

Lemma safe_refresh : safe (mem_inv config) (refresh_state config).
Proof using Hwf.
  destruct zero_bounds as (?&?&?). unfold refresh_state. safe_walk.
Qed.

Lemma safe_open : safe (mem_inv config) open.
Proof using Hwf.
  destruct zero_bounds as (?&?&?). unfold open. safe_walk.
Qed.

Lemma safe_acquire : safe (mem_inv config) (acquire_half_open_probe config).
Proof using Hwf.
  split; [|intros ?; exact I]. unfold acquire_attempt. safe_walk.
  apply mem_inv_probes; [|done]. reflect_bools.
  match goal with H : mem_inv config m |- _ => destruct H as (_&_&?&_) end.
  destruct Hwf as (_&_&?). zlia.
Qed.

#[local] Hint Resolve safe_refresh safe_open safe_acquire : core.

Lemma safe_call o : safe (mem_inv config) (call_thread config o).
Proof using Hwf.
  destruct zero_bounds as (?&?&?).
  destruct o; unfold call_thread, state_method, allow_request, record_success, record_failure;
    safe_walk; auto.
  apply mem_inv_failures; [|done]. pose proof (wrapping_add_u32_bounds (consecutive_failures m0)).
  unfold u32. lia.
Qed.
End Safe.

(** ** Executing a schedule *)

(** Lets the threads named in [schedule] take one step each, in order. *)
Fixpoint run_schedule {A} (schedule : list nat) (c : list (prog Mem A) * Mem) :
    option (list (prog Mem A) * Mem) :=
  match schedule with
  | [] => Some c
  | i :: schedule' =>
      p ← c.1 !! i;
      '(p', m') ← thread_step p c.2;
      run_schedule schedule' (<[i := p']> c.1, m')
  end.

Lemma run_schedule_sound {A} {env : Mem → Mem → Prop} schedule (c c' : list (prog Mem A) * Mem) :
  run_schedule schedule c = Some c' → rtc (pool_step env) c c'.
Proof.
  revert c. induction schedule as [|i schedule IH]; intros [ts m]; simpl.
  { intros [= <-]. reflexivity. }
  destruct (ts !! i) as [p|] eqn:Hp; simpl; [|done].
  destruct (thread_step p m) as [[p' m']|] eqn:Hs; simpl; [|done].
  intros Hrun%IH. eapply rtc_l; [|done]. by eapply PoolThread.
Qed.

(** The breaker of a one-probe target whose recovery timeout has elapsed. *)
Definition one_probe_config : CircuitBreakerConfig :=
  {| failure_threshold := 1; recovery_timeout := Duration.from_millis 1;
     half_open_max_probes := 1 |}.
Definition recovering_history : list op := [OpTick 1; OpFailure; OpTick 2000000].

(** ** Properties *)

(** whatever methods run concurrently on a shared breaker and however
    their atomic actions interleave, the state byte always names a state, the
    counters stay in range, and the probe counter never exceeds
    [half_open_max_probes]. *)
Theorem shared_breaker_invariant config ops ts m m' :
  config_wf config → mem_inv config m →
  rtc (pool_step time_passes) (call_thread config <$> ops, m) (ts, m') →
  mem_inv config m'.
Proof.
  intros Hwf Hm Hsteps.
  eapply (pool_invariant time_passes (mem_inv config)) in Hsteps as [_ ?]; [done| | |done].
  - intros m1 m2 Hm1 (d & _ & ->). exact Hm1.
  - apply Forall_forall. intros p (o & -> & _)%list_elem_of_fmap. by apply safe_call.
Qed.

(** C34: two concurrent [allow_request] calls on a breaker configured for a
    single probe can both be admitted: the thread that moved the state to
    half-open resets the probe counter after the other thread has taken the
    only slot. *)
Theorem half_open_admits_two_probes :
  ∃ m ts m',
    exec_all one_probe_config recovering_history new_breaker = Some ([AnsUnit; AnsUnit; AnsUnit], m) ∧
    half_open_max_probes one_probe_config = 1 ∧
    rtc (pool_step time_passes)
      (call_thread one_probe_config <$> [OpAllow; OpAllow], m) (ts, m') ∧
    ts = [Ret (AnsAllow true); Ret (AnsAllow true)].
Proof.
  eexists _, _, _. split; [vm_compute; reflexivity|]. split; [done|]. split.
  - apply (run_schedule_sound ([0;0;0;0] ++ [1;1;1;1;1] ++ [0;0;0;0;0;0])%nat).
    vm_compute. reflexivity.
  - reflexivity.
Qed.

(** when the half-open probe fails, a concurrent request can be admitted at
    the very instant of the failure: [open] publishes the state before the new
    opening time, so the other thread measures the recovery timeout from the
    previous opening. *)
Theorem failed_probe_skips_recovery_timeout :
  ∃ m ts m',
    exec_all one_probe_config (recovering_history ++ [OpAllow]) new_breaker =
      Some ([AnsUnit; AnsUnit; AnsUnit; AnsAllow true], m) ∧
    rtc (pool_step time_passes)
      (call_thread one_probe_config <$> [OpFailure; OpAllow], m) (ts, m') ∧
    ts = [Ret AnsUnit; Ret (AnsAllow true)] ∧ clock m' = clock m.
Proof.
  eexists _, _, _. split; [vm_compute; reflexivity|]. split.
  - apply (run_schedule_sound ([0;0;0] ++ [1;1;1;1;1;1;1;1;1;1] ++ [0;0;0])%nat).
    vm_compute. reflexivity.
  - split; reflexivity.
Qed.

(** ** Witnesses *)

Lemma shared_breaker_invariant_witness :
  mem_inv one_probe_config (mkMem CLOSED_U8 0 0 0 5).
Proof.
  apply (shared_breaker_invariant one_probe_config [OpAllow] (call_thread one_probe_config <$> [OpAllow])
    (mkMem CLOSED_U8 0 0 0 0) (mkMem CLOSED_U8 0 0 0 5)).
  - by vm_compute.
  - split; [by left|by vm_compute].
  - eapply rtc_l; [|reflexivity]. apply PoolEnv. exists 5. split; [lia|reflexivity].
Defined.
