(* ===== verification/BreakerProgress.v ===== *)
(** * BreakerProgress: what concurrent callers of the breaker can rely on

    Two guarantees of the interleaved methods of {!CircuitBreaker}: the calls
    of any number of threads finish within a number of atomic actions that
    depends on the number of threads only, and while the breaker stays
    half-open the admitted probes never exceed the limit. *)
From S2P Require Import Prelude RustStd Atomics CircuitBreaker BreakerConcurrency.

(** ** Counting the steps of a pool *)

(** [pool_run k c c']: [k] thread steps, and any passing of time, lead from
    [c] to [c']. *)
Inductive pool_run {A} : nat → list (prog Mem A) * Mem → list (prog Mem A) * Mem → Prop :=
| RunDone c : pool_run 0 c c
| RunThread k ts m i p p' m' c :
    ts !! i = Some p → thread_step p m = Some (p', m') →
    pool_run k (<[i := p']> ts, m') c → pool_run (S k) (ts, m) c
| RunTime k ts m m' c :
    time_passes m m' → pool_run k (ts, m') c → pool_run k (ts, m) c.

Definition returned {A} (p : prog Mem A) : Prop := ∃ a, p = Ret a.

Lemma thread_step_None {A} (p : prog Mem A) m : thread_step p m = None ↔ returned p.
Proof.
  unfold returned. destruct p as [A a|A B op k|A B body k]; simpl.
  - split; [by eexists|done].
  - destruct (op m). split; [done|]. by intros [? ?].
  - split; [done|]. by intros [? ?].
Qed.

(** ** The cost of a thread

    A thread has [writes] writes to the probe counter left, and [steps] steps
    if no other thread writes it. A thread about to exchange the counter
    against a value it has observed pays a further attempt when the counter
    has changed since. *)

Definition retry_steps : nat := 3.

Definition due (steps : nat) (observed : option Z) (probes : Z) : nat :=
  match observed with
  | Some v => if probes =? v then steps else steps + retry_steps
  | None => steps
  end.

Section Cost.
Context (config : CircuitBreakerConfig) {A : Type}.

Definition exchange_probe (observed : Z) (k : bool → prog Mem A) : prog Mem A :=
  Act (compare_exchange half_open_probes set_probes observed (saturating_add u32_max observed 1))
    (λ exchanged,
       prog_bind (if (exchanged : bool) then Ret (Some true) else Ret None)
         (λ o, match o with Some b => k b | None => Loop (acquire_attempt config) k end)).

Inductive cost : nat → nat → option Z → prog Mem A → Prop :=
| CostRet w n a : cost w n None (Ret a)
| CostRead {B} (op : action Mem B) k w n :
    (∀ m, half_open_probes (op m).2 = half_open_probes m) →
    (∀ m, cost w n None (k (op m).1)) → cost w (S n) None (Act op k)
| CostWrite {B} (op : action Mem B) k w n :
    (∀ m, cost w n None (k (op m).1)) → cost (S w) (S n) None (Act op k)
| CostLoop k w n :
    (∀ b, cost w n None (k b)) →
    cost (S w) (3 + n) None (Loop (acquire_attempt config) k)
| CostAttempt k w n :
    (∀ b, cost w n None (k b)) →
    cost (S w) (2 + n) None (unroll (acquire_attempt config) k)
| CostExchange observed k w n :
    (∀ b, cost w n None (k b)) →
    cost (S w) (1 + n) (Some observed) (exchange_probe observed k)
| CostWeaken w n w' n' p :
    cost w n None p → (w ≤ w')%nat → (n ≤ n')%nat → cost w' n' None p.

(** A step costs: either the counter is left alone and fewer steps remain, or
    one of the writes is used up and fewer steps remain whatever the counter
    holds. *)
Lemma cost_step w n st p m p' m' :
  cost w n st p → thread_step p m = Some (p', m') →
  ∃ w' n' st', cost w' n' st' p' ∧
    ((half_open_probes m' = half_open_probes m ∧ (w' ≤ w)%nat ∧
      (due n' st' (half_open_probes m) < due n st (half_open_probes m))%nat) ∨
     ((w' < w)%nat ∧ ∀ v, (due n' st' v < due n st v)%nat)).
Proof.
  intros Hc. revert p' m'.
  induction Hc as [w n a|B op k w n Hop Hk _|B op k w n Hk _|k w n Hk _|k w n Hk _|v k w n Hk _
                  |w n w' n' p Hc IH Hw Hn]; intros p' m' Hs.
  - done.
  - simpl in Hs. specialize (Hop m). specialize (Hk m). destruct (op m) as [b m1].
    simplify_eq/=. exists w, n, None. split; [done|]. left. simpl. lia.
  - simpl in Hs. specialize (Hk m). destruct (op m) as [b m1].
    simplify_eq/=. exists w, n, None. split; [done|]. right. split; [lia|]. intros ?. simpl. lia.
  - simplify_eq/=. exists (S w), (2 + n)%nat, None. split; [by constructor|]. left. simpl. lia.
  - unfold unroll, acquire_attempt in Hs. simpl in Hs. simplify_eq.
    destruct (half_open_max_probes config <=? half_open_probes m') eqn:Hmax.
    + exists w, n, None. split; [apply Hk|]. right. split; [lia|]. intros ?. simpl. lia.
    + exists (S w), (1 + n)%nat, (Some (half_open_probes m')).
      split; [by apply (CostExchange (half_open_probes m'))|].
      left. simpl. rewrite Z.eqb_refl. lia.
  - unfold exchange_probe in Hs. simpl in Hs. unfold compare_exchange in Hs.
    destruct (half_open_probes m =? v) eqn:Hv; simplify_eq/=.
    + exists w, n, None. split; [apply Hk|]. right. split; [lia|]. intros u. unfold due.
      case_match; lia.
    + exists (S w), (3 + n)%nat, None. split; [by constructor|]. left. rewrite Hv.
      unfold retry_steps. simpl. lia.
  - destruct (IH _ _ Hs) as (w1 & n1 & st1 & Hc1 & Hor). exists w1, n1, st1.
    split; [done|]. simpl in *.
    destruct Hor as [(? & ? & ?)|[? Hd]]; [left; lia|right]. split; [lia|].
    intros v. specialize (Hd v). lia.
Qed.

End Cost.

(** Walks a method and pays for each action. *)
Ltac cost_walk :=
  repeat match goal with
  | |- cost _ _ _ _ (Ret _) => apply CostRet
  | |- cost _ _ _ _ (Act (store set_probes _) _) => apply CostWrite; intros ?; simpl
  | |- cost _ _ _ _ (Act _ _) => apply CostRead;
      [intros ?; unfold compare_exchange; repeat case_match; reflexivity|intros ?; simpl]
  | |- cost _ _ _ _ (Loop _ _) => apply CostLoop; intros ?; simpl
  | |- cost _ _ _ _ (prog_bind (if ?b then _ else _) _) => destruct b; simpl
  | |- cost _ _ _ _ (prog_bind (match ?x with _ => _ end) _) => destruct x; simpl
  | |- cost _ _ _ _ (prog_bind (prog_bind (if ?b then _ else _) _) _) => destruct b; simpl
  | |- cost _ _ _ _ (prog_bind (prog_bind (match ?x with _ => _ end) _) _) => destruct x; simpl
  end.

Definition call_writes : nat := 2.
Definition call_steps : nat := 12.

(** No method needs more. *)
Lemma cost_call config o : cost config call_writes call_steps None (call_thread config o).
Proof.
  unfold call_writes, call_steps, call_thread.
  destruct o; unfold state_method, allow_request, record_success, record_failure,
    refresh_state, acquire_half_open_probe, open; simpl; cost_walk.
Qed.

(** ** The potential of a pool *)

Abbreviation thread_cost := (nat * nat * option Z)%type.

Definition potential (threads : nat) (probes : Z) (c : thread_cost) : nat :=
  let '(w, n, observed) := c in w * (retry_steps * threads) + due n observed probes.

Fixpoint total (threads : nat) (probes : Z) (cs : list thread_cost) : nat :=
  match cs with
  | [] => 0
  | c :: cs' => potential threads probes c + total threads probes cs'
  end.

Lemma total_update threads v cs i c c' :
  cs !! i = Some c →
  (total threads v (<[i := c']> cs) + potential threads v c
   = total threads v cs + potential threads v c')%nat.
Proof.
  revert i. induction cs as [|d cs IH]; intros [|i] Hi; simplify_eq/=; [lia|].
  specialize (IH i Hi). lia.
Qed.

(** A write disturbs every thread by at most one attempt. *)
Lemma total_disturbed threads v v' cs :
  (total threads v' cs ≤ total threads v cs + retry_steps * length cs)%nat.
Proof.
  induction cs as [|[[w n] st] cs IH]; simpl; [lia|].
  assert (due n st v' ≤ due n st v + retry_steps)%nat; [|unfold retry_steps in *; lia].
  unfold due. destruct st; repeat case_match; lia.
Qed.

Definition priced (config : CircuitBreakerConfig) {A} (c : thread_cost) (p : prog Mem A) : Prop :=
  let '(w, n, observed) := c in cost config w n observed p.

(** A thread step lowers the potential of the whole pool. *)
Lemma pool_potential config {A} cs (ts : list (prog Mem A)) m i p p' m' :
  Forall2 (priced config) cs ts → ts !! i = Some p → thread_step p m = Some (p', m') →
  ∃ cs', Forall2 (priced config) cs' (<[i := p']> ts) ∧ length cs' = length cs ∧
    (total (length cs) (half_open_probes m') cs' < total (length cs) (half_open_probes m) cs)%nat.
Proof.
  intros Hf Hi Hs. destruct (Forall2_lookup_r _ _ _ _ _ Hf Hi) as ([[w n] st] & Hc & Hp).
  destruct (cost_step _ _ _ _ _ _ _ _ Hp Hs) as (w' & n' & st' & Hp' & Hor).
  exists (<[i := (w', n', st')]> cs). split; [by apply Forall2_insert|].
  split; [apply length_insert|].
  pose proof (total_update (length cs) (half_open_probes m') cs i _ (w', n', st') Hc) as Hu.
  unfold potential in Hu; cbn beta iota in Hu. destruct Hor as [(Hv & Hw & Hd)|[Hw Hd]].
  - rewrite Hv in *. pose proof (Nat.mul_le_mono_r w' w (retry_steps * length cs) Hw). lia.
  - specialize (Hd (half_open_probes m')).
    pose proof (total_disturbed (length cs) (half_open_probes m) (half_open_probes m') cs).
    pose proof (Nat.mul_le_mono_r (S w') w (retry_steps * length cs) Hw). lia.
Qed.

Lemma run_potential config {A} k cs (c c' : list (prog Mem A) * Mem) :
  pool_run k c c' → Forall2 (priced config) cs c.1 →
  ∃ cs', Forall2 (priced config) cs' c'.1 ∧
    (k + total (length cs) (half_open_probes c'.2) cs'
     ≤ total (length cs) (half_open_probes c.2) cs)%nat.
Proof.
  intros Hrun. revert cs. induction Hrun as [c|k ts m i p p' m' c Hi Hs Hrun IH
                                            |k ts m m' c (d & _ & ->) Hrun IH]; intros cs Hf.
  - by exists cs.
  - destruct (pool_potential _ _ _ _ _ _ _ _ Hf Hi Hs) as (cs1 & Hf1 & Hlen & Hlt).
    destruct (IH cs1 Hf1) as (cs' & Hf' & Hle). exists cs'. split; [done|].
    rewrite Hlen in Hle. simpl in *. lia.
  - destruct (IH cs Hf) as (cs' & Hf' & Hle). by exists cs'.
Qed.

(** The bound for [n] concurrent calls. *)
Definition pool_bound (n : nat) : nat :=
  n * (call_writes * (retry_steps * n) + call_steps).

Lemma total_replicate threads v n c :
  total threads v (replicate n c) = (n * potential threads v c)%nat.
Proof. induction n as [|n IH]; simpl; [done|]. by rewrite IH. Qed.

(** ** Probes while the breaker stays half-open *)

Definition result_of {A} (p : prog Mem A) : option A :=
  match p with Ret a => Some a | _ => None end.

Definition answered (a : answer) (p : prog Mem answer) : bool :=
  match result_of p, a with
  | Some (AnsAllow b), AnsAllow b' => Bool.eqb b b'
  | _, _ => false
  end.

(** How many threads have been admitted. *)
Fixpoint admissions (ts : list (prog Mem answer)) : Z :=
  match ts with
  | [] => 0
  | p :: ts' => (if answered (AnsAllow true) p then 1 else 0) + admissions ts'
  end.

Section Probes.
Context (config : CircuitBreakerConfig) (Hwf : config_wf config).

(** The programs a caller goes through while the state is half-open. *)
Inductive probing : prog Mem answer → Prop :=
| ProbeTick : probing (Ret AnsUnit)
| ProbeState : probing (call_thread config OpState)
| ProbeStateRead : probing (Act (load state) (λ v, Ret (AnsState (from_u8 v))))
| ProbeStateDone s : probing (Ret (AnsState s))
| ProbeAllow : probing (call_thread config OpAllow)
| ProbeAllowRead :
    probing (Act (load state) (λ v, prog_bind
      (match from_u8 v with
       | Closed => Ret true
       | Open => Ret false
       | HalfOpen => acquire_half_open_probe config
       end) (λ r, Ret (AnsAllow r))))
| ProbeLoop : probing (Loop (acquire_attempt config) (λ r, Ret (AnsAllow r)))
| ProbeAttempt : probing (unroll (acquire_attempt config) (λ r, Ret (AnsAllow r)))
| ProbeExchange observed :
    observed < half_open_max_probes config →
    probing (exchange_probe config observed (λ r, Ret (AnsAllow r)))
| ProbeDone b : probing (Ret (AnsAllow b)).

(** One step: an admission takes one slot, a rejection means that none is
    left. *)
Lemma probing_step p m p' m' :
  probing p → thread_step p m = Some (p', m') →
  state m = HALF_OPEN_U8 → 0 ≤ half_open_probes m ≤ half_open_max_probes config →
  probing p' ∧ state m' = HALF_OPEN_U8 ∧
  half_open_probes m ≤ half_open_probes m' ≤ half_open_max_probes config ∧
  answered (AnsAllow true) p = false ∧ answered (AnsAllow false) p = false ∧
  half_open_probes m' = half_open_probes m + (if answered (AnsAllow true) p' then 1 else 0) ∧
  (answered (AnsAllow false) p' = true → half_open_probes m' = half_open_max_probes config).
Proof using Hwf.
  intros Hp Hs Hst Hm. destruct Hwf as (_ & _ & Hmax).
  destruct Hp as [| | |s| | | | |o Ho|b]; simpl in Hs; try done.
  all: try (unfold load, compare_exchange in Hs; rewrite ?Hst in Hs).
  6: destruct (Z.leb_spec (half_open_max_probes config) (half_open_probes m)).
  8: destruct (Z.eqb_spec (half_open_probes m) o) as [->|].
  all: simplify_eq/=; split_and!; unfold saturating_add, u32 in *;
    first [done | lia | by apply ProbeStateRead | by apply ProbeStateDone | by apply ProbeAllowRead
          | by apply ProbeLoop | by apply ProbeAttempt | by apply ProbeExchange | by apply ProbeDone].
Qed.

Lemma admissions_update ts i p p' :
  ts !! i = Some p →
  admissions (<[i := p']> ts) = admissions ts + (if answered (AnsAllow true) p' then 1 else 0)
                                - (if answered (AnsAllow true) p then 1 else 0).
Proof.
  revert i. induction ts as [|q ts IH]; intros [|i] Hi; simplify_eq/=; [lia|].
  rewrite IH by done. lia.
Qed.

Definition rejected (ts : list (prog Mem answer)) : Prop :=
  Exists (λ p, answered (AnsAllow false) p = true) ts.

(** The configurations of callers that started with [taken] slots in use. *)
Record probes_inv (taken : Z) (c : list (prog Mem answer) * Mem) : Prop := {
  pi_threads : Forall probing c.1;
  pi_state : state c.2 = HALF_OPEN_U8;
  pi_range : 0 ≤ half_open_probes c.2 ≤ half_open_max_probes config;
  pi_count : half_open_probes c.2 = taken + admissions c.1;
  pi_full : rejected c.1 → half_open_probes c.2 = half_open_max_probes config
}.

Lemma probes_inv_step taken c c' :
  pool_step time_passes c c' → probes_inv taken c → probes_inv taken c'.
Proof using Hwf.
  intros Hstep [Hts Hst Hr Hc Hfull].
  destruct Hstep as [ts m i p p' m' Hi Hs|ts m m' (d & _ & ->)]; [|by split].
  simpl in *. pose proof (Forall_lookup_1 _ _ _ _ Hts Hi) as Hp.
  destruct (probing_step _ _ _ _ Hp Hs Hst Hr) as (Hp' & Hst' & Hr' & Ht & Hf & Hcount & Hlast).
  split; simpl; [by apply Forall_insert|done|lia| |].
  - rewrite (admissions_update ts i p) by done. rewrite Ht. lia.
  - intros (q & [j Hj]%list_elem_of_lookup_1 & Hq)%Exists_exists.
    destruct (decide (i = j)) as [->|Hne].
    + rewrite list_lookup_insert_eq in Hj by (by eapply lookup_lt_Some). simplify_eq. by apply Hlast.
    + rewrite list_lookup_insert_ne in Hj by done.
      assert (half_open_probes m = half_open_max_probes config); [|lia].
      apply Hfull. apply Exists_exists. exists q. split; [by eapply list_elem_of_lookup_2|done].
Qed.
End Probes.

(** ** Properties *)

(** C4: concurrent calls on a shared breaker terminate: however the scheduler
    interleaves [n] calls, together they perform at most [6 n² + 12 n] atomic
    actions, and as long as one of them has not returned, one can go on; the
    compare-and-exchange loop cannot be starved for ever. *)
Theorem concurrent_calls_terminate config ops m k ts m' :
  pool_run k (call_thread config <$> ops, m) (ts, m') →
  (k ≤ pool_bound (length ops))%nat ∧
  (Forall returned ts ∨ ∃ i p, ts !! i = Some p ∧ is_Some (thread_step p m')).
Proof.
  intros Hrun. split.
  - set (cs := replicate (length ops) (call_writes, call_steps, @None Z)).
    assert (Forall2 (priced config) cs (call_thread config <$> ops)) as Hf.
    { unfold cs. clear Hrun. induction ops as [|o ops IH]; simpl; constructor; [|done].
      apply cost_call. }
    destruct (run_potential config k cs _ _ Hrun Hf) as (cs' & _ & Hle). simpl in Hle.
    unfold cs in Hle. rewrite total_replicate, length_replicate in Hle. unfold pool_bound.
    simpl in *. lia.
  - clear Hrun. induction ts as [|p ts [IH|(i & q & Hi & Hq)]]; [by left| |].
    + destruct (thread_step p m') eqn:Hs; [right; exists 0%nat, p; by rewrite Hs|].
      left. constructor; [by eapply thread_step_None|done].
    + right. by exists (S i), q.
Qed.

(** C30: while the breaker stays half-open, concurrent [allow_request] calls are
    admitted up to the limit and no further: the admissions are exactly the
    slots taken, and a call is rejected only when every slot is taken. *)
Theorem concurrent_probe_limit config ops m ts m' :
  config_wf config → state m = HALF_OPEN_U8 →
  0 ≤ half_open_probes m ≤ half_open_max_probes config →
  Forall (λ o, o = OpAllow ∨ o = OpState) ops →
  rtc (pool_step time_passes) (call_thread config <$> ops, m) (ts, m') →
  half_open_probes m + admissions ts = half_open_probes m' ∧
  half_open_probes m' ≤ half_open_max_probes config ∧
  (rejected ts → admissions ts = half_open_max_probes config - half_open_probes m).
Proof.
  intros Hwf Hst Hr Hops Hsteps.
  assert (probes_inv config (half_open_probes m) (call_thread config <$> ops, m)) as Hinv.
  { assert (Forall (probing config) (call_thread config <$> ops) ∧
            admissions (call_thread config <$> ops) = 0 ∧
            (rejected (call_thread config <$> ops) → False)) as (Ht & Ha & Hrej).
    { clear Hsteps. unfold rejected.
      induction Hops as [|o ops [->| ->] _ (IH1 & IH2 & IH3)]; simpl;
        [split_and!; [done|done|by intros ?%Exists_nil]|..];
        (split_and!; [by constructor; [constructor|]|done|intros [?|?]%Exists_cons; [done|auto]]). }
    split; simpl; [done|done|done|lia|done]. }
  apply (rtc_ind_r (λ c, probes_inv config (half_open_probes m) c)) in Hsteps as [_ _ Hr' Hc Hfull];
    [|done|intros c c' _ Hs Hc; by eapply probes_inv_step]. simpl in *.
  split_and!; [done|lia|]. intros Hrej. specialize (Hfull Hrej). lia.
Qed.

(** ** Witnesses *)

(** Two callers compete for the last slot: the first observes the counter, the
    second takes the slot, the first tries again and is rejected. *)
Definition last_slot : Mem := mkMem HALF_OPEN_U8 0 0 1 9.

Lemma concurrent_calls_terminate_witness :
  (4 ≤ pool_bound 1)%nat.
Proof.
  apply (concurrent_calls_terminate one_probe_config [OpAllow] last_slot 4
    [exchange_probe one_probe_config 0 (λ r, Ret (AnsAllow r))] last_slot).
  do 4 (eapply (RunThread _ _ _ 0); [reflexivity|reflexivity|]). apply RunDone.
Defined.

Lemma concurrent_probe_limit_witness :
  rejected [Ret (AnsAllow false); Ret (AnsAllow true)] ∧
  admissions [Ret (AnsAllow false); Ret (AnsAllow true)] = 1.
Proof.
  assert (rejected [Ret (AnsAllow false); Ret (AnsAllow true)]) as Hrej by by repeat constructor.
  split; [exact Hrej|].
  apply (concurrent_probe_limit one_probe_config [OpAllow; OpAllow] last_slot
    [Ret (AnsAllow false); Ret (AnsAllow true)] (set_probes 1 last_slot)).
  - by vm_compute.
  - reflexivity.
  - by vm_compute.
  - repeat constructor.
  - apply (run_schedule_sound ([0;0;0;0] ++ [1;1;1;1;1] ++ [0;0;0])%nat). reflexivity.
  - exact Hrej.
Defined.
