(* ===== verification/BreakerTests.v ===== *)
(** * BreakerTests: the unit tests of [circuit_breaker.rs]

    The sequential tests are lists of operations with the time that passes
    between them, and pass for every such time within the bounds a test relies
    on. The multi-threaded test is a statement about every interleaving of its
    threads; it is an instance of {!concurrent_failures_open_breaker}: no
    failure reported to a shared breaker is lost, so enough of them open it. *)
From S2P Require Import Prelude RustStd Atomics CircuitBreaker BreakerConcurrency.
From S2P Require Import BreakerProgress.

(** ** Sequential tests *)

(** The answers of a fresh breaker to a list of operations. *)
Definition answers_of (config : CircuitBreakerConfig) (os : list op) : option (list answer) :=
  fst <$> exec_all config os new_breaker.

(** [lead] is the time from [new] to the first failure, [slept] the time
    [thread::sleep] takes. *)
Definition opens_after_failure_threshold_and_recovers_in_half_open (lead slept : Z) : bool :=
  let config := {| failure_threshold := 2; recovery_timeout := Duration.from_millis 1;
                   half_open_max_probes := 1 |} in
  bool_decide (
    answers_of config
      [OpTick lead; OpFailure; OpAllow; OpFailure; OpAllow;
       OpTick slept; OpAllow; OpState; OpSuccess; OpState] =
    Some [AnsUnit; AnsUnit; AnsAllow true; AnsUnit; AnsAllow false;
          AnsUnit; AnsAllow true; AnsState HalfOpen; AnsUnit; AnsState Closed]).

Definition half_open_rejects_excess_probes_until_resolution (lead slept : Z) : bool :=
  let config := {| failure_threshold := 1; recovery_timeout := Duration.from_millis 1;
                   half_open_max_probes := 1 |} in
  bool_decide (
    answers_of config
      [OpTick lead; OpFailure; OpState; OpTick slept; OpState;
       OpAllow; OpAllow; OpFailure; OpState; OpAllow] =
    Some [AnsUnit; AnsUnit; AnsState Open; AnsUnit; AnsState HalfOpen;
          AnsAllow true; AnsAllow false; AnsUnit; AnsState Open; AnsAllow false]).

Definition half_open_allows_multiple_probes_when_configured (lead slept : Z) : bool :=
  let config := {| failure_threshold := 1; recovery_timeout := Duration.from_millis 1;
                   half_open_max_probes := 3 |} in
  bool_decide (
    answers_of config
      [OpTick lead; OpFailure; OpTick slept; OpState;
       OpAllow; OpAllow; OpAllow; OpAllow; OpSuccess; OpState] =
    Some [AnsUnit; AnsUnit; AnsUnit; AnsState HalfOpen;
          AnsAllow true; AnsAllow true; AnsAllow true; AnsAllow false; AnsUnit; AnsState Closed]).

(** ** The multi-threaded test *)

Section Threads.
Context (config : CircuitBreakerConfig).
Open Scope prog_scope.

(** The body of a thread of the test, [n] times. *)
Fixpoint fail_and_ask (n : nat) : prog Mem () :=
  match n with
  | O => Ret ()
  | S n' =>
      call _ := record_failure config;
      call _ := allow_request config;
      fail_and_ask n'
  end.

(** Time passes, and less than the recovery timeout in all. *)
Definition short_time (m m' : Mem) : Prop :=
  ∃ c, clock m ≤ c < recovery_timeout config ∧ m' = set_clock c m.
End Threads.

Definition shared_breaker_is_safe_across_threads : Prop :=
  let config := {| failure_threshold := 100; recovery_timeout := Duration.from_secs 60;
                   half_open_max_probes := 1 |} in
  ∀ ts m,
    rtc (pool_step (short_time config)) (replicate 8 (fail_and_ask config 100), new_breaker) (ts, m) →
    Forall returned ts →
    fst <$> run seq_fuel (state_method config) m = Some Open.

(** ** Counting failures across threads *)

Section Counting.
Context (config : CircuitBreakerConfig).

(** The memories of the test: never half-open, the timeout never over. *)
Definition calm (m : Mem) : Prop :=
  (state m = CLOSED_U8 ∨ state m = OPEN_U8) ∧
  0 ≤ consecutive_failures m ∧ 0 ≤ opened_at_nanos m ∧
  0 ≤ clock m < recovery_timeout config.

(** [owes n pending p]: the thread [p] has [n] failures left to count, and
    still has to open the breaker if [pending]. Each action keeps the count
    and the state, opens the breaker, or counts one failure, and then leaves
    the opening pending if the count reached the threshold. *)
Fixpoint owes {A} (n : nat) (pending : bool) (p : prog Mem A) : Prop :=
  match p with
  | Ret _ => n = O ∧ pending = false
  | Act op k =>
      ∀ m, calm m → consecutive_failures m + Z.of_nat n ≤ u32_max →
        let m' := (op m).2 in
        calm m' ∧
        ((consecutive_failures m' = consecutive_failures m ∧
          ((state m' = state m ∧ owes n pending (k (op m).1)) ∨
           (state m' = OPEN_U8 ∧ owes n false (k (op m).1)))) ∨
         (pending = false ∧ state m' = state m ∧
          consecutive_failures m' = consecutive_failures m + 1 ∧
          ∃ n', n = S n' ∧
            owes n' (failure_threshold config <=? consecutive_failures m') (k (op m).1)))
  | Loop _ _ => False
  end.

Lemma owes_bind {A B} (p : prog Mem A) (f : A → prog Mem B) n n' pending :
  owes n pending p → (∀ a, owes n' false (f a)) → owes (n + n') pending (prog_bind p f).
Proof.
  revert f n pending. induction p as [A a|A C op k IH|A C body IHb k IHk];
    intros f n pending Hp Hf; cbn [owes prog_bind] in *; [|intros m Hm Hle|done].
  - destruct Hp as [-> ->]. apply Hf.
  - destruct (Hp m Hm) as [Hm' Hcases]; [lia|]. split; [done|].
    destruct Hcases as [(Hc & [[Hs Hk]|[Hs Hk]])|(-> & Hs & Hc & r & -> & Hk)].
    + left. split; [done|]. left. split; [done|]. by apply IH.
    + left. split; [done|]. right. split; [done|]. by apply IH.
    + right. split_and!; [done..|]. exists (r + n')%nat. split; [done|]. by apply IH.
Qed.

(** An action that neither counts nor changes the state. *)
Lemma owes_quiet {A B} (op : action Mem B) (k : B → prog Mem A) n pending :
  (∀ m, calm m → calm (op m).2 ∧ consecutive_failures (op m).2 = consecutive_failures m ∧
     state (op m).2 = state m ∧ owes n pending (k (op m).1)) →
  owes n pending (Act op k).
Proof. intros Hq m Hm _. destruct (Hq m Hm) as (? & ? & ? & ?). split; [done|]. naive_solver. Qed.

Lemma owes_refresh : owes 0 false (refresh_state config).
Proof.
  unfold refresh_state. apply owes_quiet. intros m Hm. split_and!; [done..|].
  case_bool_decide; [done|].
  apply owes_quiet. intros m1 Hm1. split_and!; [done..|]. cbn [load fst].
  destruct (opened_at_nanos m1 =? 0); [done|].
  apply owes_quiet. intros m2 Hm2. split_and!; [done..|]. cbn [elapsed load fst].
  rewrite (proj2 (Z.ltb_lt _ _)); [done|].
  destruct Hm1 as (_ & _ & ? & _), Hm2 as (_ & _ & _ & ?). unfold saturating_sub. lia.
Qed.

Lemma owes_open pending : owes 0 pending open.
Proof.
  unfold open. intros m Hm _. cbn [swap fst snd].
  split; [by destruct Hm as (_ & ? & ? & ?); split; [right|]|]. left. split; [done|]. right. split; [done|].
  apply owes_quiet. intros m1 Hm1. split_and!; [done..|].
  apply owes_quiet. intros m2 (Hs & Hf & _ & Hck). split; [|split_and!; [done..|]].
  { split; [exact Hs|]. split; [exact Hf|]. split; [apply as_u64_bounds|exact Hck]. }
  apply owes_quiet. intros m3 Hm3. by split_and!.
Qed.

(** What [refresh_state] and the load of the state are followed by. *)
Lemma owes_load_state {A} (k : Z → prog Mem A) n :
  owes n false (k CLOSED_U8) → owes n false (k OPEN_U8) →
  owes n false (prog_bind (refresh_state config) (λ _, Act (load state) k)).
Proof.
  intros Hc Ho. apply (owes_bind _ _ 0 n); [apply owes_refresh|]. intros _.
  apply owes_quiet. intros m Hm. split_and!; [done..|]. cbn [load fst].
  by destruct Hm as [[->| ->] _].
Qed.

Lemma owes_allow : owes 0 false (allow_request config).
Proof. by apply owes_load_state. Qed.

Lemma owes_failure : owes 1 false (record_failure config).
Proof.
  apply owes_load_state; change (bool_decide (from_u8 _ = HalfOpen)) with false; cbn match.
  all: intros m Hm Hle; unfold fetch_add; cbn [fst snd set_failures state consecutive_failures].
  all: destruct Hm as (Hs & Hf & Ho & Hck).
  all: rewrite wrapping_add_u32_small by lia; split; [split_and!; simpl; (done || lia)|].
  all: right; split_and!; [done..|]; exists O; split; [done|].
  all: unfold saturating_add; rewrite Z.min_r by lia; destruct (failure_threshold config <=? _);
    [apply owes_open|done].
Qed.

Lemma owes_thread n : owes n false (fail_and_ask config n).
Proof.
  induction n as [|n IH]; [done|]. cbn [fail_and_ask].
  apply (owes_bind _ _ 1 n); [apply owes_failure|]. intros _.
  apply (owes_bind _ _ 0 n); [apply owes_allow|]. by intros _.
Qed.

(** Failures the threads have left to count. *)
Definition left_to_count (gs : list (nat * bool)) : Z := Z.of_nat (sum_list_with fst gs).

Lemma left_to_count_insert gs i g g' :
  gs !! i = Some g →
  left_to_count (<[i := g']> gs) = left_to_count gs - Z.of_nat g.1 + Z.of_nat g'.1.
Proof.
  unfold left_to_count. revert i. induction gs as [|x gs IH]; intros [|i] Hi; simplify_eq/=; [lia|].
  apply IH in Hi. lia.
Qed.

(** No failure is lost, and a breaker that counted enough of them is open or
    has a thread about to open it. *)
Definition counted {A} (total : Z) (c : list (prog Mem A) * Mem) : Prop :=
  ∃ gs, Forall2 (λ p g, owes g.1 g.2 p) c.1 gs ∧ calm c.2 ∧
    consecutive_failures c.2 + left_to_count gs = total ∧
    (0 < consecutive_failures c.2 → failure_threshold config ≤ consecutive_failures c.2 →
     state c.2 = OPEN_U8 ∨ ∃ i n, gs !! i = Some (n, true)).

Lemma counted_env {A} total (ts : list (prog Mem A)) m m' :
  short_time config m m' → counted total (ts, m) → counted total (ts, m').
Proof.
  intros (c & Hc & ->) (gs & Hts & (? & ? & ? & ?) & Hsum & Hopen). exists gs. simpl in *.
  split_and!; [done| |done|done]. split_and!; simpl; (done || lia).
Qed.

Lemma counted_thread {A} total (ts : list (prog Mem A)) m i p p' m' :
  total ≤ u32_max → ts !! i = Some p → thread_step p m = Some (p', m') →
  counted total (ts, m) → counted total (<[i := p']> ts, m').
Proof.
  intros Ht Hi Hstep (gs & Hts & Hm & Hsum & Hopen). cbn [fst snd] in *.
  destruct (Forall2_lookup_l _ _ _ _ _ Hts Hi) as ([n pending] & Hg & Ho). cbn [fst snd] in Ho.
  pose proof (lookup_lt_Some _ _ _ Hg) as Hlt.
  assert (Z.of_nat n ≤ left_to_count gs) as Hn.
  { pose proof (left_to_count_insert gs i _ (O, false) Hg) as H0. simpl in H0.
    assert (0 ≤ left_to_count (<[i:=(O, false)]> gs)) by (unfold left_to_count; lia). lia. }
  destruct p as [|A B op k|]; [done| |done]. cbn [owes thread_step] in *.
  destruct (Ho m Hm) as [Hm' Hcases]; [lia|]. destruct (op m) as [b m1]. cbn [fst snd] in *.
  injection Hstep as <- <-.
  destruct Hcases as [(Hc & [[Hs Hk]|[Hs Hk]])|(-> & Hs & Hc & r & -> & Hk)].
  - exists gs. split_and!; cbn [fst snd]; [|done|by rewrite Hc|by rewrite Hc, Hs].
    rewrite <- (list_insert_id gs i (n, pending)) by done. by apply Forall2_insert.
  - exists (<[i := (n, false)]> gs). split_and!; cbn [fst snd]; [by apply Forall2_insert|done| |by left].
    rewrite (left_to_count_insert gs i _ _ Hg). simpl. lia.
  - exists (<[i := (r, failure_threshold config <=? consecutive_failures m1)]> gs).
    split_and!; cbn [fst snd]; [by apply Forall2_insert|done| |].
    + rewrite (left_to_count_insert gs i _ _ Hg). cbn [fst]. lia.
    + intros _ Hthr. right. exists i, r. rewrite list_lookup_insert_eq by done.
      by rewrite (proj2 (Z.leb_le _ _) Hthr).
Qed.

Lemma counted_run {A} total (c c' : list (prog Mem A) * Mem) :
  total ≤ u32_max → rtc (pool_step (short_time config)) c c' → counted total c → counted total c'.
Proof.
  intros Ht. induction 1 as [|c1 c2 c3 Hstep _ IH]; [done|]. intros Hc. apply IH.
  destruct Hstep; [by eapply counted_thread|by eapply counted_env].
Qed.

(** Once every thread has returned, nothing is left to count. *)
Lemma counted_returned {A} total (ts : list (prog Mem A)) m :
  counted total (ts, m) → Forall returned ts →
  calm m ∧ consecutive_failures m = total ∧
  (0 < total → failure_threshold config ≤ total → state m = OPEN_U8).
Proof.
  intros (gs & Hts & Hm & Hsum & Hopen) Hret. cbn [fst snd] in *.
  assert (Forall (λ g, g = (O, false)) gs) as Hgs.
  { apply Forall_lookup. intros i [n b] Hg.
    destruct (Forall2_lookup_r _ _ _ _ _ Hts Hg) as (p & Hp & Ho).
    destruct (Forall_lookup_1 _ _ _ _ Hret Hp) as [a ->].
    destruct Ho as [Hn Hb]. simpl in Hn, Hb. by subst. }
  assert (left_to_count gs = 0) as H0.
  { clear -Hgs. unfold left_to_count. induction Hgs as [|g gs -> _ IH]; simpl; lia. }
  assert (consecutive_failures m = total) as Hc by lia. split_and!; [done..|].
  intros Hpos Hthr. destruct Hopen as [?|(i & n & Hi)]; [lia..|done|].
  by pose proof (Forall_lookup_1 _ _ _ _ Hgs Hi).
Qed.

Lemma counted_start counts :
  0 < recovery_timeout config →
  counted (Z.of_nat (sum_list counts)) (fail_and_ask config <$> counts, new_breaker).
Proof.
  intros Hr. exists ((λ n, (n, false)) <$> counts). cbn [fst snd]. split_and!.
  - apply Forall2_fmap_2. apply Forall_Forall2_diag, Forall_true. intros n. apply owes_thread.
  - split_and!; simpl; (by left) || lia.
  - unfold left_to_count. cbn [consecutive_failures new_breaker]. rewrite Z.add_0_l. f_equal.
    induction counts as [|n counts IH]; [done|]. csimpl. by rewrite IH.
  - simpl. lia.
Qed.
End Counting.

(** ** Properties *)

(** C14: no failure reported to a shared breaker is lost: when threads report
    failures concurrently (and ask for admission in between), however their
    atomic actions interleave, once all have returned within the recovery
    timeout the failure counter is the number of reports, and the breaker is
    open if that number reaches the threshold. *)
Theorem concurrent_failures_open_breaker config counts ts m :
  0 < recovery_timeout config → Z.of_nat (sum_list counts) ≤ u32_max →
  rtc (pool_step (short_time config)) (fail_and_ask config <$> counts, new_breaker) (ts, m) →
  Forall returned ts →
  consecutive_failures m = Z.of_nat (sum_list counts) ∧
  (0 < Z.of_nat (sum_list counts) → failure_threshold config ≤ Z.of_nat (sum_list counts) →
   state m = OPEN_U8).
Proof.
  intros Hr Hmax Hrun Hret. eapply counted_returned; [|done].
  eapply counted_run; [done|done|by apply counted_start].
Qed.

(** The state a quiet, open breaker reports. *)
Lemma calm_open_state config m :
  calm config m → state m = OPEN_U8 → run seq_fuel (state_method config) m = Some (Open, m).
Proof.
  intros (_ & _ & Ho & Hc) Hs. unfold seq_fuel, state_method, refresh_state, load, elapsed. simpl.
  rewrite Hs. simpl. destruct (opened_at_nanos m =? 0); simpl; [by rewrite Hs|].
  rewrite (proj2 (Z.ltb_lt _ _)) by (unfold saturating_sub; lia). simpl. by rewrite Hs.
Qed.

Theorem shared_breaker_test_passes : shared_breaker_is_safe_across_threads.
Proof.
  unfold shared_breaker_is_safe_across_threads. intros ts m Hrun Hret.
  match type of Hrun with context [short_time ?c] => set (config := c) in * end.
  change (replicate 8 (fail_and_ask config 100))
    with (fail_and_ask config <$> replicate 8 100%nat) in Hrun.
  eapply (counted_run config (Z.of_nat (sum_list (replicate 8 100%nat)))) in Hrun;
    [|by vm_compute|by apply counted_start].
  destruct (counted_returned _ _ _ _ Hrun Hret) as (Hm & _ & Hopen).
  by rewrite (calm_open_state config m Hm) by (apply Hopen; by vm_compute).
Qed.

(** Runs a test's operations on the abstract breaker the code refines: the
    times that pass are variables. *)
Ltac by_history Hl Hs Hmax :=
  let Hd := fresh in
  assert (Duration.from_millis 2 = 2000000) as Hd by done; rewrite Hd in Hs;
  apply bool_decide_eq_true; unfold answers_of;
  match goal with |- context [exec_all ?config ?os _] =>
    let Href := fresh in let Ha := fresh in
    pose proof (exec_all_refines config os new_breaker (AClosed 0)) as Href;
    destruct (a_exec_all config os (clock new_breaker) (AClosed 0)) as [[? ?] ?] eqn:Ha;
    destruct Href as (? & -> & _);
      [by_compute|exact models_new|repeat constructor; simpl; lia|simpl; lia|];
    cbn [fmap option_fmap option_map fst]; f_equal;
    cbn [a_exec_all a_exec a_refresh a_allow a_failure a_state clock new_breaker] in Ha;
    repeat (cbn -[Z.add] in Ha; first
      [rewrite bool_decide_eq_true_2 in Ha by (unfold saturating_sub; zlia)
      |rewrite bool_decide_eq_false_2 in Ha by (unfold saturating_sub; zlia)]);
    by simplify_eq/=
  end.

(** The sequential tests pass whenever the first failure comes at least a
    nanosecond after the breaker was made and [sleep] sleeps as long as it is
    asked to. *)
Theorem breaker_tests_pass lead slept :
  0 < lead → Duration.from_millis 2 ≤ slept → lead + slept ≤ u64_max →
  opens_after_failure_threshold_and_recovers_in_half_open lead slept = true ∧
  half_open_rejects_excess_probes_until_resolution lead slept = true ∧
  half_open_allows_multiple_probes_when_configured lead slept = true.
Proof. intros Hl Hs Hmax. split_and!; by_history Hl Hs Hmax. Qed.

(** ** Witnesses *)

Definition two_failures_config : CircuitBreakerConfig :=
  {| failure_threshold := 2; recovery_timeout := Duration.from_secs 60; half_open_max_probes := 1 |}.

(** Two threads count one failure each in turn; the second opens the breaker. *)
Definition two_failures_schedule : list nat :=
  [0; 1; 0; 1; 0; 1; 0; 0; 1; 1; 1; 1; 1; 1; 1]%nat.

Lemma concurrent_failures_open_breaker_witness :
  state (mkMem OPEN_U8 2 0 0 0) = OPEN_U8.
Proof.
  refine (proj2 (@concurrent_failures_open_breaker two_failures_config [1; 1]%nat
    [Ret (); Ret ()] (mkMem OPEN_U8 2 0 0 0) _ _ _ _) _ _).
  - by_compute.
  - by_compute.
  - apply (run_schedule_sound two_failures_schedule). reflexivity.
  - repeat constructor; by eexists.
  - by_compute.
  - by_compute.
Defined.
