(* ===== verification/BreakerProgram.v ===== *)
(** * BreakerProgram: the circuit breaker's code with its orderings and events

    The methods of [sdkwork-rpc-resilience/src/circuit_breaker.rs] once more, as
    syntax: every atomic operation with the location it works on and the memory
    ordering it asks for, and every log event where the code emits it. The same
    text has three readings. {!erase} forgets orderings and events and gives
    back the programs of {!CircuitBreaker}; {!record} keeps the events in a log
    beside the memory; the release/acquire machine of {!BreakerWeakMemory}
    executes it on histories of writes. *)
From Stdlib Require Import FunctionalExtensionality.
From S2P Require Import Prelude RustStd Tracing Atomics CircuitBreaker.

(** ** The instructions *)

(** The memory orderings the breaker uses. *)
Inductive Ordering : Type := Acquire | Release | AcqRel.

Inductive Loc : Type := LState | LFailures | LProbes | LOpenedAt.

#[global] Instance Loc_eq_dec : EqDecision Loc.
Proof. solve_decision. Defined.

Inductive instr : Type → Type :=
| Load (l : Loc) (o : Ordering) : instr Z
| Store (l : Loc) (v : Z) (o : Ordering) : instr ()
| Swap (l : Loc) (v : Z) (o : Ordering) : instr Z
(** [compare_exchange(..).is_ok()]. *)
| CompareExchange (l : Loc) (current new : Z) (success failure : Ordering) : instr bool
| FetchAdd (l : Loc) (v : Z) (o : Ordering) : instr Z
(** [created_at.elapsed()]. *)
| Elapsed : instr Z
| Emit (e : Event) : instr ().

Inductive method : Type → Type :=
| Return {A} (a : A) : method A
| Do {A B} (i : instr B) (k : B → method A) : method A
(** [Repeat body k]: run [body] until it answers [Some b], then [k b]. *)
| Repeat {A B} (body : method (option B)) (k : B → method A) : method A.

Fixpoint method_bind {A B} (p : method A) : (A → method B) → method B :=
  match p in method A return (A → method B) → method B with
  | Return a => λ f, f a
  | Do i k => λ f, Do i (λ b, method_bind (k b) f)
  | Repeat body k => λ f, Repeat body (λ b, method_bind (k b) f)
  end.

(** One more iteration of a loop. *)
Definition method_unroll {A B} (body : method (option B)) (k : B → method A) : method A :=
  method_bind body (λ o, match o with Some b => k b | None => Repeat body k end).

Declare Scope method_scope.
Delimit Scope method_scope with method.
Notation "'do' x ':=' i ';' k" := (Do i (λ x, k%method))
  (at level 10, x binder, i at level 100, k at level 200) : method_scope.
Notation "'do!' i ';' k" := (Do i (λ _, k%method))
  (at level 10, i at level 100, k at level 200) : method_scope.
Notation "'call' x ':=' p ';' k" := (method_bind p (λ x, k%method))
  (at level 10, x binder, p at level 100, k at level 200) : method_scope.

(** ** The events *)

Definition BREAKER_TARGET : string := "sdkwork.rpc.circuit_breaker".

Definition closed_event : Event := {|
  level := INFO; target := BREAKER_TARGET;
  fields := [("state", Text "closed")];
  message := "circuit breaker closed after recovery"
|}.

Definition open_event (config : CircuitBreakerConfig) : Event := {|
  level := WARN; target := BREAKER_TARGET;
  fields := [("state", Text "open"); ("threshold", Num (failure_threshold config))];
  message := "circuit breaker opened after threshold failures"
|}.

Definition half_open_event : Event := {|
  level := INFO; target := BREAKER_TARGET;
  fields := [("state", Text "half_open")];
  message := "circuit breaker entered half-open after recovery timeout"
|}.

(** ** The methods *)

Module Src.
Section Methods.
Context (config : CircuitBreakerConfig).
Open Scope method_scope.

Definition refresh_state : method () :=
  do observed := Load LState Acquire;
  if bool_decide (from_u8 observed ≠ Open) then Return ()
  else
    do opened_nanos := Load LOpenedAt Acquire;
    if opened_nanos =? 0 then Return ()
    else
      do now := Elapsed;
      if saturating_sub now opened_nanos <? recovery_timeout config then Return ()
      else
        do exchanged := CompareExchange LState observed HALF_OPEN_U8 AcqRel Acquire;
        if (exchanged : bool) then
          do! Store LProbes 0 Release;
          do! Store LFailures 0 Release;
          do! Emit half_open_event;
          Return ()
        else Return ().

Definition state : method CircuitBreakerState :=
  call _ := refresh_state;
  do v := Load LState Acquire;
  Return (from_u8 v).

Definition acquire_attempt : method (option bool) :=
  do observed := Load LProbes Acquire;
  if half_open_max_probes config <=? observed then Return (Some false)
  else
    do exchanged := CompareExchange LProbes observed (saturating_add u32_max observed 1)
                      AcqRel Acquire;
    if (exchanged : bool) then Return (Some true) else Return None.

Definition acquire_half_open_probe : method bool := Repeat acquire_attempt Return.

Definition allow_request : method bool :=
  call _ := refresh_state;
  do v := Load LState Acquire;
  match from_u8 v with
  | Closed => Return true
  | Open => Return false
  | HalfOpen => acquire_half_open_probe
  end.

Definition record_success : method () :=
  call _ := refresh_state;
  do prev := Swap LState CLOSED_U8 AcqRel;
  do! Store LFailures 0 Release;
  do! Store LProbes 0 Release;
  do! Store LOpenedAt 0 Release;
  if bool_decide (from_u8 prev ≠ Closed) then
    do! Emit closed_event;
    Return ()
  else Return ().

Definition open : method () :=
  do prev := Swap LState OPEN_U8 AcqRel;
  do now := Elapsed;
  do! Store LOpenedAt (as_u64 (Duration.as_nanos now)) Release;
  do! Store LProbes 0 Release;
  if bool_decide (from_u8 prev ≠ Open) then
    do! Emit (open_event config);
    Return ()
  else Return ().

Definition record_failure : method () :=
  call _ := refresh_state;
  do v := Load LState Acquire;
  if bool_decide (from_u8 v = HalfOpen) then open
  else
    do prev := FetchAdd LFailures 1 AcqRel;
    let failures := saturating_add u32_max prev 1 in
    if failure_threshold config <=? failures then open else Return ().
End Methods.
End Src.

(** A call of one method, with its answer. *)
Definition call_method (config : CircuitBreakerConfig) (o : op) : method answer :=
  match o with
  | OpState => method_bind (Src.state config) (λ s, Return (AnsState s))
  | OpAllow => method_bind (Src.allow_request config) (λ r, Return (AnsAllow r))
  | OpSuccess => method_bind (Src.record_success config) (λ _, Return AnsUnit)
  | OpFailure => method_bind (Src.record_failure config) (λ _, Return AnsUnit)
  | OpTick _ => Return AnsUnit
  end.

(** ** Sequentially consistent readings *)

Definition field (l : Loc) : Mem → Z :=
  match l with
  | LState => CircuitBreaker.state
  | LFailures => consecutive_failures
  | LProbes => half_open_probes
  | LOpenedAt => opened_at_nanos
  end.

Definition update (l : Loc) : Z → Mem → Mem :=
  match l with
  | LState => set_state
  | LFailures => set_failures
  | LProbes => set_probes
  | LOpenedAt => set_opened_at
  end.

(** What an instruction does to the one current memory. *)
Definition instr_action {B} (i : instr B) : action Mem B :=
  match i in instr B return action Mem B with
  | Load l _ => load (field l)
  | Store l v _ => store (update l) v
  | Swap l v _ => swap (field l) (update l) v
  | CompareExchange l current new _ _ => compare_exchange (field l) (update l) current new
  | FetchAdd l v _ => fetch_add (field l) (update l) v
  | Elapsed => elapsed
  | Emit _ => λ m, ((), m)
  end.

(** Events dropped. *)
Definition erase_instr {A B} (i : instr B) : (B → prog Mem A) → prog Mem A :=
  match i in instr B return (B → prog Mem A) → prog Mem A with
  | Emit _ => λ k, k ()
  | i => λ k, Act (instr_action i) k
  end.

Fixpoint erase {A} (p : method A) : prog Mem A :=
  match p in method A return prog Mem A with
  | Return a => Ret a
  | Do i k => erase_instr i (λ b, erase (k b))
  | Repeat body k => Loop (erase body) (λ b, erase (k b))
  end.

(** Events kept: the memory carries the log. *)
Abbreviation LogMem := (Mem * list Event)%type.

Definition record_instr {B} (i : instr B) : action LogMem B :=
  match i in instr B return action LogMem B with
  | Emit e => λ ml, ((), (ml.1, ml.2 ++ [e]))
  | i => λ ml, let (b, m) := instr_action i ml.1 in (b, (m, ml.2))
  end.

Fixpoint record {A} (p : method A) : prog LogMem A :=
  match p in method A return prog LogMem A with
  | Return a => Ret a
  | Do i k => Act (record_instr i) (λ b, record (k b))
  | Repeat body k => Loop (record body) (λ b, record (k b))
  end.

(** ** Erasing gives the programs of [CircuitBreaker] *)

Lemma erase_bind {A B} (p : method A) (f : A → method B) :
  erase (method_bind p f) = prog_bind (erase p) (λ a, erase (f a)).
Proof.
  induction p as [A a|A C i k IH|A C body IHb k IHk]; simpl; [done| |].
  - destruct i; simpl; try (f_equal; apply functional_extensionality; intros; apply IH).
    apply IH.
  - f_equal. apply functional_extensionality. intros. apply IHk.
Qed.

(** Follows both texts of a method in step. *)
Ltac erase_walk :=
  repeat first
    [ reflexivity
    | rewrite erase_bind
    | match goal with
      | |- Act _ _ = Act _ _ => f_equal; apply functional_extensionality; intros ?
      | |- prog_bind ?p _ = prog_bind ?p _ => f_equal; apply functional_extensionality; intros ?
      | |- erase (if ?b then _ else _) = _ => destruct b
      | |- erase (match ?s with Closed => _ | Open => _ | HalfOpen => _ end) = _ => destruct s
      | |- Loop _ _ = Loop _ _ => f_equal
      end
    | progress cbn [erase erase_instr instr_action field update] ].

Section Erase.
Context (config : CircuitBreakerConfig).

Lemma erase_refresh_state : erase (Src.refresh_state config) = refresh_state config.
Proof. unfold Src.refresh_state, refresh_state. erase_walk. Qed.

Lemma erase_open : erase (Src.open config) = open.
Proof. unfold Src.open, open. erase_walk. Qed.

Lemma erase_acquire :
  erase (Src.acquire_half_open_probe config) = acquire_half_open_probe config.
Proof.
  unfold Src.acquire_half_open_probe, acquire_half_open_probe, Src.acquire_attempt, acquire_attempt.
  erase_walk.
Qed.

Lemma erase_state : erase (Src.state config) = state_method config.
Proof.
  unfold Src.state, state_method. rewrite erase_bind, erase_refresh_state. erase_walk.
Qed.

Lemma erase_allow_request : erase (Src.allow_request config) = allow_request config.
Proof.
  unfold Src.allow_request, allow_request. rewrite erase_bind, erase_refresh_state.
  erase_walk. apply erase_acquire.
Qed.

Lemma erase_record_success : erase (Src.record_success config) = record_success config.
Proof.
  unfold Src.record_success, record_success. rewrite erase_bind, erase_refresh_state. erase_walk.
Qed.

Lemma erase_record_failure : erase (Src.record_failure config) = record_failure config.
Proof.
  unfold Src.record_failure, record_failure. rewrite erase_bind, erase_refresh_state.
  erase_walk; apply erase_open.
Qed.
End Erase.
