(* ===== verification/BreakerEvents.v ===== *)
(** * BreakerEvents: what a shared circuit breaker logs

    The methods of {!BreakerProgram} with their log, interleaved. The log is an
    observer: dropping the events from any execution leaves an execution of the
    programs of {!CircuitBreaker}. And it is an account of the breaker: when all
    calls have returned, the log holds one event for each change of state that
    happened, and nothing else. *)
From S2P Require Import Prelude RustStd Tracing Atomics CircuitBreaker BreakerConcurrency.
From S2P Require Import BreakerProgram.

(** Time passes; the log stays. *)
Definition log_time_passes (ml ml' : LogMem) : Prop :=
  time_passes ml.1 ml'.1 ∧ ml'.2 = ml.2.

(** ** The log is an observer *)

Lemma record_bind {A B} (p : method A) (f : A → method B) :
  record (method_bind p f) = prog_bind (record p) (λ a, record (f a)).
Proof.
  induction p as [A a|A C i k IH|A C body IHb k IHk]; simpl; [done| |];
    f_equal; apply FunctionalExtensionality.functional_extensionality; auto.
Qed.

Lemma record_unroll {A B} (body : method (option B)) (k : B → method A) :
  unroll (record body) (λ b, record (k b)) = record (method_unroll body k).
Proof.
  unfold unroll, method_unroll. rewrite record_bind. f_equal.
  apply FunctionalExtensionality.functional_extensionality. by intros [b|].
Qed.

Lemma erase_unroll {A B} (body : method (option B)) (k : B → method A) :
  unroll (erase body) (λ b, erase (k b)) = erase (method_unroll body k).
Proof.
  unfold unroll, method_unroll. rewrite erase_bind. f_equal.
  apply FunctionalExtensionality.functional_extensionality. by intros [b|].
Qed.

(** A step of a recording thread is a step of its erasure, or none. *)
Lemma record_step {A} (q : method A) ml p' ml' :
  thread_step (record q) ml = Some (p', ml') →
  ∃ q', p' = record q' ∧
    ((erase q' = erase q ∧ ml'.1 = ml.1) ∨
     thread_step (erase q) ml.1 = Some (erase q', ml'.1)).
Proof.
  destruct q as [A a|A B i k|A B body k]; simpl; [done| |].
  - destruct i; simpl.
    all: try (intros [= <- <-]; eexists; split; [reflexivity|]; right; reflexivity).
    + destruct (compare_exchange _ _ _ _ _) as [b m'] eqn:Hcas. intros [= <- <-].
      eexists. split; [reflexivity|]. right. reflexivity.
    + intros [= <- <-]. eexists. split; [reflexivity|]. left. by simpl.
  - intros [= <- <-]. exists (method_unroll body k).
    rewrite record_unroll. split; [done|]. right. by rewrite erase_unroll.
Qed.

Lemma record_pool_step {A} (qs : list (method A)) ml ts ml' :
  pool_step log_time_passes (record <$> qs, ml) (ts, ml') →
  ∃ qs', ts = record <$> qs' ∧
    rtc (pool_step time_passes) (erase <$> qs, ml.1) (erase <$> qs', ml'.1).
Proof.
  intros Hstep. inversion Hstep as [ts0 m i p p' m' Hi Hs|ts0 m m' [Henv Hlog]]; simplify_eq.
  - apply list_lookup_fmap_Some in Hi as (q & -> & Hq).
    apply record_step in Hs as (q' & -> & Hq').
    exists (<[i := q']> qs). rewrite list_fmap_insert. split; [done|].
    rewrite list_fmap_insert. destruct Hq' as [[-> ->]|Hs].
    + rewrite list_insert_id; [done|]. by rewrite list_lookup_fmap, Hq.
    + apply rtc_once. eapply PoolThread; [|done]. by rewrite list_lookup_fmap, Hq.
  - exists qs. split; [done|]. apply rtc_once. by apply PoolEnv.
Qed.

Lemma record_pool_steps {A} (qs : list (method A)) ml ts ml' :
  rtc (pool_step log_time_passes) (record <$> qs, ml) (ts, ml') →
  ∃ qs', ts = record <$> qs' ∧
    rtc (pool_step time_passes) (erase <$> qs, ml.1) (erase <$> qs', ml'.1).
Proof.
  intros Hsteps. remember (record <$> qs, ml) as c eqn:Hc. remember (ts, ml') as c' eqn:Hc'.
  revert qs ml Hc. induction Hsteps as [c|c [ts1 ml1] c' Hstep Hsteps IH];
    intros qs ml Hc; simplify_eq; [by exists qs|].
  apply record_pool_step in Hstep as (qs1 & -> & Hstep).
  destruct (IH eq_refl qs1 ml1 eq_refl) as (qs' & -> & Hrest). exists qs'. split; [done|].
  by etrans.
Qed.

(** The answer of a thread that has returned. *)
Definition returned {A} (p : prog LogMem A) : option A :=
  match p in prog _ A return option A with Ret a => Some a | _ => None end.

Lemma record_returned {A} (q : method A) a : Ret a = record q → erase q = Ret a.
Proof.
  intros Hq%(f_equal returned). destruct q; simplify_eq/=. by f_equal.
Qed.

(** ** What a thread owes the log *)

(** The event that announces the breaker's entering a state. *)
Definition state_event (config : CircuitBreakerConfig) (s : CircuitBreakerState) : Event :=
  match s with
  | Closed => closed_event
  | Open => open_event config
  | HalfOpen => half_open_event
  end.

(** The change of state between two memories. *)
Definition transition (m m' : Mem) : list CircuitBreakerState :=
  if bool_decide (from_u8 (state m) = from_u8 (state m')) then []
  else [from_u8 (state m')].

Section Owed.
Context (config : CircuitBreakerConfig).

(** [pays p owed]: whatever the other threads do in between, [p] logs the
    events [owed], which it still owes, and one event for every change of state
    it makes, before it returns. *)
Fixpoint pays {A} (p : prog LogMem A) (owed : list Event) : Prop :=
  match p with
  | Ret _ => owed = []
  | Act op k =>
      ∀ ml, ∃ paid owed',
        (op ml).2.2 = ml.2 ++ paid ∧
        owed ++ (state_event config <$> transition ml.1 (op ml).2.1) ≡ₚ paid ++ owed' ∧
        pays (k (op ml).1) owed'
  | Loop body k => owed = [] ∧ pays body [] ∧ ∀ b, pays (k b) []
  end.

Lemma pays_bind {A B} (p : prog LogMem A) (f : A → prog LogMem B) owed :
  pays p owed → (∀ a, pays (f a) []) → pays (prog_bind p f) owed.
Proof.
  revert owed f. induction p as [A a|A C op k IH|A C body IHb k IHk];
    intros owed f Hp Hf; simpl in *; [by subst| |].
  - intros ml. destruct (Hp ml) as (paid & owed' & ? & ? & ?). eauto 8.
  - destruct Hp as (-> & ? & ?). eauto.
Qed.

Lemma pays_unroll {A B} (body : prog LogMem (option B)) (k : B → prog LogMem A) :
  pays body [] → (∀ b, pays (k b) []) → pays (unroll body k) [].
Proof. intros. apply pays_bind; [done|]. by intros [b|]. Qed.

Lemma pays_step {A} (p p' : prog LogMem A) ml ml' owed :
  pays p owed → thread_step p ml = Some (p', ml') →
  ∃ paid owed', ml'.2 = ml.2 ++ paid ∧
    owed ++ (state_event config <$> transition ml.1 ml'.1) ≡ₚ paid ++ owed' ∧ pays p' owed'.
Proof.
  destruct p as [A a|A B op k|A B body k]; simpl; [done| |].
  - intros Hp. destruct (Hp ml) as (paid & owed' & Hl & Ho & Hk).
    destruct (op ml) as [b ml1]. intros [= <- <-]. eauto.
  - intros (-> & Hb & Hk) [= <- <-]. exists [], []. split_and!.
    + by rewrite app_nil_r.
    + unfold transition. by rewrite bool_decide_true by done.
    + by apply pays_unroll.
Qed.

(** ** Each method pays *)

Lemma transition_same m m' : state m' = state m → transition m m' = [].
Proof. intros H. unfold transition. by rewrite H, bool_decide_true. Qed.

(** An instruction that neither logs nor changes the state. *)
Lemma pays_quiet {A B} (i : instr B) (k : B → method A) owed :
  (∀ ml, (record_instr i ml).2.2 = ml.2) →
  (∀ ml, state (record_instr i ml).2.1 = state ml.1) →
  (∀ b, pays (record (k b)) owed) → pays (record (Do i k)) owed.
Proof.
  intros Hlog Hst Hk ml. exists [], owed. rewrite Hlog, (transition_same _ _ (Hst ml)).
  split_and!; [by rewrite app_nil_r|by rewrite app_nil_r|apply Hk].
Qed.

Lemma pays_emit {A} e (k : () → method A) :
  pays (record (k ())) [] → pays (record (Do (Emit e) k)) [e].
Proof.
  intros Hk ml. exists [e], []. simpl. rewrite transition_same by done. by split_and!.
Qed.

Lemma pays_swap_state {A} v o (k : Z → method A) :
  (∀ prev, pays (record (k prev))
     (if bool_decide (from_u8 prev = from_u8 v) then [] else [state_event config (from_u8 v)])) →
  pays (record (Do (Swap LState v o) k)) [].
Proof.
  intros Hk ml. eexists [], _. split_and!; [by rewrite app_nil_r|done|].
  simpl. unfold transition. simpl. specialize (Hk (state ml.1)). by case_bool_decide.
Qed.

(** [refresh_state] exchanges a byte that reads as open. *)
Lemma pays_exchange_state {A} current new o o' (k : bool → method A) :
  from_u8 current ≠ from_u8 new →
  pays (record (k true)) [state_event config (from_u8 new)] → pays (record (k false)) [] →
  pays (record (Do (CompareExchange LState current new o o') k)) [].
Proof.
  intros Hne Ht Hf ml. simpl. unfold compare_exchange. simpl.
  destruct (state ml.1 =? current) eqn:Hs; simpl; reflect_bools.
  - exists [], [state_event config (from_u8 new)].
    split_and!; [by rewrite app_nil_r| |done].
    unfold transition. simpl. by rewrite Hs, bool_decide_false.
  - exists [], []. split_and!; [by rewrite app_nil_r| |done]. by rewrite transition_same.
Qed.

Ltac pays_walk :=
  repeat match goal with
  | |- pays (Ret _) _ => reflexivity
  | |- pays (record (Return _)) _ => reflexivity
  | |- pays (record (method_bind _ _)) _ => rewrite record_bind
  | |- pays (prog_bind _ _) _ => apply pays_bind; [|intros ?]
  | |- pays (record (if ?b then _ else _)) _ => destruct b eqn:?
  | |- pays (record (match ?s with Closed => _ | Open => _ | HalfOpen => _ end)) _ => destruct s
  | |- pays (record (Do (Emit _) _)) _ => apply pays_emit
  | |- pays (record (Do (Swap LState _ _) _)) _ => apply pays_swap_state; intros ?
  | |- pays (record (Do (CompareExchange LState _ _ _ _) _)) _ =>
      apply pays_exchange_state;
        [reflect_bools;
         match goal with H : ¬ (from_u8 _ ≠ Open) |- _ => apply dec_stable in H; by rewrite H end| |]
  | |- pays (record (Do (CompareExchange LProbes _ _ _ _) _)) _ =>
      apply pays_quiet;
        [intros ?; simpl; unfold compare_exchange; by destruct (_ =? _)..|intros ?]
  | |- pays (record (Do _ _)) _ => apply pays_quiet; [done|done|intros ?]
  end.

Lemma pays_refresh : pays (record (Src.refresh_state config)) [].
Proof.
  unfold Src.refresh_state. pays_walk.
Qed.

(** The test after the last store decides whether the event is owed. *)
Lemma pays_open : pays (record (Src.open config)) [].
Proof.
  unfold Src.open. pays_walk; reflect_bools; change (from_u8 OPEN_U8) with Open;
    case_bool_decide; first [done|apply pays_emit; done|tauto].
Qed.

Lemma pays_acquire : pays (record (Src.acquire_half_open_probe config)) [].
Proof.
  split; [done|]. split; [|done]. change (pays (record (Src.acquire_attempt config)) []).
  unfold Src.acquire_attempt. pays_walk.
Qed.

Lemma pays_call o : pays (record (call_method config o)) [].
Proof.
  destruct o; unfold call_method, Src.state, Src.allow_request, Src.record_success,
    Src.record_failure; pays_walk; auto using pays_refresh, pays_open, pays_acquire.
  all: reflect_bools; change (from_u8 CLOSED_U8) with Closed;
    case_bool_decide; first [done|apply pays_emit; done|tauto].
Qed.

(** ** Executions with their changes of state *)

(** [history c ss c']: the pool steps from [c] to [c'] and the breaker enters
    the states [ss] on the way, in this order. *)
Inductive history {A} : list (prog LogMem A) * LogMem → list CircuitBreakerState →
    list (prog LogMem A) * LogMem → Prop :=
| HistoryStart c : history c [] c
| HistoryStep c ss c1 c2 :
    history c ss c1 → pool_step log_time_passes c1 c2 →
    history c (ss ++ transition c1.2.1 c2.2.1) c2.

Lemma history_steps {A} (c c' : list (prog LogMem A) * LogMem) ss :
  history c ss c' → rtc (pool_step log_time_passes) c c'.
Proof. induction 1; [done|]. by eapply rtc_r. Qed.

(** The debts of all threads when one of them changes. *)
Lemma owed_update (oweds : list (list Event)) i owed :
  oweds !! i = Some owed →
  ∃ rest, mjoin oweds ≡ₚ owed ++ rest ∧ ∀ owed', mjoin (<[i := owed']> oweds) ≡ₚ owed' ++ rest.
Proof.
  revert i. induction oweds as [|o oweds IH]; intros [|i] Hi; simplify_eq/=; [by eauto|].
  destruct (IH i Hi) as (rest & Hj & Hu). exists (o ++ rest). split.
  - by rewrite Hj, !app_assoc, (Permutation_app_comm o owed).
  - intros owed'. by rewrite Hu, !app_assoc, (Permutation_app_comm o owed').
Qed.

(** The books balance: what is logged and what is still owed are together the
    changes of state. *)
Lemma history_balanced {A} (c c' : list (prog LogMem A) * LogMem) ss :
  history c ss c' → Forall (λ p, pays p []) c.1 →
  ∃ es oweds, c'.2.2 = c.2.2 ++ es ∧ Forall2 pays c'.1 oweds ∧
    es ++ mjoin oweds ≡ₚ state_event config <$> ss.
Proof.
  induction 1 as [c|c ss c1 c2 Hh IH Hstep]; intros Hc.
  { exists [], (replicate (length c.1) []). split_and!; [by rewrite app_nil_r| |].
    - apply Forall2_replicate_r; [done|]. exact Hc.
    - induction (length c.1); [done|]. by simpl in *. }
  destruct (IH Hc) as (es & oweds & Hlog & Hpay & Hbal).
  inversion Hstep as [ts ml i p p' ml' Hi Hs|ts ml ml' [(d & Hd & Henv) Hl]]; simplify_eq/=.
  - destruct (Forall2_lookup_l _ _ _ _ _ Hpay Hi) as (owed & Ho & Hp).
    destruct (pays_step _ _ _ _ _ Hp Hs) as (paid & owed' & Hl & Hperm & Hp').
    exists (es ++ paid), (<[i := owed']> oweds). split_and!.
    + by rewrite Hl, Hlog, app_assoc.
    + by apply Forall2_insert.
    + destruct (owed_update oweds i owed Ho) as (rest & Hj & Hu).
      rewrite fmap_app, <- Hbal, Hj, Hu, <- !app_assoc. apply Permutation_app_head.
      by rewrite (Permutation_app_comm rest), !app_assoc, Hperm.
  - exists es, oweds. split_and!; [by rewrite Hl, Hlog|done|].
    rewrite transition_same, app_nil_r; [done|]. by rewrite Henv.
Qed.
End Owed.

(** ** Executing a schedule *)

(** Lets the threads named in [schedule] take one step each, in order, and
    notes the changes of state. *)
Fixpoint follow {A} (schedule : list nat) (ss : list CircuitBreakerState)
    (c : list (prog LogMem A) * LogMem) :
    option (list CircuitBreakerState * (list (prog LogMem A) * LogMem)) :=
  match schedule with
  | [] => Some (ss, c)
  | i :: schedule' =>
      p ← c.1 !! i;
      '(p', ml') ← thread_step p c.2;
      follow schedule' (ss ++ transition c.2.1 ml'.1) (<[i := p']> c.1, ml')
  end.

Lemma follow_sound {A} schedule ss (c0 c c' : list (prog LogMem A) * LogMem) ss' :
  history c0 ss c → follow schedule ss c = Some (ss', c') → history c0 ss' c'.
Proof.
  revert ss c. induction schedule as [|i schedule IH]; intros ss [ts ml] Hh; simpl.
  { by intros [= <- <-]. }
  destruct (ts !! i) as [p|] eqn:Hp; simpl; [|done].
  destruct (thread_step p ml) as [[p' ml']|] eqn:Hs; simpl; [|done].
  apply IH. apply (HistoryStep _ _ _ (<[i := p']> ts, ml') Hh). by eapply PoolThread.
Qed.

(** The calls of [ops], each on a thread of its own. *)
Definition callers (config : CircuitBreakerConfig) (ops : list op) : list (prog LogMem answer) :=
  record ∘ call_method config <$> ops.

Lemma erase_call_method config o : erase (call_method config o) = call_thread config o.
Proof.
  destruct o; unfold call_method, call_thread; rewrite ?erase_bind, ?erase_state, ?erase_allow_request,
    ?erase_record_success, ?erase_record_failure; reflexivity.
Qed.

(** An execution of the methods with their events is, with the events dropped,
    one of the methods without them, with the same memory and answers. *)
Lemma log_does_not_interfere config ops ts m m' log log' :
  rtc (pool_step log_time_passes) (callers config ops, (m, log)) (ts, (m', log')) →
  ∃ ts', rtc (pool_step time_passes) (call_thread config <$> ops, m) (ts', m') ∧
    ∀ i a, ts !! i = Some (Ret a) → ts' !! i = Some (Ret a).
Proof.
  unfold callers. rewrite list_fmap_compose. intros (qs & -> & Hsteps)%record_pool_steps.
  rewrite <- list_fmap_compose in Hsteps. exists (erase <$> qs). split.
  - erewrite list_fmap_ext; [exact Hsteps|]. intros i o _. symmetry. apply erase_call_method.
  - intros i a (q & Hr & Hq)%list_lookup_fmap_Some. rewrite list_lookup_fmap, Hq.
    simpl. f_equal. by apply record_returned.
Qed.

(** ** Properties *)

(** C11: a shared breaker logs its changes of state, once each: at any time the
    events logged so far announce changes that have happened, none of them
    twice, and when all calls have returned every change has been announced,
    with the level and the fields of the state that was entered. *)
Theorem transitions_logged_once config ops m log ss ts m' log' :
  history (callers config ops, (m, log)) ss (ts, (m', log')) →
  ∃ es, log' = log ++ es ∧ es ⊆+ (state_event config <$> ss) ∧
    (Forall (λ p, ∃ a, p = Ret a) ts → es ≡ₚ state_event config <$> ss).
Proof.
  intros Hh. destruct (history_balanced config _ _ _ Hh) as (es & oweds & Hlog & Hpay & Hbal).
  { apply Forall_fmap, Forall_true. intros o. apply pays_call. }
  exists es. split; [done|]. rewrite <- Hbal. split; [by apply submseteq_inserts_r|].
  intros Hdone. assert (mjoin oweds = []) as ->; [|by rewrite app_nil_r].
  apply join_nil. simpl in Hpay. clear Hbal Hh Hlog.
  induction Hpay as [|p owed ts oweds Hp Hpay IH]; [done|].
  apply Forall_cons in Hdone as [[a ->] Hdone]. constructor; [exact Hp|by apply IH].
Qed.

(** the order of the events is not the order of the changes: a call that
    closes the breaker can log after a later call has opened it again, so that
    the last event names a state the breaker has left. *)
Theorem last_event_can_be_stale :
  ∃ m ss ts m' log,
    exec_all one_probe_config (recovering_history ++ [OpAllow]) new_breaker =
      Some ([AnsUnit; AnsUnit; AnsUnit; AnsAllow true], m) ∧
    history (callers one_probe_config [OpSuccess; OpFailure], (m, [])) ss (ts, (m', log)) ∧
    ts = [Ret AnsUnit; Ret AnsUnit] ∧ ss = [Closed; Open] ∧
    log = [open_event one_probe_config; closed_event] ∧ from_u8 (state m') = Open.
Proof.
  eexists _, _, _, _, _. split; [vm_compute; reflexivity|]. split.
  - eapply (follow_sound ([0;0] ++ [1;1;1;1;1;1;1;1] ++ [0;0;0;0])%nat); [constructor|].
    vm_compute. reflexivity.
  - split_and!; reflexivity.
Qed.

(** ** Witnesses *)

Definition opened_breaker : Mem := mkMem OPEN_U8 0 0 1 2000001.

Lemma transitions_logged_once_witness :
  [half_open_event] ≡ₚ state_event one_probe_config <$> [HalfOpen].
Proof.
  destruct (transitions_logged_once one_probe_config [OpAllow] opened_breaker [] [HalfOpen]
    [Ret (AnsAllow true)] (mkMem HALF_OPEN_U8 0 1 1 2000001) [half_open_event])
    as (es & Hlog & _ & Hall).
  - apply (follow_sound (replicate 11 0%nat) [] _ (callers one_probe_config [OpAllow], (opened_breaker, [])));
      [constructor|vm_compute; reflexivity].
  - simpl in Hlog. subst es. apply Hall. repeat constructor. by eexists.
Defined.
