(* ===== verification/WeakMemory.v ===== *)
(** * WeakMemory: a release/acquire memory for the breaker's methods

    The memory of {!CircuitBreaker} has one current value per atomic. The
    orderings the code asks for promise less. Here an atomic is the set of all
    the writes it has received, each at a timestamp, and a thread has a view: per
    atomic, the oldest write it may still read. A load takes any write that is
    not older than the view; a store inserts a write at any free timestamp after
    the view, not necessarily the last one; a read-modify-write reads a write and
    takes the timestamp next to it, so no two of them read the same write. A
    release write carries the view of its thread, and an acquire read joins it.
    This is the operational presentation of the release/acquire fragment of the
    C++ memory model, which Rust's atomics follow. *)
From stdpp Require Import functions.
From S2P Require Import Prelude RustStd Tracing Atomics CircuitBreaker BreakerProgram.

(** ** Views and histories *)

Abbreviation View := (Loc → nat).

Definition vbot : View := λ _, 0%nat.
Definition vjoin (V W : View) : View := λ l, (V l `max` W l)%nat.

Record Msg : Type := mkMsg {
  val : Z;
  mview : View
}.

(** The writes of every atomic by their timestamps, and the clock. *)
Record WMem : Type := mkWMem {
  hist : Loc → gmap nat Msg;
  wclock : Z
}.

Definition acquires (o : Ordering) : bool :=
  match o with Acquire | AcqRel => true | Release => false end.
Definition releases (o : Ordering) : bool :=
  match o with Release | AcqRel => true | Acquire => false end.

(** ** Instructions *)

(** What a step did to the memory: nothing, a plain write, or an update. *)
Inductive label : Type :=
| Quiet
| Wrote (l : Loc) (v : Z)
| Updated (l : Loc) (old new : Z).

(** The view after reading [msg] at [t]. *)
Definition after_read (o : Ordering) (l : Loc) (t : nat) (msg : Msg) (V : View) : View :=
  let V' := <[l := t]> V in
  if acquires o then vjoin V' (mview msg) else V'.

Definition add_msg (l : Loc) (t : nat) (msg : Msg) (m : WMem) : WMem :=
  mkWMem (<[l := <[t := msg]> (hist m l)]> (hist m)) (wclock m).

(** The write at [t], if a thread with the view [V] may read it. *)
Definition readable (l : Loc) (t : nat) (V : View) (m : WMem) : option Msg :=
  if bool_decide (V l ≤ t)%nat then hist m l !! t else None.

(** An update that reads the write at [t] and replaces its value by [new]. *)
Definition rmw (l : Loc) (o : Ordering) (t : nat) (new : Z → Z) (V : View) (m : WMem) :
    option (Z * View * WMem * label) :=
  msg ← readable l t V m;
  match hist m l !! S t with
  | Some _ => None
  | None =>
      let V' := <[l := S t]> (after_read o l t msg V) in
      let released :=
        if releases o then vjoin V' (mview msg) else vjoin (<[l := S t]> vbot) (mview msg) in
      Some (val msg, V', add_msg l (S t) (mkMsg (new (val msg)) released) m,
            Updated l (val msg) (new (val msg)))
  end.

(** One instruction of a thread with the view [V]; [t] is the timestamp it
    picks. *)
Definition instr_exec {B} (i : instr B) (t : nat) (V : View) (m : WMem) :
    option (B * View * WMem * label) :=
  match i in instr B return option (B * View * WMem * label) with
  | Load l o => msg ← readable l t V m; Some (val msg, after_read o l t msg V, m, Quiet)
  | Store l v o =>
      if bool_decide (V l < t)%nat then
        match hist m l !! t with
        | Some _ => None
        | None =>
            let V' := <[l := t]> V in
            let released := if releases o then V' else <[l := t]> vbot in
            Some ((), V', add_msg l t (mkMsg v released) m, Wrote l v)
        end
      else None
  | Swap l v o => rmw l o t (λ _, v) V m
  | CompareExchange l current new success failure =>
      msg ← readable l t V m;
      if val msg =? current then
        '(_, V', m', lbl) ← rmw l success t (λ _, new) V m; Some (true, V', m', lbl)
      else Some (false, after_read failure l t msg V, m, Quiet)
  | FetchAdd l v o => rmw l o t (λ old, wrapping_add_u32 old v) V m
  | Elapsed => Some (wclock m, V, m, Quiet)
  | Emit _ => Some ((), V, m, Quiet)
  end.

(** ** Threads and executions *)

(** One turn of a schedule. *)
Inductive turn : Type :=
| Turn (thread timestamp : nat)
| Wait (d : Z).

Section Machine.
Context {A : Type}.

Abbreviation WThread := (method A * View)%type.

Definition wthread_step (t : nat) (p : WThread) (m : WMem) : option (WThread * WMem * label) :=
  match p with
  | (q, V) =>
      match q in method A return option (method A * View * WMem * label) with
      | Return _ => None
      | Do i k => '(b, V', m', lbl) ← instr_exec i t V m; Some (k b, V', m', lbl)
      | Repeat body k => Some (method_unroll body k, V, m, Quiet)
      end
  end.

Definition advance_clock (d : Z) (m : WMem) : WMem := mkWMem (hist m) (wclock m + d).

Inductive weak_step : list WThread * WMem → label → list WThread * WMem → Prop :=
| WeakThread ts m i t p p' m' lbl :
    ts !! i = Some p → wthread_step t p m = Some (p', m', lbl) →
    weak_step (ts, m) lbl (<[i := p']> ts, m')
| WeakTime ts m d : 0 ≤ d → weak_step (ts, m) Quiet (ts, advance_clock d m).

(** [weak_trace c lbls c']: an execution with its labels. *)
Inductive weak_trace : list WThread * WMem → list label → list WThread * WMem → Prop :=
| WeakStart c : weak_trace c [] c
| WeakMore c lbls c1 lbl c2 :
    weak_trace c lbls c1 → weak_step c1 lbl c2 → weak_trace c (lbls ++ [lbl]) c2.

(** Executes a schedule: a thread steps, picking a timestamp, or time passes. *)
Fixpoint weak_run (schedule : list turn) (lbls : list label) (c : list WThread * WMem) :
    option (list label * (list WThread * WMem)) :=
  match schedule with
  | [] => Some (lbls, c)
  | Turn i t :: schedule' =>
      p ← c.1 !! i;
      '(p', m', lbl) ← wthread_step t p c.2;
      weak_run schedule' (lbls ++ [lbl]) (<[i := p']> c.1, m')
  | Wait d :: schedule' =>
      if 0 <=? d then weak_run schedule' (lbls ++ [Quiet]) (c.1, advance_clock d c.2) else None
  end.

Lemma weak_run_sound schedule lbls c0 c lbls' c' :
  weak_trace c0 lbls c → weak_run schedule lbls c = Some (lbls', c') → weak_trace c0 lbls' c'.
Proof.
  revert lbls c. induction schedule as [|[i t|d] schedule IH]; intros lbls [ts m] Ht; simpl.
  - by intros [= <- <-].
  - destruct (ts !! i) as [p|] eqn:Hp; simpl; [|done].
    destruct (wthread_step t p m) as [[[p' m'] lbl]|] eqn:Hs; simpl; [|done].
    apply IH. eapply WeakMore; [exact Ht|]. by eapply WeakThread.
  - destruct (Z.leb_spec 0 d); [|done]. apply IH. eapply WeakMore; [exact Ht|]. by constructor.
Qed.
End Machine.

(** The memory of a breaker whose atomics hold the values of [m] and were
    written before any thread started. *)
Definition wmem_of (m : Mem) : WMem :=
  mkWMem (λ l, {[0%nat := mkMsg (field l m) vbot]}) (clock m).

(** ** What an instruction can do *)

(** The cases of an instruction, in terms of the writes it reads and adds. *)
Inductive effect (V : View) (m : WMem) (V' : View) (m' : WMem) : label → Prop :=
| EffectQuiet : m' = m → effect V m V' m' Quiet
| EffectWrote l t v W :
    (V l < t)%nat → hist m l !! t = None → m' = add_msg l t (mkMsg v W) m →
    effect V m V' m' (Wrote l v)
| EffectUpdated l t msg new W :
    (V l ≤ t)%nat → hist m l !! t = Some msg → hist m l !! S t = None →
    m' = add_msg l (S t) (mkMsg new W) m →
    effect V m V' m' (Updated l (val msg) new).

Lemma readable_Some l t V m msg :
  readable l t V m = Some msg ↔ (V l ≤ t)%nat ∧ hist m l !! t = Some msg.
Proof. unfold readable. case_bool_decide; naive_solver. Qed.

Lemma rmw_effect l o t new V m old V' m' lbl :
  rmw l o t new V m = Some (old, V', m', lbl) →
  effect V m V' m' lbl ∧ lbl = Updated l old (new old) ∧
  ∃ msg, hist m l !! t = Some msg ∧ val msg = old.
Proof.
  unfold rmw. destruct (readable l t V m) as [msg|] eqn:Hr; simpl; [|done].
  apply readable_Some in Hr as [Hle Hmsg]. destruct (hist m l !! S t) eqn:Hfree; [done|].
  intros [= <- <- <- <-]. split; [by econstructor|]. split; [done|]. by exists msg.
Qed.

Lemma instr_exec_effect {B} (i : instr B) t V m b V' m' lbl :
  instr_exec i t V m = Some (b, V', m', lbl) → effect V m V' m' lbl.
Proof.
  destruct i; simpl; intros Hex.
  - destruct (readable l t V m); simplify_eq/=. by constructor.
  - case_bool_decide; [|done]. destruct (hist m l !! t) eqn:Hfree; simplify_eq. by econstructor.
  - by apply rmw_effect in Hex as [? _].
  - destruct (readable l t V m); simpl in Hex; [|done]. case_if; [|by constructor].
    destruct (rmw l success t _ V m) as [[[[? ?] ?] ?]|] eqn:Hr; simplify_eq/=.
    by apply rmw_effect in Hr as [? _].
  - by apply rmw_effect in Hex as [? _].
  - simplify_eq. by constructor.
  - simplify_eq. by constructor.
Qed.

Lemma wthread_step_effect {A} t (p p' : method A * View) m m' lbl :
  wthread_step t p m = Some (p', m', lbl) → effect p.2 m p'.2 m' lbl.
Proof.
  destruct p as [q V]. destruct q as [A a|A B i k|A B body k]; simpl; [done| |].
  - destruct (instr_exec i t V m) as [[[[b V1] m1] lbl1]|] eqn:Hi; simpl; [|done].
    intros [= <- <- <-]. by eapply instr_exec_effect.
  - intros [= <- <- <-]. by constructor.
Qed.

Lemma hist_add_msg l t msg m l' :
  hist (add_msg l t msg m) l' = if bool_decide (l = l') then <[t := msg]> (hist m l) else hist m l'.
Proof.
  unfold add_msg. simpl. case_bool_decide as Hl; [subst; by rewrite fn_lookup_insert|].
  by rewrite fn_lookup_insert_ne.
Qed.
