(* ===== verification/BreakerWeakMemory.v ===== *)
(** * BreakerWeakMemory: the circuit breaker under release/acquire atomics

    The methods of {!BreakerProgram} on the memory of {!WeakMemory}: what stays
    true when a thread may read stale values, and how this machine relates to
    the sequentially consistent one of {!BreakerConcurrency}. A thread makes any
    number of calls, one after the other. *)
From stdpp Require Import functions.
From S2P Require Import Prelude RustStd Tracing Atomics CircuitBreaker BreakerConcurrency.
From S2P Require Import BreakerProgram BreakerEvents WeakMemory.

(** A thread that calls the methods [ops] in order. *)
Fixpoint call_methods (config : CircuitBreakerConfig) (ops : list op) : method (list answer) :=
  match ops with
  | [] => Return []
  | o :: ops' =>
      method_bind (call_method config o) (λ a,
        method_bind (call_methods config ops') (λ answers, Return (a :: answers)))
  end.

(** The same calls on one current memory. *)
Fixpoint call_threads (config : CircuitBreakerConfig) (ops : list op) : prog Mem (list answer) :=
  match ops with
  | [] => Ret []
  | o :: ops' =>
      prog_bind (call_thread config o) (λ a,
        prog_bind (call_threads config ops') (λ answers, Ret (a :: answers)))
  end.

Lemma erase_call_methods config ops : erase (call_methods config ops) = call_threads config ops.
Proof.
  induction ops as [|o ops IH]; [done|]. simpl. rewrite erase_bind, erase_call_method. f_equal.
  apply FunctionalExtensionality.functional_extensionality. intros a. by rewrite erase_bind, IH.
Qed.

(** Threads that start on a new breaker, each with its calls. *)
Definition weak_callers (config : CircuitBreakerConfig) (calls : list (list op)) :
    list (method (list answer) * View) :=
  (λ ops, (call_methods config ops, vbot)) <$> calls.

(** ** Invariants of the writes *)

(** The values an atomic may ever hold. *)
Definition loc_ok (config : CircuitBreakerConfig) (l : Loc) (v : Z) : Prop :=
  match l with
  | LState => v = CLOSED_U8 ∨ v = OPEN_U8 ∨ v = HALF_OPEN_U8
  | LFailures => u32 v
  | LProbes => 0 ≤ v ≤ half_open_max_probes config
  | LOpenedAt => u64 v
  end.

Definition hist_ok (config : CircuitBreakerConfig) (m : WMem) : Prop :=
  ∀ l t msg, hist m l !! t = Some msg → loc_ok config l (val msg).

Section Safe.
Context (config : CircuitBreakerConfig).

(** The writes the methods make: values an atomic may hold, and on the probe
    counter only resets to zero and updates that count one more. *)
Definition allowed (lbl : label) : Prop :=
  match lbl with
  | Quiet => True
  | Wrote l v => loc_ok config l v ∧ (l = LProbes → v = 0)
  | Updated l old new => loc_ok config l new ∧ (l = LProbes → new = old + 1)
  end.

(** The writes of one instruction are allowed whatever value it reads, and its
    answers satisfy [Φ]. *)
Definition instr_safe {B} (i : instr B) : (B → Prop) → Prop :=
  match i in instr B return (B → Prop) → Prop with
  | Load l _ => λ Φ, ∀ v, loc_ok config l v → Φ v
  | Store l v _ => λ Φ, allowed (Wrote l v) ∧ Φ ()
  | Swap l v _ => λ Φ, ∀ old, loc_ok config l old → allowed (Updated l old v) ∧ Φ old
  | CompareExchange l current new _ _ =>
      λ Φ, (loc_ok config l current → allowed (Updated l current new)) ∧ ∀ b, Φ b
  | FetchAdd l v _ =>
      λ Φ, ∀ old, loc_ok config l old → allowed (Updated l old (wrapping_add_u32 old v)) ∧ Φ old
  | Elapsed => λ Φ, ∀ now, Φ now
  | Emit _ => λ Φ, Φ ()
  end.

Fixpoint weak_safe {A} (p : method A) : Prop :=
  match p with
  | Return _ => True
  | Do i k => instr_safe i (λ b, weak_safe (k b))
  | Repeat body k => weak_safe body ∧ ∀ b, weak_safe (k b)
  end.

Lemma instr_safe_mono {B} (i : instr B) (Φ Ψ : B → Prop) :
  (∀ b, Φ b → Ψ b) → instr_safe i Φ → instr_safe i Ψ.
Proof. destruct i; naive_solver. Qed.

Lemma weak_safe_bind {A B} (p : method A) (f : A → method B) :
  weak_safe p → (∀ a, weak_safe (f a)) → weak_safe (method_bind p f).
Proof.
  revert f. induction p as [A a|A C i k IH|A C body IHb k IHk]; intros f Hp Hf; simpl in *; [done| |].
  - eapply instr_safe_mono; [|exact Hp]. simpl. auto.
  - destruct Hp. auto.
Qed.

Lemma weak_safe_unroll {A B} (body : method (option B)) (k : B → method A) :
  weak_safe body → (∀ b, weak_safe (k b)) → weak_safe (method_unroll body k).
Proof. intros. apply weak_safe_bind; [done|]. by intros [b|]. Qed.

Lemma hist_ok_effect V m V' m' lbl :
  effect V m V' m' lbl → allowed lbl → hist_ok config m → hist_ok config m'.
Proof.
  intros Heff Hok Hm l' t' msg'.
  destruct Heff as [->|l t v W _ _ ->|l t msg new W _ _ _ ->]; [by apply Hm|..];
    rewrite hist_add_msg; (case_bool_decide; [subst l'|by apply Hm]);
    (intros [[_ <-]|[_ ?]]%lookup_insert_Some; [apply Hok|by eapply Hm]).
Qed.

Lemma instr_exec_safe {B} (i : instr B) t V m b V' m' lbl Φ :
  instr_safe i Φ → hist_ok config m → instr_exec i t V m = Some (b, V', m', lbl) →
  allowed lbl ∧ Φ b.
Proof.
  destruct i; simpl; intros Hs Hm Hex.
  - destruct (readable l t V m) as [msg|] eqn:Hr; simplify_eq/=.
    apply readable_Some in Hr as [_ ?]. split; [done|]. apply Hs. by eapply Hm.
  - case_bool_decide; [|done]. by destruct (hist m l !! t); simplify_eq.
  - apply rmw_effect in Hex as (_ & -> & msg & Hmsg & <-). eapply Hs, Hm, Hmsg.
  - destruct (readable l t V m) as [msg|] eqn:Hr; simpl in Hex; [|done].
    apply readable_Some in Hr as [_ Hmsg]. destruct Hs as [Hnew Hk]. case_if; [|by simplify_eq].
    destruct (rmw l success t _ V m) as [[[[old ?] ?] ?]|] eqn:Hr; simplify_eq/=.
    apply rmw_effect in Hr as (_ & -> & msg' & Hmsg' & <-). simplify_eq.
    split; [|done]. eapply Hnew, Hm, Hmsg.
  - apply rmw_effect in Hex as (_ & -> & msg & Hmsg & <-). eapply Hs, Hm, Hmsg.
  - by simplify_eq.
  - by simplify_eq.
Qed.

Lemma wthread_step_safe {A} t (p p' : method A * View) m m' lbl :
  weak_safe p.1 → hist_ok config m → wthread_step t p m = Some (p', m', lbl) →
  weak_safe p'.1 ∧ allowed lbl.
Proof.
  destruct p as [q V]. destruct q as [A a|A B i k|A B body k]; simpl; intros Hp Hm; [done| |].
  - destruct (instr_exec i t V m) as [[[[b V1] m1] lbl1]|] eqn:Hi; simpl; [|done].
    intros [= <- <- <-]. eapply instr_exec_safe in Hi; [|done..]. by destruct Hi.
  - intros [= <- <- <-]. split; [|done]. apply weak_safe_unroll; naive_solver.
Qed.

Lemma weak_trace_safe {A} (c c' : list (method A * View) * WMem) lbls :
  weak_trace c lbls c' → Forall (λ p, weak_safe p.1) c.1 → hist_ok config c.2 →
  Forall (λ p, weak_safe p.1) c'.1 ∧ hist_ok config c'.2 ∧ Forall allowed lbls.
Proof.
  induction 1 as [c|c lbls c1 lbl c2 _ IH Hstep]; [done|]. intros Hc Hm.
  destruct (IH Hc Hm) as (Hc1 & Hm1 & Hl).
  inversion Hstep as [ts m i t p p' m' lbl' Hi Hs|ts m d Hd]; simplify_eq/=.
  - destruct (wthread_step_safe _ _ _ _ _ _ (Forall_lookup_1 _ _ _ _ Hc1 Hi) Hm1 Hs).
    apply wthread_step_effect in Hs. split_and!; [by apply Forall_insert|by eapply hist_ok_effect|].
    apply Forall_app_2; [done|by repeat constructor].
  - split_and!; [done..|]. apply Forall_app_2; [done|by repeat constructor].
Qed.

(** ** The methods are safe *)

Context (Hwf : config_wf config).

Ltac weak_walk :=
  repeat match goal with
  | |- weak_safe (Return _) => exact I
  | |- weak_safe (method_bind _ _) => apply weak_safe_bind
  | |- weak_safe (Do _ _) => cbn [weak_safe instr_safe]
  | |- weak_safe (if ?b then _ else _) => destruct b eqn:?
  | |- weak_safe (match ?s with Closed => _ | Open => _ | HalfOpen => _ end) => destruct s
  | |- allowed (_ _ _) => split
  | |- allowed (_ _ _ _) => split
  | |- _ ∧ _ => split
  | |- ∀ _, _ => intros ?
  end.

Lemma weak_safe_refresh : weak_safe (Src.refresh_state config).
Proof using Hwf.
  destruct (zero_bounds config Hwf) as (?&?&?). unfold Src.refresh_state. weak_walk;
    first [done|by left|by right; left|by right; right].
Qed.

Lemma weak_safe_open : weak_safe (Src.open config).
Proof using Hwf.
  destruct (zero_bounds config Hwf) as (?&?&?). unfold Src.open. weak_walk;
    first [done|apply as_u64_bounds|by right; left].
Qed.

Lemma weak_safe_acquire : weak_safe (Src.acquire_half_open_probe config).
Proof using Hwf.
  split; [|done]. change (weak_safe (Src.acquire_attempt config)).
  unfold Src.acquire_attempt. weak_walk; simpl in *; reflect_bools;
    destruct Hwf as (_&_&?); zlia.
Qed.

Lemma weak_safe_call o : weak_safe (call_method config o).
Proof using Hwf.
  destruct (zero_bounds config Hwf) as (?&?&?).
  destruct o; unfold call_method, Src.state, Src.allow_request, Src.record_success,
    Src.record_failure; weak_walk;
    auto using weak_safe_refresh, weak_safe_open, weak_safe_acquire; try done.
  - by left.
  - match goal with |- loc_ok _ _ (wrapping_add_u32 ?v 1) =>
      pose proof (wrapping_add_u32_bounds v) end. simpl. unfold u32. lia.
Qed.

Lemma weak_safe_calls ops : weak_safe (call_methods config ops).
Proof using Hwf.
  induction ops as [|o ops IH]; [done|]. simpl.
  apply weak_safe_bind; [apply weak_safe_call|]. intros a. by apply weak_safe_bind.
Qed.

Lemma weak_callers_safe calls : Forall (λ p, weak_safe p.1) (weak_callers config calls).
Proof using Hwf.
  apply Forall_fmap, Forall_true. intros ops. apply weak_safe_calls.
Qed.

Lemma new_breaker_hist_ok : hist_ok config (wmem_of new_breaker).
Proof using Hwf.
  destruct (zero_bounds config Hwf) as (?&?&?).
  intros l t msg. simpl. intros [<- <-]%lookup_singleton_Some.
  destruct l; simpl; [by left|done..].
Qed.
End Safe.

(** ** Counting the writes of the probe counter *)

Section Counting.
Context (h : gmap nat Z).

Definition level_set (k : nat) : gset nat := dom (filter (λ tv, tv.2 = Z.of_nat k) h).
Definition raised_set (k : nat) : gset nat := dom (filter (λ tv, 0 < tv.2 ≤ Z.of_nat k) h).

Lemma elem_of_level k t : t ∈ level_set k ↔ h !! t = Some (Z.of_nat k).
Proof.
  unfold level_set. rewrite elem_of_dom. unfold is_Some. setoid_rewrite map_lookup_filter_Some. naive_solver.
Qed.

Lemma elem_of_raised k t : t ∈ raised_set k ↔ ∃ v, h !! t = Some v ∧ 0 < v ≤ Z.of_nat k.
Proof.
  unfold raised_set. rewrite elem_of_dom. unfold is_Some. setoid_rewrite map_lookup_filter_Some. naive_solver.
Qed.

Lemma size_image (f : nat → nat) (X : gset nat) : (size (set_map (D := gset nat) f X) ≤ size X)%nat.
Proof.
  induction X as [|x X Hx IH] using set_ind_L; [by rewrite set_map_empty|].
  rewrite set_map_union_L, set_map_singleton_L, (size_union {[x]} X) by set_solver.
  rewrite size_union_alt, !size_singleton.
  pose proof (subseteq_size (set_map f X ∖ {[f x]}) (set_map (D := gset nat) f X)
    ltac:(set_solver)). lia.
Qed.

(** Every write of a positive value is next to the write it counts from. *)
Context (Hchain : ∀ t v, h !! t = Some v → 0 < v → ∃ t', t = S t' ∧ h !! t' = Some (v - 1)).

Lemma level_size k : (size (level_set (S k)) ≤ size (level_set k))%nat.
Proof using Hchain.
  etransitivity; [|apply (size_image S)]. apply subseteq_size. intros t.
  rewrite elem_of_level, elem_of_map. intros Ht. destruct (Hchain _ _ Ht) as (t' & -> & Ht'); [lia|].
  exists t'. split; [done|]. apply elem_of_level. rewrite Ht'. f_equal. lia.
Qed.

Lemma level_size_zero k : (size (level_set k) ≤ size (level_set 0))%nat.
Proof using Hchain. induction k; [done|]. pose proof (level_size k). lia. Qed.

Lemma raised_size k : (size (raised_set k) ≤ k * size (level_set 0))%nat.
Proof using Hchain.
  induction k as [|k IH].
  - assert (raised_set 0 = ∅) as ->; [|by rewrite size_empty].
    apply elem_of_equiv_empty_L. intros t (v & _ & ?)%elem_of_raised. lia.
  - assert (raised_set (S k) ⊆ raised_set k ∪ level_set (S k)) as Hsub%subseteq_size.
    { intros t (v & Ht & Hv)%elem_of_raised. rewrite elem_of_union, elem_of_level, elem_of_raised.
      destruct (decide (v = Z.of_nat (S k))) as [->|]; [by right|]. left. exists v. split; [done|lia]. }
    rewrite size_union_alt in Hsub. pose proof (level_size_zero (S k)).
    pose proof (subseteq_size (level_set (S k) ∖ raised_set k) (level_set (S k)) ltac:(set_solver)).
    lia.
Qed.
End Counting.

(** ** Reservations and resets *)

(** A successful exchange of the probe counter, the reservation of a probe. *)
Definition is_reservation (lbl : label) : bool :=
  match lbl with Updated LProbes _ _ => true | _ => false end.
(** A plain write of the probe counter, its reset. *)
Definition is_reset (lbl : label) : bool :=
  match lbl with Wrote LProbes _ => true | _ => false end.

Definition count_labels (f : label → bool) (lbls : list label) : nat :=
  length (filter (λ lbl, f lbl = true) lbls).

Lemma count_labels_snoc f lbls lbl :
  count_labels f (lbls ++ [lbl]) = (count_labels f lbls + if f lbl then 1 else 0)%nat.
Proof.
  unfold count_labels. rewrite filter_app, length_app, filter_cons. by destruct (f lbl).
Qed.

Section Account.
Context (config : CircuitBreakerConfig).

(** The writes of the probe counter, by their timestamps. *)
Definition probe_writes (m : WMem) : gmap nat Z := val <$> hist m LProbes.

(** The writes account for the labels: one zero for the start and for each
    reset, one positive value, next to the value it counts from, for each
    reservation. *)
Record probe_account (lbls : list label) (h : gmap nat Z) : Prop := {
  account_chain t v : h !! t = Some v → 0 < v → ∃ t', t = S t' ∧ h !! t' = Some (v - 1);
  account_resets : size (level_set h 0) = S (count_labels is_reset lbls);
  account_reservations :
    size (raised_set h (Z.to_nat (half_open_max_probes config))) = count_labels is_reservation lbls
}.

Lemma account_other lbls lbl h :
  is_reset lbl = false → is_reservation lbl = false →
  probe_account lbls h → probe_account (lbls ++ [lbl]) h.
Proof.
  intros Hr Hs [Hc Hz Hp]. split; [done|..]; rewrite count_labels_snoc, ?Hr, ?Hs; lia.
Qed.

Lemma account_reset lbls t h :
  h !! t = None → probe_account lbls h →
  probe_account (lbls ++ [Wrote LProbes 0]) (<[t := 0]> h).
Proof.
  intros Ht [Hc Hz Hp]. split; rewrite ?count_labels_snoc; simpl.
  - intros t' v [[-> <-]|[Hne Hv]]%lookup_insert_Some Hpos; [lia|].
    destruct (Hc t' v Hv Hpos) as (t'' & -> & Hv'). exists t''. split; [done|].
    by rewrite lookup_insert_ne by congruence.
  - assert (level_set (<[t := 0]> h) 0 = {[t]} ∪ level_set h 0) as ->.
    { apply set_eq. intros t'. rewrite elem_of_union, elem_of_singleton, !elem_of_level.
      rewrite lookup_insert_Some. naive_solver. }
    rewrite size_union, size_singleton, Hz; [lia|].
    intros t' ->%elem_of_singleton. rewrite elem_of_level. congruence.
  - assert (∀ k, raised_set (<[t := 0]> h) k = raised_set h k) as ->; [|lia].
    intros k. apply set_eq. intros t'. rewrite !elem_of_raised. setoid_rewrite lookup_insert_Some.
    split; [intros (v & [[_ <-]|[_ ?]] & ?); [lia|by eauto]|].
    intros (v & Hv & ?). exists v. split; [|done]. right. split; [congruence|done].
Qed.

Lemma account_reserve lbls t v h :
  h !! t = Some v → h !! S t = None → 0 ≤ v < half_open_max_probes config →
  probe_account lbls h →
  probe_account (lbls ++ [Updated LProbes v (v + 1)]) (<[S t := v + 1]> h).
Proof.
  intros Ht Hfree Hv [Hc Hz Hp]. split; rewrite ?count_labels_snoc; simpl.
  - intros t' v' [[<- <-]|[Hne Hv']]%lookup_insert_Some Hpos.
    + exists t. split; [done|]. rewrite lookup_insert_ne by lia. rewrite Ht. f_equal. lia.
    + destruct (Hc t' v' Hv' Hpos) as (t'' & -> & Hv''). exists t''. split; [done|].
      by rewrite lookup_insert_ne by congruence.
  - assert (level_set (<[S t := v + 1]> h) 0 = level_set h 0) as ->; [|lia].
    apply set_eq. intros t'. rewrite !elem_of_level, lookup_insert_Some.
    split; [intros [[_ ?]|[_ ?]]; [lia|done]|]. intros Ht'. right. split; [congruence|done].
  - assert (raised_set (<[S t := v + 1]> h) (Z.to_nat (half_open_max_probes config)) =
      {[S t]} ∪ raised_set h (Z.to_nat (half_open_max_probes config))) as ->.
    { apply set_eq. intros t'. rewrite elem_of_union, elem_of_singleton, !elem_of_raised.
      setoid_rewrite lookup_insert_Some. split.
      - intros (v' & [[<- _]|[_ ?]] & ?); [by left|right; by eauto].
      - intros [->|(v' & Hv' & ?)]; [exists (v + 1); split; [by left|lia]|].
        exists v'. split; [|done]. right. split; [congruence|done]. }
    rewrite size_union, size_singleton, Hp; [lia|].
    intros t' ->%elem_of_singleton. rewrite elem_of_raised. intros (v' & ? & _). congruence.
Qed.

Lemma probe_writes_add l t msg m :
  probe_writes (add_msg l t msg m) =
  if bool_decide (l = LProbes) then <[t := val msg]> (probe_writes m) else probe_writes m.
Proof.
  unfold probe_writes. rewrite hist_add_msg. case_bool_decide; [|done]. subst. apply fmap_insert.
Qed.

Lemma account_effect lbls V m V' m' lbl :
  effect V m V' m' lbl → allowed config lbl → hist_ok config m →
  probe_account lbls (probe_writes m) → probe_account (lbls ++ [lbl]) (probe_writes m').
Proof.
  intros Heff Hok Hm Hacc. destruct Heff as [->|l t v W _ Hfree ->|l t msg new W _ Hmsg Hfree ->].
  - by apply account_other.
  - rewrite probe_writes_add. destruct Hok as [_ Hzero]. case_bool_decide as Hl.
    + subst l. rewrite (Hzero eq_refl). apply account_reset; [|done].
      unfold probe_writes. by rewrite lookup_fmap, Hfree.
    + apply account_other; [by destruct l|done..].
  - rewrite probe_writes_add. destruct Hok as [Hnew Hone]. case_bool_decide as Hl.
    + subst l. pose proof (Hm _ _ _ Hmsg) as Hold. simpl in Hold, Hnew. rewrite (Hone eq_refl) in *.
      apply account_reserve; [..|done].
      * unfold probe_writes. by rewrite lookup_fmap, Hmsg.
      * unfold probe_writes. by rewrite lookup_fmap, Hfree.
      * lia.
    + apply account_other; [done|by destruct l|done].
Qed.

Lemma weak_trace_account {A} (c c' : list (method A * View) * WMem) lbls :
  weak_trace c lbls c' → Forall (λ p, weak_safe config p.1) c.1 → hist_ok config c.2 →
  probe_account [] (probe_writes c.2) → probe_account lbls (probe_writes c'.2).
Proof.
  induction 1 as [c|c lbls c1 lbl c2 Htr IH Hstep]; [done|]. intros Hc Hm Hacc.
  destruct (weak_trace_safe config _ _ _ Htr Hc Hm) as (Hc1 & Hm1 & _).
  specialize (IH Hc Hm Hacc).
  inversion Hstep as [ts m i t p p' m' lbl' Hi Hs|ts m d Hd]; simplify_eq/=.
  - destruct (wthread_step_safe config _ _ _ _ _ _ (Forall_lookup_1 _ _ _ _ Hc1 Hi) Hm1 Hs) as [_ Hok].
    eapply account_effect; [by eapply wthread_step_effect|done..].
  - by apply account_other.
Qed.

Lemma new_breaker_account : probe_account [] (probe_writes (wmem_of new_breaker)).
Proof.
  assert (probe_writes (wmem_of new_breaker) = {[0%nat := 0]}) as ->.
  { unfold probe_writes. simpl. by rewrite map_fmap_singleton. }
  split.
  - intros t v [_ <-]%lookup_singleton_Some. lia.
  - assert (level_set {[0%nat := 0]} 0 = {[0%nat]}) as ->; [|by rewrite size_singleton].
    apply set_eq. intros t. rewrite elem_of_level, elem_of_singleton, lookup_singleton_Some. naive_solver.
  - assert (∀ k, raised_set {[0%nat := 0]} k = ∅) as ->; [|by rewrite size_empty].
    intros k. apply elem_of_equiv_empty_L. intros t (v & [_ <-]%lookup_singleton_Some & ?)%elem_of_raised.
    lia.
Qed.
End Account.

(** ** Relation to the sequentially consistent memory *)

Lemma field_update l l' v m :
  field l' (update l v m) = if bool_decide (l = l') then v else field l' m.
Proof. by destruct l, l'. Qed.

(** [top] points at the last write of every atomic, and the last writes are the
    values of [m]. *)
Record current (top : View) (m : Mem) (wm : WMem) : Prop := {
  cur_value l : ∃ msg, hist wm l !! top l = Some msg ∧ val msg = field l m;
  cur_last l t : (top l < t)%nat → hist wm l !! t = None;
  cur_view l t msg l' : hist wm l !! t = Some msg → (mview msg l' ≤ top l')%nat;
  cur_clock : wclock wm = clock m
}.

Lemma vinsert_spec (l : Loc) (t : nat) (V : View) l' :
  (<[l := t]> V) l' = if bool_decide (l = l') then t else V l'.
Proof.
  case_bool_decide; [subst; apply fn_lookup_insert|by apply fn_lookup_insert_ne].
Qed.

Lemma current_add top m wm l t v W :
  current top m wm → (top l < t)%nat → (∀ l', (W l' ≤ (<[l := t]> top) l')%nat) →
  current (<[l := t]> top) (update l v m) (add_msg l t (mkMsg v W) wm).
Proof.
  intros [Hval Hlast Hview Hclock] Ht HW. split.
  - intros l'. rewrite hist_add_msg, vinsert_spec, field_update. case_bool_decide; [subst l'|apply Hval].
    eexists. by rewrite lookup_insert_eq.
  - intros l' t'. rewrite hist_add_msg, vinsert_spec. case_bool_decide; [subst l'|apply Hlast].
    intros. rewrite lookup_insert_ne by lia. apply Hlast. lia.
  - intros l' t' msg l''. rewrite hist_add_msg.
    assert (top l'' ≤ (<[l := t]> top) l'')%nat by (rewrite vinsert_spec; case_bool_decide; subst; lia).
    case_bool_decide; [subst l'|intros; etransitivity; [by eapply Hview|done]].
    intros [[<- <-]|[_ Hmsg]]%lookup_insert_Some; [apply HW|]. etransitivity; [by eapply Hview|done].
  - simpl. rewrite Hclock. by destruct l.
Qed.

Lemma current_tick top m wm d :
  current top m wm → current top (set_clock (clock m + d) m) (advance_clock d wm).
Proof.
  intros [Hval Hlast Hview Hclock]. split; [|done..|by rewrite <- Hclock].
  intros l. destruct (Hval l) as (msg & ? & Hv). exists msg. split; [done|]. by destruct l.
Qed.

Lemma after_read_le o l msg V top :
  (∀ l', (V l' ≤ top l')%nat) → (∀ l', (mview msg l' ≤ top l')%nat) →
  ∀ l', (after_read o l (top l) msg V l' ≤ top l')%nat.
Proof.
  intros HV Hm l'. unfold after_read, vjoin. specialize (HV l'). specialize (Hm l').
  destruct (acquires o); rewrite vinsert_spec; case_bool_decide; subst; lia.
Qed.

Lemma after_read_eq o l msg V top :
  (∀ l', V l' = top l') → (∀ l', (mview msg l' ≤ top l')%nat) →
  ∀ l', after_read o l (top l) msg V l' = top l'.
Proof.
  intros HV Hm l'. unfold after_read, vjoin. specialize (HV l'). specialize (Hm l').
  destruct (acquires o); rewrite vinsert_spec; case_bool_decide; subst; lia.
Qed.

(** An update of the last write. *)
Lemma rmw_current top m wm V l o new :
  current top m wm → (∀ l, (V l ≤ top l)%nat) →
  ∃ V' W, rmw l o (top l) new V wm =
    Some (field l m, V', add_msg l (S (top l)) (mkMsg (new (field l m)) W) wm,
          Updated l (field l m) (new (field l m))) ∧
  current (<[l := S (top l)]> top) (update l (new (field l m)) m)
    (add_msg l (S (top l)) (mkMsg (new (field l m)) W) wm) ∧
  (∀ l', (V' l' ≤ (<[l := S (top l)]> top) l')%nat) ∧
  ((∀ l, V l = top l) → ∀ l', V' l' = (<[l := S (top l)]> top) l').
Proof.
  intros Hcur HV. destruct (cur_value _ _ _ Hcur l) as (msg & Hmsg & Hval).
  assert (∀ l', (mview msg l' ≤ top l')%nat) as Hmv by (intros; by eapply cur_view).
  pose proof (after_read_le o l msg V top HV Hmv) as Hread.
  unfold rmw. rewrite (proj2 (readable_Some l (top l) V wm msg)) by done. simpl.
  rewrite (cur_last _ _ _ Hcur) by lia. rewrite Hval. eexists _, _. split; [reflexivity|]. split_and!.
  - apply current_add; [done|lia|]. intros l'. specialize (Hread l'). specialize (Hmv l').
    destruct (releases o); unfold vjoin, vbot; rewrite !vinsert_spec; case_bool_decide; subst; lia.
  - intros l'. specialize (Hread l'). rewrite !vinsert_spec. case_bool_decide; lia.
  - intros HVe l'. pose proof (after_read_eq o l msg V top HVe Hmv l') as Heq.
    rewrite !vinsert_spec. case_bool_decide; [done|exact Heq].
Qed.

(** Any step of the sequentially consistent memory can be taken on the last
    writes. *)
Lemma instr_current {B} (i : instr B) top m wm V :
  current top m wm → (∀ l, (V l ≤ top l)%nat) →
  ∃ t V' wm' lbl top', instr_exec i t V wm = Some ((instr_action i m).1, V', wm', lbl) ∧
    current top' (instr_action i m).2 wm' ∧ (∀ l, (V' l ≤ top' l)%nat) ∧
    (∀ l, (top l ≤ top' l)%nat).
Proof.
  intros Hcur HV. assert (∀ l l', (top l' ≤ (<[l := S (top l)]> top) l')%nat) as Hup.
  { intros l l'. rewrite vinsert_spec. case_bool_decide; subst; lia. }
  destruct i; simpl.
  - destruct (cur_value _ _ _ Hcur l) as (msg & Hmsg & Hval).
    exists (top l), (after_read o l (top l) msg V), wm, Quiet, top.
    rewrite (proj2 (readable_Some l (top l) V wm msg)) by done. simpl. rewrite Hval.
    split_and!; [done..| |done]. apply after_read_le; [done|]. intros. by eapply cur_view.
  - exists (S (top l)). rewrite bool_decide_true by (specialize (HV l); lia).
    rewrite (cur_last _ _ _ Hcur) by lia. eexists _, _, _, (<[l := S (top l)]> top).
    split; [reflexivity|].
    assert (∀ l', ((<[l := S (top l)]> V) l' ≤ (<[l := S (top l)]> top) l')%nat) as HV'.
    { intros l'. rewrite !vinsert_spec. case_bool_decide; [done|apply HV]. }
    split_and!; [|done|apply Hup]. apply current_add; [done|lia|]. intros l'.
    destruct (releases o); [apply HV'|]. rewrite !vinsert_spec. case_bool_decide; unfold vbot; lia.
  - exists (top l). destruct (rmw_current top m wm V l o (λ _, v) Hcur HV) as (V' & W & -> & ? & ? & _).
    eexists _, _, _, _. split_and!; [reflexivity|done..|apply Hup].
  - destruct (cur_value _ _ _ Hcur l) as (msg & Hmsg & Hval).
    unfold compare_exchange. exists (top l).
    rewrite (proj2 (readable_Some l (top l) V wm msg)) by done. simpl. rewrite Hval.
    destruct (field l m =? current0).
    + destruct (rmw_current top m wm V l success (λ _, new) Hcur HV) as (V' & W & -> & ? & ? & _).
      eexists _, _, _, _. split_and!; [reflexivity|done..|apply Hup].
    + eexists _, _, _, top. split_and!; [reflexivity|done| |done].
      apply after_read_le; [done|]. intros. by eapply cur_view.
  - exists (top l). destruct (rmw_current top m wm V l o (λ old, wrapping_add_u32 old v) Hcur HV)
      as (V' & W & -> & ? & ? & _).
    eexists _, _, _, _. split_and!; [reflexivity|done..|apply Hup].
  - exists 0%nat. eexists _, _, _, top. rewrite (cur_clock _ _ _ Hcur). by split_and!.
  - exists 0%nat. eexists _, _, _, top. by split_and!.
Qed.

(** A thread whose view is at the last writes can do nothing else. *)
Lemma instr_lone {B} (i : instr B) top m wm V t b V' wm' lbl :
  current top m wm → (∀ l, V l = top l) → instr_exec i t V wm = Some (b, V', wm', lbl) →
  ∃ top', b = (instr_action i m).1 ∧ current top' (instr_action i m).2 wm' ∧ ∀ l, V' l = top' l.
Proof.
  intros Hcur HV. assert (∀ l t msg, readable l t V wm = Some msg →
    t = top l ∧ val msg = field l m ∧ ∀ l', (mview msg l' ≤ top l')%nat) as Hread.
  { intros l t' msg [Hle Hmsg]%readable_Some. rewrite HV in Hle.
    destruct (decide (top l < t')%nat) as [Hlt|];
      [by rewrite (cur_last _ _ _ Hcur l t' Hlt) in Hmsg|].
    assert (t' = top l) as -> by lia. destruct (cur_value _ _ _ Hcur l) as (msg' & ? & ?).
    simplify_eq. split_and!; [done..|]. intros. by eapply cur_view. }
  assert (∀ l o new r, rmw l o t new V wm = Some r → ∃ V1 wm1, r = (field l m, V1, wm1,
      Updated l (field l m) (new (field l m))) ∧ ∃ top',
      current top' (update l (new (field l m)) m) wm1 ∧ ∀ l', V1 l' = top' l') as Hrmw.
  { intros l o new r Hr. destruct (readable l t V wm) as [msg|] eqn:Hrd;
      [|unfold rmw in Hr; by rewrite Hrd in Hr].
    destruct (Hread _ _ _ Hrd) as (-> & _ & _).
    destruct (rmw_current top m wm V l o new Hcur) as (V1 & W & Heq & ? & _ & ?);
      [intros l'; by rewrite HV|]. rewrite Heq in Hr. injection Hr as <-. eauto 8. }
  destruct i; simpl; intros Hex.
  - destruct (readable l t V wm) as [msg|] eqn:Hrd; simplify_eq/=.
    destruct (Hread _ _ _ Hrd) as (-> & -> & Hmv). exists top. split_and!; [done..|].
    by apply after_read_eq.
  - case_bool_decide as Hlt; [|done]. destruct (hist wm l !! t); simplify_eq/=.
    rewrite HV in Hlt. exists (<[l := t]> top).
    assert (∀ l', (<[l := t]> V) l' = (<[l := t]> top) l') as HV'
      by (intros l'; rewrite !vinsert_spec; by case_bool_decide).
    split_and!; [done| |done]. apply current_add; [done..|]. intros l'.
    destruct (releases o); [by rewrite HV'|]. rewrite !vinsert_spec. case_bool_decide; unfold vbot; lia.
  - destruct (Hrmw _ _ _ _ Hex) as (V1 & wm1 & Heq & top' & ? & ?). simplify_eq/=. by exists top'.
  - destruct (readable l t V wm) as [msg|] eqn:Hrd; simpl in Hex; [|done].
    destruct (Hread _ _ _ Hrd) as (Ht & Hval & Hmv). unfold compare_exchange. rewrite <- Hval.
    destruct (val msg =? current0).
    + destruct (rmw l success t _ V wm) as [r|] eqn:Hr; simpl in Hex; [|done].
      destruct (Hrmw _ _ _ _ Hr) as (V1 & wm1 & -> & top' & ? & ?). simplify_eq/=. by exists top'.
    + simplify_eq/=. exists top. split_and!; [done..|]. by apply after_read_eq.
  - destruct (Hrmw _ _ _ _ Hex) as (V1 & wm1 & Heq & top' & ? & ?). simplify_eq/=. by exists top'.
  - simplify_eq/=. exists top. rewrite (cur_clock _ _ _ Hcur). by split_and!.
  - simplify_eq/=. by exists top.
Qed.

(** ** Executions *)

Lemma record_instr_action {B} (i : instr B) ml :
  (record_instr i ml).1 = (instr_action i ml.1).1 ∧
  (record_instr i ml).2.1 = (instr_action i ml.1).2.
Proof. destruct i; simpl; try done. by destruct (compare_exchange _ _ _ _ _). Qed.

Lemma thread_current {A} (q : method A) V top wm ml p' ml' :
  thread_step (record q) ml = Some (p', ml') → current top ml.1 wm → (∀ l, (V l ≤ top l)%nat) →
  ∃ t q' V' wm' lbl top', wthread_step t (q, V) wm = Some (q', V', wm', lbl) ∧ p' = record q' ∧
    current top' ml'.1 wm' ∧ (∀ l, (V' l ≤ top' l)%nat) ∧ (∀ l, (top l ≤ top' l)%nat).
Proof.
  destruct q as [A a|A B i k|A B body k]; simpl; intros Hs Hcur HV; [done| |].
  - destruct (instr_current i top ml.1 wm V Hcur HV) as (t & V' & wm' & lbl & top' & Hex & ? & ? & ?).
    destruct (record_instr_action i ml) as [Hb Hm].
    destruct (record_instr i ml) as [b ml1]. simplify_eq/=. rewrite Hm.
    exists t. rewrite Hex. simpl. eauto 12.
  - simplify_eq/=. exists 0%nat. rewrite record_unroll. eauto 12.
Qed.

Lemma pool_current {A} (c c' : list (prog LogMem A) * LogMem) wts wm top :
  rtc (pool_step log_time_passes) c c' → c.1 = record <$> wts.*1 → current top c.2.1 wm →
  Forall (λ p, ∀ l, (p.2 l ≤ top l)%nat) wts →
  ∃ wts' wm' top' lbls, weak_trace (wts, wm) lbls (wts', wm') ∧ c'.1 = record <$> wts'.*1 ∧
    current top' c'.2.1 wm'.
Proof.
  intros Hsteps Hts Hcur HV.
  assert (∃ lbls, weak_trace (wts, wm) lbls (wts, wm)) as [lbls Htr] by (eexists; constructor).
  revert Hts Hcur HV lbls Htr. generalize (wts, wm) at 1 3 as c0. intros c0.
  revert wts wm top. induction Hsteps as [c|c c1 c' Hstep Hsteps IH]; intros wts wm top Hts Hcur HV lbls Htr.
  { eauto 8. }
  inversion Hstep as [ts ml i p p' ml' Hi Hs|ts ml ml' [(d & Hd & Hm) Hl]]; simplify_eq/=.
  - apply list_lookup_fmap_Some in Hi as (q & -> & Hq).
    apply list_lookup_fmap_Some in Hq as ([q' V] & -> & Hq).
    pose proof (Forall_lookup_1 _ _ _ _ HV Hq) as HVq. simpl in HVq.
    destruct (thread_current _ _ _ _ _ _ _ Hs Hcur HVq)
      as (t & q1 & V1 & wm1 & lbl & top1 & Hw & -> & Hcur1 & HV1 & Hup).
    apply (IH (<[i := (q1, V1)]> wts) wm1 top1) with (lbls := lbls ++ [lbl]); [|exact Hcur1| |].
    + by rewrite !list_fmap_insert.
    + apply Forall_insert; [|done]. eapply Forall_impl; [exact HV|]. intros [? W] HW l.
      etransitivity; [apply HW|apply Hup].
    + eapply WeakMore; [exact Htr|]. by eapply WeakThread.
  - eapply (IH wts (advance_clock d wm) top); [done| |done|eapply WeakMore; [exact Htr|by constructor]].
    rewrite Hm. by apply current_tick.
Qed.

Lemma wmem_of_current m : current vbot m (wmem_of m).
Proof.
  split; simpl.
  - intros l. eexists. by rewrite lookup_singleton_eq.
  - intros l t Ht. unfold vbot in Ht. apply lookup_singleton_ne. lia.
  - by intros l t msg l' [_ <-]%lookup_singleton_Some.
  - done.
Qed.

Lemma record_answer {A} (q : method A) a : Ret a = record q → q = Return a.
Proof. intros Hq%(f_equal returned). destruct q; by simplify_eq/=. Qed.

Lemma instr_action_clock {B} (i : instr B) m : clock (instr_action i m).2 = clock m.
Proof.
  destruct i; simpl; try done; try (by destruct l).
  unfold compare_exchange. case_if; [by destruct l|done].
Qed.

(** An instruction of a lone thread on the one current memory; an event costs
    nothing. *)
Lemma erase_run {A B} (i : instr B) (k : B → method A) m :
  ∃ n, ∀ fuel, run (n + fuel) (erase (Do i k)) m =
               run fuel (erase (k (instr_action i m).1)) (instr_action i m).2.
Proof.
  destruct i; simpl; try (by exists 1%nat); [|by exists 0%nat].
  exists 1%nat. intros fuel. simpl. by destruct (compare_exchange _ _ _ _ _).
Qed.

(** A thread alone, at the last writes: as long as no time passes it does what
    it does on one current memory. *)
Lemma lone_trace {A} (q0 : method A) V0 m0 wm0 top0 lbls c' :
  current top0 m0 wm0 → (∀ l, V0 l = top0 l) → weak_trace ([(q0, V0)], wm0) lbls c' →
  ∃ q V m top, c'.1 = [(q, V)] ∧ current top m c'.2 ∧ (∀ l, V l = top l) ∧ clock m0 ≤ clock m ∧
    (clock m = clock m0 → ∃ n, ∀ fuel, run (n + fuel) (erase q0) m0 = run fuel (erase q) m).
Proof.
  intros Hcur HV Htr. remember ([(q0, V0)], wm0) as c eqn:Hc.
  induction Htr as [c|c lbls c1 lbl c2 _ IH Hstep]; simplify_eq/=.
  { exists q0, V0, m0, top0. split_and!; [done..|]. by exists 0%nat. }
  destruct (IH eq_refl) as (q & V & m & top & Hc1 & Hcur1 & HV1 & Hle & Hrun).
  inversion Hstep as [ts wm i t p p' wm' lbl' Hi Hs|ts wm d Hd]; simplify_eq/=.
  - apply list_lookup_singleton_Some in Hi as [-> <-]. destruct p' as [q' V']. simpl.
    assert (∃ m' top' n, current top' m' wm' ∧ (∀ l, V' l = top' l) ∧ clock m' = clock m ∧
      ∀ fuel, run (n + fuel) (erase q) m = run fuel (erase q') m')
      as (m' & top' & n & ? & ? & Hck & Hn).
    { destruct q as [A a|A B i k|A B body k]; simpl in Hs; [done| |].
      + destruct (instr_exec i t V wm) as [[[[b V1] wm1] lbl1]|] eqn:Hex; simplify_eq/=.
        destruct (instr_lone i top m wm V t b V' wm' lbl Hcur1 HV1 Hex) as (top' & -> & ? & ?).
        destruct (erase_run i k m) as [n Hn].
        eexists _, top', n. split_and!; [done..|apply instr_action_clock|done].
      + simplify_eq/=. exists m, top, 1%nat. split_and!; [done..|]. intros fuel.
        by rewrite <- erase_unroll. }
    eexists _, _, m', top'. split_and!; [done..|lia|]. intros Hck'.
    destruct Hrun as [n' Hn']; [congruence|]. exists (n' + n)%nat. intros fuel.
    by rewrite <- Nat.add_assoc, Hn', Hn.
  - eexists _, _, (set_clock (clock m + d) m), top. split_and!; [done|by apply current_tick|done| |].
    + simpl. lia.
    + simpl. intros Hck. destruct Hrun as [n Hn]; [lia|]. exists n. intros fuel. rewrite Hn.
      replace (set_clock (clock m + d) m) with m; [done|]. destruct m. unfold set_clock. simpl in *.
      f_equal. lia.
Qed.

(** What a thread completes on one current memory it completes on the histories. *)
Lemma run_weak {A} n (q : method A) m a m' V wm top c lbls :
  run n (erase q) m = Some (a, m') → current top m wm → (∀ l, (V l ≤ top l)%nat) →
  weak_trace c lbls ([(q, V)], wm) →
  ∃ lbls' V' wm', weak_trace c lbls' ([(Return a, V')], wm') ∧ wclock wm' = clock m.
Proof.
  revert q m V wm top lbls. induction n as [|n IHn]; intros q m V wm top lbls Hrun; [done|].
  revert m V wm top lbls Hrun. induction q as [A a'|A B i k IHq|A B body IHb k IHk];
    intros m V wm top lbls Hrun Hcur HV Htr.
  - simpl in Hrun. simplify_eq. eexists _, V, wm. split; [exact Htr|apply (cur_clock _ _ _ Hcur)].
  - destruct (instr_current i top m wm V Hcur HV) as (t & V1 & wm1 & lbl & top1 & Hex & Hcur1 & HV1 & _).
    assert (weak_trace c (lbls ++ [lbl]) ([(k (instr_action i m).1, V1)], wm1)) as Htr1.
    { eapply WeakMore; [exact Htr|]. apply (WeakThread [(Do i k, V)] wm 0 t (Do i k, V)); [done|].
      simpl. by rewrite Hex. }
    rewrite <- (instr_action_clock i m).
    assert (run n (erase (k (instr_action i m).1)) (instr_action i m).2 = Some (a, m') ∨
            run (S n) (erase (k (instr_action i m).1)) (instr_action i m).2 = Some (a, m')) as [Hn|Hn].
    { destruct i; simpl in Hrun |- *; try (by left); [|by right].
      left. by destruct (compare_exchange _ _ _ _ _). }
    + by eapply IHn.
    + by eapply IHq.
  - simpl in Hrun. rewrite erase_unroll in Hrun. eapply IHn; [exact Hrun|exact Hcur|exact HV|].
    eapply WeakMore; [exact Htr|]. by apply (WeakThread [(Repeat body k, V)] wm 0 0 (Repeat body k, V)).
Qed.

(** Calls that take no time, run one after the other. *)
Definition instant_op (o : op) : Prop := match o with OpTick _ => False | _ => True end.

Lemma exec_call config o m a m' :
  instant_op o → exec config o m = Some (a, m') →
  ∃ n, run n (call_thread config o) m = Some (a, m').
Proof.
  intros Ho Hex. destruct o; unfold exec in Hex; try done;
    match type of Hex with context [run ?n ?p m] => destruct (run n p m) as [[x m1]|] eqn:Hr end;
    try done; cbn [mbind option_bind] in Hex; injection Hex as <- <-; unfold call_thread;
    eexists; (eapply (run_bind _ 1); [exact Hr|reflexivity]).
Qed.

Lemma exec_all_calls config ops m answers m' :
  Forall instant_op ops → exec_all config ops m = Some (answers, m') →
  ∃ n, run n (call_threads config ops) m = Some (answers, m').
Proof.
  intros Hops. revert m answers. induction Hops as [|o ops Ho _ IH]; intros m answers; simpl.
  { intros [= <- <-]. by exists 1%nat. }
  destruct (exec config o m) as [[a m1]|] eqn:Ho'; simpl; [|done].
  destruct (exec_all config ops m1) as [[rest m2]|] eqn:Hrest; simpl; [|done]. intros [= <- <-].
  destruct (exec_call _ _ _ _ _ Ho Ho') as [n Hn]. destruct (IH _ _ Hrest) as [n' Hn'].
  exists (n + (n' + 1))%nat. eapply run_bind; [exact Hn|]. by eapply run_bind.
Qed.

Lemma instant_ticks ops : Forall instant_op ops → forward ops ∧ ticks ops = 0.
Proof.
  induction 1 as [|o ops Ho _ [IH1 IH2]]; [split; [constructor|done]|].
  assert (op_ticks o = 0) as Ho' by (by destruct o). split; [|simpl; lia].
  constructor; [lia|exact IH1].
Qed.

(** ** Properties *)

(** C20: under release/acquire atomics, whatever calls any number of threads make
    and however stale their reads are, every value ever written to the breaker's
    atomics is one they may hold: the state byte names a state, the counters
    are in range and the probe counter never exceeds [half_open_max_probes]. *)
Theorem weak_breaker_invariant config calls lbls ts m :
  config_wf config →
  weak_trace (weak_callers config calls, wmem_of new_breaker) lbls (ts, m) → hist_ok config m.
Proof.
  intros Hwf Htr.
  apply (weak_trace_safe config _ _ _ Htr); [by apply weak_callers_safe|by apply new_breaker_hist_ok].
Qed.

(** C5: under release/acquire atomics the half-open gate holds between resets: in
    every execution at most [half_open_max_probes] probes are reserved for the
    start and for each reset of the counter, because no two reservations count
    from the same write. *)
Theorem weak_probe_bound config calls lbls c :
  config_wf config →
  weak_trace (weak_callers config calls, wmem_of new_breaker) lbls c →
  Z.of_nat (count_labels is_reservation lbls) ≤
    half_open_max_probes config * (1 + Z.of_nat (count_labels is_reset lbls)).
Proof.
  intros Hwf Htr.
  destruct (weak_trace_account config _ _ _ Htr) as [Hchain Hresets Hres];
    [by apply weak_callers_safe|by apply new_breaker_hist_ok|apply new_breaker_account|].
  pose proof (raised_size (probe_writes c.2) Hchain (Z.to_nat (half_open_max_probes config))) as Hsize.
  rewrite Hres, Hresets in Hsize. destruct Hwf as (_ & _ & Hmax). unfold u32 in Hmax. nia.
Qed.

(** release/acquire atomics allow all that sequentially consistent ones allow:
    every interleaving of calls on one current memory, which the theorems about
    concurrent calls speak of, is an execution on the histories in which the
    calls that have returned have the same answers and the last writes are the
    values of that memory. *)
Theorem sc_executions_are_weak config calls m log ts ml' :
  rtc (pool_step log_time_passes) (record ∘ call_methods config <$> calls, (m, log)) (ts, ml') →
  ∃ lbls wts wm top,
    weak_trace (weak_callers config calls, wmem_of m) lbls (wts, wm) ∧
    (∀ i a, ts !! i = Some (Ret a) → ∃ V, wts !! i = Some (Return a, V)) ∧
    current top ml'.1 wm.
Proof.
  intros Hsteps.
  destruct (pool_current _ _ (weak_callers config calls) (wmem_of m) vbot Hsteps)
    as (wts & wm & top & lbls & Htr & Hts & Hcur); simpl in *.
  - unfold weak_callers. by rewrite <- !list_fmap_compose.
  - apply wmem_of_current.
  - apply Forall_fmap, Forall_true. intros ops l. simpl. done.
  - exists lbls, wts, wm, top. split; [done|]. split; [|done]. intros i a Hi. rewrite Hts in Hi.
    apply list_lookup_fmap_Some in Hi as (q & Hq & Hi).
    apply list_lookup_fmap_Some in Hi as ([q' V] & -> & Hi). simpl in Hq.
    exists V. rewrite Hi. f_equal. f_equal. by apply record_answer.
Qed.

(** C21: a caller that has the breaker to itself notices nothing of the weaker
    memory: a burst of calls - no time passes from the first to the last - on a
    breaker in any state can complete, and whatever timestamps it picks its
    answers are those of the abstract breaker, and the last writes, which are the
    ones the caller sees, represent the abstract breaker's state afterwards. *)
Theorem lone_caller_refines_spec config ops m0 b :
  config_wf config → models m0 b → Forall instant_op ops →
  let c := (weak_callers config [ops], wmem_of m0) in
  let '(expected, _, b') := a_exec_all config ops (clock m0) b in
  (∃ lbls V wm, weak_trace c lbls ([(Return expected, V)], wm) ∧ wclock wm = clock m0) ∧
  (∀ lbls answers V wm,
     weak_trace c lbls ([(Return answers, V)], wm) → wclock wm = clock m0 →
     answers = expected ∧
     ∃ m, models m b' ∧
       ∀ l, ∃ msg, hist wm l !! V l = Some msg ∧ val msg = field l m ∧
              ∀ t, (V l < t)%nat → hist wm l !! t = None).
Proof.
  intros Hwf Hm Hops c. destruct (instant_ticks ops Hops) as [Hf Ht].
  pose proof (exec_all_refines config ops m0 b Hwf Hm Hf) as Hex.
  destruct (a_exec_all config ops (clock m0) b) as [[expected now] b'].
  destruct Hex as (m' & Hex & _ & Hm'); [destruct Hm; lia|].
  destruct (exec_all_calls _ _ _ _ _ Hops Hex) as [n' Hn']. split.
  - rewrite <- erase_call_methods in Hn'.
    destruct (run_weak _ _ _ _ _ vbot (wmem_of m0) vbot c [] Hn' (wmem_of_current m0))
      as (lbls & V & wm & Htr & Hck); [done|constructor|by exists lbls, V, wm].
  - intros lbls answers V wm Htr Hck.
    destruct (lone_trace (call_methods config ops) vbot m0 (wmem_of m0) vbot lbls _
      (wmem_of_current m0) (λ _, eq_refl) Htr) as (q & V' & m & top & Hts & Hcur & HV & _ & Hrun).
    simpl in Hts, Hcur. simplify_eq. rewrite (cur_clock _ _ _ Hcur) in Hck.
    destruct (Hrun Hck) as [n Hn]. specialize (Hn 1%nat). rewrite erase_call_methods in Hn. simpl in Hn.
    apply (run_mono _ n') in Hn. apply (run_mono _ (n + 1)) in Hn'. rewrite Nat.add_comm, Hn' in Hn.
    simplify_eq. split; [done|]. exists m. split; [done|]. intros l.
    destruct (cur_value _ _ _ Hcur l) as (msg & Hmsg & Hval). rewrite HV. exists msg.
    split_and!; [done..|]. intros t. apply (cur_last _ _ _ Hcur).
Qed.

(** the weaker memory is weaker: with a threshold of one, a request that starts
    after a failure report has returned can be admitted at the same instant,
    because its thread still reads the closed state. On one current memory it
    would be refused. *)
Theorem stale_state_admits_request :
  ∃ lbls V0 V1 wm,
    weak_trace (weak_callers one_probe_config [[OpFailure]; [OpAllow]], wmem_of new_breaker) lbls
      ([(Return [AnsUnit], V0); (Return [AnsAllow true], V1)], wm) ∧
    (val <$> hist wm LState !! V0 LState = Some OPEN_U8) ∧
    exec_all one_probe_config [OpFailure; OpAllow] new_breaker =
      Some ([AnsUnit; AnsAllow false], mkMem OPEN_U8 1 0 0 0).
Proof.
  eexists _, _, _, _. split; [|split].
  - eapply (weak_run_sound
      ((Turn 0 <$> [0; 0; 0; 0; 0; 1; 1; 0]) ++ (Turn 1 <$> [0; 0]))%nat); [constructor|].
    vm_compute. reflexivity.
  - vm_compute. reflexivity.
  - vm_compute. reflexivity.
Qed.

(** ** Witnesses *)

(** One thread: a failure opens the breaker, the recovery timeout passes, and
    the thread's next request is the probe. *)
Definition recovery_calls : list (list op) := [[OpFailure; OpAllow]].
Definition recovery_schedule : list turn :=
  Wait 1 :: (Turn 0 <$> [0; 0; 0; 0; 0; 1; 1]%nat) ++ [Wait 2000000]
    ++ (Turn 0 <$> [0; 1; 1; 0; 1; 2; 2; 0; 2; 0; 2; 2]%nat).

Lemma weak_breaker_invariant_witness :
  ∃ lbls ts m,
    weak_run recovery_schedule [] (weak_callers one_probe_config recovery_calls, wmem_of new_breaker)
      = Some (lbls, (ts, m)) ∧ hist_ok one_probe_config m.
Proof.
  eexists _, _, _. split; [vm_compute; reflexivity|].
  eapply (weak_breaker_invariant one_probe_config recovery_calls); [by_compute|].
  eapply (weak_run_sound recovery_schedule); [constructor|]. vm_compute. reflexivity.
Defined.

Lemma weak_probe_bound_witness :
  ∃ lbls c,
    weak_run recovery_schedule [] (weak_callers one_probe_config recovery_calls, wmem_of new_breaker)
      = Some (lbls, c) ∧ count_labels is_reservation lbls = 1%nat ∧
    Z.of_nat (count_labels is_reservation lbls) ≤ 1 * (1 + Z.of_nat (count_labels is_reset lbls)).
Proof.
  eexists _, _. split; [vm_compute; reflexivity|]. split; [vm_compute; reflexivity|].
  eapply (weak_probe_bound one_probe_config recovery_calls); [by_compute|].
  eapply (weak_run_sound recovery_schedule); [constructor|]. vm_compute. reflexivity.
Defined.

Lemma sc_executions_are_weak_witness :
  ∃ lbls wts wm,
    weak_trace (weak_callers one_probe_config [[OpAllow]], wmem_of opened_breaker) lbls (wts, wm) ∧
    ∃ V, wts !! 0%nat = Some (Return [AnsAllow true], V).
Proof.
  destruct (sc_executions_are_weak one_probe_config [[OpAllow]] opened_breaker []
    [Ret [AnsAllow true]] (mkMem HALF_OPEN_U8 0 1 1 2000001, [half_open_event]))
    as (lbls & wts & wm & top & Htr & Hans & _).
  - apply (history_steps _ _ [HalfOpen]).
    eapply (follow_sound (replicate 11 0%nat) []); [constructor|vm_compute; reflexivity].
  - exists lbls, wts, wm. split; [exact Htr|]. by apply Hans.
Defined.

(** A burst on a breaker whose recovery timeout has passed: the first request is
    the probe, the second is refused. *)
Lemma lone_caller_refines_spec_witness :
  ∃ lbls V wm,
    weak_run (Turn 0 <$> [0; 0; 0; 0; 1; 1; 0; 1; 0; 1; 1; 1; 1; 0; 2]%nat) []
      (weak_callers one_probe_config [[OpAllow; OpAllow]], wmem_of opened_breaker)
      = Some (lbls, ([(Return [AnsAllow true; AnsAllow false], V)], wm)) ∧
    [AnsAllow true; AnsAllow false] =
      (a_exec_all one_probe_config [OpAllow; OpAllow] (clock opened_breaker) (AOpen 1 0)).1.1.
Proof.
  eexists _, _, _. split; [vm_compute; reflexivity|].
  destruct (lone_caller_refines_spec one_probe_config [OpAllow; OpAllow] opened_breaker (AOpen 1 0))
    as [_ Hall]; [by_compute|by_compute|repeat constructor|].
  eapply (proj1 (Hall _ _ _ _ ltac:(eapply (weak_run_sound
    (Turn 0 <$> [0; 0; 0; 0; 1; 1; 0; 1; 0; 1; 1; 1; 1; 0; 2]%nat)); [constructor|];
    vm_compute; reflexivity) ltac:(vm_compute; reflexivity))).
Defined.
