(* ===== verification/LoadBalance.v ===== *)
(** * LoadBalance: resolvers' endpoint snapshots and endpoint selection

    Models [sdkwork-rpc-client/src/resolver.rs] and [load_balance.rs]. The
    [NameResolver] trait is a type class over the resolver's state; a [&mut
    RoundRobinCursor] is passed in and returned. *)
From S2P Require Import Prelude RustStd Core.

(** ** [resolver.rs] *)

Record ResolvedEndpoint : Type := {
  endpoint : string;
  weight : Z;
  healthy : bool
}.

#[global] Instance ResolvedEndpoint_eq_dec : EqDecision ResolvedEndpoint.
Proof. solve_decision. Defined.

(** The trait [NameResolver]; resolving may change the resolver's state (a
    cache, a connection). *)
Class NameResolver (R : Type) : Type := {
  resolve : string → R → RpcFrameworkResult (list ResolvedEndpoint) * R
}.

(** What a resolver promises its clients on success. *)
Class NonEmptyResolver (R : Type) `{NameResolver R} : Prop := {
  resolve_non_empty service_name r endpoints r' :
    resolve service_name r = (Ok endpoints, r') → endpoints ≠ []
}.

Record StaticNameResolver : Type := { static_endpoints : list ResolvedEndpoint }.

Definition single (e : string) : StaticNameResolver :=
  {| static_endpoints := [{| endpoint := e; weight := 100; healthy := true |}] |}.

#[global] Instance static_resolver : NameResolver StaticNameResolver := {|
  resolve _ r := (Ok (static_endpoints r), r)
|}.

Record CompositeNameResolver (R : Type) : Type := {
  primary : R;
  fallback : StaticNameResolver
}.
Arguments primary {R}.
Arguments fallback {R}.

Definition composite_new {R} (primary : R) (fallback : StaticNameResolver) :
    CompositeNameResolver R :=
  {| primary := primary; fallback := fallback |}.

Definition composite_resolve {R} `{NameResolver R} (service_name : string)
    (self : CompositeNameResolver R) :
    RpcFrameworkResult (list ResolvedEndpoint) * CompositeNameResolver R :=
  let (r, primary') := resolve service_name (primary self) in
  let self' := {| primary := primary'; fallback := fallback self |} in
  match r with
  | Ok endpoints =>
      if negb (bool_decide (endpoints = [])) then (Ok endpoints, self')
      else ((resolve service_name (fallback self)).1, self')
  | Err _ => ((resolve service_name (fallback self)).1, self')
  end.

#[global] Instance composite_resolver {R} `{NameResolver R} :
  NameResolver (CompositeNameResolver R) := {| resolve := composite_resolve |}.

(** ** [load_balance.rs] *)

Inductive LoadBalanceAlgorithm : Type := PickFirst | RoundRobin | Weighted.

#[global] Instance LoadBalanceAlgorithm_eq_dec : EqDecision LoadBalanceAlgorithm.
Proof. solve_decision. Defined.

Record RoundRobinCursor : Type := { next : Z }.

Definition advance (cursor : RoundRobinCursor) : RoundRobinCursor :=
  {| next := saturating_add usize_max (next cursor) 1 |}.

(** [e.weight.max(1) as u64]. *)
Definition effective_weight (e : ResolvedEndpoint) : Z := Z.max (weight e) 1.

Fixpoint total_weight (candidates : list ResolvedEndpoint) : Z :=
  match candidates with
  | [] => 0
  | e :: candidates' => effective_weight e + total_weight candidates'
  end.

(** The accumulation loop: the first candidate whose running total exceeds
    the slot. *)
Fixpoint pick_slot (slot accumulated : Z) (candidates : list ResolvedEndpoint) :
    option ResolvedEndpoint :=
  match candidates with
  | [] => None
  | e :: candidates' =>
      let accumulated := accumulated + effective_weight e in
      if slot <? accumulated then Some e else pick_slot slot accumulated candidates'
  end.

Definition pick_weighted (candidates : list ResolvedEndpoint) (cursor : RoundRobinCursor) :
    option ResolvedEndpoint * RoundRobinCursor :=
  let total := total_weight candidates in
  if total =? 0 then (head candidates, cursor)
  else
    let slot := next cursor mod total in
    let cursor' := advance cursor in
    match pick_slot slot 0 candidates with
    | Some e => (Some e, cursor')
    | None => (last candidates, cursor')
    end.

Definition candidates_of (endpoints : list ResolvedEndpoint) : list ResolvedEndpoint :=
  let healthy_ones := filter (λ e, healthy e = true) endpoints in
  if bool_decide (healthy_ones = []) then endpoints else healthy_ones.

Definition pick_endpoint (endpoints : list ResolvedEndpoint)
    (algorithm : LoadBalanceAlgorithm) (cursor : RoundRobinCursor) :
    option ResolvedEndpoint * RoundRobinCursor :=
  if bool_decide (endpoints = []) then (None, cursor)
  else
    let candidates := candidates_of endpoints in
    match algorithm with
    | PickFirst => (head candidates, cursor)
    | RoundRobin =>
        let index := next cursor mod Z.of_nat (length candidates) in
        (candidates !! Z.to_nat index, advance cursor)
    | Weighted => pick_weighted candidates cursor
    end.

(** [n] successive picks from one snapshot. *)
Fixpoint pick_many (n : nat) (endpoints : list ResolvedEndpoint)
    (algorithm : LoadBalanceAlgorithm) (cursor : RoundRobinCursor) :
    list (option ResolvedEndpoint) * RoundRobinCursor :=
  match n with
  | O => ([], cursor)
  | S n' =>
      let (e, cursor') := pick_endpoint endpoints algorithm cursor in
      let (es, cursor'') := pick_many n' endpoints algorithm cursor' in
      (e :: es, cursor'')
  end.

(** ** Reference selection

    The order in which a cursor serves the candidates: each once for
    round-robin, each [effective_weight] times for the weighted algorithm. *)
Definition serving_order (algorithm : LoadBalanceAlgorithm)
    (candidates : list ResolvedEndpoint) : list ResolvedEndpoint :=
  match algorithm with
  | Weighted => mjoin ((λ e, replicate (Z.to_nat (effective_weight e)) e) <$> candidates)
  | _ => candidates
  end.

(** ** Lemmas *)

Lemma candidates_non_empty endpoints : endpoints ≠ [] → candidates_of endpoints ≠ [].
Proof. intros. unfold candidates_of. by case_bool_decide. Qed.

Lemma candidates_subset e endpoints : e ∈ candidates_of endpoints → e ∈ endpoints.
Proof.
  unfold candidates_of. case_bool_decide; [done|]. rewrite list_elem_of_filter. tauto.
Qed.

Lemma candidates_healthy e endpoints :
  e ∈ candidates_of endpoints → (∃ h, h ∈ endpoints ∧ healthy h = true) → healthy e = true.
Proof.
  unfold candidates_of. intros He (h & Hh & Hhealthy). case_bool_decide as Hnil.
  - assert (h ∈ filter (λ e, healthy e = true) endpoints) as Hf by (by apply list_elem_of_filter).
    rewrite Hnil in Hf. set_solver.
  - by apply list_elem_of_filter in He as [? _].
Qed.

Lemma effective_weight_pos e : 1 ≤ effective_weight e.
Proof. unfold effective_weight. lia. Qed.

Lemma serving_order_weighted_cons e candidates :
  serving_order Weighted (e :: candidates) =
  replicate (Z.to_nat (effective_weight e)) e ++ serving_order Weighted candidates.
Proof. done. Qed.

Lemma serving_order_length_weighted candidates :
  Z.of_nat (length (serving_order Weighted candidates)) = total_weight candidates.
Proof.
  induction candidates as [|e candidates IH]; [done|]. rewrite serving_order_weighted_cons.
  rewrite length_app, length_replicate. pose proof (effective_weight_pos e). cbn [total_weight]. lia.
Qed.

Lemma serving_order_subset e algorithm candidates :
  e ∈ serving_order algorithm candidates → e ∈ candidates.
Proof.
  destruct algorithm; simpl; try done. intros (l & He & Hl)%list_elem_of_join.
  apply list_elem_of_fmap in Hl as (x & -> & ?). by apply elem_of_replicate in He as [-> _].
Qed.

Lemma serving_order_non_empty algorithm candidates :
  candidates ≠ [] → 0 < Z.of_nat (length (serving_order algorithm candidates)).
Proof.
  intros. destruct candidates as [|e candidates]; [done|].
  destruct algorithm; [simpl; lia..|]. rewrite serving_order_weighted_cons.
  rewrite length_app, length_replicate. pose proof (effective_weight_pos e). lia.
Qed.

(** The accumulation loop reads the serving order at its slot. *)
Lemma pick_slot_lookup slot accumulated candidates :
  accumulated ≤ slot →
  pick_slot slot accumulated candidates =
  serving_order Weighted candidates !! Z.to_nat (slot - accumulated).
Proof.
  revert accumulated. induction candidates as [|e candidates IH]; intros acc Hacc; [done|].
  rewrite serving_order_weighted_cons. simpl. pose proof (effective_weight_pos e). case_if.
  - rewrite lookup_app_l by (rewrite length_replicate; lia).
    symmetry. apply lookup_replicate_2. lia.
  - rewrite IH by lia. rewrite lookup_app_r by (rewrite length_replicate; lia).
    rewrite length_replicate. f_equal. lia.
Qed.

Lemma pick_endpoint_lookup endpoints algorithm cursor :
  endpoints ≠ [] → 0 ≤ next cursor → algorithm ≠ PickFirst →
  let order := serving_order algorithm (candidates_of endpoints) in
  pick_endpoint endpoints algorithm cursor =
    (order !! Z.to_nat (next cursor mod Z.of_nat (length order)), advance cursor).
Proof.
  intros Hne Hc Halg order. unfold pick_endpoint. rewrite bool_decide_eq_false_2 by done.
  pose proof (candidates_non_empty _ Hne) as Hcand.
  pose proof (serving_order_non_empty algorithm _ Hcand) as Hpos. fold order in Hpos.
  destruct algorithm; [done|done|]. unfold pick_weighted.
  rewrite <-(serving_order_length_weighted (candidates_of endpoints)). fold order.
  rewrite (proj2 (Z.eqb_neq _ _)) by lia.
  pose proof (Z.mod_pos_bound (next cursor) (Z.of_nat (length order)) Hpos).
  rewrite pick_slot_lookup by lia. rewrite Z.sub_0_r. fold order.
  destruct (order !! _) as [e|] eqn:He; [done|].
  apply lookup_ge_None in He. lia.
Qed.

Lemma pick_many_lookup n endpoints algorithm cursor :
  endpoints ≠ [] → 0 ≤ next cursor → algorithm ≠ PickFirst →
  next cursor + Z.of_nat n ≤ usize_max + 1 →
  let order := serving_order algorithm (candidates_of endpoints) in
  (pick_many n endpoints algorithm cursor).1 =
  (λ i, order !! Z.to_nat ((next cursor + Z.of_nat i) mod Z.of_nat (length order))) <$> seq 0 n.
Proof.
  intros Hne Hc Halg Hsat order. revert cursor Hc Hsat.
  induction n as [|n IH]; intros cursor Hc Hsat; [done|].
  cbn [pick_many]. rewrite pick_endpoint_lookup by done. fold order.
  destruct (pick_many n endpoints algorithm (advance cursor)) as [es cursor''] eqn:Hes.
  simpl. f_equal; [by rewrite Z.add_0_r|].
  replace es with (pick_many n endpoints algorithm (advance cursor)).1 by (by rewrite Hes).
  destruct n as [|n]; [done|].
  rewrite IH; unfold advance, saturating_add; cbn [next]; [|lia..].
  rewrite <-(fmap_S_seq 0 (S n)). rewrite <-list_fmap_compose.
  apply list_fmap_ext. intros i x Hx. simpl. fold order. do 3 f_equal. lia.
Qed.

Lemma rotate_permutation {A} n (l : list A) : rotate n l ≡ₚ l.
Proof. unfold rotate. rewrite Permutation_app_comm. by rewrite take_drop. Qed.

Lemma rotation_lookup {A} (l : list A) (c : Z) :
  0 ≤ c →
  (λ i, l !! Z.to_nat ((c + Z.of_nat i) mod Z.of_nat (length l))) <$> seq 0 (length l) =
  Some <$> rotate (Z.to_nat c) l.
Proof.
  intros Hc. apply list_eq. intros i. rewrite !list_lookup_fmap.
  destruct (decide (i < length l)%nat) as [Hi|Hi].
  - rewrite lookup_seq_lt by done. rewrite lookup_rotate_r by done. simpl.
    unfold rotate_nat_add. rewrite Z2Nat.id by done.
    assert (Z.to_nat ((c + Z.of_nat i) `mod` Z.of_nat (length l)) < length l)%nat as Hlt.
    { pose proof (Z.mod_pos_bound (c + Z.of_nat i) (Z.of_nat (length l))). lia. }
    by apply lookup_lt_is_Some_2 in Hlt as [x ->].
  - rewrite (lookup_ge_None_2 (seq _ _)) by (rewrite length_seq; lia).
    rewrite (lookup_ge_None_2 (rotate _ _)) by (rewrite length_rotate; lia). done.
Qed.

Lemma head_elem_of {A} (l : list A) x : head l = Some x → x ∈ l.
Proof. destruct l; [done|]. intros [= ->]. by left. Qed.

Lemma pick_endpoint_candidate endpoints algorithm cursor :
  0 ≤ next cursor → endpoints ≠ [] →
  ∃ e, (pick_endpoint endpoints algorithm cursor).1 = Some e ∧ e ∈ candidates_of endpoints.
Proof.
  intros Hc Hne. pose proof (candidates_non_empty _ Hne) as Hcand.
  destruct (decide (algorithm = PickFirst)) as [->|Halg].
  - unfold pick_endpoint. rewrite bool_decide_eq_false_2 by done. simpl.
    destruct (candidates_of endpoints) as [|e es]; [done|]. exists e. set_solver.
  - rewrite pick_endpoint_lookup by done. simpl.
    set (order := serving_order _ _). pose proof (serving_order_non_empty algorithm _ Hcand) as Hp.
    pose proof (Z.mod_pos_bound (next cursor) _ Hp). fold order in Hp.
    destruct (lookup_lt_is_Some_2 order (Z.to_nat (next cursor mod Z.of_nat (length order))))
      as [e He]; [unfold order in *; lia|].
    exists e. split; [done|]. eapply serving_order_subset, list_elem_of_lookup_2, He.
Qed.

(** A saturated cursor no longer moves. *)
Lemma saturated_picks endpoints algorithm cursor :
  endpoints ≠ [] → 0 ≤ next cursor → algorithm ≠ PickFirst → next cursor = usize_max →
  ∃ e, e ∈ candidates_of endpoints ∧
    ∀ n, pick_many n endpoints algorithm cursor = (replicate n (Some e), cursor).
Proof.
  intros Hne Hc Halg Hsat.
  destruct (pick_endpoint_candidate endpoints algorithm cursor Hc Hne) as (e & He & Hin).
  exists e. split; [done|]. assert (pick_endpoint endpoints algorithm cursor = (Some e, cursor)) as Hpick.
  { rewrite pick_endpoint_lookup in * by done. simpl in He. rewrite He. f_equal.
    destruct cursor as [c]. unfold advance, saturating_add. simpl in *. f_equal. lia. }
  induction n as [|n IH]; [done|]. cbn [pick_many replicate]. by rewrite Hpick, IH.
Qed.

(** ** Properties *)

(** selection is total and sound: a non-empty snapshot always yields an
    endpoint, it is one of the snapshot's, and it is healthy whenever the
    snapshot has a healthy endpoint; an empty snapshot yields none. *)
Theorem pick_endpoint_sound endpoints algorithm cursor :
  0 ≤ next cursor →
  match (pick_endpoint endpoints algorithm cursor).1 with
  | None => endpoints = []
  | Some e => e ∈ endpoints ∧
      ((∃ h, h ∈ endpoints ∧ healthy h = true) → healthy e = true)
  end.
Proof.
  intros Hc. destruct (decide (endpoints = [])) as [->|Hne]; [done|].
  destruct (pick_endpoint_candidate endpoints algorithm cursor) as (e & -> & He); [done..|].
  split; [by apply candidates_subset|]. by apply candidates_healthy.
Qed.

(** C17: round-robin and weighted selection are exactly fair as long as the cursor
    does not reach the end of [usize] within the cycle: one full cycle of picks
    over a snapshot serves the candidates as a multiset given by their weights -
    each candidate once under round-robin, each [max(weight, 1)] times under the
    weighted algorithm. At [usize::MAX], where the cursor saturates, the rotation
    ends: every further pick is the same candidate. *)
Theorem full_cycle_is_fair endpoints algorithm cursor :
  endpoints ≠ [] → 0 ≤ next cursor → algorithm ≠ PickFirst →
  let order := serving_order algorithm (candidates_of endpoints) in
  (next cursor + Z.of_nat (length order) ≤ usize_max + 1 →
   (pick_many (length order) endpoints algorithm cursor).1 ≡ₚ Some <$> order) ∧
  (next cursor = usize_max →
   ∃ e, e ∈ candidates_of endpoints ∧
     ∀ n, pick_many n endpoints algorithm cursor = (replicate n (Some e), cursor)).
Proof.
  intros Hne Hc Halg order. split.
  - intros Hsat. rewrite pick_many_lookup by done. fold order.
    rewrite rotation_lookup by done. by rewrite rotate_permutation.
  - by apply saturated_picks.
Qed.

(** the weighted algorithm's [u64] sums cannot overflow: with [u32] weights
    and at most 2^32 candidates the total, and so every partial sum of the
    accumulation loop, is a [u64]. *)
Theorem total_weight_fits_u64 candidates :
  Forall (λ e, u32 (weight e)) candidates → Z.of_nat (length candidates) ≤ u32_max + 1 →
  0 ≤ total_weight candidates ≤ Z.of_nat (length candidates) * u32_max ∧
  u64 (total_weight candidates).
Proof.
  intros Hw Hlen.
  assert (0 ≤ total_weight candidates ≤ Z.of_nat (length candidates) * u32_max) as Hb.
  { clear Hlen. induction Hw as [|e l He Hw IH]; [done|]. cbn [total_weight length].
    unfold effective_weight, u32 in *. unfold_widths. lia. }
  split; [done|]. unfold u64. unfold_widths. nia.
Qed.

(** the composite resolver never fails while its static fallback names an
    endpoint: whatever the primary answers - an error, an empty list or
    endpoints - resolution succeeds with a non-empty list, the primary's own
    when it has one. *)
Theorem composite_resolver_total {R} `{NameResolver R} (c : CompositeNameResolver R) service_name :
  static_endpoints (fallback c) ≠ [] →
  ∃ endpoints, (composite_resolve service_name c).1 = Ok endpoints ∧ endpoints ≠ [] ∧
    match (resolve service_name (primary c)).1 with
    | Ok (e :: es) => endpoints = e :: es
    | _ => endpoints = static_endpoints (fallback c)
    end.
Proof.
  intros Hf. unfold composite_resolve.
  destruct (resolve service_name (primary c)) as [[[|e es]|err] primary']; simpl; eauto.
Qed.

(** ** Witnesses *)

Definition light : ResolvedEndpoint := {| endpoint := "grpc://light:1"; weight := 1; healthy := true |}.
Definition heavy : ResolvedEndpoint := {| endpoint := "grpc://heavy:2"; weight := 9; healthy := true |}.
Definition sick : ResolvedEndpoint := {| endpoint := "grpc://sick:3"; weight := 5; healthy := false |}.

Lemma pick_endpoint_sound_witness :
  match (pick_endpoint [sick; light] PickFirst {| next := 0 |}).1 with
  | None => [sick; light] = []
  | Some e => e ∈ [sick; light] ∧
      ((∃ h, h ∈ [sick; light] ∧ healthy h = true) → healthy e = true)
  end.
Proof. apply (pick_endpoint_sound [sick; light] PickFirst {| next := 0 |}). done. Defined.

Lemma full_cycle_is_fair_witness :
  (pick_many 10 [light; sick; heavy] Weighted {| next := 7 |}).1 ≡ₚ
  Some <$> (light :: replicate 9 heavy).
Proof.
  refine (proj1 (full_cycle_is_fair [light; sick; heavy] Weighted {| next := 7 |} _ _ _) _);
    by vm_compute.
Defined.

Lemma total_weight_fits_u64_witness :
  0 ≤ total_weight [light; heavy] ≤ Z.of_nat (length [light; heavy]) * u32_max ∧
  u64 (total_weight [light; heavy]).
Proof. apply total_weight_fits_u64; [repeat constructor; by vm_compute|by vm_compute]. Defined.

Lemma composite_resolver_total_witness :
  ∃ endpoints, (composite_resolve "svc"
      {| primary := {| static_endpoints := [] |}; fallback := single "grpc://a:1" |}).1 = Ok endpoints ∧
    endpoints ≠ [] ∧ endpoints = static_endpoints (single "grpc://a:1").
Proof.
  exact (composite_resolver_total
    {| primary := {| static_endpoints := [] |}; fallback := single "grpc://a:1" |} "svc"
    ltac:(done)).
Defined.
