(* ===== verification/ServiceIdentity.v ===== *)
(** * ServiceIdentity: SPIFFE identities of mTLS peers

    Models [sdkwork-rpc-core/src/service_identity.rs]. Certificate parsing and
    hashing are the parameters of [X509Api]. *)
From S2P Require Import Prelude RustStd Core Interfaces.

Definition SPIFFE_SERVICE_PATH_PREFIX : string := "/sdkwork/service/".

Record VerifiedRpcServiceIdentity : Type := {
  service_id : string;
  trust_domain : string;
  spiffe_uri : string;
  certificate_sha256 : string
}.

Record RpcServiceIdentityPolicy : Type := {
  policy_trust_domain : string;
  (** A [BTreeSet<String>]. *)
  allowed_service_ids : list string
}.

(** ** Validation *)

Definition identifier_byte (c : ascii) : bool :=
  is_ascii_alphanumeric c
  || bool_decide (c ∈ ["-"; "_"; "."; ":"]%char).

Definition validate_identifier (field value : string) : RpcFrameworkResult () :=
  if str_is_empty value || (128 <? str_len value) then
    Err (Validation (field +:+ " must contain 1 to 128 characters"))
  else if negb (str_all identifier_byte value) then
    Err (Validation (field +:+ " contains unsupported characters"))
  else Ok ().

Definition trust_domain_byte (c : ascii) : bool :=
  is_ascii_alphanumeric c || bool_decide (c ∈ ["-"; "."]%char).

Definition validate_trust_domain (trust_domain : string) : RpcFrameworkResult () :=
  if str_is_empty trust_domain || (253 <? str_len trust_domain) then
    Err (Configuration "SPIFFE trust_domain must contain 1 to 253 characters")
  else if negb (str_all trust_domain_byte trust_domain) then
    Err (Configuration "SPIFFE trust_domain contains unsupported characters")
  else Ok ().

(** ** The policy *)

Fixpoint validate_all (field : string) (values : list string) : RpcFrameworkResult () :=
  match values with
  | [] => Ok ()
  | value :: values' => validate_identifier field value ;? validate_all field values'
  end.

Definition policy_new (trust_domain : string) (service_ids : list string) :
    RpcFrameworkResult RpcServiceIdentityPolicy :=
  validate_trust_domain trust_domain ;?
  let allowed := BTreeSet.from_iter service_ids in
  if bool_decide (allowed = []) then
    Err (Configuration "rpc service identity policy requires at least one allowed service id")
  else
    validate_all "service_id" allowed ;?
    Ok {| policy_trust_domain := trust_domain; allowed_service_ids := allowed |}.

Definition allows (self : RpcServiceIdentityPolicy) (service_id : string) : bool :=
  BTreeSet.contains service_id (allowed_service_ids self).

(** ** SPIFFE URIs *)

Definition spiffe_prefix (trust_domain : string) : string :=
  "spiffe://" +:+ trust_domain +:+ SPIFFE_SERVICE_PATH_PREFIX.

Definition parse_spiffe_service_uri (uri trust_domain : string) : RpcFrameworkResult string :=
  let prefix := spiffe_prefix trust_domain in
  match strip_prefix prefix uri with
  | None => Err (Validation ("mTLS SPIFFE URI must match `" +:+ prefix +:+ "<service-id>`"))
  | Some service_id =>
      if str_contains "/" service_id || str_contains "?" service_id
         || str_contains "#" service_id
      then Err (Validation "mTLS SPIFFE service identity must not include path, query, or fragment suffixes")
      else
        validate_identifier "SPIFFE service_id" service_id ;?
        Ok service_id
  end.

(** ** Peer certificates *)

Section Certificates.
Context `{X509Api}.

Definition spiffe_uri_of (name : GeneralName) : option string :=
  match name with
  | URI uri => if starts_with "spiffe://" uri then Some uri else None
  | OtherName => None
  end.

Definition verify_tls_peer_certificate_der (self : RpcServiceIdentityPolicy)
    (certificate_der : bytes) : RpcFrameworkResult VerifiedRpcServiceIdentity :=
  let? certificate :=
    map_err (λ error, Validation ("mTLS peer certificate is not valid DER: " +:+ error))
      (x509_from_der certificate_der) in
  let? san :=
    map_err (λ error, Validation ("mTLS peer certificate SAN is invalid: " +:+ error))
      (x509_subject_alternative_name certificate) in
  let? general_names :=
    ok_or (Validation "mTLS peer certificate must include one SPIFFE URI SAN") san in
  match omap spiffe_uri_of general_names with
  | [spiffe_uri] =>
      let? service_id := parse_spiffe_service_uri spiffe_uri (policy_trust_domain self) in
      if negb (allows self service_id) then
        Err (Validation ("mTLS peer service identity `" +:+ service_id +:+ "` is not allowed"))
      else
        Ok {| service_id := service_id;
              trust_domain := policy_trust_domain self;
              spiffe_uri := spiffe_uri;
              certificate_sha256 := sha256_hash certificate_der |}
  | spiffe_uris =>
      Err (Validation
        ("mTLS peer certificate must include exactly one SPIFFE URI SAN, found "
           +:+ pretty (length spiffe_uris)))
  end.
End Certificates.

(** ** Lemmas *)

(** The identifiers the framework accepts. *)
Definition valid_identifier (s : string) : Prop :=
  1 ≤ str_len s ≤ 128 ∧ str_all identifier_byte s = true.
Definition valid_trust_domain (s : string) : Prop :=
  1 ≤ str_len s ≤ 253 ∧ str_all trust_domain_byte s = true.

#[global] Instance valid_identifier_dec s : Decision (valid_identifier s) := _.
#[global] Instance valid_trust_domain_dec s : Decision (valid_trust_domain s) := _.

Lemma str_is_empty_spec s : str_is_empty s = true ↔ s = "".
Proof. unfold str_is_empty. apply bool_decide_eq_true. Qed.

Lemma str_bounds_spec max s :
  (str_is_empty s || (max <? str_len s)) = false ↔ 1 ≤ str_len s ≤ max.
Proof.
  rewrite orb_false_iff, Z.ltb_ge. pose proof (str_len_nonneg s).
  destruct (str_is_empty s) eqn:E.
  - apply str_is_empty_spec in E as ->. unfold str_len; simpl. split; [by intros []|lia].
  - assert (str_len s ≠ 0) by (rewrite str_len_zero, <-str_is_empty_spec; congruence).
    split; [lia|]. intros; split; [done|lia].
Qed.

Lemma validate_identifier_Ok field s : validate_identifier field s = Ok () ↔ valid_identifier s.
Proof.
  unfold validate_identifier, valid_identifier. rewrite <-str_bounds_spec.
  destruct (_ || _); [naive_solver|]. destruct (str_all _ _); naive_solver.
Qed.

Lemma validate_trust_domain_Ok s : validate_trust_domain s = Ok () ↔ valid_trust_domain s.
Proof.
  unfold validate_trust_domain, valid_trust_domain. rewrite <-str_bounds_spec.
  destruct (_ || _); [naive_solver|]. destruct (str_all _ _); naive_solver.
Qed.

Lemma validate_all_Ok field l : validate_all field l = Ok () ↔ Forall valid_identifier l.
Proof.
  induction l as [|s l IH]; simpl; [by split|].
  rewrite result_bind_Ok, Forall_cons, <-IH, <-(validate_identifier_Ok field s).
  split; [by intros ([] & ? & ?)|]. intros []. by exists ().
Qed.

(** A valid identifier contains none of the URI's separators. *)
Lemma valid_identifier_no_byte c s :
  identifier_byte c = false → valid_identifier s → str_contains c s = false.
Proof.
  intros Hc [_ Hs]. apply str_contains_false. eapply str_all_impl; [|done].
  intros d Hd. apply negb_true_iff, bool_decide_eq_false. intros ->. congruence.
Qed.

Lemma parse_spiffe_Ok uri td id :
  parse_spiffe_service_uri uri td = Ok id ↔ uri = spiffe_prefix td +:+ id ∧ valid_identifier id.
Proof.
  unfold parse_spiffe_service_uri. rewrite <-strip_prefix_Some.
  destruct (strip_prefix _ uri) as [s|]; [|naive_solver].
  destruct (str_contains _ s || _ || _) eqn:Hsep.
  - split; [done|]. intros [[= ->] Hv]. apply orb_true_iff in Hsep.
    rewrite orb_true_iff in Hsep. destruct_or!;
      by rewrite (valid_identifier_no_byte _ id) in Hsep by done.
  - rewrite result_bind_Ok. split.
    + intros ([] & Hv%validate_identifier_Ok & [= <-]). done.
    + intros [[= ->] Hv]. exists (). by rewrite validate_identifier_Ok.
Qed.

Lemma valid_trust_domain_no_slash s : valid_trust_domain s → str_contains "/" s = false.
Proof.
  intros [_ Hs]. apply str_contains_false. eapply str_all_impl; [|done].
  intros d Hd. apply negb_true_iff, bool_decide_eq_false. by intros ->.
Qed.

(** The allow-list of a policy that [policy_new] built. *)
Lemma policy_new_Ok td ids p :
  policy_new td ids = Ok p ↔
  valid_trust_domain td ∧ ids ≠ [] ∧ Forall valid_identifier ids ∧
  p = {| policy_trust_domain := td; allowed_service_ids := BTreeSet.from_iter ids |}.
Proof.
  pose proof (btree_from_iter_nil ids) as Hnil.
  assert (Forall valid_identifier (BTreeSet.from_iter ids) ↔ Forall valid_identifier ids) as Hall.
  { rewrite !Forall_forall. by setoid_rewrite btree_elem_of_from_iter. }
  rewrite <-validate_trust_domain_Ok, <-Hall, <-(validate_all_Ok "service_id"), <-Hnil.
  unfold policy_new. split.
  - intros. invert_ok. case_if. invert_ok. done.
  - intros (-> & Hne & Hv & ->). simpl. rewrite bool_decide_eq_false_2 by done. by rewrite Hv.
Qed.

(** ** Properties *)

(** C23: a peer certificate is accepted exactly when it parses, its subject
    alternative name carries exactly one SPIFFE URI, that URI is the policy's
    trust domain and service path followed by a valid identifier, and this
    identifier is on the allow-list; the identity is then that identifier. *)
Theorem peer_identity_exact `{X509Api} policy der identity :
  verify_tls_peer_certificate_der policy der = Ok identity ↔
  ∃ certificate names,
    x509_from_der der = Ok certificate ∧
    x509_subject_alternative_name certificate = Ok (Some names) ∧
    omap spiffe_uri_of names = [spiffe_uri identity] ∧
    spiffe_uri identity = spiffe_prefix (policy_trust_domain policy) +:+ service_id identity ∧
    valid_identifier (service_id identity) ∧
    service_id identity ∈ allowed_service_ids policy ∧
    trust_domain identity = policy_trust_domain policy ∧
    certificate_sha256 identity = sha256_hash der.
Proof.
  unfold verify_tls_peer_certificate_der. split.
  - intros Hok. invert_ok. simplify_eq.
    destruct (omap _ _) as [|uri []] eqn:Huris; try done. invert_ok.
    match goal with Hp : parse_spiffe_service_uri _ _ = Ok _ |- _ =>
      apply parse_spiffe_Ok in Hp as [-> ?] end.
    unfold allows, BTreeSet.contains in *. case_if. invert_ok. simpl.
    eexists _, _. by split_and!.
  - intros (cert & names & Hder & Hsan & Huris & Huri & Hval & Hin & Htd & Hsha).
    rewrite Hder. simpl. rewrite Hsan. simpl. rewrite Huris.
    rewrite (proj2 (parse_spiffe_Ok _ _ (service_id identity))) by done. simpl.
    unfold allows, BTreeSet.contains. rewrite bool_decide_eq_true_2 by done. simpl.
    destruct identity; simpl in *. by subst.
Qed.

(** a policy is built exactly from a valid trust domain and a non-empty
    list of valid identifiers, and then allows exactly the listed ones. *)
Theorem identity_policy_exact td ids p s :
  policy_new td ids = Ok p →
  valid_trust_domain td ∧ ids ≠ [] ∧ Forall valid_identifier ids ∧
  policy_trust_domain p = td ∧ (allows p s = true ↔ s ∈ ids).
Proof.
  intros (?&?&?&->)%policy_new_Ok. split_and!; try done.
  unfold allows, BTreeSet.contains. rewrite bool_decide_eq_true. apply btree_elem_of_from_iter.
Qed.

(** trust domains are separated: no URI is accepted under two different
    trust domains, and a URI names one service at most. *)
Theorem trust_domains_separated uri td1 td2 id1 id2 :
  valid_trust_domain td1 → valid_trust_domain td2 →
  parse_spiffe_service_uri uri td1 = Ok id1 → parse_spiffe_service_uri uri td2 = Ok id2 →
  td1 = td2 ∧ id1 = id2.
Proof.
  intros Hd1%valid_trust_domain_no_slash Hd2%valid_trust_domain_no_slash.
  intros [H1 _]%parse_spiffe_Ok [H2 _]%parse_spiffe_Ok. subst uri. revert H2.
  unfold spiffe_prefix, SPIFFE_SERVICE_PATH_PREFIX. rewrite !str_app_assoc.
  intros H2%str_app_inj. apply str_split_inj in H2 as [-> H2]; [|done..].
  by apply (str_app_inj "sdkwork/service/") in H2.
Qed.

(** ** Witnesses *)

(** A certificate is the URI it carries. *)
Definition toy_x509 : X509Api := {|
  X509Certificate := string;
  x509_from_der der := Ok der;
  x509_subject_alternative_name cert := Ok (Some [OtherName; URI cert]);
  sha256_hash der := der
|}.
Definition kb_uri : string := "spiffe://sdkwork.internal/sdkwork/service/sdkwork-knowledgebase".
Definition kb_identity : VerifiedRpcServiceIdentity :=
  {| service_id := "sdkwork-knowledgebase"; trust_domain := "sdkwork.internal";
     spiffe_uri := kb_uri; certificate_sha256 := kb_uri |}.
Definition kb_policy : RpcServiceIdentityPolicy :=
  {| policy_trust_domain := "sdkwork.internal"; allowed_service_ids := ["sdkwork-knowledgebase"] |}.

Example kb_accepted : @verify_tls_peer_certificate_der toy_x509 kb_policy kb_uri = Ok kb_identity.
Proof. vm_compute. reflexivity. Qed.

Lemma identity_policy_exact_witness : allows kb_policy "sdkwork-im" = true ↔ "sdkwork-im" ∈ ["sdkwork-knowledgebase"].
Proof.
  apply (identity_policy_exact "sdkwork.internal" ["sdkwork-knowledgebase"] kb_policy).
  vm_compute. reflexivity.
Defined.

Lemma trust_domains_separated_witness :
  "sdkwork.internal" = "sdkwork.internal" ∧ "sdkwork-knowledgebase" = "sdkwork-knowledgebase".
Proof. apply (trust_domains_separated kb_uri); vm_compute; (reflexivity || done). Defined.
