(* ===== verification/CallerContext.v ===== *)
(** * CallerContext: signed caller contexts

    Models [sdkwork-rpc-core/src/caller_context.rs]: the builder, the signing
    key, the signer and the verifier. A [SystemTime] is a number of
    nanoseconds relative to the Unix epoch, a [BTreeMap] a finite map. Base64,
    HMAC and JSON are parameters, and the nonce, a random UUID, is an argument
    of [sign_at]. *)
From S2P Require Import Prelude RustStd Core Interfaces ServiceIdentity.

(** The string the source writes ends in a backslash and an [n]. *)
Definition CALLER_CONTEXT_SIGNATURE_DOMAIN : string := "sdkwork-rpc-caller-context/v1\n".
Definition CALLER_CONTEXT_VERSION : Z := 1.
Definition MAX_CALLER_CONTEXT_TTL : Z := Duration.from_secs 300.
Definition MAX_CLOCK_SKEW : Z := Duration.from_secs 30.
Definition MAX_CONTEXT_METADATA_BYTES : Z := 4096.

Definition RPC_CALLER_CONTEXT_METADATA : string := "x-sdkwork-rpc-caller-context".
Definition RPC_CALLER_CONTEXT_SIGNATURE_METADATA : string := "x-sdkwork-rpc-caller-signature".
Definition RPC_SERVICE_IDENTITY_ASSERTION_METADATA : string := "x-sdkwork-service".

Inductive RpcCallerActorKind : Type := User | Service.

#[global] Instance RpcCallerActorKind_eq_dec : EqDecision RpcCallerActorKind.
Proof. solve_decision. Defined.

(** ** Data *)

Module RpcCallerContext.
Record t : Type := {
  tenant_id : string;
  organization_id : string;
  actor_id : string;
  actor_kind : RpcCallerActorKind;
  session_id : option string;
  request_id : string;
  trace_id : option string;
  idempotency_key : option string;
  audience_service_id : string
}.
End RpcCallerContext.

Module VerifiedRpcCallerContext.
Record t : Type := {
  issuer_service_id : string;
  audience_service_id : string;
  tenant_id : string;
  organization_id : string;
  actor_id : string;
  actor_kind : RpcCallerActorKind;
  session_id : option string;
  request_id : string;
  trace_id : option string;
  idempotency_key : option string;
  issued_at_unix_seconds : Z;
  expires_at_unix_seconds : Z;
  nonce : string
}.
End VerifiedRpcCallerContext.

Record SignedRpcCallerContextPayload : Type := {
  version : Z;
  issuer_service_id : string;
  audience_service_id : string;
  tenant_id : string;
  organization_id : string;
  actor_id : string;
  actor_kind : RpcCallerActorKind;
  session_id : option string;
  request_id : string;
  trace_id : option string;
  idempotency_key : option string;
  issued_at_unix_seconds : Z;
  expires_at_unix_seconds : Z;
  nonce : string
}.

(** serde_json on the payload. *)
Class PayloadJsonApi : Type := {
  payload_to_vec : SignedRpcCallerContextPayload → result string bytes;
  payload_from_slice : bytes → result string SignedRpcCallerContextPayload
}.

Record SignedRpcCallerContext : Type := {
  encoded_context : string;
  signature : string
}.

Definition from_transport_metadata (encoded_context signature : string) :
    SignedRpcCallerContext :=
  {| encoded_context := encoded_context; signature := signature |}.

(** ** Identifier checks *)

Definition validated_identifier (field value : string) : RpcFrameworkResult string :=
  validate_identifier field value ;?
  Ok value.

Definition required_identifier (field : string) (value : option string) :
    RpcFrameworkResult string :=
  let? value :=
    ok_or (Validation ("caller context " +:+ field +:+ " is required")) value in
  validated_identifier field value.

Definition optional_identifier (field : string) (value : option string) :
    RpcFrameworkResult (option string) :=
  transpose (validated_identifier field <$> value).

(** ** The builder *)

Module Builder.
Record t : Type := {
  tenant_id : option string;
  organization_id : option string;
  actor_id : option string;
  actor_kind : option RpcCallerActorKind;
  session_id : option string;
  request_id : option string;
  trace_id : option string;
  idempotency_key : option string;
  audience_service_id : option string
}.

Definition default : t := {|
  tenant_id := None; organization_id := None; actor_id := None;
  actor_kind := None; session_id := None; request_id := None;
  trace_id := None; idempotency_key := None; audience_service_id := None
|}.

(** The setters, one per field. *)
Definition set_tenant_id (v : string) (b : t) : t :=
  {| tenant_id := Some v; organization_id := organization_id b; actor_id := actor_id b;
     actor_kind := actor_kind b; session_id := session_id b; request_id := request_id b;
     trace_id := trace_id b; idempotency_key := idempotency_key b;
     audience_service_id := audience_service_id b |}.
Definition set_organization_id (v : string) (b : t) : t :=
  {| tenant_id := tenant_id b; organization_id := Some v; actor_id := actor_id b;
     actor_kind := actor_kind b; session_id := session_id b; request_id := request_id b;
     trace_id := trace_id b; idempotency_key := idempotency_key b;
     audience_service_id := audience_service_id b |}.
Definition set_actor_id (v : string) (b : t) : t :=
  {| tenant_id := tenant_id b; organization_id := organization_id b; actor_id := Some v;
     actor_kind := actor_kind b; session_id := session_id b; request_id := request_id b;
     trace_id := trace_id b; idempotency_key := idempotency_key b;
     audience_service_id := audience_service_id b |}.
Definition set_actor_kind (v : RpcCallerActorKind) (b : t) : t :=
  {| tenant_id := tenant_id b; organization_id := organization_id b; actor_id := actor_id b;
     actor_kind := Some v; session_id := session_id b; request_id := request_id b;
     trace_id := trace_id b; idempotency_key := idempotency_key b;
     audience_service_id := audience_service_id b |}.
Definition set_session_id (v : string) (b : t) : t :=
  {| tenant_id := tenant_id b; organization_id := organization_id b; actor_id := actor_id b;
     actor_kind := actor_kind b; session_id := Some v; request_id := request_id b;
     trace_id := trace_id b; idempotency_key := idempotency_key b;
     audience_service_id := audience_service_id b |}.
Definition set_request_id (v : string) (b : t) : t :=
  {| tenant_id := tenant_id b; organization_id := organization_id b; actor_id := actor_id b;
     actor_kind := actor_kind b; session_id := session_id b; request_id := Some v;
     trace_id := trace_id b; idempotency_key := idempotency_key b;
     audience_service_id := audience_service_id b |}.
Definition set_trace_id (v : string) (b : t) : t :=
  {| tenant_id := tenant_id b; organization_id := organization_id b; actor_id := actor_id b;
     actor_kind := actor_kind b; session_id := session_id b; request_id := request_id b;
     trace_id := Some v; idempotency_key := idempotency_key b;
     audience_service_id := audience_service_id b |}.
Definition set_idempotency_key (v : string) (b : t) : t :=
  {| tenant_id := tenant_id b; organization_id := organization_id b; actor_id := actor_id b;
     actor_kind := actor_kind b; session_id := session_id b; request_id := request_id b;
     trace_id := trace_id b; idempotency_key := Some v;
     audience_service_id := audience_service_id b |}.
Definition set_audience_service_id (v : string) (b : t) : t :=
  {| tenant_id := tenant_id b; organization_id := organization_id b; actor_id := actor_id b;
     actor_kind := actor_kind b; session_id := session_id b; request_id := request_id b;
     trace_id := trace_id b; idempotency_key := idempotency_key b;
     audience_service_id := Some v |}.

Definition build (self : t) : RpcFrameworkResult RpcCallerContext.t :=
  let? tenant_id := required_identifier "tenant_id" (tenant_id self) in
  let? organization_id := required_identifier "organization_id" (organization_id self) in
  let? actor_id := required_identifier "actor_id" (actor_id self) in
  let? actor_kind :=
    ok_or (Validation "caller context actor_kind is required") (actor_kind self) in
  let? request_id := required_identifier "request_id" (request_id self) in
  let? audience_service_id :=
    required_identifier "audience_service_id" (audience_service_id self) in
  let? session_id := optional_identifier "session_id" (session_id self) in
  let? trace_id := optional_identifier "trace_id" (trace_id self) in
  let? idempotency_key := optional_identifier "idempotency_key" (idempotency_key self) in
  if bool_decide (actor_kind = User) && bool_decide (session_id = None) then
    Err (Validation "user caller context requires a session_id")
  else
    Ok (RpcCallerContext.Build_t tenant_id organization_id actor_id actor_kind
          session_id request_id trace_id idempotency_key audience_service_id).
End Builder.

(** ** Time *)

Definition unix_seconds (value : Z) : RpcFrameworkResult Z :=
  if value <? 0 then
    Err (Validation "system clock precedes the Unix epoch while issuing rpc caller context")
  else
    ok_or (Validation "system clock is outside supported rpc caller context range")
      (i64_try_from (Duration.as_secs value)).

(** ** Payload checks *)

Fixpoint validate_identifiers (fields : list (string * string)) : RpcFrameworkResult () :=
  match fields with
  | [] => Ok ()
  | (field, value) :: fields' =>
      validate_identifier field value ;? validate_identifiers fields'
  end.

Fixpoint validate_optional_identifiers (fields : list (string * option string)) :
    RpcFrameworkResult () :=
  match fields with
  | [] => Ok ()
  | (field, Some value) :: fields' =>
      validate_identifier field value ;? validate_optional_identifiers fields'
  | (_, None) :: fields' => validate_optional_identifiers fields'
  end.

Definition payload_required (payload : SignedRpcCallerContextPayload) : list (string * string) :=
  [("issuer_service_id", issuer_service_id payload);
   ("audience_service_id", audience_service_id payload);
   ("tenant_id", tenant_id payload);
   ("organization_id", organization_id payload);
   ("actor_id", actor_id payload);
   ("request_id", request_id payload);
   ("nonce", nonce payload)].

Definition payload_optional (payload : SignedRpcCallerContextPayload) :
    list (string * option string) :=
  [("session_id", session_id payload);
   ("trace_id", trace_id payload);
   ("idempotency_key", idempotency_key payload)].

Definition validate_payload (payload : SignedRpcCallerContextPayload) (max_ttl : Z) :
    RpcFrameworkResult () :=
  if negb (version payload =? CALLER_CONTEXT_VERSION) then
    Err (Validation "unsupported rpc caller context version")
  else
    validate_identifiers (payload_required payload) ;?
    if bool_decide (actor_kind payload = User) && bool_decide (session_id payload = None) then
      Err (Validation "user rpc caller context requires a session_id")
    else
      validate_optional_identifiers (payload_optional payload) ;?
      let? ttl :=
        ok_or (Validation "rpc caller context expiry precedes issue time")
          (i64_checked_sub (expires_at_unix_seconds payload) (issued_at_unix_seconds payload)) in
      if (ttl <=? 0)
         || match u64_try_from ttl with
            | None => true
            | Some value => Duration.as_secs max_ttl <? value
            end
      then
        Err (Validation
          ("rpc caller context ttl must be between 1 second and "
             +:+ pretty (Duration.as_secs max_ttl) +:+ " seconds"))
      else Ok ().

Definition validate_time_window (payload : SignedRpcCallerContextPayload)
    (now max_clock_skew : Z) : RpcFrameworkResult () :=
  let? now := unix_seconds now in
  let? skew :=
    ok_or (Validation "rpc caller context clock skew is too large")
      (i64_try_from (Duration.as_secs max_clock_skew)) in
  if i64_saturating_add now skew <? issued_at_unix_seconds payload then
    Err (Validation "rpc caller context is issued in the future")
  else if expires_at_unix_seconds payload <? i64_saturating_sub now skew then
    Err (Validation "rpc caller context has expired")
  else Ok ().

Definition validate_metadata_idempotency (payload : SignedRpcCallerContextPayload)
    (metadata_idempotency_key : option string) : RpcFrameworkResult () :=
  match idempotency_key payload, metadata_idempotency_key with
  | Some expected, Some actual =>
      if bool_decide (expected = actual) then Ok ()
      else Err (Validation "rpc caller context idempotency key does not match request metadata")
  | None, None => Ok ()
  | _, _ => Err (Validation "rpc caller context idempotency key does not match request metadata")
  end.

Definition signing_input (encoded_context : string) : string :=
  CALLER_CONTEXT_SIGNATURE_DOMAIN +:+ encoded_context.

(** ** Keys, signer and verifier *)

Definition RpcCallerContextSigningKey : Type := bytes.

Definition from_secret_bytes (b : bytes) : RpcFrameworkResult RpcCallerContextSigningKey :=
  if negb (str_len b =? 32) then
    Err (Configuration "rpc caller context signing key must be exactly 32 bytes")
  else Ok b.

(** [fmt::Debug], which never prints the key. *)
Definition signing_key_fmt (self : RpcCallerContextSigningKey) : string :=
  "RpcCallerContextSigningKey(REDACTED)".

Definition from_base64url `{CodecApi} (encoded : string) :
    RpcFrameworkResult RpcCallerContextSigningKey :=
  let? b :=
    ok_or (Configuration "rpc caller context signing key must be unpadded base64url")
      (base64url_decode encoded) in
  from_secret_bytes b.

Record RpcCallerContextSigner : Type := {
  signer_issuer_service_id : string;
  signing_key : RpcCallerContextSigningKey;
  signer_max_ttl : Z
}.

Definition signer_new (issuer_service_id : string) (key : RpcCallerContextSigningKey) :
    RpcFrameworkResult RpcCallerContextSigner :=
  validate_identifier "issuer_service_id" issuer_service_id ;?
  Ok {| signer_issuer_service_id := issuer_service_id; signing_key := key;
        signer_max_ttl := MAX_CALLER_CONTEXT_TTL |}.

Definition sign_payload (self : RpcCallerContextSigner) (context : RpcCallerContext.t)
    (issued_at expires_at : Z) (uuid : string) : SignedRpcCallerContextPayload := {|
  version := CALLER_CONTEXT_VERSION;
  issuer_service_id := signer_issuer_service_id self;
  audience_service_id := RpcCallerContext.audience_service_id context;
  tenant_id := RpcCallerContext.tenant_id context;
  organization_id := RpcCallerContext.organization_id context;
  actor_id := RpcCallerContext.actor_id context;
  actor_kind := RpcCallerContext.actor_kind context;
  session_id := RpcCallerContext.session_id context;
  request_id := RpcCallerContext.request_id context;
  trace_id := RpcCallerContext.trace_id context;
  idempotency_key := RpcCallerContext.idempotency_key context;
  issued_at_unix_seconds := issued_at;
  expires_at_unix_seconds := expires_at;
  nonce := uuid
|}.

(** [uuid] is the text of [Uuid::new_v4().simple()]. *)
Definition sign_at `{CodecApi, PayloadJsonApi} (self : RpcCallerContextSigner)
    (context : RpcCallerContext.t) (ttl now : Z) (uuid : string) :
    RpcFrameworkResult SignedRpcCallerContext :=
  if Duration.is_zero ttl || (signer_max_ttl self <? ttl) then
    Err (Validation
      ("rpc caller context ttl must be between 1 second and "
         +:+ pretty (Duration.as_secs (signer_max_ttl self)) +:+ " seconds"))
  else
    let? issued_at := unix_seconds now in
    let? ttl_seconds :=
      ok_or (Validation "rpc caller context ttl is too large")
        (i64_try_from (Duration.as_secs ttl)) in
    let? expires_at :=
      ok_or (Validation "rpc caller context expiry overflow")
        (i64_checked_add issued_at ttl_seconds) in
    let? serialized :=
      map_err (λ error, Validation ("failed to serialize rpc caller context: " +:+ error))
        (payload_to_vec (sign_payload self context issued_at expires_at uuid)) in
    let encoded := base64url_encode serialized in
    Ok {| encoded_context := encoded;
          signature := hmac_sha256_base64url (signing_input encoded) (signing_key self) |}.

(** [now] is the reading of [SystemTime::now()]. *)
Definition sign `{CodecApi, PayloadJsonApi} (self : RpcCallerContextSigner)
    (context : RpcCallerContext.t) (ttl now : Z) (uuid : string) :
    RpcFrameworkResult SignedRpcCallerContext :=
  sign_at self context ttl now uuid.

Record RpcCallerContextVerifier : Type := {
  verifier_audience_service_id : string;
  issuer_keys : gmap string RpcCallerContextSigningKey;
  verifier_max_ttl : Z;
  max_clock_skew : Z
}.

(** [collect] into a map: later entries replace earlier ones. *)
Fixpoint collect_issuer_keys (entries : list (string * RpcCallerContextSigningKey))
    (keys : gmap string RpcCallerContextSigningKey) :
    RpcFrameworkResult (gmap string RpcCallerContextSigningKey) :=
  match entries with
  | [] => Ok keys
  | (service_id, key) :: entries' =>
      let? service_id := validated_identifier "issuer_service_id" service_id in
      collect_issuer_keys entries' (<[service_id := key]> keys)
  end.

Definition verifier_new (audience_service_id : string)
    (entries : list (string * RpcCallerContextSigningKey)) :
    RpcFrameworkResult RpcCallerContextVerifier :=
  validate_identifier "audience_service_id" audience_service_id ;?
  let? issuer_keys := collect_issuer_keys entries ∅ in
  if bool_decide (issuer_keys = ∅) then
    Err (Configuration "rpc caller context verifier requires at least one trusted issuer key")
  else
    Ok {| verifier_audience_service_id := audience_service_id;
          issuer_keys := issuer_keys;
          verifier_max_ttl := MAX_CALLER_CONTEXT_TTL;
          max_clock_skew := MAX_CLOCK_SKEW |}.

Definition verified_of_payload (p : SignedRpcCallerContextPayload) :
    VerifiedRpcCallerContext.t :=
  VerifiedRpcCallerContext.Build_t (issuer_service_id p) (audience_service_id p)
    (tenant_id p) (organization_id p) (actor_id p) (actor_kind p) (session_id p)
    (request_id p) (trace_id p) (idempotency_key p) (issued_at_unix_seconds p)
    (expires_at_unix_seconds p) (nonce p).

Definition verify `{CodecApi, PayloadJsonApi} (self : RpcCallerContextVerifier)
    (signed : SignedRpcCallerContext) (peer_identity : VerifiedRpcServiceIdentity)
    (metadata_idempotency_key : option string) (now : Z) :
    RpcFrameworkResult VerifiedRpcCallerContext.t :=
  if (MAX_CONTEXT_METADATA_BYTES <? str_len (encoded_context signed))
     || (MAX_CONTEXT_METADATA_BYTES <? str_len (signature signed))
  then Err (Validation "rpc caller context metadata exceeds maximum size")
  else
    let? decoded :=
      ok_or (Validation "rpc caller context is not valid base64url")
        (base64url_decode (encoded_context signed)) in
    let? payload :=
      map_err (λ _, Validation "rpc caller context has an invalid schema")
        (payload_from_slice decoded) in
    validate_payload payload (verifier_max_ttl self) ;?
    if negb (bool_decide (audience_service_id payload = verifier_audience_service_id self)) then
      Err (Validation "rpc caller context is issued for a different audience service")
    else if negb (bool_decide (issuer_service_id payload = service_id peer_identity)) then
      Err (Validation "rpc caller context issuer does not match the mTLS peer identity")
    else
      let? key :=
        ok_or (Validation "rpc caller context issuer is not trusted for this listener")
          (issuer_keys self !! issuer_service_id payload) in
      let? mac :=
        ok_or (Validation "rpc caller context signature is not valid base64url")
          (base64url_decode (signature signed)) in
      if negb (verify_hmac_sha256_base64url (signing_input (encoded_context signed)) key mac) then
        Err (Validation "rpc caller context signature is invalid")
      else
        validate_time_window payload now (max_clock_skew self) ;?
        validate_metadata_idempotency payload metadata_idempotency_key ;?
        Ok (verified_of_payload payload).

(** ** Specification *)

Definition valid_option (o : option string) : Prop :=
  match o with Some s => valid_identifier s | None => True end.

(** What every signed payload has to satisfy, whoever signed it. *)
Record payload_valid (p : SignedRpcCallerContextPayload) : Prop := {
  pv_version : version p = 1;
  pv_required : Forall valid_identifier (payload_required p).*2;
  pv_session : actor_kind p = User → is_Some (session_id p);
  pv_optional : Forall valid_option (payload_optional p).*2;
  pv_ttl : 1 ≤ expires_at_unix_seconds p - issued_at_unix_seconds p ≤ 300
}.

(** The payload is inside its validity window, give or take 30 seconds. *)
Record in_window (p : SignedRpcCallerContextPayload) (now : Z) : Prop := {
  iw_clock : 0 ≤ now ∧ Duration.as_secs now ≤ i64_max;
  iw_issued : issued_at_unix_seconds p ≤ Z.min i64_max (Duration.as_secs now + 30);
  iw_expires : Duration.as_secs now ≤ expires_at_unix_seconds p + 30
}.

(** Documented behaviour of serde_json on payloads whose strings are
    identifiers: it serialises them, reads them back, and adds a bounded
    amount of punctuation and field names. *)
Definition payload_wire_ok (p : SignedRpcCallerContextPayload) : Prop :=
  version p = 1 ∧
  Forall valid_identifier (payload_required p).*2 ∧
  Forall valid_option (payload_optional p).*2 ∧
  0 ≤ issued_at_unix_seconds p ≤ i64_max ∧ 0 ≤ expires_at_unix_seconds p ≤ i64_max.

Definition payload_text_len (p : SignedRpcCallerContextPayload) : Z :=
  foldr (λ s n, str_len s + n) 0 (payload_required p).*2
  + foldr (λ o n, match o with Some s => str_len s | None => 0 end + n) 0
      (payload_optional p).*2.

Class PayloadJsonLaws `{PayloadJsonApi} : Prop := {
  payload_json_roundtrip p :
    payload_wire_ok p →
    ∃ b, payload_to_vec p = Ok b ∧ payload_from_slice b = Ok p ∧
         0 < str_len b ≤ payload_text_len p + 512
}.

(** A context the builder returns. *)
Record context_valid (c : RpcCallerContext.t) : Prop := {
  cv_tenant : valid_identifier (RpcCallerContext.tenant_id c);
  cv_organization : valid_identifier (RpcCallerContext.organization_id c);
  cv_actor : valid_identifier (RpcCallerContext.actor_id c);
  cv_request : valid_identifier (RpcCallerContext.request_id c);
  cv_audience : valid_identifier (RpcCallerContext.audience_service_id c);
  cv_session : valid_option (RpcCallerContext.session_id c);
  cv_trace : valid_option (RpcCallerContext.trace_id c);
  cv_idempotency : valid_option (RpcCallerContext.idempotency_key c);
  cv_user : RpcCallerContext.actor_kind c = User → is_Some (RpcCallerContext.session_id c)
}.

(** ** Lemmas *)

Lemma validated_identifier_Ok field v s :
  validated_identifier field v = Ok s ↔ valid_identifier v ∧ s = v.
Proof.
  unfold validated_identifier. rewrite <-(validate_identifier_Ok field). split.
  - intros. by invert_ok.
  - by intros [-> ->].
Qed.

Lemma required_identifier_Ok field o s :
  required_identifier field o = Ok s ↔ o = Some s ∧ valid_identifier s.
Proof.
  unfold required_identifier. destruct o as [v|]; simpl; [|naive_solver].
  rewrite validated_identifier_Ok. naive_solver.
Qed.

Lemma optional_identifier_Ok field o o' :
  optional_identifier field o = Ok o' ↔ o' = o ∧ valid_option o.
Proof.
  unfold optional_identifier. destruct o as [v|]; simpl; [|naive_solver].
  pose proof (validated_identifier_Ok field v) as Hv.
  destruct (validated_identifier field v) as [w|e]; simpl.
  - destruct (proj1 (Hv w) eq_refl) as [? ->]. naive_solver.
  - split; [done|]. intros [-> Hvalid]. by specialize (proj2 (Hv v) (conj Hvalid eq_refl)).
Qed.

Lemma validate_identifiers_Ok fields :
  validate_identifiers fields = Ok () ↔ Forall valid_identifier fields.*2.
Proof.
  induction fields as [|[f v] fields IH]; simpl; [by split|].
  rewrite Forall_cons, <-IH, <-(validate_identifier_Ok f v). split.
  - intros. by invert_ok.
  - by intros [-> ->].
Qed.

Lemma validate_optional_identifiers_Ok fields :
  validate_optional_identifiers fields = Ok () ↔ Forall valid_option fields.*2.
Proof.
  induction fields as [|[f [v|]] fields IH]; simpl; [by split| |].
  - rewrite Forall_cons, <-IH. simpl. rewrite <-(validate_identifier_Ok f v). split.
    + intros. by invert_ok.
    + by intros [-> ->].
  - rewrite Forall_cons, <-IH. simpl. naive_solver.
Qed.

Lemma user_session_test (k : RpcCallerActorKind) (o : option string) :
  bool_decide (k = User) && bool_decide (o = None) = false ↔ (k = User → is_Some o).
Proof.
  rewrite andb_false_iff, !bool_decide_eq_false, <-not_eq_None_Some.
  destruct k; naive_solver.
Qed.

Lemma ttl_test_false ttl :
  (ttl <=? 0) || match u64_try_from ttl with
                 | None => true | Some v => Duration.as_secs MAX_CALLER_CONTEXT_TTL <? v
                 end = false ↔ 1 ≤ ttl ≤ 300.
Proof.
  change (Duration.as_secs MAX_CALLER_CONTEXT_TTL) with 300.
  rewrite orb_false_iff, Z.leb_gt. unfold u64_try_from.
  case_bool_decide as Hu; [rewrite Z.ltb_ge; lia|].
  split; [naive_solver|]. intros. exfalso. apply Hu. zlia.
Qed.

Lemma validate_payload_Ok p :
  validate_payload p MAX_CALLER_CONTEXT_TTL = Ok () ↔ payload_valid p.
Proof.
  unfold validate_payload. split.
  - intros Hok. case_if. invert_ok. case_if. invert_ok. case_if.
    match goal with H : i64_checked_sub _ _ = _ |- _ =>
      apply i64_checked_Some in H as [? ->] end.
    split; [done|by apply validate_identifiers_Ok| |by apply validate_optional_identifiers_Ok|].
    + by apply user_session_test.
    + apply ttl_test_false. by rewrite orb_false_iff, Z.leb_gt.
  - intros [Hv Hr Hs Ho Ht]. rewrite Hv.
    change (negb (1 =? CALLER_CONTEXT_VERSION)) with false. cbv iota.
    rewrite (proj2 (validate_identifiers_Ok _)) by done. cbn [result_bind].
    rewrite (proj2 (user_session_test _ _)) by done.
    rewrite (proj2 (validate_optional_identifiers_Ok _)) by done. cbn [result_bind].
    unfold i64_checked_sub. rewrite (proj2 (i64_checked_Some _ _)) by
      (split; [zlia|done]). cbn [result_bind ok_or].
    by rewrite (proj2 (ttl_test_false _)).
Qed.

Lemma unix_seconds_Ok t s :
  unix_seconds t = Ok s ↔ 0 ≤ t ∧ Duration.as_secs t ≤ i64_max ∧ s = Duration.as_secs t.
Proof.
  unfold unix_seconds. destruct (t <? 0) eqn:E; reflect_bools; [split; [done|lia]|].
  rewrite ok_or_Ok. unfold i64_try_from. rewrite i64_checked_Some. unfold i64.
  assert (0 ≤ Duration.as_secs t) by (apply Z.div_pos; [lia|done]).
  split; intros; destruct_and?; split_and?; try done; unfold_widths; lia.
Qed.

Lemma validate_time_window_Ok p now :
  validate_time_window p now MAX_CLOCK_SKEW = Ok () ↔ in_window p now.
Proof.
  unfold validate_time_window, i64_saturating_add, i64_saturating_sub, i64_clamp.
  change (Duration.as_secs MAX_CLOCK_SKEW) with 30. split.
  - intros Hok. invert_ok.
    match goal with H : unix_seconds _ = _ |- _ => apply unix_seconds_Ok in H as (?&?&->) end.
    match goal with H : i64_try_from _ = _ |- _ => apply i64_checked_Some in H as [_ ->] end.
    assert (0 ≤ Duration.as_secs now) by (apply Z.div_pos; [lia|done]).
    do 2 case_if. split; [done| |]; unfold_widths; lia.
  - intros [[Hn Hs] Hi He].
    rewrite (proj2 (unix_seconds_Ok now _)) by done. simpl.
    assert (0 ≤ Duration.as_secs now) by (apply Z.div_pos; [lia|done]).
    do 2 (case_if; [unfold_widths; lia|]). done.
Qed.

Lemma validate_metadata_idempotency_Ok p key :
  validate_metadata_idempotency p key = Ok () ↔ idempotency_key p = key.
Proof.
  unfold validate_metadata_idempotency. destruct (idempotency_key p), key; try naive_solver.
  case_bool_decide; naive_solver.
Qed.

Lemma collect_issuer_keys_Ok entries keys m :
  collect_issuer_keys entries keys = Ok m →
  Forall valid_identifier entries.*1 ∧
  m = foldl (λ acc '(s, k), <[s := k]> acc) keys entries.
Proof.
  revert keys. induction entries as [|[s k] entries IH]; intros keys; simpl.
  - intros. by invert_ok.
  - intros Hok. invert_ok.
    match goal with H : validated_identifier _ _ = Ok _ |- _ =>
      apply validated_identifier_Ok in H as [? ->] end.
    match goal with H : collect_issuer_keys _ _ = Ok _ |- _ => apply IH in H as [? ->] end.
    auto.
Qed.

Lemma verifier_new_Ok audience entries v :
  verifier_new audience entries = Ok v →
  verifier_audience_service_id v = audience ∧
  issuer_keys v = foldl (λ acc '(s, k), <[s := k]> acc) ∅ entries ∧
  verifier_max_ttl v = MAX_CALLER_CONTEXT_TTL ∧ max_clock_skew v = MAX_CLOCK_SKEW ∧
  issuer_keys v ≠ ∅.
Proof.
  unfold verifier_new. intros Hok. invert_ok. case_if. invert_ok.
  match goal with H : collect_issuer_keys _ _ = Ok _ |- _ =>
    apply collect_issuer_keys_Ok in H as [_ ->] end. done.
Qed.

Lemma build_Ok b c :
  Builder.build b = Ok c ↔
  b = {| Builder.tenant_id := Some (RpcCallerContext.tenant_id c);
         Builder.organization_id := Some (RpcCallerContext.organization_id c);
         Builder.actor_id := Some (RpcCallerContext.actor_id c);
         Builder.actor_kind := Some (RpcCallerContext.actor_kind c);
         Builder.session_id := RpcCallerContext.session_id c;
         Builder.request_id := Some (RpcCallerContext.request_id c);
         Builder.trace_id := RpcCallerContext.trace_id c;
         Builder.idempotency_key := RpcCallerContext.idempotency_key c;
         Builder.audience_service_id := Some (RpcCallerContext.audience_service_id c) |} ∧
  context_valid c.
Proof.
  unfold Builder.build. split.
  - intros Hok. invert_ok. case_if. invert_ok. rewrite user_session_test in *.
    repeat match goal with
    | H : required_identifier _ _ = Ok _ |- _ => apply required_identifier_Ok in H as [? ?]
    | H : optional_identifier _ _ = Ok _ |- _ => apply optional_identifier_Ok in H as [-> ?]
    end.
    destruct b; simpl in *; subst. split; [done|by split].
  - intros [-> [Ht Ho Ha Hr Hau Hs Htr Hi Hu]]. destruct c; simpl in *.
    rewrite !(proj2 (required_identifier_Ok _ (Some _) _)) by done. cbn [result_bind ok_or].
    rewrite !(proj2 (optional_identifier_Ok _ _ _)) by done. cbn [result_bind].
    by rewrite (proj2 (user_session_test _ _)).
Qed.

(** The fields of the payload a signer makes of a valid context. *)
Lemma sign_payload_fields signer context issued expires uuid :
  valid_identifier (signer_issuer_service_id signer) → context_valid context →
  valid_identifier uuid →
  let p := sign_payload signer context issued expires uuid in
  Forall valid_identifier (payload_required p).*2 ∧
  Forall valid_option (payload_optional p).*2 ∧
  (actor_kind p = User → is_Some (session_id p)).
Proof.
  intros Hi [] Hu. simpl. rewrite !Forall_cons, !Forall_nil. auto 12.
Qed.

(** Ten identifiers, so the text of a payload is short. *)
Lemma payload_text_len_bound p :
  Forall valid_identifier (payload_required p).*2 →
  Forall valid_option (payload_optional p).*2 →
  payload_text_len p ≤ 1280.
Proof.
  intros Hr Ho. unfold payload_text_len. simpl in *.
  decompose_Forall_hyps. unfold valid_identifier, valid_option in *.
  destruct (session_id p), (trace_id p), (idempotency_key p);
    unfold valid_identifier in *; destruct_and?; lia.
Qed.

Section SignVerify.
Context `{CodecApi, PayloadJsonApi}.
Context `{!CodecLaws, !PayloadJsonLaws}.

(** What [sign_at] returns for a valid context. *)
Lemma sign_at_Ok signer context ttl now uuid :
  valid_identifier (signer_issuer_service_id signer) → context_valid context →
  valid_identifier uuid → signer_max_ttl signer = MAX_CALLER_CONTEXT_TTL →
  0 < ttl ≤ MAX_CALLER_CONTEXT_TTL →
  0 ≤ now → Duration.as_secs now + 300 ≤ i64_max →
  ∃ signed b,
    sign_at signer context ttl now uuid = Ok signed ∧
    encoded_context signed = base64url_encode b ∧
    signature signed
      = hmac_sha256_base64url (signing_input (encoded_context signed)) (signing_key signer) ∧
    payload_from_slice b = Ok (sign_payload signer context (Duration.as_secs now)
      (Duration.as_secs now + Duration.as_secs ttl) uuid) ∧
    0 < str_len b ≤ 1792.
Proof.
  intros Hid Hc Hu Hmax Httl Hnow Hof. unfold sign_at. rewrite Hmax.
  assert (Duration.is_zero ttl || (MAX_CALLER_CONTEXT_TTL <? ttl) = false) as ->.
  { unfold Duration.is_zero. rewrite orb_false_iff, Z.eqb_neq, Z.ltb_ge. lia. }
  assert (0 ≤ Duration.as_secs ttl ≤ 300).
  { unfold MAX_CALLER_CONTEXT_TTL in *. zlia. }
  assert (0 ≤ Duration.as_secs now) by (apply Z.div_pos; [lia|done]).
  rewrite (proj2 (unix_seconds_Ok now _)) by (split_and!; [done|lia|done]).
  cbn [result_bind]. unfold i64_try_from, i64_checked_add.
  rewrite (proj2 (i64_checked_Some (Duration.as_secs ttl) _)) by
    (split; [unfold i64, i64_min; lia|done]).
  cbn [result_bind ok_or].
  rewrite (proj2 (i64_checked_Some (_ + _) _)) by (split; [unfold i64, i64_min; lia|done]).
  cbn [result_bind ok_or].
  destruct (sign_payload_fields signer context (Duration.as_secs now)
    (Duration.as_secs now + Duration.as_secs ttl) uuid) as (Hr & Ho & _); [done..|].
  destruct (payload_json_roundtrip (sign_payload signer context (Duration.as_secs now)
    (Duration.as_secs now + Duration.as_secs ttl) uuid)) as (b & -> & Hb & Hl).
  { split_and!; [done..| | | |]; simpl; lia. }
  cbn [result_bind map_err]. pose proof (payload_text_len_bound _ Hr Ho).
  eexists _, b. split_and!; [done..|lia|lia].
Qed.

Lemma hmac_decodes data key :
  ∃ mac, base64url_decode (hmac_sha256_base64url data key) = Some mac ∧
         verify_hmac_sha256_base64url data key mac = true ∧
         str_len (hmac_sha256_base64url data key) ≤ 64.
Proof.
  destruct (hmac_base64url data key) as (mac & Heq & Hlen).
  pose proof (base64url_encode_len mac). exists mac. rewrite Heq. split_and!.
  - apply base64url_decode_encode.
  - by apply verify_hmac_spec.
  - lia.
Qed.
End SignVerify.

(** [verify], step by step. *)
Lemma verify_Ok `{CodecApi, PayloadJsonApi}
    audience entries v signed peer key now context :
  verifier_new audience entries = Ok v →
  verify v signed peer key now = Ok context ↔
  ∃ decoded payload secret mac,
    str_len (encoded_context signed) ≤ 4096 ∧ str_len (signature signed) ≤ 4096 ∧
    base64url_decode (encoded_context signed) = Some decoded ∧
    payload_from_slice decoded = Ok payload ∧
    payload_valid payload ∧
    audience_service_id payload = audience ∧
    issuer_service_id payload = service_id peer ∧
    issuer_keys v !! service_id peer = Some secret ∧
    base64url_decode (signature signed) = Some mac ∧
    verify_hmac_sha256_base64url (signing_input (encoded_context signed)) secret mac = true ∧
    in_window payload now ∧
    idempotency_key payload = key ∧
    context = verified_of_payload payload.
Proof.
  intros (Haud & _ & Httl & Hskew & _)%verifier_new_Ok.
  unfold verify. rewrite Haud, Httl, Hskew. unfold MAX_CONTEXT_METADATA_BYTES. split.
  - intros Hok. case_if. invert_ok. do 2 case_if. invert_ok. case_if. invert_ok.
    rewrite validate_payload_Ok, validate_time_window_Ok, validate_metadata_idempotency_Ok in *.
    match goal with Hi : issuer_service_id _ = service_id _ |- _ => rewrite Hi in * end.
    eexists _, _, _, _. by split_and!.
  - intros (decoded & payload & secret & mac & Hl1 & Hl2 & Hdec & Hpay & Hval & Ha & Hi & Hk
      & Hmac & Hhmac & Hwin & Hkey & ->).
    rewrite (proj2 (orb_false_iff _ _)) by (rewrite !Z.ltb_ge; lia).
    rewrite Hdec. cbn [result_bind ok_or]. rewrite Hpay. cbn [result_bind map_err].
    rewrite (proj2 (validate_payload_Ok _)) by done. cbn [result_bind].
    rewrite !bool_decide_eq_true_2 by done. cbn [negb]. rewrite Hi, Hk. cbn [result_bind ok_or].
    rewrite Hmac. cbn [result_bind ok_or]. rewrite Hhmac. cbn [negb].
    rewrite (proj2 (validate_time_window_Ok _ _)) by done. cbn [result_bind].
    by rewrite (proj2 (validate_metadata_idempotency_Ok _ _)).
Qed.

(** Signing, then verifying. *)
Lemma sign_then_verify `{CodecApi, PayloadJsonApi} `{!CodecLaws, !PayloadJsonLaws}
    issuer key signer b context seconds uuid audience entries v peer now now' :
  signer_new issuer key = Ok signer →
  Builder.build b = Ok context →
  verifier_new audience entries = Ok v →
  issuer_keys v !! issuer = Some key →
  service_id peer = issuer →
  RpcCallerContext.audience_service_id context = audience →
  valid_identifier uuid →
  1 ≤ seconds ≤ 300 →
  0 ≤ now → Duration.as_secs now + 300 ≤ i64_max →
  0 ≤ now' → Duration.as_secs now' ≤ i64_max →
  Duration.as_secs now ≤ Duration.as_secs now' + 30 →
  Duration.as_secs now' ≤ Duration.as_secs now + seconds + 30 →
  ∃ signed text mac,
    sign_at signer context (Duration.from_secs seconds) now uuid = Ok signed ∧
    encoded_context signed = base64url_encode text ∧ 0 < str_len text ∧
    signature signed = base64url_encode mac ∧ 0 < str_len mac ∧
    verify v signed peer (RpcCallerContext.idempotency_key context) now' =
      Ok (verified_of_payload
            (sign_payload signer context (Duration.as_secs now)
               (Duration.as_secs now + seconds) uuid)).
Proof.
  intros Hsign [_ Hc]%build_Ok Hv Hk <- <- Hu Hs Hn Hof Hn' Hof' Hw1 Hw2.
  unfold signer_new in Hsign. invert_ok. rewrite validate_identifier_Ok in *.
  destruct (sign_at_Ok (Build_RpcCallerContextSigner (service_id peer) key MAX_CALLER_CONTEXT_TTL)
    context (Duration.from_secs seconds) now uuid)
    as (signed & b' & Hat & Henc & Hsig & Hpay & Hlen); try done.
  { unfold MAX_CALLER_CONTEXT_TTL. zlia. }
  destruct (hmac_base64url (signing_input (encoded_context signed)) key) as (raw & Hraw & Hlraw).
  exists signed, b', raw. simpl in Hsig.
  split_and!; [done|done|lia|by rewrite Hsig|lia|]. eapply verify_Ok; [done|].
  destruct (hmac_decodes (signing_input (encoded_context signed)) key) as (mac & Hm & Hver & Hml).
  pose proof (base64url_encode_len b') as Hel. rewrite <-Henc in Hel.
  replace (Duration.as_secs (Duration.from_secs seconds)) with seconds in Hpay
    by (symmetry; apply Z.div_mul; done).
  eexists b', _, key, mac. rewrite Hsig. split_and!; try done; [lia|lia| | |].
  - rewrite Henc. apply base64url_decode_encode.
  - destruct (sign_payload_fields (Build_RpcCallerContextSigner (service_id peer) key
      MAX_CALLER_CONTEXT_TTL) context (Duration.as_secs now) (Duration.as_secs now + seconds) uuid)
      as (? & ? & ?); [done..|]. split; try done. simpl. lia.
  - split; [done| |]; simpl; lia.
Qed.

(** ** Properties *)

(** C15: the verifier accepts a signed context exactly when both header values
    are at most 4096 bytes, the context decodes to a valid payload for this
    audience, the issuer is the mTLS peer and has a trusted key, the signature
    is that key's MAC of the context, the payload is inside its time window
    (30 seconds of skew either way) and names the idempotency key of the
    request; the context returned is then the signed payload. *)
Theorem verify_accepts_exactly `{CodecApi, PayloadJsonApi}
    audience entries v signed peer key now context :
  verifier_new audience entries = Ok v →
  verify v signed peer key now = Ok context ↔
  ∃ decoded payload secret mac,
    str_len (encoded_context signed) ≤ 4096 ∧ str_len (signature signed) ≤ 4096 ∧
    base64url_decode (encoded_context signed) = Some decoded ∧
    payload_from_slice decoded = Ok payload ∧
    payload_valid payload ∧
    audience_service_id payload = audience ∧
    issuer_service_id payload = service_id peer ∧
    issuer_keys v !! service_id peer = Some secret ∧
    base64url_decode (signature signed) = Some mac ∧
    verify_hmac_sha256_base64url (signing_input (encoded_context signed)) secret mac = true ∧
    in_window payload now ∧
    idempotency_key payload = key ∧
    context = verified_of_payload payload.
Proof. exact (verify_Ok audience entries v signed peer key now context). Qed.

(** C22: a context that the builder accepted, signed with a trusted key for a
    whole number of seconds up to 300, is accepted by the audience's verifier
    from the issuer's mTLS connection from 30 seconds before it is issued until 30
    seconds after it expires, and every field comes out as it went in. *)
Theorem sign_verify_roundtrip `{CodecApi, PayloadJsonApi} `{!CodecLaws, !PayloadJsonLaws}
    issuer key signer b context seconds uuid audience entries v peer now now' :
  signer_new issuer key = Ok signer →
  Builder.build b = Ok context →
  verifier_new audience entries = Ok v →
  issuer_keys v !! issuer = Some key →
  service_id peer = issuer →
  RpcCallerContext.audience_service_id context = audience →
  valid_identifier uuid →
  1 ≤ seconds ≤ 300 →
  0 ≤ now → Duration.as_secs now + 300 ≤ i64_max →
  0 ≤ now' → Duration.as_secs now' ≤ i64_max →
  Duration.as_secs now ≤ Duration.as_secs now' + 30 →
  Duration.as_secs now' ≤ Duration.as_secs now + seconds + 30 →
  ∃ signed,
    sign_at signer context (Duration.from_secs seconds) now uuid = Ok signed ∧
    verify v signed peer (RpcCallerContext.idempotency_key context) now' =
      Ok (verified_of_payload
            (sign_payload signer context (Duration.as_secs now)
               (Duration.as_secs now + seconds) uuid)).
Proof.
  intros. edestruct (sign_then_verify issuer key signer b context seconds uuid audience entries v
    peer now now') as (signed & _ & _ & ? & _ & _ & _ & _ & ?); [done..|]. by exists signed.
Qed.

(** the builder succeeds exactly on the builders whose required fields are
    set, whose fields are valid identifiers and which have a session when the
    actor is a user, and then returns the fields that were set. *)
Theorem builder_exact b c :
  Builder.build b = Ok c ↔
  b = {| Builder.tenant_id := Some (RpcCallerContext.tenant_id c);
         Builder.organization_id := Some (RpcCallerContext.organization_id c);
         Builder.actor_id := Some (RpcCallerContext.actor_id c);
         Builder.actor_kind := Some (RpcCallerContext.actor_kind c);
         Builder.session_id := RpcCallerContext.session_id c;
         Builder.request_id := Some (RpcCallerContext.request_id c);
         Builder.trace_id := RpcCallerContext.trace_id c;
         Builder.idempotency_key := RpcCallerContext.idempotency_key c;
         Builder.audience_service_id := Some (RpcCallerContext.audience_service_id c) |} ∧
  context_valid c.
Proof. exact (build_Ok b c). Qed.

(** a positive ttl below one second is signed, although the signer's error
    message asks for at least one second, and no verifier ever accepts the
    result. *)
Theorem sub_second_ttl_never_verifies `{CodecApi, PayloadJsonApi}
    `{!CodecLaws, !PayloadJsonLaws} issuer key signer b context ttl uuid now :
  signer_new issuer key = Ok signer →
  Builder.build b = Ok context →
  valid_identifier uuid →
  0 < ttl < Duration.NANOS_PER_SEC →
  0 ≤ now → Duration.as_secs now + 300 ≤ i64_max →
  ∃ signed,
    sign_at signer context ttl now uuid = Ok signed ∧
    ∀ audience entries v peer mkey now',
      verifier_new audience entries = Ok v →
      is_ok (verify v signed peer mkey now') = false.
Proof.
  intros Hsign [_ Hc]%build_Ok Hu Httl Hn Hof.
  unfold signer_new in Hsign. invert_ok. rewrite validate_identifier_Ok in *.
  destruct (sign_at_Ok (Build_RpcCallerContextSigner issuer key MAX_CALLER_CONTEXT_TTL)
    context ttl now uuid) as (signed & b' & Hat & Henc & Hsig & Hpay & Hlen); try done.
  { unfold MAX_CALLER_CONTEXT_TTL. zlia. }
  exists signed. split; [done|]. intros audience entries v peer mkey now' Hv.
  destruct (verify v signed peer mkey now') as [c|] eqn:E; [|done]. exfalso.
  eapply verify_Ok in E as (decoded & payload & _ & _ & _ & _ & Hdec & Hp & Hval & _);
    [|done].
  rewrite Henc, base64url_decode_encode in Hdec. simplify_eq. rewrite Hpay in Hp. simplify_eq.
  destruct Hval as [_ _ _ _ Ht]. simpl in Ht.
  assert (Duration.as_secs ttl = 0) by (apply Z.div_small; lia). lia.
Qed.

(** ** Witnesses *)

(** A serialisation with one [;]-terminated field after another. *)
Definition toy_field (s : string) (rest : string) : string := s +:+ String ";" rest.
Definition toy_option (o : option string) : string :=
  match o with Some s => s | None => "?" end.
Definition toy_kind (k : RpcCallerActorKind) : string :=
  match k with User => "user" | Service => "service" end.

Definition toy_to_string (p : SignedRpcCallerContextPayload) : string :=
  foldr toy_field ""
    [toy_kind (actor_kind p); pretty (Z.to_N (issued_at_unix_seconds p));
     pretty (Z.to_N (expires_at_unix_seconds p)); issuer_service_id p; audience_service_id p;
     tenant_id p; organization_id p; actor_id p; request_id p; nonce p;
     toy_option (session_id p); toy_option (trace_id p); toy_option (idempotency_key p)].

Fixpoint toy_split (acc s : string) : list string :=
  match s with
  | EmptyString => []
  | String c s' =>
      if bool_decide (c = ";"%char) then acc :: toy_split "" s'
      else toy_split (acc +:+ String c "") s'
  end.

Definition toy_read_option (s : string) : option string :=
  if bool_decide (s = "?") then None else Some s.
Definition toy_read_kind (s : string) : RpcCallerActorKind :=
  if bool_decide (s = "user") then User else Service.
Definition toy_read_number (s : string) : Z := default 0 (parse_u64 s).

Definition toy_of_string (s : string) : result string SignedRpcCallerContextPayload :=
  match toy_split "" s with
  | [kind; issued; expires; issuer; audience; tenant; organization; actor; request; nonce;
     session; trace; idempotency] =>
      Ok (Build_SignedRpcCallerContextPayload 1 issuer audience tenant organization actor
            (toy_read_kind kind) (toy_read_option session) request (toy_read_option trace)
            (toy_read_option idempotency) (toy_read_number issued) (toy_read_number expires)
            nonce)
  | _ => Err "fields"
  end.

Definition toy_json : PayloadJsonApi := {|
  payload_to_vec p := Ok (toy_to_string p);
  payload_from_slice := toy_of_string
|}.

Definition semicolon_free (s : string) : Prop := str_contains ";" s = false.

Lemma toy_split_cons acc c s :
  toy_split acc (String c s) =
  if bool_decide (c = ";"%char) then acc :: toy_split "" s
  else toy_split (acc +:+ String c "") s.
Proof. done. Qed.

Lemma toy_split_field acc s rest :
  semicolon_free s → toy_split acc (s +:+ String ";" rest) = (acc +:+ s) :: toy_split "" rest.
Proof.
  unfold semicolon_free. rewrite str_contains_false.
  revert acc. induction s as [|c s IH]; intros acc; cbn [str_all].
  - intros _. change ("" +:+ String ";" rest) with (String ";" rest).
    rewrite toy_split_cons, str_app_nil_r. done.
  - intros [Hc Hs]%andb_true_iff. apply negb_true_iff, bool_decide_eq_false in Hc.
    change (String c s +:+ String ";" rest) with (String c (s +:+ String ";" rest)).
    rewrite toy_split_cons, bool_decide_eq_false_2, IH by done. by rewrite str_app_assoc.
Qed.

Lemma toy_split_fields l : Forall semicolon_free l → toy_split "" (foldr toy_field "" l) = l.
Proof.
  induction 1 as [|s l Hs _ IH]; [done|]. cbn [foldr]. unfold toy_field at 1.
  rewrite toy_split_field by done. by rewrite IH.
Qed.

Lemma toy_field_len s rest : str_len (toy_field s rest) = str_len s + 1 + str_len rest.
Proof. unfold toy_field. rewrite str_len_app. unfold str_len. simpl. lia. Qed.

Lemma valid_identifier_semicolon_free s : valid_identifier s → semicolon_free s.
Proof. by apply valid_identifier_no_byte. Qed.

Lemma toy_option_ok o :
  valid_option o → semicolon_free (toy_option o) ∧ toy_read_option (toy_option o) = o ∧
  str_len (toy_option o) ≤ match o with Some s => str_len s | None => 0 end + 1.
Proof.
  destruct o as [s|]; simpl; [|by vm_compute]. intros Hs. split_and!.
  - by apply valid_identifier_semicolon_free.
  - unfold toy_read_option. case_bool_decide; [|done]. subst. by destruct Hs.
  - lia.
Qed.

Lemma toy_kind_ok k :
  semicolon_free (toy_kind k) ∧ toy_read_kind (toy_kind k) = k ∧ str_len (toy_kind k) ≤ 7.
Proof. by destruct k. Qed.

Lemma pretty_N_go_len (k : nat) x s :
  (x < 10 ^ N.of_nat k)%N → str_len (pretty_N_go x s) ≤ Z.of_nat k + str_len s.
Proof.
  revert x s. induction k as [|k IH]; intros x s Hx.
  - assert (x = 0%N) as -> by (simpl in Hx; lia). rewrite pretty_N_go_0. lia.
  - assert (x = 0 ∨ 0 < x)%N as [->|?] by lia; [rewrite pretty_N_go_0; lia|].
    rewrite pretty_N_go_step by done. etrans; [apply IH|].
    + rewrite Nat2N.inj_succ, N.pow_succ_r' in Hx. by apply N.Div0.div_lt_upper_bound.
    + unfold str_len. simpl. lia.
Qed.

Lemma toy_number_ok n :
  0 ≤ n ≤ i64_max →
  semicolon_free (pretty (Z.to_N n)) ∧ toy_read_number (pretty (Z.to_N n)) = n ∧
  str_len (pretty (Z.to_N n)) ≤ 20.
Proof.
  intros Hn. split_and!.
  - apply str_contains_false, (str_all_impl is_ascii_digit).
    + intros c Hc. apply negb_true_iff, bool_decide_eq_false. by intros ->.
    + unfold pretty, pretty_N. case_decide; [done|]. by apply pretty_N_go_digits.
  - unfold toy_read_number. rewrite parse_u64_pretty; [simpl|zlia]. zlia.
  - unfold pretty, pretty_N. case_decide; [vm_compute; discriminate|].
    apply (pretty_N_go_len 20). unfold i64_max in *. simpl. lia.
Qed.

Lemma toy_json_laws : @PayloadJsonLaws toy_json.
Proof.
  split. intros p (Hv & Hr & Ho & Hi & He). cbn in Hr, Ho.
  exists (toy_to_string p). split; [done|].
  destruct (toy_kind_ok (actor_kind p)) as (? & Ek & ?).
  destruct (toy_number_ok _ Hi) as (? & Ei & ?). destruct (toy_number_ok _ He) as (? & Ee & ?).
  rewrite !Forall_cons in Hr. rewrite !Forall_cons in Ho. destruct_and!.
  destruct (toy_option_ok (session_id p)) as (? & Es & ?); [done|].
  destruct (toy_option_ok (trace_id p)) as (? & Et & ?); [done|].
  destruct (toy_option_ok (idempotency_key p)) as (? & Ep & ?); [done|].
  split.
  - change (toy_of_string (toy_to_string p) = Ok p).
    unfold toy_of_string, toy_to_string. rewrite toy_split_fields.
    + rewrite Ek, Ei, Ee, Es, Et, Ep. by destruct p; simpl in *; subst.
    + rewrite !Forall_cons, Forall_nil. auto 20 using valid_identifier_semicolon_free.
  - unfold toy_to_string, payload_text_len. simpl. rewrite !toy_field_len.
    change (str_len "") with 0. repeat match goal with
    | |- context [str_len ?s] => unless (0 ≤ str_len s) by assumption; pose proof (str_len_nonneg s)
    end. lia.
Qed.

(** The context, peer and keys of the crate's own tests. *)
Definition test_key : RpcCallerContextSigningKey := "00000000000000000000000000000007".
Definition test_builder : Builder.t :=
  Builder.set_audience_service_id "sdkwork-im"
    (Builder.set_idempotency_key "idempotency-1"
      (Builder.set_trace_id "trace-1"
        (Builder.set_request_id "request-1"
          (Builder.set_session_id "session-1"
            (Builder.set_actor_kind User
              (Builder.set_actor_id "300001"
                (Builder.set_organization_id "200001"
                  (Builder.set_tenant_id "100001" Builder.default)))))))).
Definition test_context : RpcCallerContext.t :=
  RpcCallerContext.Build_t "100001" "200001" "300001" User (Some "session-1") "request-1"
    (Some "trace-1") (Some "idempotency-1") "sdkwork-im".
Definition test_signer : RpcCallerContextSigner :=
  Build_RpcCallerContextSigner "sdkwork-knowledgebase" test_key MAX_CALLER_CONTEXT_TTL.
Definition test_verifier : RpcCallerContextVerifier :=
  Build_RpcCallerContextVerifier "sdkwork-im" {["sdkwork-knowledgebase" := test_key]}
    MAX_CALLER_CONTEXT_TTL MAX_CLOCK_SKEW.
Definition test_now : Z := Duration.from_secs 1700000000.
Definition test_uuid : string := "0123456789abcdef0123456789abcdef".

Example test_builder_builds : Builder.build test_builder = Ok test_context.
Proof. vm_compute. reflexivity. Qed.

Lemma test_verifier_new :
  verifier_new "sdkwork-im" [("sdkwork-knowledgebase", test_key)] = Ok test_verifier.
Proof. vm_compute. reflexivity. Qed.

(** A header pair that is not base64url is rejected. *)
Lemma verify_accepts_exactly_witness :
  is_ok (@verify toy_codec toy_json test_verifier (from_transport_metadata "a" "b") kb_identity
           None test_now) = false ∧
  ¬ ∃ c, @verify toy_codec toy_json test_verifier (from_transport_metadata "a" "b") kb_identity
           None test_now = Ok c.
Proof.
  split; [vm_compute; reflexivity|]. intros [c Hc].
  apply (@verify_accepts_exactly toy_codec toy_json "sdkwork-im"
    [("sdkwork-knowledgebase", test_key)]) in Hc; [|exact test_verifier_new].
  destruct Hc as (d & _ & _ & _ & _ & _ & Hd & _). vm_compute in Hd. discriminate Hd.
Defined.

Lemma sign_verify_roundtrip_witness :
  ∃ signed, @sign_at toy_codec toy_json test_signer test_context (Duration.from_secs 60)
              test_now test_uuid = Ok signed ∧
            is_ok (@verify toy_codec toy_json test_verifier signed kb_identity
                     (Some "idempotency-1") (test_now + Duration.from_secs 90)) = true.
Proof.
  destruct (@sign_verify_roundtrip toy_codec toy_json toy_codec_laws toy_json_laws
    "sdkwork-knowledgebase" test_key test_signer test_builder test_context 60 test_uuid
    "sdkwork-im" [("sdkwork-knowledgebase", test_key)] test_verifier kb_identity test_now
    (test_now + Duration.from_secs 90)) as (signed & Hs & Hv);
    [by_compute..|].
  exists signed. split; [exact Hs|]. cbn in Hv. by rewrite Hv.
Defined.

Lemma sub_second_ttl_never_verifies_witness :
  ∃ signed, @sign_at toy_codec toy_json test_signer test_context 500000000 test_now test_uuid
              = Ok signed ∧
            is_ok (@verify toy_codec toy_json test_verifier signed kb_identity
                     (Some "idempotency-1") test_now) = false.
Proof.
  destruct (@sub_second_ttl_never_verifies toy_codec toy_json toy_codec_laws toy_json_laws
    "sdkwork-knowledgebase" test_key test_signer test_builder test_context 500000000 test_uuid
    test_now) as (signed & Hs & Hv);
    [by_compute..|].
  exists signed. split; [exact Hs|]. eapply Hv. exact test_verifier_new.
Defined.
