(* ===== verification/Tls.v ===== *)
(** * Tls: TLS and mTLS configuration of clients and servers

    Models [sdkwork-rpc-client/src/tls.rs] and the TLS half of
    [sdkwork-rpc-server/src/lib.rs] with its [ServeError]. The cargo feature
    [tls] is the boolean argument of the two functions it gates. *)
From S2P Require Import Prelude RustStd Core Interfaces.

(** ** Client *)

Record RpcTlsConfig : Type := {
  server_ca_certificate_path : option string;
  client_cert_path : option string;
  client_key_path : option string;
  domain : option string
}.

Definition server_verified : RpcTlsConfig :=
  {| server_ca_certificate_path := None; client_cert_path := None;
     client_key_path := None; domain := None |}.

Definition with_server_ca (path : string) (self : RpcTlsConfig) : RpcTlsConfig :=
  {| server_ca_certificate_path := Some path; client_cert_path := client_cert_path self;
     client_key_path := client_key_path self; domain := domain self |}.

Definition with_client_identity (cert_path key_path : string) (self : RpcTlsConfig) :
    RpcTlsConfig :=
  {| server_ca_certificate_path := server_ca_certificate_path self;
     client_cert_path := Some cert_path; client_key_path := Some key_path;
     domain := domain self |}.

Definition with_domain (d : string) (self : RpcTlsConfig) : RpcTlsConfig :=
  {| server_ca_certificate_path := server_ca_certificate_path self;
     client_cert_path := client_cert_path self; client_key_path := client_key_path self;
     domain := Some d |}.

Definition tls_validate `{FsApi} (self : RpcTlsConfig) : RpcFrameworkResult () :=
  match server_ca_certificate_path self with
  | Some path =>
      if path_exists path then Ok ()
      else Err (Configuration ("tls server_ca_certificate_path does not exist: " +:+ path))
  | None => Ok ()
  end ;?
  match client_cert_path self, client_key_path self with
  | Some cert, Some key =>
      if negb (path_exists cert) then
        Err (Configuration ("tls client_cert_path does not exist: " +:+ cert))
      else if negb (path_exists key) then
        Err (Configuration ("tls client_key_path does not exist: " +:+ key))
      else Ok ()
  | Some cert, None =>
      Err (Configuration
        ("tls client_cert_path is set but client_key_path is missing; both must be provided for mTLS (cert="
           +:+ cert +:+ ")"))
  | None, Some key =>
      Err (Configuration
        ("tls client_key_path is set but client_cert_path is missing; both must be provided for mTLS (key="
           +:+ key +:+ ")"))
  | None, None => Ok ()
  end.

(** One [std::fs::read] with its error message. *)
Definition read_pem `{FsApi} (what path : string) : RpcFrameworkResult bytes :=
  map_err (λ error, Configuration ("failed to read " +:+ what +:+ " " +:+ path +:+ ": " +:+ error))
    (fs_read path).

Definition build_client_tls_config `{FsApi, TransportApi} (feature_tls : bool)
    (config : RpcTlsConfig) : RpcFrameworkResult ClientTlsConfig :=
  if negb feature_tls then
    Err (Configuration
      "tls config supplied but the `tls` cargo feature is not enabled; enable `sdkwork-rpc-client/tls` for production TLS/mTLS")
  else
    tls_validate config ;?
    let tls := client_tls_new in
    let tls :=
      match domain config with
      | Some d => client_tls_domain_name d tls
      | None => tls
      end in
    let? tls :=
      match server_ca_certificate_path config with
      | Some ca_path =>
          let? pem := read_pem "tls ca certificate" ca_path in
          Ok (client_tls_ca_certificate pem tls)
      | None => Ok (client_tls_with_webpki_roots tls)
      end in
    match client_cert_path config, client_key_path config with
    | Some cert_path, Some key_path =>
        let? cert_pem := read_pem "tls client cert" cert_path in
        let? key_pem := read_pem "tls client key" key_path in
        Ok (client_tls_identity cert_pem key_pem tls)
    | _, _ => Ok tls
    end.

(** ** Server *)

Inductive ServeError : Type :=
| ServeTransport (message : string)
| DiscoveryDeregister (message : string)
| Signal (message : string).

#[global] Instance ServeError_eq_dec : EqDecision ServeError.
Proof. solve_decision. Defined.

Definition ServeError_to_string (e : ServeError) : string :=
  match e with
  | ServeTransport message => "rpc server transport error: " +:+ message
  | DiscoveryDeregister message => "rpc server discovery deregister error: " +:+ message
  | Signal message => "rpc server signal handler error: " +:+ message
  end.

Record RpcServerTlsConfig : Type := {
  server_cert_path : string;
  server_key_path : string;
  client_ca_certificate_path : option string;
  client_auth_optional : bool
}.

Definition server_tls_validate `{FsApi} (self : RpcServerTlsConfig) : result ServeError () :=
  if negb (path_exists (server_cert_path self)) then
    Err (ServeTransport ("tls server_cert_path does not exist: " +:+ server_cert_path self))
  else if negb (path_exists (server_key_path self)) then
    Err (ServeTransport ("tls server_key_path does not exist: " +:+ server_key_path self))
  else
    match client_ca_certificate_path self with
    | Some path =>
        if negb (path_exists path) then
          Err (ServeTransport ("tls client_ca_certificate_path does not exist: " +:+ path))
        else Ok ()
    | None => Ok ()
    end.

Definition validate_mtls `{FsApi} (self : RpcServerTlsConfig) : result ServeError () :=
  if bool_decide (client_ca_certificate_path self = None) then
    Err (ServeTransport "strict mTLS requires client_ca_certificate_path")
  else if client_auth_optional self then
    Err (ServeTransport "strict mTLS requires client_auth_optional=false")
  else server_tls_validate self.

Definition server_read_pem `{FsApi} (what path : string) : result ServeError bytes :=
  map_err (λ error, ServeTransport ("failed to read " +:+ what +:+ " " +:+ path +:+ ": " +:+ error))
    (fs_read path).

Definition apply_server_tls `{FsApi, ServerTlsApi} (feature_tls : bool)
    (builder : ServerBuilder) (config : RpcServerTlsConfig) : result ServeError ServerBuilder :=
  if negb feature_tls then
    Err (ServeTransport
      "tls config supplied but the `tls` cargo feature is not enabled; enable `sdkwork-rpc-server/tls` for production TLS/mTLS")
  else
    server_tls_validate config ;?
    let? server_cert := server_read_pem "tls server cert" (server_cert_path config) in
    let? server_key := server_read_pem "tls server key" (server_key_path config) in
    let tls := server_tls_identity server_cert server_key server_tls_new in
    let? tls :=
      match client_ca_certificate_path config with
      | Some client_ca_path =>
          let? ca_pem := server_read_pem "tls client ca" client_ca_path in
          Ok (server_tls_client_auth_optional (client_auth_optional config)
                (server_tls_client_ca_root ca_pem tls))
      | None => Ok tls
      end in
    map_err ServeTransport (server_builder_tls_config tls builder).

(** ** Specification *)

(** The paths of a client configuration exist and come in pairs. *)
Definition tls_config_sound `{FsApi} (c : RpcTlsConfig) : Prop :=
  (∀ p, server_ca_certificate_path c = Some p → path_exists p = true) ∧
  (∀ p, client_cert_path c = Some p → path_exists p = true) ∧
  (∀ p, client_key_path c = Some p → path_exists p = true) ∧
  (is_Some (client_cert_path c) ↔ is_Some (client_key_path c)).

(** ** Lemmas *)

Lemma tls_validate_Ok `{FsApi} c : tls_validate c = Ok () ↔ tls_config_sound c.
Proof.
  unfold tls_validate, tls_config_sound, is_Some. destruct c as [ca cert key dom]; simpl. split.
  - intros Hok. invert_ok. destruct ca, cert, key; repeat case_if; naive_solver.
  - intros (Hca & Hcert & Hkey & Hpair).
    destruct ca as [ca|]; [rewrite (Hca ca) by done|]; simpl;
      destruct cert as [cert|], key as [key|]; try naive_solver;
      by rewrite (Hcert cert), (Hkey key).
Qed.

Lemma server_tls_validate_Ok `{FsApi} c :
  server_tls_validate c = Ok () ↔
  path_exists (server_cert_path c) = true ∧ path_exists (server_key_path c) = true ∧
  ∀ p, client_ca_certificate_path c = Some p → path_exists p = true.
Proof.
  unfold server_tls_validate. destruct (path_exists (server_cert_path c)); simpl; [|naive_solver].
  destruct (path_exists (server_key_path c)); simpl; [|naive_solver].
  destruct (client_ca_certificate_path c) as [p|]; [|naive_solver].
  destruct (path_exists p) eqn:Hp; simpl.
  - split; [|done]. intros _. split_and!; [done..|]. by intros ? [= <-].
  - split; [done|]. intros (_ & _ & Hex). by rewrite Hex in Hp.
Qed.

(** ** Properties *)

(** a client TLS configuration validates exactly when every configured
    path exists and the client certificate and key come together. *)
Theorem client_tls_validate_exact `{FsApi} c : tls_validate c = Ok () ↔ tls_config_sound c.
Proof. apply tls_validate_Ok. Qed.

(** an internal listener's TLS configuration passes the strict mTLS check
    exactly when a client CA is configured, client authentication is not
    optional and all the files exist. *)
Theorem mtls_listener_exact `{FsApi} c :
  validate_mtls c = Ok () ↔
  is_Some (client_ca_certificate_path c) ∧ client_auth_optional c = false ∧
  path_exists (server_cert_path c) = true ∧ path_exists (server_key_path c) = true ∧
  ∀ p, client_ca_certificate_path c = Some p → path_exists p = true.
Proof.
  rewrite <-server_tls_validate_Ok, <-not_eq_None_Some. unfold validate_mtls.
  case_bool_decide; [naive_solver|]. destruct (client_auth_optional c); naive_solver.
Qed.

(** a TLS configuration is never dropped silently: without the [tls]
    feature both the client and the server builder fail, and with it they fail
    on every configuration that does not validate. *)
Theorem tls_never_silently_dropped `{FsApi, TransportApi, ServerTlsApi}
    (feature : bool) c tls b sc b' :
  (build_client_tls_config feature c = Ok tls → feature = true ∧ tls_config_sound c) ∧
  (apply_server_tls feature b sc = Ok b' → feature = true ∧ server_tls_validate sc = Ok ()).
Proof.
  unfold build_client_tls_config, apply_server_tls.
  split; destruct feature; simpl; intros Hok; invert_ok; split; try done. by apply tls_validate_Ok.
Qed.
