(* ===== verification/ClientMetadata.v ===== *)
(** * ClientMetadata: outbound metadata and service credentials

    Models [sdkwork-rpc-client/src/metadata.rs]. A function that takes
    [&mut MetadataMap] returns the map it leaves behind, also on errors. The
    names of the standard headers are constants of a crate outside the
    repository and therefore parameters. *)
From S2P Require Import Prelude RustStd Core Interfaces ServiceIdentity CallerContext.

Class MetadataKeys : Type := {
  RPC_AUTHORIZATION_METADATA : string;
  RPC_ACCESS_TOKEN_METADATA : string;
  RPC_REQUEST_ID_METADATA : string;
  RPC_TRACEPARENT_METADATA : string;
  RPC_IDEMPOTENCY_KEY_METADATA : string;
  RPC_REQUEST_HASH_METADATA : string
}.

(** The six headers, in the order [apply_to] writes them. *)
Definition standard_keys `{MetadataKeys} : list string :=
  [RPC_AUTHORIZATION_METADATA; RPC_ACCESS_TOKEN_METADATA; RPC_REQUEST_ID_METADATA;
   RPC_TRACEPARENT_METADATA; RPC_IDEMPOTENCY_KEY_METADATA; RPC_REQUEST_HASH_METADATA].

(** They are distinct legal header names. *)
Class MetadataKeysLaws `{MetadataKeys} : Prop := {
  standard_keys_canonical : Forall (λ k, canonical_key k = true) standard_keys;
  standard_keys_nodup : NoDup standard_keys
}.

Record RpcCallMetadata : Type := {
  authorization : option string;
  access_token : option string;
  call_request_id : option string;
  traceparent : option string;
  call_idempotency_key : option string;
  request_hash : option string
}.

Section Metadata.
Context `{MetadataApi, UtilsApi, MetadataKeys}.

Definition has_idempotency_key (self : RpcCallMetadata) : bool :=
  negb (is_blank (call_idempotency_key self)).

Definition insert_optional (metadata : MetadataMap) (key : string) (value : option string) :
    MetadataMap :=
  match value with
  | None => metadata
  | Some value =>
      if is_blank (Some value) then metadata
      else
        match key_from_bytes key, value_try_from value with
        | Some parsed_key, Some parsed_value => metadata_insert parsed_key parsed_value metadata
        | _, _ => metadata
        end
  end.

Definition call_apply_to (self : RpcCallMetadata) (metadata : MetadataMap) : MetadataMap :=
  let metadata := insert_optional metadata RPC_AUTHORIZATION_METADATA (authorization self) in
  let metadata := insert_optional metadata RPC_ACCESS_TOKEN_METADATA (access_token self) in
  let metadata := insert_optional metadata RPC_REQUEST_ID_METADATA (call_request_id self) in
  let metadata := insert_optional metadata RPC_TRACEPARENT_METADATA (traceparent self) in
  let metadata :=
    insert_optional metadata RPC_IDEMPOTENCY_KEY_METADATA (call_idempotency_key self) in
  insert_optional metadata RPC_REQUEST_HASH_METADATA (request_hash self).

Definition insert_required (metadata : MetadataMap) (key value : string) :
    MetadataMap * RpcFrameworkResult () :=
  if str_is_empty (trim value) then
    (metadata, Err (Validation ("required RPC metadata `" +:+ key +:+ "` must not be blank")))
  else
    match key_from_bytes key with
    | None => (metadata, Err (Validation ("invalid RPC metadata key `" +:+ key +:+ "`")))
    | Some parsed_key =>
        match value_try_from value with
        | None =>
            (metadata, Err (Validation ("invalid RPC metadata value for `" +:+ key +:+ "`")))
        | Some parsed_value => (metadata_insert parsed_key parsed_value metadata, Ok ())
        end
    end.

Definition validate_bound_idempotency_metadata (metadata : MetadataMap)
    (expected : option string) : RpcFrameworkResult () :=
  let? actual :=
    transpose
      ((λ value,
          ok_or (Validation "existing RPC idempotency metadata is not valid ASCII")
            (value_to_str value))
       <$> metadata_get RPC_IDEMPOTENCY_KEY_METADATA metadata) in
  match expected, actual with
  | Some expected, Some actual =>
      if bool_decide (expected = actual) then Ok ()
      else Err (Validation "existing RPC idempotency metadata does not match the signed caller context")
  | Some _, None => Ok ()
  | None, None => Ok ()
  | _, _ => Err (Validation "existing RPC idempotency metadata does not match the signed caller context")
  end.

(** ** Credentials *)

Record RpcServiceCredential : Type := {
  signed_caller_context : SignedRpcCallerContext;
  credential_idempotency_key : option string
}.

Definition credential_apply_to (self : RpcServiceCredential) (metadata : MetadataMap) :
    MetadataMap * RpcFrameworkResult () :=
  match validate_bound_idempotency_metadata metadata (credential_idempotency_key self) with
  | Err e => (metadata, Err e)
  | Ok _ =>
      match insert_required metadata RPC_CALLER_CONTEXT_METADATA
              (encoded_context (signed_caller_context self)) with
      | (metadata, Err e) => (metadata, Err e)
      | (metadata, Ok _) =>
          match insert_required metadata RPC_CALLER_CONTEXT_SIGNATURE_METADATA
                  (signature (signed_caller_context self)) with
          | (metadata, Err e) => (metadata, Err e)
          | (metadata, Ok _) =>
              match credential_idempotency_key self with
              | Some idempotency_key =>
                  insert_required metadata RPC_IDEMPOTENCY_KEY_METADATA idempotency_key
              | None => (metadata, Ok ())
              end
          end
      end
  end.
End Metadata.

Record SignedRpcServiceCredentialProvider : Type := {
  provider_signer : RpcCallerContextSigner;
  provider_ttl : Z
}.

Definition provider_new (signer : RpcCallerContextSigner) (ttl : Z) :
    RpcFrameworkResult SignedRpcServiceCredentialProvider :=
  if Duration.is_zero ttl || (Duration.from_secs 300 <? ttl) then
    Err (Configuration "rpc service credential ttl must be between 1 second and 300 seconds")
  else Ok {| provider_signer := signer; provider_ttl := ttl |}.

(** [now] is the reading of the clock, [uuid] the random nonce. *)
Definition issue `{CodecApi, PayloadJsonApi} (self : SignedRpcServiceCredentialProvider)
    (caller_context : RpcCallerContext.t) (now : Z) (uuid : string) :
    RpcFrameworkResult RpcServiceCredential :=
  let idempotency_key := RpcCallerContext.idempotency_key caller_context in
  let? signed := sign_at (provider_signer self) caller_context (provider_ttl self) now uuid in
  Ok {| signed_caller_context := signed; credential_idempotency_key := idempotency_key |}.

(** The trait [RpcServiceCredentialProvider]; the clock and the nonce are what
    an implementation reads while it issues. *)
Class RpcServiceCredentialProvider (P : Type) : Type := {
  issue_credential :
    P → RpcCallerContext.t → Z → string → RpcFrameworkResult RpcServiceCredential
}.
#[global] Instance signed_credential_provider `{CodecApi, PayloadJsonApi} :
  RpcServiceCredentialProvider SignedRpcServiceCredentialProvider := {| issue_credential := issue |}.

(** ** Lemmas *)

(** Text that a header can carry unchanged and that is not blank. *)
Definition header_text (s : string) : Prop := s ≠ "" ∧ str_all plain s = true.

Lemma header_text_not_blank s : header_text s → str_is_empty (trim s) = false.
Proof.
  intros [Hne Hp]. rewrite trim_plain by done. by apply bool_decide_eq_false.
Qed.

Lemma header_text_visible s : header_text s → visible_ascii s = true.
Proof.
  intros [_ Hp]. eapply str_all_impl; [|exact Hp]. unfold plain, byte_in. intros c Hc.
  reflect_bools. apply andb_true_iff. rewrite !Z.leb_le. lia.
Qed.

Lemma identifier_byte_plain c : identifier_byte c = true → plain c = true.
Proof. destruct c as [[] [] [] [] [] [] [] []]; vm_compute; done. Qed.
Lemma base64url_byte_plain c : base64url_byte c = true → plain c = true.
Proof. destruct c as [[] [] [] [] [] [] [] []]; vm_compute; done. Qed.

Lemma identifier_header_text s : valid_identifier s → header_text s.
Proof.
  intros [Hl Hs]. split; [intros ->; by destruct Hl|].
  eapply str_all_impl; [apply identifier_byte_plain|done].
Qed.

Lemma base64url_header_text `{CodecApi} `{!CodecLaws} b :
  0 < str_len b → header_text (base64url_encode b).
Proof.
  intros Hb. split.
  - intros He. pose proof (base64url_decode_encode b) as Hd.
    pose proof (base64url_encode_len "") as Hl. pose proof (str_len_nonneg (base64url_encode "")).
    assert (base64url_encode "" = "") as He0 by (apply str_len_zero; change (str_len "") with 0 in *; lia).
    pose proof (base64url_decode_encode "") as Hd0. rewrite He in Hd. rewrite He0 in Hd0.
    simplify_eq. by change (str_len "") with 0 in Hb.
  - eapply str_all_impl; [apply base64url_byte_plain|apply base64url_encode_alphabet].
Qed.

Lemma insert_required_Ok `{MetadataApi} `{!MetadataLaws} m k s :
  canonical_key k = true → header_text s →
  ∃ v, insert_required m k s = (metadata_insert k v m, Ok ()) ∧ value_to_str v = Some s.
Proof.
  intros Hk Hs. unfold insert_required. rewrite header_text_not_blank by done.
  rewrite key_from_bytes_canonical by done.
  destruct (value_try_from_visible s) as [v Hv]; [by apply header_text_visible|].
  rewrite Hv. exists v. split; [done|]. by apply value_to_str_try_from.
Qed.

Lemma insert_required_Err `{MetadataApi} m k s m' e :
  insert_required m k s = (m', Err e) → m' = m.
Proof. unfold insert_required. repeat case_match; naive_solver. Qed.

(** The idempotency header does not contradict the credential. *)
Definition idempotency_compatible `{MetadataApi, MetadataKeys} (m : MetadataMap)
    (key : option string) : Prop :=
  match metadata_get RPC_IDEMPOTENCY_KEY_METADATA m with
  | None => True
  | Some v => is_Some key ∧ value_to_str v = key
  end.

Lemma validate_bound_Ok `{MetadataApi, MetadataKeys} m key :
  validate_bound_idempotency_metadata m key = Ok () ↔ idempotency_compatible m key.
Proof.
  unfold validate_bound_idempotency_metadata, idempotency_compatible.
  destruct (metadata_get _ m) as [v|]; simpl; [|destruct key; naive_solver].
  destruct (value_to_str v) as [s|], key as [k|]; simpl; unfold is_Some; try naive_solver.
  case_bool_decide; naive_solver.
Qed.

Lemma validate_bound_Err `{MetadataApi, MetadataKeys} m key e :
  validate_bound_idempotency_metadata m key = Err e → ∃ s, e = Validation s.
Proof.
  unfold validate_bound_idempotency_metadata.
  destruct (metadata_get _ m) as [v|]; simpl; [destruct (value_to_str v); simpl|];
    destruct key; simpl; try case_bool_decide; intros [= <-]; eauto.
Qed.

(** The text of a header. *)
Definition header `{MetadataApi} (k : string) (m : MetadataMap) : option string :=
  metadata_get k m ≫= value_to_str.

Lemma header_insert `{MetadataApi} `{!MetadataLaws} k v m s :
  canonical_key k = true → value_to_str v = Some s → header k (metadata_insert k v m) = Some s.
Proof. intros. unfold header. by rewrite metadata_get_insert. Qed.

(** The headers and values of [call_apply_to]. *)
Definition call_fields `{MetadataKeys} (self : RpcCallMetadata) : list (string * option string) :=
  [(RPC_AUTHORIZATION_METADATA, authorization self);
   (RPC_ACCESS_TOKEN_METADATA, access_token self);
   (RPC_REQUEST_ID_METADATA, call_request_id self);
   (RPC_TRACEPARENT_METADATA, traceparent self);
   (RPC_IDEMPOTENCY_KEY_METADATA, call_idempotency_key self);
   (RPC_REQUEST_HASH_METADATA, request_hash self)].

Section Optional.
Context `{MetadataApi, UtilsApi} `{!MetadataLaws}.

Definition insert_fields (m : MetadataMap) (l : list (string * option string)) : MetadataMap :=
  foldl (λ m kv, insert_optional m kv.1 kv.2) m l.

Lemma insert_optional_ne m k k' v :
  canonical_key k = true → canonical_key k' = true → k ≠ k' →
  metadata_get k (insert_optional m k' v) = metadata_get k m.
Proof.
  intros. unfold insert_optional. rewrite key_from_bytes_canonical by done.
  repeat case_match; try done. by rewrite metadata_get_insert_ne.
Qed.

Lemma insert_fields_ne k l m :
  canonical_key k = true → Forall (λ k', canonical_key k' = true) l.*1 → k ∉ l.*1 →
  metadata_get k (insert_fields m l) = metadata_get k m.
Proof.
  intros Hk. revert m. induction l as [|[k' v] l IH]; intros m; [done|]. csimpl.
  intros [Hk' Hl]%Forall_cons [Hne Hnin]%not_elem_of_cons. rewrite IH by done.
  by apply insert_optional_ne.
Qed.

(** What a field leaves in the map does not depend on the other fields. *)
Lemma insert_fields_get k v l m :
  Forall (λ k', canonical_key k' = true) l.*1 → NoDup l.*1 → (k, v) ∈ l →
  metadata_get k (insert_fields m l) = metadata_get k (insert_optional m k v).
Proof.
  revert m. induction l as [|[k' v'] l IH]; intros m; csimpl; [by intros _ _ ?%elem_of_nil|].
  intros [Hk' Hl]%Forall_cons [Hnin Hnd]%NoDup_cons [[= -> ->]|Hin]%elem_of_cons.
  - by apply insert_fields_ne.
  - assert (k ∈ l.*1) as Hin1 by (apply list_elem_of_fmap; by exists (k, v)).
    assert (canonical_key k = true) as Hk by (by rewrite Forall_forall in Hl; apply Hl).
    assert (k ≠ k') by (by intros ->).
    rewrite IH by done. unfold insert_optional. rewrite !key_from_bytes_canonical by done.
    repeat case_match; try done; rewrite ?metadata_get_insert by done; try done;
      by rewrite metadata_get_insert_ne.
Qed.
End Optional.

(** ** Properties *)

(** the call metadata writes each of the six standard headers exactly when
    its field is set to printable text that is not blank, and leaves every
    other header as it was. *)
Theorem call_metadata_applied `{MetadataApi, UtilsApi, MetadataKeys}
    `{!MetadataLaws, !UtilsLaws, !MetadataKeysLaws} self m k v :
  (k, v) ∈ call_fields self →
  (∀ s, v = Some s → visible_ascii s = true → trim s ≠ "" →
        header k (call_apply_to self m) = Some s) ∧
  (v = None ∨ (∃ s, v = Some s ∧ trim s = "") →
     metadata_get k (call_apply_to self m) = metadata_get k m) ∧
  (∀ k', canonical_key k' = true → k' ∉ standard_keys →
         metadata_get k' (call_apply_to self m) = metadata_get k' m).
Proof.
  intros Hin. change (call_apply_to self m) with (insert_fields m (call_fields self)).
  pose proof standard_keys_canonical as Hc. pose proof standard_keys_nodup as Hn.
  change standard_keys with (call_fields self).*1 in *.
  assert (canonical_key k = true) as Hk.
  { rewrite Forall_forall in Hc. apply Hc, list_elem_of_fmap. by exists (k, v). }
  rewrite (insert_fields_get k v) by done. split_and!.
  - intros s -> Hv Ht. unfold header. rewrite (insert_fields_get k (Some s)) by done.
    unfold insert_optional. rewrite is_blank_Some, key_from_bytes_canonical by done.
    unfold str_is_empty. rewrite bool_decide_eq_false_2 by done.
    destruct (value_try_from_visible s) as [w Hw]; [done|]. rewrite Hw.
    eapply header_insert; [done|]. by apply value_to_str_try_from.
  - intros [->|(s & -> & Ht)]; [done|]. unfold insert_optional. by rewrite is_blank_Some, Ht.
  - intros k' Hk' Hnin. by apply insert_fields_ne.
Qed.

(** a call whose idempotency key cannot be written as a header still
    reports that it has one, and the header is silently left out. *)
Theorem idempotency_key_claimed_but_dropped `{MetadataApi, UtilsApi, MetadataKeys}
    `{!MetadataLaws, !UtilsLaws, !MetadataKeysLaws} self m s :
  call_idempotency_key self = Some s → trim s ≠ "" → value_try_from s = None →
  has_idempotency_key self = true ∧
  metadata_get RPC_IDEMPOTENCY_KEY_METADATA (call_apply_to self m)
    = metadata_get RPC_IDEMPOTENCY_KEY_METADATA m.
Proof.
  intros Hs Ht Hv. split.
  - unfold has_idempotency_key. rewrite Hs, is_blank_Some. unfold str_is_empty.
    by rewrite bool_decide_eq_false_2.
  - change (call_apply_to self m) with (insert_fields m (call_fields self)).
    rewrite (insert_fields_get _ (Some s)).
    + unfold insert_optional. rewrite Hv. repeat case_match; done.
    + apply standard_keys_canonical.
    + apply standard_keys_nodup.
    + rewrite <-Hs. unfold call_fields. set_solver.
Qed.

(** The idempotency header is a legal name, apart from the two context headers. *)
Lemma idempotency_header_canonical `{MetadataKeys} `{!MetadataKeysLaws} :
  canonical_key RPC_IDEMPOTENCY_KEY_METADATA = true.
Proof.
  pose proof standard_keys_canonical as Hc. rewrite Forall_forall in Hc. apply Hc.
  unfold standard_keys. set_solver.
Qed.

Lemma credential_applied `{MetadataApi, MetadataKeys} `{!MetadataLaws, !MetadataKeysLaws} c m :
  RPC_IDEMPOTENCY_KEY_METADATA ∉
    [RPC_CALLER_CONTEXT_METADATA; RPC_CALLER_CONTEXT_SIGNATURE_METADATA] →
  header_text (encoded_context (signed_caller_context c)) →
  header_text (signature (signed_caller_context c)) →
  (∀ s, credential_idempotency_key c = Some s → header_text s) →
  idempotency_compatible m (credential_idempotency_key c) →
  ∃ m', credential_apply_to c m = (m', Ok ()) ∧
    header RPC_CALLER_CONTEXT_METADATA m' = Some (encoded_context (signed_caller_context c)) ∧
    header RPC_CALLER_CONTEXT_SIGNATURE_METADATA m' = Some (signature (signed_caller_context c)) ∧
    header RPC_IDEMPOTENCY_KEY_METADATA m' = credential_idempotency_key c ∧
    (credential_idempotency_key c = None →
       metadata_get RPC_IDEMPOTENCY_KEY_METADATA m' = None) ∧
    ∀ k, canonical_key k = true →
      k ∉ [RPC_CALLER_CONTEXT_METADATA; RPC_CALLER_CONTEXT_SIGNATURE_METADATA;
           RPC_IDEMPOTENCY_KEY_METADATA] →
      metadata_get k m' = metadata_get k m.
Proof.
  intros [Hi1 [Hi2 _]%not_elem_of_cons]%not_elem_of_cons He Hs Hk Hcomp.
  pose proof idempotency_header_canonical as Hi.
  unfold credential_apply_to. rewrite (proj2 (validate_bound_Ok m _)) by done.
  destruct (insert_required_Ok m RPC_CALLER_CONTEXT_METADATA _ eq_refl He) as (v1 & -> & Hv1).
  destruct (insert_required_Ok (metadata_insert RPC_CALLER_CONTEXT_METADATA v1 m)
    RPC_CALLER_CONTEXT_SIGNATURE_METADATA _ eq_refl Hs) as (v2 & -> & Hv2).
  unfold idempotency_compatible in Hcomp.
  destruct (credential_idempotency_key c) as [key|].
  - edestruct (insert_required_Ok) as (v3 & -> & Hv3); [exact Hi|by apply Hk|].
    eexists. split; [done|]. unfold header. split_and!; [| | |done|].
    + rewrite !metadata_get_insert_ne, metadata_get_insert by done. done.
    + rewrite metadata_get_insert_ne, metadata_get_insert by done. done.
    + rewrite metadata_get_insert by done. done.
    + intros k Hck Hnin. rewrite !not_elem_of_cons in Hnin. destruct_and!.
      by rewrite !metadata_get_insert_ne.
  - assert (metadata_get RPC_IDEMPOTENCY_KEY_METADATA m = None) as Hnone.
    { destruct (metadata_get _ m); [|done]. by destruct Hcomp as [[? ?] _]. }
    eexists. split; [done|]. unfold header. split_and!.
    + rewrite metadata_get_insert_ne, metadata_get_insert by done. done.
    + rewrite metadata_get_insert by done. done.
    + rewrite !metadata_get_insert_ne, Hnone by done. done.
    + intros _. by rewrite !metadata_get_insert_ne.
    + intros k Hck Hnin. rewrite !not_elem_of_cons in Hnin. destruct_and!.
      by rewrite !metadata_get_insert_ne.
Qed.

(** applying a credential to a request writes the context, its signature
    and the idempotency key it is bound to and touches no other header, unless
    the request already carries a different idempotency key: then the request
    is left exactly as it was and the call fails. *)
Theorem credential_apply_exact `{MetadataApi, MetadataKeys} `{!MetadataLaws, !MetadataKeysLaws}
    c m :
  RPC_IDEMPOTENCY_KEY_METADATA ∉
    [RPC_CALLER_CONTEXT_METADATA; RPC_CALLER_CONTEXT_SIGNATURE_METADATA] →
  header_text (encoded_context (signed_caller_context c)) →
  header_text (signature (signed_caller_context c)) →
  (∀ s, credential_idempotency_key c = Some s → header_text s) →
  (idempotency_compatible m (credential_idempotency_key c) →
   ∃ m', credential_apply_to c m = (m', Ok ()) ∧
     header RPC_CALLER_CONTEXT_METADATA m' = Some (encoded_context (signed_caller_context c)) ∧
     header RPC_CALLER_CONTEXT_SIGNATURE_METADATA m' = Some (signature (signed_caller_context c)) ∧
     header RPC_IDEMPOTENCY_KEY_METADATA m' = credential_idempotency_key c ∧
     ∀ k, canonical_key k = true →
       k ∉ [RPC_CALLER_CONTEXT_METADATA; RPC_CALLER_CONTEXT_SIGNATURE_METADATA;
            RPC_IDEMPOTENCY_KEY_METADATA] →
       metadata_get k m' = metadata_get k m) ∧
  (¬ idempotency_compatible m (credential_idempotency_key c) →
   ∃ e, credential_apply_to c m = (m, Err (Validation e))).
Proof.
  intros Hni He Hs Hk. split.
  - intros Hcomp. destruct (credential_applied c m Hni He Hs Hk Hcomp)
      as (m' & ? & ? & ? & ? & _ & ?). by exists m'.
  - intros Hn. unfold credential_apply_to.
    pose proof (proj1 (validate_bound_Ok m (credential_idempotency_key c))) as Hv.
    pose proof (validate_bound_Err m (credential_idempotency_key c)) as Hval.
    destruct (validate_bound_idempotency_metadata _ _) as [[]|e]; [by destruct (Hn (Hv eq_refl))|].
    destruct (Hval e eq_refl) as [s ->]. by exists s.
Qed.

(** ** Witnesses *)

Definition toy_keys : MetadataKeys := {|
  RPC_AUTHORIZATION_METADATA := "authorization";
  RPC_ACCESS_TOKEN_METADATA := "access-token";
  RPC_REQUEST_ID_METADATA := "x-request-id";
  RPC_TRACEPARENT_METADATA := "traceparent";
  RPC_IDEMPOTENCY_KEY_METADATA := "idempotency-key";
  RPC_REQUEST_HASH_METADATA := "x-request-hash"
|}.

Lemma toy_keys_laws : @MetadataKeysLaws toy_keys.
Proof.
  split.
  - repeat constructor.
  - by_compute.
Qed.

Definition test_call (key : string) : RpcCallMetadata :=
  {| authorization := None; access_token := None; call_request_id := Some "req-1";
     traceparent := None; call_idempotency_key := Some key; request_hash := None |}.

Lemma call_metadata_applied_witness :
  @header toy_metadata "x-request-id"
    (@call_apply_to toy_metadata toy_utils toy_keys (test_call "idem-1") ∅) = Some "req-1".
Proof.
  apply (@call_metadata_applied toy_metadata toy_utils toy_keys toy_metadata_laws toy_utils_laws
    toy_keys_laws (test_call "idem-1") ∅ "x-request-id" (Some "req-1"));
    [by_compute|reflexivity|by_compute|by_compute].
Defined.

(** A key with a line break in it. *)
Definition broken_key : string := "idem" +:+ String "010" "1".

Lemma idempotency_key_claimed_but_dropped_witness :
  @has_idempotency_key toy_utils (test_call broken_key) = true ∧
  @metadata_get toy_metadata "idempotency-key"
    (@call_apply_to toy_metadata toy_utils toy_keys (test_call broken_key) ∅) = None.
Proof.
  refine (@idempotency_key_claimed_but_dropped toy_metadata toy_utils toy_keys toy_metadata_laws
    toy_utils_laws toy_keys_laws (test_call broken_key) ∅ broken_key _ _ _);
    [reflexivity|by_compute|by_compute].
Defined.

Definition test_credential : RpcServiceCredential :=
  {| signed_caller_context := {| encoded_context := "abc"; signature := "def" |};
     credential_idempotency_key := Some "idempotency-1" |}.

Lemma credential_apply_exact_witness :
  ∃ e, @credential_apply_to toy_metadata toy_keys test_credential
         {["idempotency-key" := "other"]} =
       ({["idempotency-key" := "other"]}, Err (Validation e)).
Proof.
  apply (@credential_apply_exact toy_metadata toy_keys toy_metadata_laws toy_keys_laws
    test_credential {["idempotency-key" := "other"]}).
  - by_compute.
  - by_compute.
  - by_compute.
  - intros s [= <-]. by_compute.
  - vm_compute. intros [_ H]. discriminate H.
Defined.
