(* ===== verification/Security.v ===== *)
(** * Security: admission of internal RPCs

    Models [sdkwork-rpc-server/src/security.rs]. A request has the peer
    certificates tonic exposes after the handshake, its metadata and the two
    extensions the framework uses; the interceptor returns the request it
    leaves behind. The cargo feature [tls] is a boolean argument. *)
From S2P Require Import Prelude RustStd Core Interfaces ServiceIdentity CallerContext Tls.
From S2P Require Import ClientMetadata.

Record RpcInternalServiceSecurity : Type := {
  service_identity_policy : RpcServiceIdentityPolicy;
  caller_context_verifier : option RpcCallerContextVerifier
}.

Definition security_new (policy : RpcServiceIdentityPolicy)
    (verifier : option RpcCallerContextVerifier) : RpcInternalServiceSecurity :=
  {| service_identity_policy := policy; caller_context_verifier := verifier |}.

Definition has_caller_context_verifier (self : RpcInternalServiceSecurity) : bool :=
  bool_decide (is_Some (caller_context_verifier self)).

Definition validate_mtls_listener `{FsApi} (self : RpcInternalServiceSecurity)
    (tls_config : RpcServerTlsConfig) : result ServeError () :=
  validate_mtls tls_config.

Record RpcInternalServiceInterceptor : Type := { interceptor_security : RpcInternalServiceSecurity }.

Definition interceptor (self : RpcInternalServiceSecurity) : RpcInternalServiceInterceptor :=
  {| interceptor_security := self |}.

Section Admission.
Context `{MetadataApi, X509Api, CodecApi, PayloadJsonApi}.

Record Request : Type := {
  peer_certs : option (list bytes);
  request_metadata : MetadataMap;
  extension_identity : option VerifiedRpcServiceIdentity;
  extension_context : option VerifiedRpcCallerContext.t
}.

Definition map_identity_error (error : RpcFrameworkError) : Status.t :=
  match error with
  | Validation _ => Status.unauthenticated "internal RPC identity verification failed"
  | Configuration _ =>
      Status.failed_precondition "internal RPC identity verifier is misconfigured"
  | Transport _ | Discovery _ =>
      Status.unavailable "internal RPC identity verifier is unavailable"
  end.

Definition optional_metadata (metadata : MetadataMap) (key : string) :
    result Status.t (option string) :=
  transpose
    ((λ value,
        ok_or (Status.invalid_argument ("RPC metadata `" +:+ key +:+ "` must be ASCII"))
          (value_to_str value))
     <$> metadata_get key metadata).

Definition validate_optional_service_assertion (metadata : MetadataMap)
    (service_identity : VerifiedRpcServiceIdentity) : result Status.t () :=
  let? assertion := optional_metadata metadata RPC_SERVICE_IDENTITY_ASSERTION_METADATA in
  match assertion with
  | None => Ok ()
  | Some assertion =>
      if negb (bool_decide (assertion = service_id service_identity)) then
        Err (Status.unauthenticated
               "internal RPC service assertion does not match mTLS peer identity")
      else Ok ()
  end.

(** [now] is the reading of the clock. *)
Definition verify_optional_caller_context (self : RpcInternalServiceSecurity)
    (metadata : MetadataMap) (service_identity : VerifiedRpcServiceIdentity) (now : Z) :
    result Status.t (option VerifiedRpcCallerContext.t) :=
  let? encoded_context := optional_metadata metadata RPC_CALLER_CONTEXT_METADATA in
  let? signature := optional_metadata metadata RPC_CALLER_CONTEXT_SIGNATURE_METADATA in
  match encoded_context, signature with
  | Some encoded_context, Some signature =>
      let? verifier :=
        ok_or (Status.failed_precondition
                 "internal RPC caller context was supplied but no verifier is configured")
          (caller_context_verifier self) in
      let? key := optional_metadata metadata "idempotency-key" in
      map_err map_identity_error
        (result_map Some
           (verify verifier (from_transport_metadata encoded_context signature)
              service_identity key now))
  | None, None => Ok None
  | _, _ =>
      Err (Status.unauthenticated
             "internal RPC caller context and signature must be supplied together")
  end.

Definition verify_and_inject (feature_tls : bool) (self : RpcInternalServiceSecurity)
    (request : Request) (now : Z) : Request * result Status.t () :=
  if negb feature_tls then
    (request, Err (Status.failed_precondition
       "internal RPC mTLS identity verification requires sdkwork-rpc-server/tls"))
  else
    let verified :=
      let? certificates :=
        ok_or (Status.unauthenticated "internal RPC requires a verified mTLS peer certificate")
          (peer_certs request) in
      let? leaf :=
        ok_or (Status.unauthenticated "internal RPC peer certificate chain is empty")
          (head certificates) in
      let? service_identity :=
        map_err map_identity_error
          (verify_tls_peer_certificate_der (service_identity_policy self) leaf) in
      validate_optional_service_assertion (request_metadata request) service_identity ;?
      let? caller_context :=
        verify_optional_caller_context self (request_metadata request) service_identity now in
      Ok (service_identity, caller_context) in
    match verified with
    | Err status => (request, Err status)
    | Ok (service_identity, caller_context) =>
        ({| peer_certs := peer_certs request;
            request_metadata := request_metadata request;
            extension_identity := Some service_identity;
            extension_context :=
              match caller_context with
              | Some context => Some context
              | None => extension_context request
              end |}, Ok ())
    end.

(** [Interceptor::call]. *)
Definition interceptor_call (feature_tls : bool) (self : RpcInternalServiceSecurity)
    (request : Request) (now : Z) : result Status.t Request :=
  match verify_and_inject feature_tls self request now with
  | (request, Ok _) => Ok request
  | (_, Err status) => Err status
  end.

(** The interceptor tonic calls for every request. *)
Definition intercept (feature_tls : bool) (self : RpcInternalServiceInterceptor)
    (request : Request) (now : Z) : result Status.t Request :=
  interceptor_call feature_tls (interceptor_security self) request now.

Definition require_verified_rpc_service_identity (request : Request) :
    result Status.t VerifiedRpcServiceIdentity :=
  ok_or (Status.unauthenticated "internal RPC request has no verified mTLS service identity")
    (extension_identity request).

Definition require_verified_rpc_caller_context (request : Request) :
    result Status.t VerifiedRpcCallerContext.t :=
  ok_or (Status.unauthenticated "internal RPC request has no verified caller context")
    (extension_context request).

(** ** Specification *)

(** When a request is admitted, as [identity] and possibly on behalf of
    [context]. *)
Record admitted (self : RpcInternalServiceSecurity) (r : Request) (now : Z)
    (identity : VerifiedRpcServiceIdentity) (context : option VerifiedRpcCallerContext.t) :
    Prop := {
  admitted_peer :
    ∃ leaf chain, peer_certs r = Some (leaf :: chain) ∧
      verify_tls_peer_certificate_der (service_identity_policy self) leaf = Ok identity;
  admitted_assertion :
    metadata_get RPC_SERVICE_IDENTITY_ASSERTION_METADATA (request_metadata r) = None ∨
    header RPC_SERVICE_IDENTITY_ASSERTION_METADATA (request_metadata r)
      = Some (service_id identity);
  admitted_context :
    (context = None ∧
     metadata_get RPC_CALLER_CONTEXT_METADATA (request_metadata r) = None ∧
     metadata_get RPC_CALLER_CONTEXT_SIGNATURE_METADATA (request_metadata r) = None) ∨
    ∃ verifier encoded sig key c,
      context = Some c ∧
      caller_context_verifier self = Some verifier ∧
      header RPC_CALLER_CONTEXT_METADATA (request_metadata r) = Some encoded ∧
      header RPC_CALLER_CONTEXT_SIGNATURE_METADATA (request_metadata r) = Some sig ∧
      optional_metadata (request_metadata r) "idempotency-key" = Ok key ∧
      verify verifier (from_transport_metadata encoded sig) identity key now = Ok c
}.

(** The request an admission leaves behind. *)
Definition inject (r : Request) (identity : VerifiedRpcServiceIdentity)
    (context : option VerifiedRpcCallerContext.t) : Request :=
  {| peer_certs := peer_certs r; request_metadata := request_metadata r;
     extension_identity := Some identity;
     extension_context :=
       match context with Some c => Some c | None => extension_context r end |}.

(** ** Lemmas *)

Lemma optional_metadata_Ok m k o :
  optional_metadata m k = Ok o ↔
  (o = None ∧ metadata_get k m = None) ∨ (∃ s, o = Some s ∧ header k m = Some s).
Proof.
  unfold optional_metadata, header. destruct (metadata_get k m) as [v|]; simpl; [|naive_solver].
  destruct (value_to_str v); simpl; naive_solver.
Qed.

Lemma optional_metadata_header m k s : header k m = Some s → optional_metadata m k = Ok (Some s).
Proof. intros. apply optional_metadata_Ok. naive_solver. Qed.

Lemma optional_metadata_absent m k : metadata_get k m = None → optional_metadata m k = Ok None.
Proof. intros. apply optional_metadata_Ok. naive_solver. Qed.

Lemma service_assertion_Ok m identity :
  validate_optional_service_assertion m identity = Ok () ↔
  metadata_get RPC_SERVICE_IDENTITY_ASSERTION_METADATA m = None ∨
  header RPC_SERVICE_IDENTITY_ASSERTION_METADATA m = Some (service_id identity).
Proof.
  unfold validate_optional_service_assertion. rewrite result_bind_Ok. split.
  - intros (o & [[-> ?]|(s & -> & Hs)]%optional_metadata_Ok & Hok); [by left|].
    right. rewrite Hs. by case_if.
  - intros [Hn|Hs].
    + exists None. by rewrite optional_metadata_absent.
    + exists (Some (service_id identity)). rewrite (optional_metadata_header _ _ _ Hs).
      by rewrite bool_decide_eq_true_2.
Qed.

Lemma optional_context_Ok self m identity now o :
  verify_optional_caller_context self m identity now = Ok o ↔
  (o = None ∧ metadata_get RPC_CALLER_CONTEXT_METADATA m = None ∧
   metadata_get RPC_CALLER_CONTEXT_SIGNATURE_METADATA m = None) ∨
  ∃ verifier encoded sig key c,
    o = Some c ∧ caller_context_verifier self = Some verifier ∧
    header RPC_CALLER_CONTEXT_METADATA m = Some encoded ∧
    header RPC_CALLER_CONTEXT_SIGNATURE_METADATA m = Some sig ∧
    optional_metadata m "idempotency-key" = Ok key ∧
    verify verifier (from_transport_metadata encoded sig) identity key now = Ok c.
Proof.
  unfold verify_optional_caller_context. split.
  - intros Hok. invert_ok.
    repeat match goal with
    | H : optional_metadata _ RPC_CALLER_CONTEXT_METADATA = Ok _ |- _ =>
        apply optional_metadata_Ok in H as [[-> ?]|(? & -> & ?)]
    | H : optional_metadata _ RPC_CALLER_CONTEXT_SIGNATURE_METADATA = Ok _ |- _ =>
        apply optional_metadata_Ok in H as [[-> ?]|(? & -> & ?)]
    end; invert_ok; [by left|]. right.
    destruct (verify _ _ _ _ _) as [c|] eqn:Hver; simplify_eq/=. eexists _, _, _, _, c.
    by split_and!.
  - intros [(-> & Hx & Hy)|(verifier & encoded & sig & key & c & -> & Hver & Hx & Hy & Hk & Hc)].
    + by rewrite !optional_metadata_absent by done.
    + rewrite (optional_metadata_header _ _ _ Hx). cbn [result_bind].
      rewrite (optional_metadata_header _ _ _ Hy). cbn [result_bind].
      rewrite Hver. cbn [result_bind ok_or]. rewrite Hk. cbn [result_bind]. by rewrite Hc.
Qed.

Lemma verify_and_inject_Ok self r now r' :
  verify_and_inject true self r now = (r', Ok ()) ↔
  ∃ identity context, admitted self r now identity context ∧ r' = inject r identity context.
Proof.
  unfold verify_and_inject. cbn [negb]. split.
  - intros Hok. case_match eqn:Hv; [|done]. case_match; simplify_eq. invert_ok. simplify_eq.
    destruct (peer_certs r) as [[|leaf chain]|] eqn:Hcerts; simplify_eq/=.
    eexists _, _. split; [split|].
    + by eexists _, _.
    + by apply service_assertion_Ok.
    + by apply optional_context_Ok.
    + unfold inject. by rewrite Hcerts.
  - intros (identity & context & [(leaf & chain & Hcerts & Hid) Ha%service_assertion_Ok
      Hc%optional_context_Ok] & ->).
    rewrite Hcerts. cbn [ok_or result_bind head]. rewrite Hid. cbn [result_bind map_err].
    rewrite Ha. cbn [result_bind]. rewrite Hc. cbn [result_bind]. unfold inject.
    by rewrite Hcerts.
Qed.

Lemma interceptor_admits self r now identity context :
  admitted self r now identity context →
  interceptor_call true self r now = Ok (inject r identity context).
Proof.
  intros Ha. unfold interceptor_call.
  rewrite (proj2 (verify_and_inject_Ok self r now (inject r identity context))) by eauto. done.
Qed.
End Admission.

(** ** Properties *)

(** C16: the interceptor admits a request exactly when the [tls] feature is on,
    the leaf of the peer's certificate chain is an allowed service identity,
    the service assertion is absent or equal to it, and the caller context and
    its signature are both absent or verify for this identity; the request then
    carries this identity and context and is otherwise unchanged. *)
Theorem admission_exact `{MetadataApi, X509Api, CodecApi, PayloadJsonApi} feature self r now r' :
  interceptor_call feature self r now = Ok r' ↔
  feature = true ∧
  ∃ identity context, admitted self r now identity context ∧ r' = inject r identity context.
Proof.
  rewrite <-(verify_and_inject_Ok self r now r'). unfold interceptor_call.
  destruct feature; [|by split; [|intros []]].
  destruct (verify_and_inject true self r now) as [r1 [[]|e]]; naive_solver.
Qed.

(** admission fails closed: a rejected request keeps its extensions, and a
    request without a peer certificate is rejected as unauthenticated or as a
    failed precondition whatever its headers say. *)
Theorem admission_fails_closed `{MetadataApi, X509Api, CodecApi, PayloadJsonApi}
    feature self r now :
  (∀ r' status, verify_and_inject feature self r now = (r', Err status) → r' = r) ∧
  (peer_certs r = None ∨ peer_certs r = Some [] →
   ∃ status, verify_and_inject feature self r now = (r, Err status) ∧
     (Status.code status = Code.Unauthenticated ∨
      Status.code status = Code.FailedPrecondition)).
Proof.
  unfold verify_and_inject. destruct feature; cbn [negb]; split.
  - intros r' status. case_match; [case_match|]; naive_solver.
  - intros [-> | ->]; eexists; (split; [reflexivity|]); by left.
  - naive_solver.
  - intros _. eexists. split; [reflexivity|]. by right.
Qed.

(** C2: a service's credential reaches the handler: a context the builder
    accepted, issued by a provider with a ttl of whole seconds and written on a
    request whose own headers do not contradict it, is admitted by the audience
    that trusts the issuer's key over the issuer's mTLS connection inside the
    validity window, and the handler finds the issuer's identity and the very
    fields the caller had set. *)
Theorem credential_end_to_end `{MetadataApi, X509Api, CodecApi, PayloadJsonApi, MetadataKeys}
    `{!MetadataLaws, !CodecLaws, !PayloadJsonLaws, !MetadataKeysLaws}
    issuer key signer seconds provider b context uuid audience entries v policy leaf chain
    identity m now now' :
  RPC_IDEMPOTENCY_KEY_METADATA = "idempotency-key" →
  signer_new issuer key = Ok signer →
  1 ≤ seconds → provider_new signer (Duration.from_secs seconds) = Ok provider →
  Builder.build b = Ok context →
  valid_identifier uuid →
  verifier_new audience entries = Ok v →
  issuer_keys v !! issuer = Some key →
  RpcCallerContext.audience_service_id context = audience →
  verify_tls_peer_certificate_der policy leaf = Ok identity →
  service_id identity = issuer →
  idempotency_compatible m (RpcCallerContext.idempotency_key context) →
  metadata_get RPC_SERVICE_IDENTITY_ASSERTION_METADATA m = None ∨
    header RPC_SERVICE_IDENTITY_ASSERTION_METADATA m = Some issuer →
  0 ≤ now → Duration.as_secs now + 300 ≤ i64_max →
  0 ≤ now' → Duration.as_secs now' ≤ i64_max →
  Duration.as_secs now ≤ Duration.as_secs now' + 30 →
  Duration.as_secs now' ≤ Duration.as_secs now + seconds + 30 →
  ∃ credential m' r' c,
    issue provider context now uuid = Ok credential ∧
    credential_apply_to credential m = (m', Ok ()) ∧
    interceptor_call true (security_new policy (Some v))
      {| peer_certs := Some (leaf :: chain); request_metadata := m';
         extension_identity := None; extension_context := None |} now' = Ok r' ∧
    require_verified_rpc_service_identity r' = Ok identity ∧
    require_verified_rpc_caller_context r' = Ok c ∧
    c = verified_of_payload
          (sign_payload signer context (Duration.as_secs now) (Duration.as_secs now + seconds) uuid).
Proof.
  intros Hkey Hsigner Hsec Hprov Hb Hu Hv Hk <- Hid <- Hcomp Hassert Hn Hof Hn' Hof' Hw1 Hw2.
  unfold provider_new in Hprov. case_if. invert_ok.
  assert (seconds ≤ 300) by (unfold Duration.from_secs, Duration.NANOS_PER_SEC in *; lia).
  destruct (sign_then_verify (service_id identity) key signer b context seconds uuid
    (RpcCallerContext.audience_service_id context) entries v identity now now') as (signed & text & mac & Hs & He & Htl & Hsig & Hml & Hver);
    try done.
  apply build_Ok in Hb as [_ Hc].
  destruct (credential_applied
    {| signed_caller_context := signed;
       credential_idempotency_key := RpcCallerContext.idempotency_key context |} m)
    as (m' & Happ & Hh1 & Hh2 & Hh3 & Hh4 & Hoth); simpl.
  { rewrite Hkey. by_compute. }
  { rewrite He. by apply base64url_header_text. }
  { rewrite Hsig. by apply base64url_header_text. }
  { intros s Hs'. apply identifier_header_text. pose proof (cv_idempotency _ Hc) as Hvo.
    by rewrite Hs' in Hvo. }
  { done. }
  simpl in Hh1, Hh2, Hh3, Hh4. rewrite Hkey in Hh3, Hh4.
  assert (optional_metadata m' "idempotency-key" = Ok (RpcCallerContext.idempotency_key context))
    as Hopt.
  { destruct (RpcCallerContext.idempotency_key context).
    - by apply optional_metadata_header.
    - apply optional_metadata_absent. by apply Hh4. }
  exists {| signed_caller_context := signed;
            credential_idempotency_key := RpcCallerContext.idempotency_key context |}, m'.
  eexists _, _. split; [by unfold issue; simpl; rewrite Hs|]. split; [done|]. split.
  { eapply (interceptor_admits _ _ _ identity (Some _)). split.
    - by eexists _, _.
    - simpl. unfold header. rewrite Hoth; [exact Hassert|done|]. rewrite Hkey. by_compute.
    - right. eexists v, _, _, _, _. by split_and!. }
  by split.
Qed.

(** ** Witnesses *)

Definition test_provider : SignedRpcServiceCredentialProvider :=
  {| provider_signer := test_signer; provider_ttl := Duration.from_secs 60 |}.

Lemma credential_end_to_end_witness :
  ∃ credential m',
    @issue toy_codec toy_json test_provider test_context test_now test_uuid = Ok credential ∧
    @credential_apply_to toy_metadata toy_keys credential ∅ = (m', Ok ()) ∧
    is_ok (@interceptor_call toy_metadata toy_x509 toy_codec toy_json true
             (security_new kb_policy (Some test_verifier))
             (@Build_Request toy_metadata (Some [kb_uri]) m' None None) test_now) = true.
Proof.
  destruct (@credential_end_to_end toy_metadata toy_x509 toy_codec toy_json toy_keys
    toy_metadata_laws toy_codec_laws toy_json_laws toy_keys_laws
    "sdkwork-knowledgebase" test_key test_signer 60 test_provider test_builder test_context
    test_uuid "sdkwork-im" [("sdkwork-knowledgebase", test_key)] test_verifier kb_policy kb_uri []
    kb_identity ∅ test_now test_now) as (credential & m' & r' & c & Hi & Ha & Hc & _);
    [first [by_compute | left; by_compute]..|].
  exists credential, m'. split; [exact Hi|]. split; [exact Ha|]. by rewrite Hc.
Defined.
