(* ===== verification/Transport.v ===== *)
(** * Transport: endpoint addresses and channels

    Models [sdkwork-rpc-discovery/src/endpoint.rs] and
    [sdkwork-rpc-client/src/transport.rs]; dialling is the parameter
    [TransportApi]. *)
From S2P Require Import Prelude RustStd Core Interfaces Tls LoadBalance.

(** ** [endpoint.rs] *)

Section Endpoints.
Context `{UtilsApi}.

Definition normalize_http_endpoint (endpoint : string) : string :=
  let trimmed := utils_trim endpoint in
  if starts_with "http://" trimmed || starts_with "https://" trimmed then trimmed
  else "http://" +:+ trimmed.

Definition normalize_grpc_endpoint (bind_addr : string) : string :=
  let trimmed := utils_trim bind_addr in
  if starts_with "grpc://" trimmed || starts_with "grpcs://" trimmed then trimmed
  else "grpc://" +:+ trimmed.

Definition require_non_blank (value field : string) : result string () :=
  if is_blank (Some value) then Err (field +:+ " is required") else Ok ().

(** ** [transport.rs] *)

Definition tonic_endpoint_uri (grpc_endpoint : string) : RpcFrameworkResult string :=
  let trimmed := utils_trim grpc_endpoint in
  if is_blank (Some trimmed) then Err (Validation "grpc endpoint is required")
  else
    match strip_prefix "grpcs://" trimmed with
    | Some rest => Ok ("https://" +:+ rest)
    | None =>
        match strip_prefix "grpc://" trimmed with
        | Some rest => Ok ("http://" +:+ rest)
        | None =>
            if starts_with "http://" trimmed || starts_with "https://" trimmed then Ok trimmed
            else Ok ("http://" +:+ trimmed)
        end
    end.
End Endpoints.

Record GrpcChannelConfig : Type := {
  connect_timeout : Z;
  keepalive_interval : Z;
  keepalive_timeout : Z;
  keepalive_while_idle : bool;
  channel_tls : option RpcTlsConfig
}.

Definition channel_config_default : GrpcChannelConfig := {|
  connect_timeout := Duration.from_secs 10;
  keepalive_interval := Duration.from_secs 30;
  keepalive_timeout := Duration.from_secs 10;
  keepalive_while_idle := true;
  channel_tls := None
|}.

Section Channels.
Context `{UtilsApi, FsApi, TransportApi}.

(** [feature_tls] is the cargo feature [tls]. *)
Definition connect_grpc_channel_with_config (feature_tls : bool) (endpoint : string)
    (config : GrpcChannelConfig) : RpcFrameworkResult Channel :=
  let? uri := tonic_endpoint_uri endpoint in
  let? shared := map_err Transport (endpoint_from_shared uri) in
  let endpoint_builder :=
    endpoint_settings (connect_timeout config) (keepalive_interval config)
      (keepalive_timeout config) (keepalive_while_idle config) shared in
  let? endpoint_builder :=
    match channel_tls config with
    | Some tls_config =>
        let? client_tls := build_client_tls_config feature_tls tls_config in
        map_err (λ error, Configuration ("tls config error: " +:+ error))
          (endpoint_tls_config client_tls endpoint_builder)
    | None => Ok endpoint_builder
    end in
  map_err Transport (endpoint_connect endpoint_builder).

Definition connect_grpc_channel (feature_tls : bool) (endpoint : string) :
    RpcFrameworkResult Channel :=
  connect_grpc_channel_with_config feature_tls endpoint channel_config_default.

(** Also returns the resolver and the cursor it leaves behind. *)
Definition resolve_and_connect {R} `{NameResolver R} (feature_tls : bool) (resolver : R)
    (service_name : string) (algorithm : LoadBalanceAlgorithm) (cursor : RoundRobinCursor)
    (config : GrpcChannelConfig) : RpcFrameworkResult Channel * R * RoundRobinCursor :=
  match resolve service_name resolver with
  | (Err e, resolver) => (Err e, resolver, cursor)
  | (Ok endpoints, resolver) =>
      match pick_endpoint endpoints algorithm cursor with
      | (None, cursor) =>
          (Err (Discovery ("no endpoints resolved for service " +:+ service_name)),
           resolver, cursor)
      | (Some picked, cursor) =>
          (connect_grpc_channel_with_config feature_tls (endpoint picked) config,
           resolver, cursor)
      end
  end.
End Channels.

(** ** [RpcInvocationContext] of the client's [lib.rs] *)

Record RpcInvocationContext : Type := {
  resolver_profile : ResolverProfile.t;
  resilience_profile : ResilienceProfile.t;
  default_deadline_ms : Z
}.

Definition invocation_context_default : RpcInvocationContext :=
  {| resolver_profile := ResolverProfile.Static;
     resilience_profile := ResilienceProfile.RpcDefault;
     default_deadline_ms := 30000 |}.

(** ** Lemmas *)

Lemma starts_with_app p s : starts_with p (p +:+ s) = true.
Proof. apply starts_with_spec. by exists s. Qed.

Lemma trimmed_nonblank s : trimmed s → str_is_empty (trim s) = str_is_empty s.
Proof. intros. by rewrite trim_id. Qed.

Lemma starts_with_strip p s : starts_with p s = bool_decide (is_Some (strip_prefix p s)).
Proof. done. Qed.

(** ** Properties *)

(** normalising an address is idempotent and always yields a URI with one
    of the two schemes; an address that has one is only trimmed. *)
Theorem normalize_endpoint_idempotent `{UtilsApi} `{!UtilsLaws} e :
  normalize_grpc_endpoint (normalize_grpc_endpoint e) = normalize_grpc_endpoint e ∧
  normalize_http_endpoint (normalize_http_endpoint e) = normalize_http_endpoint e ∧
  (starts_with "grpc://" (normalize_grpc_endpoint e)
   || starts_with "grpcs://" (normalize_grpc_endpoint e)) = true ∧
  (starts_with "http://" (normalize_http_endpoint e)
   || starts_with "https://" (normalize_http_endpoint e)) = true.
Proof.
  unfold normalize_grpc_endpoint, normalize_http_endpoint. rewrite !utils_trim_std.
  pose proof (trim_trimmed e) as Ht.
  split_and!; (case_if; [try done|]).
  all: rewrite ?(trim_id (_ +:+ trim e)) by (by apply trimmed_app_plain).
  all: rewrite ?trim_idem, ?starts_with_app; try done.
  all: by rewrite Hif.
Qed.

(** an address a server advertises is the address a client dials: a
    normalised gRPC address always dials, as an [https] URI for the same
    authority when it is a [grpcs] address and as an [http] URI otherwise. *)
Theorem advertised_endpoint_dials `{UtilsApi} `{!UtilsLaws} e :
  tonic_endpoint_uri (normalize_grpc_endpoint e) =
  Ok (match strip_prefix "grpcs://" (trim e), strip_prefix "grpc://" (trim e) with
      | Some authority, _ => "https://" +:+ authority
      | None, Some authority => "http://" +:+ authority
      | None, None => "http://" +:+ trim e
      end).
Proof.
  unfold tonic_endpoint_uri, normalize_grpc_endpoint. rewrite !utils_trim_std.
  pose proof (trim_trimmed e) as Ht. rewrite is_blank_Some.
  rewrite !starts_with_strip.
  destruct (strip_prefix "grpcs://" (trim e)) as [r|] eqn:Hs.
  - apply strip_prefix_Some in Hs. rewrite orb_true_r, !trim_idem, Hs. done.
  - destruct (strip_prefix "grpc://" (trim e)) as [r|] eqn:Hg; simpl.
    + apply strip_prefix_Some in Hg. rewrite !trim_idem, Hg. done.
    + rewrite !(trim_id ("grpc://" +:+ trim e)) by (by apply trimmed_app_plain). done.
Qed.

(** a channel is only handed out through the checks: the URI comes from
    the endpoint, and with a TLS configuration the [tls] feature is on, the
    configuration is sound and tonic accepted it. *)
Theorem channel_connect_sound `{UtilsApi, FsApi, TransportApi} feature e config channel :
  connect_grpc_channel_with_config feature e config = Ok channel →
  ∃ uri shared builder,
    tonic_endpoint_uri e = Ok uri ∧ endpoint_from_shared uri = Ok shared ∧
    endpoint_connect builder = Ok channel ∧
    let configured :=
      endpoint_settings (connect_timeout config) (keepalive_interval config)
        (keepalive_timeout config) (keepalive_while_idle config) shared in
    match channel_tls config with
    | None => builder = configured
    | Some tls => feature = true ∧ tls_config_sound tls ∧
        ∃ client_tls, endpoint_tls_config client_tls configured = Ok builder
    end.
Proof.
  unfold connect_grpc_channel_with_config. intros Hok. invert_ok.
  eexists _, _, _. split_and!; [done..|].
  destruct (channel_tls config) as [tls|]; invert_ok; [|done].
  match goal with Hb : build_client_tls_config _ _ = Ok _ |- _ =>
    unfold build_client_tls_config in Hb; destruct feature; [|done] end.
  cbn [negb] in *. invert_ok. split_and!; [done|by apply tls_validate_Ok|by eexists].
Qed.

(** a TLS configuration does not change the scheme that is dialled: a
    [grpc] or scheme-less endpoint is dialled as a plain [http] URI although
    TLS was configured and accepted. *)
Theorem tls_does_not_upgrade_scheme `{UtilsApi} `{!UtilsLaws} `{FsApi} authority config tls :
  channel_tls config = Some tls → tls_config_sound tls →
  str_all plain authority = true → authority ≠ "" →
  (∀ p, server_ca_certificate_path tls = Some p → is_ok (fs_read p) = true) →
  client_cert_path tls = None →
  @connect_grpc_channel_with_config _ _ toy_transport true ("grpc://" +:+ authority) config
    = Ok ("http://" +:+ authority, true).
Proof.
  intros Hc Hs Hp Hne Hread Hcert.
  unfold connect_grpc_channel_with_config, tonic_endpoint_uri. rewrite utils_trim_std, is_blank_Some.
  rewrite !(trim_plain ("grpc://" +:+ authority)) by (by rewrite str_all_app, Hp).
  cbn [result_bind map_err]. rewrite Hc. unfold build_client_tls_config. cbn [negb].
  rewrite (proj2 (tls_validate_Ok tls)) by done. cbn [result_bind]. rewrite Hcert.
  destruct (server_ca_certificate_path tls) as [p|]; [|done].
  specialize (Hread p eq_refl). unfold read_pem. by destruct (fs_read p).
Qed.

(** resolving and connecting dials one of the resolved endpoints, a
    healthy one when there is any, and reports a discovery error exactly when
    the resolver succeeds with no endpoint. *)
Theorem resolve_and_connect_sound `{UtilsApi, FsApi, TransportApi} {R} `{NameResolver R}
    feature (resolver : R) service algorithm cursor config endpoints resolver' :
  0 ≤ next cursor →
  resolve service resolver = (Ok endpoints, resolver') →
  let outcome := resolve_and_connect feature resolver service algorithm cursor config in
  outcome.1.2 = resolver' ∧
  if decide (endpoints = []) then
    outcome.1.1 = Err (Discovery ("no endpoints resolved for service " +:+ service)) ∧
    outcome.2 = cursor
  else
    ∃ e, e ∈ endpoints ∧ ((∃ h, h ∈ endpoints ∧ healthy h = true) → healthy e = true) ∧
      outcome.1.1 = connect_grpc_channel_with_config feature (endpoint e) config ∧
      outcome.2 = (pick_endpoint endpoints algorithm cursor).2.
Proof.
  intros Hc Hr. unfold resolve_and_connect. rewrite Hr. case_decide as Hne.
  - by subst.
  - destruct (pick_endpoint_candidate endpoints algorithm cursor) as (e & He & Hin); [done..|].
    destruct (pick_endpoint endpoints algorithm cursor) as [o cursor']. simpl in He. subst o.
    split; [done|]. exists e. split_and!; try done; [by apply candidates_subset|].
    by apply candidates_healthy.
Qed.

(** ** Witnesses *)

Definition tls_channel : GrpcChannelConfig := {|
  connect_timeout := Duration.from_secs 10;
  keepalive_interval := Duration.from_secs 30;
  keepalive_timeout := Duration.from_secs 10;
  keepalive_while_idle := true;
  channel_tls := Some server_verified
|}.

Lemma normalize_endpoint_idempotent_witness :
  @normalize_grpc_endpoint toy_utils (@normalize_grpc_endpoint toy_utils " 127.0.0.1:50051 ")
  = "grpc://127.0.0.1:50051".
Proof.
  rewrite (proj1 (@normalize_endpoint_idempotent toy_utils toy_utils_laws " 127.0.0.1:50051 ")).
  vm_compute. reflexivity.
Defined.

Lemma advertised_endpoint_dials_witness :
  @tonic_endpoint_uri toy_utils (@normalize_grpc_endpoint toy_utils " 127.0.0.1:50051 ")
  = Ok "http://127.0.0.1:50051".
Proof.
  rewrite (@advertised_endpoint_dials toy_utils toy_utils_laws). vm_compute. reflexivity.
Defined.

Lemma channel_connect_sound_witness :
  ∃ uri, @tonic_endpoint_uri toy_utils "grpcs://example.com:443" = Ok uri ∧
         @endpoint_from_shared toy_transport uri = Ok ("https://example.com:443", false).
Proof.
  destruct (@channel_connect_sound toy_utils (toy_fs ∅) toy_transport true
    "grpcs://example.com:443" tls_channel ("https://example.com:443", true)) as (uri & s & b & Hu & Hs & _).
  - vm_compute. reflexivity.
  - exists uri. split; [exact Hu|]. vm_compute in Hu. injection Hu as <-. reflexivity.
Defined.

Lemma tls_does_not_upgrade_scheme_witness :
  @connect_grpc_channel_with_config toy_utils (toy_fs ∅) toy_transport true
    "grpc://127.0.0.1:50051" tls_channel = Ok ("http://127.0.0.1:50051", true).
Proof.
  refine (@tls_does_not_upgrade_scheme toy_utils toy_utils_laws (toy_fs ∅) "127.0.0.1:50051"
    tls_channel server_verified _ _ _ _ _ _); try by_compute.
  split_and!; try (intros p Hp; discriminate Hp). by split; intros [p Hp].
Defined.

Lemma resolve_and_connect_sound_witness :
  ∃ e, e ∈ static_endpoints (single "grpc://127.0.0.1:50051") ∧
    (@resolve_and_connect toy_utils (toy_fs ∅) toy_transport _ _ true
       (single "grpc://127.0.0.1:50051") "svc" RoundRobin {| next := 0 |}
       channel_config_default).1.1
    = @connect_grpc_channel_with_config toy_utils (toy_fs ∅) toy_transport true (endpoint e)
        channel_config_default.
Proof.
  destruct (@resolve_and_connect_sound toy_utils (toy_fs ∅) toy_transport _ _ true
    (single "grpc://127.0.0.1:50051") "svc" RoundRobin {| next := 0 |} channel_config_default
    (static_endpoints (single "grpc://127.0.0.1:50051")) (single "grpc://127.0.0.1:50051"))
    as [_ (e & Hin & _ & Hc & _)]; [by_compute|reflexivity|].
  exists e. by split.
Defined.
