(* ===== verification/DiscoveryMetadata.v ===== *)
(** * DiscoveryMetadata: headers and labels of discovery calls

    Models [sdkwork-rpc-discovery/src/rpc_metadata.rs] and [metadata.rs]. The
    random draws of one header set are the record [CallIds]. *)
From S2P Require Import Prelude RustStd Interfaces ClientMetadata.

(** ** [rpc_metadata.rs] *)

(** The trait [SubjectTokenProvider]. *)
Class SubjectTokenProvider (P : Type) : Type := { subject_token : P → string }.

Record UnsignedLocalSubject : Type := { subject_id : string }.
#[global] Instance unsigned_local_subject : SubjectTokenProvider UnsignedLocalSubject :=
  {| subject_token := subject_id |}.

Definition unsigned_subject_new (subject_id : string) : UnsignedLocalSubject :=
  {| subject_id := subject_id |}.

(** The UUIDs and the random number one header set draws. *)
Record CallIds : Type := {
  request_uuid : string;
  trace_uuid : string;
  parent_random : Z
}.

Definition hex_digit (n : Z) : ascii :=
  ascii_of_N (Z.to_N (if n <? 10 then 48 + n else 87 + n)).

(** [format!("{n:016x}")]: the lowest [k] hexadecimal digits. *)
Fixpoint hex_digits (k : nat) (n : Z) : string :=
  match k with
  | O => ""
  | S k' => hex_digits k' (n / 16) +:+ String (hex_digit (n mod 16)) ""
  end.

Definition build_traceparent (ids : CallIds) : string :=
  let parent_id_val := Z.lor (parent_random ids) 1 in
  let parent_id := hex_digits 16 parent_id_val in
  "00-" +:+ trace_uuid ids +:+ "-" +:+ parent_id +:+ "-01".

Section Headers.
Context `{MetadataApi, MetadataKeys}.

Definition registry_metadata {P} `{SubjectTokenProvider P} (provider : P)
    (permission : string) (ids : CallIds) : list (string * string) :=
  [("x-sdkwork-subject-id", subject_token provider);
   ("x-sdkwork-registry-permissions", permission);
   (RPC_REQUEST_ID_METADATA, request_uuid ids);
   (RPC_TRACEPARENT_METADATA, build_traceparent ids)].

Definition registry_read_metadata {P} `{SubjectTokenProvider P} (provider : P) :=
  registry_metadata provider "read".
Definition registry_write_metadata {P} `{SubjectTokenProvider P} (provider : P) :=
  registry_metadata provider "write".
Definition unsigned_registry_read_metadata (subject_id : string) :=
  registry_read_metadata {| subject_id := subject_id |}.
Definition unsigned_registry_write_metadata (subject_id : string) :=
  registry_write_metadata {| subject_id := subject_id |}.

Definition insert_ascii (metadata : MetadataMap) (key value : string) : MetadataMap :=
  match key_from_bytes key, value_try_from value with
  | Some parsed_key, Some parsed_value => metadata_insert parsed_key parsed_value metadata
  | _, _ => metadata
  end.

Definition apply_metadata_template (target : MetadataMap) (template : list (string * string)) :
    MetadataMap :=
  foldl (λ m kv, insert_ascii m kv.1 kv.2) target template.
End Headers.

(** ** [metadata.rs] *)

Record RegistrationMetadataInput : Type := {
  rpc_surface : string;
  sdk_family : string;
  reg_domain : string;
  proto_packages : list string;
  operation_manifest_ref : string;
  deployment_profile : option string;
  runtime_target : option string
}.

Definition insert_some (key : string) (value : option string) (m : gmap string string) :
    gmap string string :=
  match value with Some v => <[key := v]> m | None => m end.

Definition build_registration_metadata (input : RegistrationMetadataInput) :
    gmap string string :=
  insert_some "runtime_target" (runtime_target input)
    (insert_some "deployment_profile" (deployment_profile input)
      (list_to_map
        [("rpc_surface", rpc_surface input);
         ("sdk_family", sdk_family input);
         ("domain", reg_domain input);
         ("proto_packages", str_join "," (proto_packages input));
         ("operation_manifest_ref", operation_manifest_ref input)])).

(** ** Lemmas *)

(** Reads hexadecimal digits back. *)
Definition is_lower_hex (c : ascii) : bool := is_ascii_digit c || byte_in 97 102 c.
Definition hex_value (c : ascii) : Z :=
  if is_ascii_digit c then byte_of c - 48 else byte_of c - 87.
Fixpoint parse_hex (acc : Z) (s : string) : Z :=
  match s with
  | EmptyString => acc
  | String c s' => parse_hex (acc * 16 + hex_value c) s'
  end.

Lemma hex_digit_ok n :
  0 ≤ n < 16 → is_lower_hex (hex_digit n) = true ∧ hex_value (hex_digit n) = n.
Proof.
  intros. assert (n = 0 ∨ n = 1 ∨ n = 2 ∨ n = 3 ∨ n = 4 ∨ n = 5 ∨ n = 6 ∨ n = 7 ∨ n = 8 ∨ n = 9
    ∨ n = 10 ∨ n = 11 ∨ n = 12 ∨ n = 13 ∨ n = 14 ∨ n = 15) by lia.
  by destruct_or!; subst.
Qed.

Lemma parse_hex_app acc s t : parse_hex acc (s +:+ t) = parse_hex (parse_hex acc s) t.
Proof. revert acc. induction s as [|c s IH]; intros acc; [done|]. apply IH. Qed.

Lemma hex_digits_ok k n :
  0 ≤ n →
  str_len (hex_digits k n) = Z.of_nat k ∧ str_all is_lower_hex (hex_digits k n) = true ∧
  (n < 16 ^ Z.of_nat k → parse_hex 0 (hex_digits k n) = n).
Proof.
  revert n. induction k as [|k IH]; intros n Hn; cbn [hex_digits].
  - split_and!; [done..|]. simpl. lia.
  - destruct (IH (n / 16)) as (Hl & Ha & Hp); [apply Z.div_pos; lia|].
    destruct (hex_digit_ok (n mod 16)) as [Hh Hv]; [apply Z.mod_pos_bound; lia|].
    rewrite str_len_app, str_all_app, Hl, Ha, parse_hex_app. cbn. rewrite Hh, Hv.
    split_and!; [unfold str_len; simpl; lia|done|]. intros Hlt. rewrite Hp.
    + pose proof (Z.div_mod n 16). lia.
    + apply Z.div_lt_upper_bound; [lia|].
      rewrite Nat2Z.inj_succ, Z.pow_succ_r in Hlt by lia. lia.
Qed.

(** The parent id of a draw [r]. *)
Lemma parent_id_ok r :
  u64 r →
  let parent := hex_digits 16 (Z.lor r 1) in
  str_len parent = 16 ∧ str_all is_lower_hex parent = true ∧
  parse_hex 0 parent = Z.lor r 1 ∧ parse_hex 0 parent ≠ 0.
Proof.
  intros Hr. cbv zeta.
  assert (0 ≤ Z.lor r 1) as Hn by (apply Z.lor_nonneg; split; zlia).
  assert (Z.lor r 1 < 16 ^ Z.of_nat 16) as Hlt.
  { change (16 ^ Z.of_nat 16) with (2 ^ 64). apply Z.log2_lt_cancel.
    rewrite Z.log2_lor, Z.log2_pow2 by zlia. apply Z.max_lub_lt; [|done].
    destruct (decide (r = 0)) as [->|]; [done|]. apply Z.log2_lt_pow2; zlia. }
  destruct (hex_digits_ok 16 _ Hn) as (Hl & Ha & Hp). split_and!; try done.
  - by apply Hp.
  - rewrite Hp by done. intros Hz. apply Z.lor_eq_0_iff in Hz as [_ ?]. lia.
Qed.

(** ** Properties *)

(** The text of a random UUID without dashes. *)
Definition uuid_simple (s : string) : Prop :=
  str_len s = 32 ∧ str_all is_lower_hex s = true.

(** the trace header is a W3C [traceparent]: version 00, the trace id, a
    parent id of exactly 16 lower-case hexadecimal digits that encodes a
    non-zero number equal to the draw with its lowest bit set, and the flag 01. *)
Theorem traceparent_well_formed ids :
  u64 (parent_random ids) →
  ∃ parent,
    build_traceparent ids = "00-" +:+ trace_uuid ids +:+ "-" +:+ parent +:+ "-01" ∧
    str_len parent = 16 ∧ str_all is_lower_hex parent = true ∧
    parse_hex 0 parent = Z.lor (parent_random ids) 1 ∧ parse_hex 0 parent ≠ 0.
Proof.
  intros Hr. exists (hex_digits 16 (Z.lor (parent_random ids) 1)).
  destruct (parent_id_ok (parent_random ids) Hr) as (? & ? & ? & ?). by split_and!.
Qed.

(** the registration labels are exactly the five required ones and the two
    optional ones that are set, so a configuration built from them passes the
    surface check. *)
Theorem registration_metadata_exact input k :
  build_registration_metadata input !! k =
  if decide (k = "rpc_surface") then Some (rpc_surface input)
  else if decide (k = "sdk_family") then Some (sdk_family input)
  else if decide (k = "domain") then Some (reg_domain input)
  else if decide (k = "proto_packages") then Some (str_join "," (proto_packages input))
  else if decide (k = "operation_manifest_ref") then Some (operation_manifest_ref input)
  else if decide (k = "deployment_profile") then deployment_profile input
  else if decide (k = "runtime_target") then runtime_target input
  else None.
Proof.
  unfold build_registration_metadata, insert_some. cbn [list_to_map foldr].
  repeat case_decide; subst;
    destruct (runtime_target input), (deployment_profile input);
    repeat (rewrite lookup_insert_ne by done); by rewrite ?lookup_insert_eq, ?lookup_empty.
Qed.

(** ** Witnesses *)

Definition test_ids : CallIds :=
  {| request_uuid := "6f1c2a34-0000-4000-8000-000000000001";
     trace_uuid := "6f1c2a340000400080000000000000ab"; parent_random := 254 |}.

Lemma traceparent_well_formed_witness :
  ∃ parent, build_traceparent test_ids
            = "00-6f1c2a340000400080000000000000ab-" +:+ parent +:+ "-01" ∧ str_len parent = 16.
Proof.
  destruct (traceparent_well_formed test_ids) as (parent & Hb & Hl & _); [by_compute|].
  exists parent. split; [exact Hb|exact Hl].
Defined.
