(* ===== verification/DiscoveryLifecycle.v ===== *)
(** * DiscoveryLifecycle: registration and lease renewal

    Models [sdkwork-rpc-discovery/src/lifecycle.rs]. The discovery control
    plane is the parameter [RegistryApi]: each of its calls takes the state of
    the world and returns the next one. The renewal loop, which never returns,
    runs once per random generator of a list: a theorem about every list is
    one about every finite prefix of the loop's execution. *)
From S2P Require Import Prelude RustStd Interfaces ClientMetadata Transport DiscoveryMetadata.

(** ** Data *)

Record DiscoveryInstanceConfig : Type := {
  discovery_endpoint : string;
  namespace : string;
  environment : string;
  service_name : string;
  instance_id : string;
  advertised_endpoint : string;
  protocol : string;
  version : string;
  region : string;
  zone : string;
  lease_ttl_seconds : Z;
  config_subject_id : string;
  config_metadata : gmap string string;
  revision_cas_on_register : bool;
  expected_revision : option Z
}.

Inductive DiscoveryRegistrationError : Type :=
| RegValidation (message : string)
| RegTransport (message : string)
| RegRpc (message : string).

#[global] Instance DiscoveryRegistrationError_eq_dec : EqDecision DiscoveryRegistrationError.
Proof. solve_decision. Defined.

Definition DiscoveryRegistrationError_to_string (e : DiscoveryRegistrationError) : string :=
  match e with
  | RegValidation m => "validation failed: " +:+ m
  | RegTransport m => "transport failed: " +:+ m
  | RegRpc m => "discovery rpc failed: " +:+ m
  end.

(** The messages of the registry service. *)
Record InstanceKey : Type := {
  key_namespace : string;
  key_environment : string;
  key_service_name : string;
  key_instance_id : string
}.

Record RegisterInstanceRequest : Type := {
  req_key : InstanceKey;
  req_endpoint : string;
  req_protocol : string;
  req_version : string;
  req_region : string;
  req_zone : string;
  req_weight : Z;
  req_priority : Z;
  req_status : Z;
  req_metadata : gmap string string;
  req_lease_ttl_seconds : Z;
  req_expected_revision : option Z;
  req_persistent : bool;
  req_health_check : option ()
}.

(** The registry's calls. A registration answers with a lease id, a retrieval
    with the revision of the instance if there is one. *)
Class RegistryApi `{MetadataApi} : Type := {
  World : Type;
  RegistryChannel : Type;
  SERVING : Z;
  status_to_string : Status.t → string;
  registry_connect : string → World → result string RegistryChannel * World;
  register_instance :
    RegistryChannel → RegisterInstanceRequest → MetadataMap → World → result Status.t string * World;
  retrieve_instance :
    RegistryChannel → InstanceKey → MetadataMap → World → result Status.t (option Z) * World;
  renew_lease :
    RegistryChannel → string → Z → MetadataMap → World → result Status.t () * World;
  deregister_instance :
    RegistryChannel → InstanceKey → MetadataMap → World → result Status.t () * World;
  registry_sleep : Z → World → World
}.

Record RenewLoopConfig : Type := {
  initial_backoff : Z;
  max_backoff : Z;
  max_consecutive_failures : Z
}.

Definition renew_config_default : RenewLoopConfig :=
  {| initial_backoff := Duration.from_secs 1; max_backoff := Duration.from_secs 10;
     max_consecutive_failures := 3 |}.

(** ** Operations *)

Definition require_non_empty `{UtilsApi} (value field : string) :
    result DiscoveryRegistrationError () :=
  map_err RegValidation (require_non_blank value field).

Definition config_validate `{UtilsApi} (self : DiscoveryInstanceConfig) :
    result DiscoveryRegistrationError () :=
  require_non_empty (discovery_endpoint self) "discovery_endpoint" ;?
  require_non_empty (namespace self) "namespace" ;?
  require_non_empty (environment self) "environment" ;?
  require_non_empty (service_name self) "service_name" ;?
  require_non_empty (instance_id self) "instance_id" ;?
  require_non_empty (advertised_endpoint self) "advertised_endpoint" ;?
  require_non_empty (protocol self) "protocol" ;?
  require_non_empty (version self) "version" ;?
  require_non_empty (region self) "region" ;?
  require_non_empty (zone self) "zone" ;?
  require_non_empty (config_subject_id self) "subject_id" ;?
  if lease_ttl_seconds self =? 0 then
    Err (RegValidation "lease_ttl_seconds must be greater than zero")
  else if bool_decide (config_metadata self !! "rpc_surface" = None) then
    Err (RegValidation "metadata.rpc_surface is required")
  else Ok ().

Definition instance_key (c : DiscoveryInstanceConfig) : InstanceKey :=
  {| key_namespace := namespace c; key_environment := environment c;
     key_service_name := service_name c; key_instance_id := instance_id c |}.

Section Lifecycle.
Context `{MetadataApi, UtilsApi, MetadataKeys}.
Context `{!RegistryApi}.

Record DiscoveryInstanceHandle : Type := {
  client : RegistryChannel;
  config : DiscoveryInstanceConfig;
  lease_id : string;
  renew_interval : Z;
  metadata_template : list (string * string)
}.

Definition map_status (status : Status.t) : DiscoveryRegistrationError :=
  RegRpc (status_to_string status).

Definition connect (endpoint : string) (w : World) :
    result DiscoveryRegistrationError RegistryChannel * World :=
  let (r, w) := registry_connect (normalize_http_endpoint endpoint) w in
  (map_err RegTransport r, w).

(** The headers of one request. *)
Definition request_headers (template : list (string * string)) : MetadataMap :=
  apply_metadata_template metadata_new template.

Definition resolve_expected_revision (client : RegistryChannel)
    (config : DiscoveryInstanceConfig) (ids : CallIds) (w : World) :
    result DiscoveryRegistrationError (option Z) * World :=
  match expected_revision config with
  | Some expected_revision => (Ok (Some expected_revision), w)
  | None =>
      if negb (revision_cas_on_register config) then (Ok None, w)
      else
        let read_metadata := unsigned_registry_read_metadata (config_subject_id config) ids in
        match retrieve_instance client (instance_key config)
                (request_headers read_metadata) w with
        | (Ok (Some revision), w) => (Ok (Some revision), w)
        | (Ok None, w) => (Ok None, w)
        | (Err status, w) =>
            if bool_decide (Status.code status = Code.NotFound) then (Ok None, w)
            else (Err (map_status status), w)
        end
  end.

Definition register_request (config : DiscoveryInstanceConfig)
    (expected_revision : option Z) : RegisterInstanceRequest := {|
  req_key := instance_key config;
  req_endpoint := advertised_endpoint config;
  req_protocol := protocol config;
  req_version := version config;
  req_region := region config;
  req_zone := zone config;
  req_weight := 100;
  req_priority := 0;
  req_status := SERVING;
  req_metadata := config_metadata config;
  req_lease_ttl_seconds := lease_ttl_seconds config;
  req_expected_revision := expected_revision;
  req_persistent := false;
  req_health_check := None
|}.

(** [write_ids] and [read_ids] are the draws of the two header sets. *)
Definition register (config : DiscoveryInstanceConfig) (write_ids read_ids : CallIds)
    (w : World) : result DiscoveryRegistrationError DiscoveryInstanceHandle * World :=
  match config_validate config with
  | Err e => (Err e, w)
  | Ok _ =>
      match connect (discovery_endpoint config) w with
      | (Err e, w) => (Err e, w)
      | (Ok client, w) =>
          let template :=
            unsigned_registry_write_metadata (config_subject_id config) write_ids in
          match resolve_expected_revision client config read_ids w with
          | (Err e, w) => (Err e, w)
          | (Ok expected_revision, w) =>
              match register_instance client (register_request config expected_revision)
                      (request_headers template) w with
              | (Err status, w) => (Err (map_status status), w)
              | (Ok lease_id, w) =>
                  if is_blank (Some lease_id) then
                    (Err (RegRpc "register_instance returned empty lease_id"), w)
                  else
                    (Ok {| client := client; config := config; lease_id := lease_id;
                           renew_interval :=
                             Duration.from_secs (Z.max (lease_ttl_seconds config) 3 / 3);
                           metadata_template := template |}, w)
              end
          end
      end
  end.

Definition renew_once (self : DiscoveryInstanceHandle) (w : World) :
    result DiscoveryRegistrationError () * World :=
  let (r, w) := renew_lease (client self) (lease_id self) (lease_ttl_seconds (config self))
                  (request_headers (metadata_template self)) w in
  (map_err map_status r, w).

Definition deregister (self : DiscoveryInstanceHandle) (w : World) :
    result DiscoveryRegistrationError () * World :=
  let (r, w) := deregister_instance (client self) (instance_key (config self))
                  (request_headers (metadata_template self)) w in
  (map_err map_status r, w).
End Lifecycle.

Definition renew_backoff `{RandomApi} (failures initial max_backoff : Z) : Z :=
  let exponent := Z.min failures 16 in
  let base := Z.min (Duration.saturating_mul initial (Z.shiftl 1 exponent)) max_backoff in
  if Duration.is_zero base then initial
  else Duration.from_millis (random_range 0 (Z.min (Duration.as_millis base) u64_max)).

(** What the loop logs after a renewal. *)
Inductive RenewLog : Type := NoLog | Recovered | BackingOff | Critical.

#[global] Instance RenewLog_eq_dec : EqDecision RenewLog.
Proof. solve_decision. Defined.

(** The sleep before the next renewal. *)
Definition renew_sleep `{RandomApi} (renew_interval : Z) (cfg : RenewLoopConfig) (failures : Z) : Z :=
  if failures =? 0 then renew_interval
  else renew_backoff failures (initial_backoff cfg) (max_backoff cfg).

(** The counter and the log after a renewal that succeeded or not. *)
Definition renew_after (cfg : RenewLoopConfig) (failures : Z) (renewed : bool) : Z * RenewLog :=
  if renewed then (0, if 0 <? failures then Recovered else NoLog)
  else
    let failures := saturating_add u32_max failures 1 in
    (failures, if max_consecutive_failures cfg <=? failures then Critical else BackingOff).

(** What one iteration of the loop did. *)
Record RenewPass : Type := {
  pass_sleep : Z;
  pass_renewed : bool;
  pass_log : RenewLog
}.

Section RenewLoop.
Context `{MetadataApi}.
Context `{!RegistryApi}.

(** One iteration; [rng] is the generator [rand::rng()] returns in it. *)
Definition renew_pass (rng : RandomApi) (handle : DiscoveryInstanceHandle)
    (cfg : RenewLoopConfig) (failures : Z) (w : World) : RenewPass * Z * World :=
  let slept := renew_sleep (renew_interval handle) cfg failures in
  let w := registry_sleep slept w in
  let (r, w) := renew_once handle w in
  let (failures', log) := renew_after cfg failures (is_ok r) in
  ({| pass_sleep := slept; pass_renewed := is_ok r; pass_log := log |}, failures', w).

(** As many iterations as there are generators. *)
Fixpoint renew_loop (rngs : list RandomApi) (handle : DiscoveryInstanceHandle)
    (cfg : RenewLoopConfig) (failures : Z) (w : World) : list RenewPass * Z * World :=
  match rngs with
  | [] => ([], failures, w)
  | rng :: rngs' =>
      let '(pass, failures, w) := renew_pass rng handle cfg failures w in
      let '(passes, failures, w) := renew_loop rngs' handle cfg failures w in
      (pass :: passes, failures, w)
  end.

Definition spawn_renew_loop_with_config (rngs : list RandomApi)
    (handle : DiscoveryInstanceHandle) (cfg : RenewLoopConfig) (w : World) :
    list RenewPass * Z * World :=
  renew_loop rngs handle cfg 0 w.

Definition spawn_renew_loop (rngs : list RandomApi) (handle : DiscoveryInstanceHandle)
    (w : World) : list RenewPass * Z * World :=
  spawn_renew_loop_with_config rngs handle renew_config_default w.
End RenewLoop.

(** [default_instance_id] with the UUID it draws. *)
Definition default_instance_id (service_name uuid : string) : string :=
  service_name +:+ "-" +:+ uuid.

Definition grpc_advertised_endpoint `{UtilsApi} (bind_addr : string) : string :=
  normalize_grpc_endpoint bind_addr.

(** ** Specification *)

Definition non_blank (s : string) : Prop := trim s ≠ "".

Record config_sound (c : DiscoveryInstanceConfig) : Prop := {
  cs_fields : Forall non_blank
    [discovery_endpoint c; namespace c; environment c; service_name c; instance_id c;
     advertised_endpoint c; protocol c; version c; region c; zone c; config_subject_id c];
  cs_ttl : lease_ttl_seconds c ≠ 0;
  cs_surface : is_Some (config_metadata c !! "rpc_surface")
}.

(** The failures in a row at the end of a list of outcomes. *)
Fixpoint failures_in_a_row (count : Z) (outcomes : list bool) : Z :=
  match outcomes with
  | [] => count
  | renewed :: outcomes' => failures_in_a_row (if renewed then 0 else count + 1) outcomes'
  end.

(** ** Lemmas *)

Lemma require_non_empty_cases `{UtilsApi} `{!UtilsLaws} v f :
  (require_non_empty v f = Ok () ∧ non_blank v) ∨
  (∃ m, require_non_empty v f = Err (RegValidation m) ∧ ¬ non_blank v).
Proof.
  unfold require_non_empty, require_non_blank, non_blank. rewrite is_blank_Some.
  unfold str_is_empty. case_bool_decide; simpl; [right|left]; naive_solver.
Qed.

Lemma config_validate_cases `{UtilsApi} `{!UtilsLaws} c :
  (config_validate c = Ok () ∧ config_sound c) ∨
  (∃ m, config_validate c = Err (RegValidation m) ∧ ¬ config_sound c).
Proof.
  unfold config_validate.
  repeat match goal with
  | |- context [result_bind (require_non_empty ?v ?f) _] =>
      destruct (require_non_empty_cases v f) as [[-> ?]|(? & -> & Hn)]; cbn [result_bind];
      [|right; eexists; split; [done|]; intros [Hf _ _]; rewrite !Forall_cons in Hf; tauto]
  end.
  case_if; [right; eexists; split; [done|]; by intros [_ ? _]|].
  case_if; [right; eexists; split; [done|]; intros [_ _ [? ?]]; congruence|].
  left. split; [done|]. split; [|done|by apply not_eq_None_Some].
  rewrite !Forall_cons, Forall_nil. tauto.
Qed.

Lemma failures_in_a_row_nonneg count outcomes : 0 ≤ count → 0 ≤ failures_in_a_row count outcomes.
Proof.
  revert count. induction outcomes as [|[] outcomes IH]; intros; simpl; [done|by apply IH|].
  apply IH. lia.
Qed.

Lemma renew_backoff_bounds `{RandomApi} `{!RandomLaws} failures initial max :
  0 ≤ failures → 0 < initial → 0 < max →
  0 ≤ renew_backoff failures initial max ≤ Z.min (initial * 2 ^ Z.min failures 16) max.
Proof.
  intros Hf Hi Hm. unfold renew_backoff.
  set (exponent := Z.min failures 16).
  assert (0 ≤ exponent ≤ 16) as He by (unfold exponent; lia).
  rewrite Z.shiftl_1_l. unfold Duration.saturating_mul.
  assert (1 ≤ 2 ^ exponent) by (apply (Z.pow_le_mono_r 2 0 exponent); lia).
  set (base := Z.min _ max).
  assert (0 < base ≤ Z.min (initial * 2 ^ exponent) max) as Hb.
  { unfold base. assert (0 < Duration.MAX) by done. nia. }
  unfold Duration.is_zero. rewrite (proj2 (Z.eqb_neq base 0)) by lia.
  pose proof (random_range_bounds 0 (Z.min (Duration.as_millis base) u64_max)) as Hr.
  clearbody base. zlia.
Qed.

Section RenewLoopLemmas.
Context `{MetadataApi}.
Context `{!RegistryApi}.

Lemma renew_after_count cfg failures renewed :
  0 ≤ failures → failures < u32_max →
  renew_after cfg failures renewed =
  (if renewed then 0 else failures + 1,
   if renewed then (if 0 <? failures then Recovered else NoLog)
   else if max_consecutive_failures cfg <=? failures + 1 then Critical else BackingOff).
Proof.
  intros. unfold renew_after, saturating_add. rewrite Z.min_r by lia. by destruct renewed.
Qed.

(** What the specification says of the pass [p] that the generator [rng]
    serves after [failures] failures in a row. *)
Definition pass_ok (rng : RandomApi) (handle : DiscoveryInstanceHandle)
    (cfg : RenewLoopConfig) (failures : Z) (p : RenewPass) : Prop :=
  pass_sleep p =
    (if failures =? 0 then renew_interval handle
     else renew_backoff failures (initial_backoff cfg) (max_backoff cfg)) ∧
  pass_log p =
    (if pass_renewed p then (if 0 <? failures then Recovered else NoLog)
     else if max_consecutive_failures cfg <=? failures + 1 then Critical else BackingOff) ∧
  ∃ w, pass_renewed p = is_ok (renew_once handle (registry_sleep (pass_sleep p) w)).1.

Lemma renew_loop_lookup rngs handle cfg count w i rng :
  0 ≤ count → count + Z.of_nat i < u32_max → rngs !! i = Some rng →
  let passes := (renew_loop rngs handle cfg count w).1.1 in
  ∃ p, passes !! i = Some p ∧
       pass_ok rng handle cfg (failures_in_a_row count (pass_renewed <$> take i passes)) p.
Proof.
  revert count w i. induction rngs as [|r rngs IH]; intros count w i Hc Hi Hr; [done|].
  cbn zeta. cbn [renew_loop]. unfold renew_pass.
  destruct (renew_once handle _) as [answer w1] eqn:Hra.
  rewrite renew_after_count by lia.
  destruct (renew_loop rngs handle cfg _ w1) as [[passes f] w2] eqn:Hl. cbn [fst snd].
  destruct i as [|i]; [simpl in Hr|cbn [lookup list_lookup] in Hr].
  - injection Hr as ->. eexists. split; [done|]. split_and!; [done|done|].
    cbn [pass_sleep pass_renewed]. exists w. by rewrite Hra.
  - destruct (IH (if is_ok answer then 0 else count + 1) w1 i) as (p & Hp & Hok);
      [by destruct (is_ok answer); lia|destruct (is_ok answer); lia|done|].
    rewrite Hl in Hp, Hok. by exists p.
Qed.
End RenewLoopLemmas.

Lemma register_interval `{MetadataApi, UtilsApi, MetadataKeys} `{!RegistryApi} c ids ids'
    (w w' : World) h :
  register c ids ids' w = (Ok h, w') →
  renew_interval h = Duration.from_secs (Z.max (lease_ttl_seconds c) 3 / 3).
Proof. unfold register. intros Hr. repeat case_match; naive_solver. Qed.

(** ** Properties *)

(** registration checks the configuration before it talks to the control
    plane: an unsound configuration is a validation error and no call is made. *)
Theorem register_validates_first `{MetadataApi, UtilsApi, MetadataKeys} `{!RegistryApi}
    `{!UtilsLaws} c ids ids' (w : World) :
  ¬ config_sound c → ∃ m, register c ids ids' w = (Err (RegValidation m), w).
Proof.
  intros Hc. unfold register. destruct (config_validate_cases c) as [[_ ?]|(m & -> & _)]; [done|].
  by exists m.
Qed.

(** C27: a successful registration is one accepted call to the control plane,
    with the configured fields and with the revision the configuration asks
    for: the explicit one, else the retrieved one when compare-and-set is on
    (none when the instance is unknown), else none. The handle has the
    non-blank lease and renews at least three times a lease of three seconds
    or more. *)
Theorem register_sound `{MetadataApi, UtilsApi, MetadataKeys} `{!RegistryApi} `{!UtilsLaws}
    c ids ids' (w w' : World) h :
  register c ids ids' w = (Ok h, w') →
  config_sound c ∧ config h = c ∧ non_blank (lease_id h) ∧
  metadata_template h = unsigned_registry_write_metadata (config_subject_id c) ids ∧
  (3 ≤ lease_ttl_seconds c → 3 * renew_interval h ≤ Duration.from_secs (lease_ttl_seconds c)) ∧
  ∃ w1 w2 revision,
    connect (discovery_endpoint c) w = (Ok (client h), w1) ∧
    register_instance (client h) (register_request c revision)
      (request_headers (metadata_template h)) w2 = (Ok (lease_id h), w') ∧
    match expected_revision c with
    | Some r => revision = Some r ∧ w2 = w1
    | None =>
        if revision_cas_on_register c then
          ∃ answer,
            retrieve_instance (client h) (instance_key c)
              (request_headers (unsigned_registry_read_metadata (config_subject_id c) ids')) w1
              = (answer, w2) ∧
            match answer with
            | Ok found => revision = found
            | Err status => Status.code status = Code.NotFound ∧ revision = None
            end
        else revision = None ∧ w2 = w1
    end.
Proof.
  unfold register. destruct (config_validate_cases c) as [[-> Hc]|(m & -> & _)]; [|done].
  destruct (connect _ w) as [[ch|] w1] eqn:Hconn; [|done].
  destruct (resolve_expected_revision ch c ids' w1) as [[revision|] w2] eqn:Hrev; [|done].
  destruct (register_instance _ _ _ w2) as [[lease|] w3] eqn:Hreg; [|done].
  rewrite is_blank_Some. unfold str_is_empty. case_bool_decide as Hb; [done|].
  intros [= <- <-]. simpl. split_and!; try done.
  { intros. zlia. }
  exists w1, w2, revision. split_and!; [done..|].
  unfold resolve_expected_revision in Hrev.
  destruct (expected_revision c); [naive_solver|].
  destruct (revision_cas_on_register c); cbn [negb] in Hrev; [|naive_solver].
  destruct (retrieve_instance _ _ _ w1) as [[[r|]|status] w4]; [naive_solver..|].
  case_bool_decide; naive_solver.
Qed.

(** the renewal loop follows the outcomes of its renewals: each iteration
    sleeps the renew interval when the previous renewal succeeded and backs off
    by the number of failures in a row otherwise, then renews once, and it
    reports a critical error exactly from the configured number of failures in
    a row on. *)
Theorem renew_loop_follows_outcomes `{MetadataApi} `{!RegistryApi}
    rngs (handle : DiscoveryInstanceHandle) cfg w i rng :
  Z.of_nat i < u32_max → rngs !! i = Some rng →
  let passes := (spawn_renew_loop_with_config rngs handle cfg w).1.1 in
  ∃ p, passes !! i = Some p ∧
       pass_ok rng handle cfg (failures_in_a_row 0 (pass_renewed <$> take i passes)) p.
Proof. intros. by apply renew_loop_lookup. Qed.

(** with the default settings a registered instance whose lease is at
    least 21 seconds survives three failed renewals in a row: the regular
    renewal and three retries all start before the lease ends, whatever the
    random draws are. *)
Theorem default_renewals_fit_lease `{MetadataApi, UtilsApi, MetadataKeys} `{!RegistryApi}
    c ids ids' (w w' : World) h r1 r2 r3 r4 passes failures w'' :
  register c ids ids' w = (Ok h, w') → 21 ≤ lease_ttl_seconds c →
  @RandomLaws r2 → @RandomLaws r3 → @RandomLaws r4 →
  spawn_renew_loop [r1; r2; r3; r4] h w' = (passes, failures, w'') →
  pass_renewed <$> take 3 passes = [false; false; false] →
  length passes = 4%nat ∧
  foldr Z.add 0 (pass_sleep <$> passes) ≤ Duration.from_secs (lease_ttl_seconds c).
Proof.
  intros Hreg Ht HL2 HL3 HL4 Hloop Hfail. apply register_interval in Hreg.
  unfold spawn_renew_loop, spawn_renew_loop_with_config in Hloop.
  cbn [renew_loop] in Hloop. unfold renew_pass in Hloop.
  repeat (destruct (renew_once h _) as [? ?] in Hloop;
    rewrite renew_after_count in Hloop; [|repeat case_if; done..]).
  simplify_eq/=.
  repeat match goal with H : is_ok _ = false |- _ => rewrite H; clear H end.
  change (0 + 1) with 1. change (1 + 1) with 2. change (2 + 1) with 3.
  unfold renew_sleep. cbn -[renew_backoff Duration.from_secs Z.max Z.div].
  split; [done|]. rewrite Hreg.
  destruct (@renew_backoff_bounds r2 HL2 1 (Duration.from_secs 1) (Duration.from_secs 10)); [done..|].
  destruct (@renew_backoff_bounds r3 HL3 2 (Duration.from_secs 1) (Duration.from_secs 10)); [done..|].
  destruct (@renew_backoff_bounds r4 HL4 3 (Duration.from_secs 1) (Duration.from_secs 10)); [done..|].
  change (2 ^ Z.min 1 16) with 2 in *. change (2 ^ Z.min 2 16) with 4 in *.
  change (2 ^ Z.min 3 16) with 8 in *. zlia.
Qed.

(** every renewal back-off lies between zero and the smaller of the
    exponential step and the configured maximum. *)
Theorem renew_backoff_bounded `{RandomApi} `{!RandomLaws} failures initial max :
  0 ≤ failures → 0 < initial → 0 < max →
  0 ≤ renew_backoff failures initial max ≤ Z.min (initial * 2 ^ Z.min failures 16) max.
Proof. apply renew_backoff_bounds. Qed.

(** a maximum of zero is not a maximum: the back-off is then the initial
    delay, longer than the maximum. *)
Theorem zero_max_backoff_exceeded `{RandomApi} failures initial :
  0 ≤ failures → 0 < initial →
  renew_backoff failures initial 0 = initial ∧ 0 < renew_backoff failures initial 0.
Proof.
  intros Hf Hi. assert (renew_backoff failures initial 0 = initial) as ->; [|done].
  unfold renew_backoff, Duration.is_zero. rewrite Z.min_r; [done|].
  unfold Duration.saturating_mul. apply Z.min_glb; [done|].
  apply Z.mul_nonneg_nonneg; [lia|]. by rewrite Z.shiftl_nonneg.
Qed.

(** a lease of one second is accepted and is renewed only when it ends. *)
Theorem one_second_lease_not_renewed_in_time `{MetadataApi, UtilsApi, MetadataKeys}
    `{!RegistryApi} c ids ids' (w w' : World) h :
  lease_ttl_seconds c = 1 →
  register c ids ids' w = (Ok h, w') →
  renew_interval h = Duration.from_secs (lease_ttl_seconds c).
Proof.
  intros Ht Hr. apply register_interval in Hr. by rewrite Hr, Ht.
Qed.

(** ** Witnesses *)

(** A control plane that grants every lease and counts the calls. *)
Definition toy_registry : @RegistryApi toy_metadata := {|
  World := nat;
  RegistryChannel := string;
  SERVING := 1;
  status_to_string s := @Status.message toy_metadata s;
  registry_connect uri w := (Ok uri, w);
  register_instance _ _ _ w := (Ok "lease-1", S w);
  retrieve_instance _ _ _ w := (Ok (Some 7), S w);
  renew_lease _ _ _ _ w := (Ok (), S w);
  deregister_instance _ _ _ w := (Ok (), S w);
  registry_sleep _ w := w
|}.

(** A control plane that registers but never renews. *)
Definition deaf_registry : @RegistryApi toy_metadata := {|
  World := nat;
  RegistryChannel := string;
  SERVING := 1;
  status_to_string s := @Status.message toy_metadata s;
  registry_connect uri w := (Ok uri, w);
  register_instance _ _ _ w := (Ok "lease-1", S w);
  retrieve_instance _ _ _ w := (Ok None, S w);
  renew_lease _ _ _ _ w := (Err (@Status.unauthenticated toy_metadata "unknown lease"), S w);
  deregister_instance _ _ _ w := (Ok (), S w);
  registry_sleep _ w := w
|}.

Definition test_config (ttl : Z) (service : string) : DiscoveryInstanceConfig := {|
  discovery_endpoint := "http://127.0.0.1:19090";
  namespace := "sdkwork";
  environment := "development";
  service_name := service;
  instance_id := "commerce-1";
  advertised_endpoint := "grpc://127.0.0.1:50051";
  protocol := "grpc";
  version := "0.1.0";
  region := "local";
  zone := "local";
  lease_ttl_seconds := ttl;
  config_subject_id := "sdkwork-commerce-service-host";
  config_metadata := {["rpc_surface" := "app"]};
  revision_cas_on_register := true;
  expected_revision := None
|}.

Definition test_handle (ttl : Z) : @DiscoveryInstanceHandle toy_metadata toy_registry :=
  @Build_DiscoveryInstanceHandle toy_metadata toy_registry "http://127.0.0.1:19090"
    (test_config ttl "sdkwork-commerce-app-rpc") "lease-1"
    (Duration.from_secs (Z.max ttl 3 / 3))
    (@unsigned_registry_write_metadata toy_keys "sdkwork-commerce-service-host" test_ids).

Definition deaf_handle (ttl : Z) : @DiscoveryInstanceHandle toy_metadata deaf_registry :=
  @Build_DiscoveryInstanceHandle toy_metadata deaf_registry "http://127.0.0.1:19090"
    (test_config ttl "sdkwork-commerce-app-rpc") "lease-1"
    (Duration.from_secs (Z.max ttl 3 / 3))
    (@unsigned_registry_write_metadata toy_keys "sdkwork-commerce-service-host" test_ids).

Lemma register_validates_first_witness :
  ∃ m, @register toy_metadata toy_utils toy_keys toy_registry (test_config 30 " ") test_ids
         test_ids O = (Err (RegValidation m), O).
Proof.
  apply (@register_validates_first toy_metadata toy_utils toy_keys toy_registry toy_utils_laws).
  intros [Hf _ _]. rewrite !Forall_cons in Hf. destruct Hf as (_ & _ & _ & Hs & _).
  apply Hs. vm_compute. reflexivity.
Defined.

Lemma register_sound_witness :
  3 * @renew_interval toy_metadata toy_registry (test_handle 30) ≤ Duration.from_secs 30.
Proof.
  destruct (@register_sound toy_metadata toy_utils toy_keys toy_registry toy_utils_laws
    (test_config 30 "sdkwork-commerce-app-rpc") test_ids test_ids O 2%nat (test_handle 30))
    as (_ & _ & _ & _ & Hr & _); [reflexivity|].
  apply Hr. by_compute.
Defined.

Lemma renew_loop_follows_outcomes_witness :
  ∃ p, (@spawn_renew_loop_with_config toy_metadata deaf_registry
          [toy_random; toy_random; toy_random] (deaf_handle 30) renew_config_default O).1.1
         !! 2%nat = Some p ∧ pass_sleep p = Duration.from_secs 4 ∧ pass_log p = Critical.
Proof.
  destruct (@renew_loop_follows_outcomes toy_metadata deaf_registry
    [toy_random; toy_random; toy_random] (deaf_handle 30) renew_config_default O 2%nat toy_random)
    as (p & Hp & Hs & Hl & _); [done|done|].
  exists p. split; [exact Hp|].
  assert (Some (pass_renewed p) = Some false) as [= Hf] 
    by exact (f_equal (option_map pass_renewed) (eq_sym Hp)).
  rewrite Hs, Hl, Hf. split; reflexivity.
Defined.

Lemma default_renewals_fit_lease_witness :
  foldr Z.add 0 (pass_sleep <$>
    (@spawn_renew_loop toy_metadata deaf_registry
       [toy_random; toy_random; toy_random; toy_random] (deaf_handle 30) 2%nat).1.1)
  ≤ Duration.from_secs 30.
Proof.
  apply (@default_renewals_fit_lease toy_metadata toy_utils toy_keys deaf_registry
    (test_config 30 "sdkwork-commerce-app-rpc") test_ids test_ids O 2%nat (deaf_handle 30)
    toy_random toy_random toy_random toy_random _ 4 6%nat);
    [reflexivity|by_compute|exact toy_random_laws..|reflexivity|reflexivity].
Defined.

Lemma renew_backoff_bounded_witness :
  0 ≤ @renew_backoff toy_random 3 (Duration.from_secs 1) (Duration.from_secs 10)
    ≤ Z.min (Duration.from_secs 1 * 2 ^ Z.min 3 16) (Duration.from_secs 10).
Proof.
  apply (@renew_backoff_bounded toy_random toy_random_laws); by_compute.
Defined.

Lemma zero_max_backoff_exceeded_witness :
  @renew_backoff toy_random 1 (Duration.from_secs 1) 0 = Duration.from_secs 1 ∧
  0 < @renew_backoff toy_random 1 (Duration.from_secs 1) 0.
Proof. apply (@zero_max_backoff_exceeded toy_random); by_compute. Defined.

Lemma one_second_lease_not_renewed_in_time_witness :
  @renew_interval toy_metadata toy_registry (test_handle 1) = Duration.from_secs 1.
Proof.
  apply (@one_second_lease_not_renewed_in_time toy_metadata toy_utils toy_keys toy_registry
    (test_config 1 "sdkwork-commerce-app-rpc") test_ids test_ids O 2%nat (test_handle 1));
    reflexivity.
Defined.
