(* ===== verification/Leases.v ===== *)
(** * Leases: the renewal loop against a clock

    Composes the registration and the renewal loop of [DiscoveryLifecycle] with
    the lease a control plane keeps. The control plane is outside the
    repository; [LeaseLaws] says what a lease is: an accepted registration or
    renewal grants the lease for its time to live, counted from an instant
    during the call, and nothing else moves its end. [Timely] is an operating
    condition: sleeps and calls last at most so long. *)
From S2P Require Import Prelude RustStd Interfaces ClientMetadata Transport DiscoveryMetadata.
From S2P Require Import DiscoveryLifecycle.

(** ** The contract of the control plane *)

Class LeasePlane `{MetadataApi} `{!RegistryApi} : Type := {
  plane_clock : World → Z;
  lease_expiry : string → World → option Z
}.

Class LeaseLaws `{LeasePlane} : Prop := {
  register_grants ch req headers w lease w' :
    register_instance ch req headers w = (Ok lease, w') →
    ∃ t, plane_clock w ≤ t ≤ plane_clock w' ∧
         lease_expiry lease w' = Some (t + Duration.from_secs (req_lease_ttl_seconds req));
  renew_grants ch lease ttl headers w w' :
    renew_lease ch lease ttl headers w = (Ok (), w') →
    ∃ t, plane_clock w ≤ t ≤ plane_clock w' ∧
         lease_expiry lease w' = Some (t + Duration.from_secs ttl);
  refused_renewal_keeps ch lease ttl headers w status w' :
    renew_lease ch lease ttl headers w = (Err status, w') →
    lease_expiry lease w' = lease_expiry lease w;
  sleep_keeps_lease d lease w :
    lease_expiry lease (registry_sleep d w) = lease_expiry lease w
}.

(** Sleeps end at most [slack] late and calls take at most [latency]. *)
Class Timely `{LeasePlane} (slack latency : Z) : Prop := {
  sleep_on_time d w : plane_clock (registry_sleep d w) ≤ plane_clock w + d + slack;
  renew_on_time ch lease ttl headers w :
    plane_clock (renew_lease ch lease ttl headers w).2 ≤ plane_clock w + latency;
  register_on_time ch req headers w :
    plane_clock (register_instance ch req headers w).2 ≤ plane_clock w + latency
}.

(** Time does not go back, and a lease that has ended is not renewed. *)
Class EvictionLaws `{LeasePlane} : Prop := {
  sleep_advances d w : 0 ≤ d → plane_clock w ≤ plane_clock (registry_sleep d w);
  renew_advances ch lease ttl headers w :
    plane_clock w ≤ plane_clock (renew_lease ch lease ttl headers w).2;
  ended_lease_refused ch lease ttl headers w x :
    lease_expiry lease w = Some x → x < plane_clock w →
    is_ok (renew_lease ch lease ttl headers w).1 = false
}.

(** ** Specification *)

(** The longest back-off after [failures] failed renewals in a row. *)
Definition backoff_cap (cfg : RenewLoopConfig) (failures : Z) : Z :=
  Z.min (initial_backoff cfg * 2 ^ Z.min failures 16) (max_backoff cfg).

(** The longest time since the lease was granted, after [failures] failed
    renewals in a row; [overhead] is what a sleep and a call may add. *)
Fixpoint waited (interval : Z) (cfg : RenewLoopConfig) (overhead latency : Z) (failures : nat) : Z :=
  match failures with
  | O => latency
  | S n =>
      waited interval cfg overhead latency n
      + (if Nat.eqb n 0 then interval else backoff_cap cfg (Z.of_nat n)) + overhead
  end.

Section Leases.
Context `{HLease : LeasePlane}.

Definition lease_live (lease : string) (w : World) : Prop :=
  ∃ x, lease_expiry lease w = Some x ∧ plane_clock w ≤ x.

Definition lease_ended (lease : string) (w : World) : Prop :=
  ∃ x, lease_expiry lease w = Some x ∧ x < plane_clock w.

(** At most [elapsed] has passed since the lease was granted for [ttl]. *)
Definition granted_within (lease : string) (ttl elapsed : Z) (w : World) : Prop :=
  ∃ t, lease_expiry lease w = Some (t + ttl) ∧ plane_clock w ≤ t + elapsed.

Lemma granted_live lease ttl elapsed w :
  granted_within lease ttl elapsed w → elapsed ≤ ttl → lease_live lease w.
Proof. intros (t & Ht & Hc) Hle. exists (t + ttl). split; [done|lia]. Qed.
End Leases.

(** ** Lemmas *)

Section Survival.
Context `{HLease : LeasePlane, !LeaseLaws}.
Context (slack latency : Z) `{!Timely slack latency}.
Context (h : DiscoveryInstanceHandle) (cfg : RenewLoopConfig).
Context (Hinit : 0 < initial_backoff cfg) (Hmax : 0 < max_backoff cfg).

Abbreviation ttl := (Duration.from_secs (lease_ttl_seconds (config h))).
Abbreviation elapsed f := (waited (renew_interval h) cfg (slack + latency) latency (Z.to_nat f)).

(** The sleep before a renewal after [failures] failures. *)
Lemma renew_sleep_le rng failures :
  @RandomLaws rng → 0 ≤ failures →
  renew_sleep (renew_interval h) cfg failures
  ≤ if Nat.eqb (Z.to_nat failures) 0 then renew_interval h else backoff_cap cfg failures.
Proof using Hinit Hmax.
  intros HL Hf. unfold renew_sleep. destruct (Z.eqb_spec failures 0) as [->|Hne]; [done|].
  destruct (Nat.eqb_spec (Z.to_nat failures) 0); [lia|].
  by apply (@renew_backoff_bounds rng HL).
Qed.

Lemma sleep_elapsed rng failures w :
  @RandomLaws rng → 0 ≤ failures →
  granted_within (lease_id h) ttl (elapsed failures) w →
  granted_within (lease_id h) ttl (elapsed (failures + 1) - latency)
    (registry_sleep (renew_sleep (renew_interval h) cfg failures) w).
Proof using All.
  intros HL Hf (t & Ht & Hc). exists t. rewrite sleep_keeps_lease. split; [done|].
  pose proof (renew_sleep_le rng failures HL Hf).
  pose proof (sleep_on_time (renew_sleep (renew_interval h) cfg failures) w).
  rewrite Z2Nat.inj_add, Nat.add_1_r by lia. cbn [waited]. rewrite Z2Nat.id by done. lia.
Qed.

(** One iteration restarts the count or adds one failure to it. *)
Lemma pass_elapsed rng failures w p failures' w' :
  @RandomLaws rng → 0 ≤ failures < u32_max →
  renew_pass rng h cfg failures w = (p, failures', w') →
  granted_within (lease_id h) ttl (elapsed failures) w →
  0 ≤ failures' ≤ failures + 1 ∧ granted_within (lease_id h) ttl (elapsed failures') w'.
Proof using All.
  intros HL Hf Hp Hg. unfold renew_pass, renew_once in Hp.
  pose proof (sleep_elapsed rng failures w HL ltac:(lia) Hg) as (t & Ht & Hc).
  set (w1 := registry_sleep _ w) in *.
  pose proof (renew_on_time (client h) (lease_id h) (lease_ttl_seconds (config h))
    (request_headers (metadata_template h)) w1) as Htime.
  destruct (renew_lease _ _ _ _ w1) as [[[]|status] w2] eqn:Hr; cbn [map_err is_ok fst snd] in Hp, Htime;
    rewrite renew_after_count in Hp by lia; injection Hp as <- <- <-.
  - split; [lia|]. destruct (renew_grants _ _ _ _ _ _ Hr) as (t' & Ht' & He).
    exists t'. split; [done|]. simpl. lia.
  - split; [lia|]. exists t. rewrite (refused_renewal_keeps _ _ _ _ _ _ _ Hr). split; [done|lia].
Qed.

Lemma loop_elapsed rngs failures w passes failures' w' :
  Forall (λ rng, @RandomLaws rng) rngs → 0 ≤ failures →
  failures + Z.of_nat (length rngs) ≤ u32_max →
  renew_loop rngs h cfg failures w = (passes, failures', w') →
  granted_within (lease_id h) ttl (elapsed failures) w →
  0 ≤ failures' ∧ granted_within (lease_id h) ttl (elapsed failures') w'.
Proof using All.
  intros HL. revert failures w passes. induction HL as [|rng rngs Hrng _ IH];
    intros failures w passes Hf Hlen Hloop Hg; [by simplify_eq/=|].
  cbn [renew_loop length] in *.
  destruct (renew_pass rng h cfg failures w) as [[p f1] w1] eqn:Hp.
  destruct (renew_loop rngs h cfg f1 w1) as [[ps f2] w2] eqn:Hl. injection Hloop as <- <- <-.
  destruct (pass_elapsed rng failures w p f1 w1 Hrng ltac:(lia) Hp Hg) as [Hf1 Hg1].
  by apply (IH f1 w1 ps); [lia|lia|..].
Qed.
End Survival.

Lemma backoff_cap_nonneg cfg failures :
  0 < initial_backoff cfg → 0 < max_backoff cfg → 0 ≤ failures → 0 ≤ backoff_cap cfg failures.
Proof.
  intros. unfold backoff_cap. assert (0 < 2 ^ Z.min failures 16) by (apply Z.pow_pos_nonneg; lia). nia.
Qed.

Lemma waited_mono interval cfg overhead latency m n :
  0 ≤ interval → 0 < initial_backoff cfg → 0 < max_backoff cfg → 0 ≤ overhead → (m ≤ n)%nat →
  waited interval cfg overhead latency m ≤ waited interval cfg overhead latency n.
Proof.
  intros Hi H1 H2 Ho. induction 1 as [|n _ IH]; [done|]. cbn [waited].
  pose proof (backoff_cap_nonneg cfg (Z.of_nat n) H1 H2 ltac:(lia)). case_match; lia.
Qed.

(** A registration grants the lease of the handle. *)
Lemma register_granted `{HLease : LeasePlane, HUtils : UtilsApi, HKeys : MetadataKeys, !LeaseLaws}
    slack latency `{!Timely slack latency} c ids ids' w h w' :
  register c ids ids' w = (Ok h, w') →
  config h = c ∧ 0 ≤ renew_interval h ∧
  granted_within (lease_id h) (Duration.from_secs (lease_ttl_seconds c)) latency w'.
Proof.
  intros Hreg. pose proof (register_interval _ _ _ _ _ _ Hreg) as Hint. revert Hreg.
  unfold register. destruct (config_validate c); [|done].
  destruct (connect _ w) as [[ch|] w1]; [|done].
  destruct (resolve_expected_revision ch c ids' w1) as [[rev|] w2]; [|done].
  pose proof (register_on_time ch (register_request c rev)
    (request_headers (unsigned_registry_write_metadata (config_subject_id c) ids)) w2) as Htime.
  destruct (register_instance _ _ _ w2) as [[lease|] w3] eqn:Hr; [|done].
  destruct (is_blank _); [done|]. intros [= <- <-]. simpl in *.
  destruct (register_grants _ _ _ _ _ _ Hr) as (t & Ht & He).
  split_and!; [done| |]; [unfold Duration.from_secs, Duration.NANOS_PER_SEC; zlia|].
  exists t. split; [done|lia].
Qed.

(** The loop's last log. *)
Lemma loop_last_log `{MetadataApi} `{!RegistryApi} rngs (h : DiscoveryInstanceHandle) cfg failures w
    passes failures' w' :
  renew_loop rngs h cfg failures w = (passes, failures', w') →
  failures' = failures ∧ passes = [] ∨
  ∃ p, last passes = Some p ∧
       (0 < failures' → pass_log p = if max_consecutive_failures cfg <=? failures' then Critical
                                      else BackingOff).
Proof.
  revert failures w passes. induction rngs as [|rng rngs IH]; intros failures w passes Hloop;
    [by simplify_eq/=; left|].
  cbn [renew_loop] in Hloop. unfold renew_pass in Hloop. destruct (renew_once h _) as [r w1].
  destruct (renew_after cfg failures (is_ok r)) as [f log] eqn:Ha.
  destruct (renew_loop rngs h cfg f w1) as [[ps f'] w2] eqn:Hl. injection Hloop as <- <- <-. right.
  rewrite last_cons. destruct (IH _ _ _ Hl) as [[-> ->]|(p & -> & Hlog)]; [|by exists p].
  eexists. split; [done|]. simpl. intros Hpos. unfold renew_after in Ha.
  destruct (is_ok r); injection Ha as <- <-; [lia|done].
Qed.

(** An iteration whose lease has ended fails and leaves it ended. *)
Lemma ended_pass `{HLease : LeasePlane, !LeaseLaws, !EvictionLaws} rng
    (h : DiscoveryInstanceHandle) cfg failures w :
  lease_ended (lease_id h) w → 0 ≤ renew_interval h →
  0 < initial_backoff cfg → 0 < max_backoff cfg → @RandomLaws rng → 0 ≤ failures →
  let out := renew_once h (registry_sleep (renew_sleep (renew_interval h) cfg failures) w) in
  is_ok out.1 = false ∧ lease_ended (lease_id h) out.2.
Proof.
  intros (x & Hx & Hc) Hint Hi Hm HL Hf. cbv zeta. unfold renew_once.
  assert (0 ≤ renew_sleep (renew_interval h) cfg failures) as Hs.
  { unfold renew_sleep. case_match; [done|]. by apply (@renew_backoff_bounds rng HL). }
  pose proof (sleep_advances _ w Hs) as Hadv. set (w1 := registry_sleep _ w) in *.
  assert (lease_expiry (lease_id h) w1 = Some x) as Hx1 by (unfold w1; by rewrite sleep_keeps_lease).
  pose proof (ended_lease_refused (client h) (lease_id h) (lease_ttl_seconds (config h))
    (request_headers (metadata_template h)) w1 x Hx1 ltac:(lia)) as Href.
  pose proof (renew_advances (client h) (lease_id h) (lease_ttl_seconds (config h))
    (request_headers (metadata_template h)) w1) as Hadv2.
  destruct (renew_lease _ _ _ _ w1) as [[[]|status] w2] eqn:Hr; [done|]. simpl in *. split; [done|].
  exists x. rewrite (refused_renewal_keeps _ _ _ _ _ _ _ Hr). split; [done|lia].
Qed.

(** ** Properties *)

Section Properties.
Context `{HLease : LeasePlane, HUtils : UtilsApi, HKeys : MetadataKeys, !LeaseLaws}.
Context (slack latency : Z) `{!Timely slack latency} (Hslack : 0 ≤ slack) (Hlat : 0 ≤ latency).

(** C12: a registered instance keeps its lease through failures: however long the
    renewal loop has run, when its last [n] renewals or fewer failed and the
    longest time those may take fits the lease, the lease is live, and it still
    is when the loop sends the next renewal. *)
Theorem lease_survives_failures n c ids ids' w h w' rngs rng cfg passes failures w'' :
  register c ids ids' w = (Ok h, w') →
  Forall (λ rng, @RandomLaws rng) (rng :: rngs) → Z.of_nat (length rngs) ≤ u32_max →
  0 < initial_backoff cfg → 0 < max_backoff cfg →
  spawn_renew_loop_with_config rngs h cfg w' = (passes, failures, w'') →
  failures ≤ Z.of_nat n →
  waited (renew_interval h) cfg (slack + latency) latency (S n)
    ≤ Duration.from_secs (lease_ttl_seconds c) →
  lease_live (lease_id h) w'' ∧
  lease_live (lease_id h) (registry_sleep (@renew_sleep rng (renew_interval h) cfg failures) w'').
Proof using All.
  intros Hreg [HL HLs]%Forall_cons Hlen Hi Hm Hloop Hn Hfit.
  destruct (register_granted slack latency c ids ids' w h w' Hreg) as (<- & Hint & Hg).
  unfold spawn_renew_loop_with_config in Hloop.
  destruct (loop_elapsed slack latency h cfg Hi Hm rngs 0 w' passes failures w'' HLs) as [Hf Hg'];
    [done|lia|done|done|].
  assert (∀ f, 0 ≤ f ≤ Z.of_nat n + 1 →
    waited (renew_interval h) cfg (slack + latency) latency (Z.to_nat f)
    ≤ Duration.from_secs (lease_ttl_seconds (config h))) as Hle.
  { intros f Hb. etransitivity; [|exact Hfit]. apply waited_mono; try done; lia. }
  split; [eapply granted_live; [exact Hg'|apply Hle; lia]|].
  eapply granted_live; [by apply (sleep_elapsed slack latency h cfg Hi Hm rng failures w'')|].
  specialize (Hle (failures + 1)). lia.
Qed.

(** C38: with the default settings, a lease of at least thirty seconds and at most
    one second for the delays of a sleep and a call, the lease outlives three
    failed renewals in a row: the critical error that the third one logs (the
    lease has likely expired) is raised while the lease is live. *)
Theorem critical_alarm_precedes_expiry c ids ids' w h w' rngs passes failures w'' :
  register c ids ids' w = (Ok h, w') → 30 ≤ lease_ttl_seconds c →
  slack + latency ≤ Duration.from_secs 1 →
  Forall (λ rng, @RandomLaws rng) rngs → Z.of_nat (length rngs) ≤ u32_max →
  spawn_renew_loop rngs h w' = (passes, failures, w'') → failures = 3 →
  (∃ p, last passes = Some p ∧ pass_log p = Critical) ∧ lease_live (lease_id h) w''.
Proof using All.
  intros Hreg Httl Hdelay HL Hlen Hloop ->. split.
  - destruct (loop_last_log rngs h renew_config_default 0 w' passes 3 w'' Hloop)
      as [[? _]|(p & Hp & Hlog)]; [done|]. exists p. split; [done|]. by rewrite Hlog.
  - pose proof (register_interval _ _ _ _ _ _ Hreg) as Hint.
    destruct (register_granted slack latency c ids ids' w h w' Hreg) as (<- & _ & Hg).
    destruct (loop_elapsed slack latency h renew_config_default ltac:(done) ltac:(done)
      rngs 0 w' passes 3 w'' HL) as [_ Hg']; [done|lia|done|done|].
    eapply granted_live; [exact Hg'|]. rewrite Hint. change (Z.to_nat 3) with 3%nat. cbn [waited Nat.eqb].
    change (backoff_cap renew_config_default (Z.of_nat 1)) with (Duration.from_secs 2).
    change (backoff_cap renew_config_default (Z.of_nat 2)) with (Duration.from_secs 4).
    zlia.
Qed.
End Properties.

(** a lease that has ended is never held again: the loop goes on renewing the
    ended lease and never registers anew, so every later renewal fails, however
    long the loop runs and however healthy the control plane is. *)
Theorem ended_lease_stays_ended `{HLease : LeasePlane, !LeaseLaws, !EvictionLaws}
    rngs (h : DiscoveryInstanceHandle) cfg w passes failures w' :
  lease_ended (lease_id h) w → 0 ≤ renew_interval h →
  0 < initial_backoff cfg → 0 < max_backoff cfg →
  Forall (λ rng, @RandomLaws rng) rngs → Z.of_nat (length rngs) ≤ u32_max →
  spawn_renew_loop_with_config rngs h cfg w = (passes, failures, w') →
  length passes = length rngs ∧ Forall (λ p, pass_renewed p = false) passes ∧
  lease_ended (lease_id h) w'.
Proof.
  intros Hend Hint Hi Hm HL Hlen Hloop. unfold spawn_renew_loop_with_config in Hloop.
  assert (∀ count, 0 ≤ count → count + Z.of_nat (length rngs) ≤ u32_max →
    renew_loop rngs h cfg count w = (passes, failures, w') →
    length passes = length rngs ∧ Forall (λ p, pass_renewed p = false) passes ∧
    lease_ended (lease_id h) w') as Hgen; [|by apply (Hgen 0)]. clear Hlen Hloop.
  revert w passes Hend. induction HL as [|rng rngs Hrng _ IH];
    intros w passes Hend count Hc Hlen Hloop; [by simplify_eq/=|].
  cbn [renew_loop length] in *. unfold renew_pass in Hloop.
  destruct (ended_pass rng h cfg count w) as [Hr Hend1]; [done..|].
  destruct (renew_once h _) as [r w1]. simpl in Hr, Hend1. rewrite Hr in Hloop.
  rewrite renew_after_count in Hloop by lia.
  destruct (renew_loop rngs h cfg (count + 1) w1) as [[ps f] w2] eqn:Hl. injection Hloop as <- <- <-.
  destruct (IH w1 ps Hend1 (count + 1)) as (Hn & Hall & Hend2); [lia|lia|done|].
  split_and!; [simpl; lia|by constructor|done].
Qed.

(** ** Witnesses *)

(** A control plane that keeps one lease: the clock, the end of the lease and
    the number of renewals it will refuse before it answers again. A call takes
    a tenth of a second, a sleep ends half of that late. *)
Record LeaseWorld : Type := {
  now_at : Z;
  ends_at : Z;
  refusals : nat
}.

Definition call_time : Z := Duration.from_millis 100.
Definition oversleep : Z := Duration.from_millis 50.

Definition leased (w : LeaseWorld) (ttl : Z) : LeaseWorld :=
  {| now_at := now_at w + call_time; ends_at := now_at w + Duration.from_secs ttl;
     refusals := refusals w |}.

Definition refused (w : LeaseWorld) : LeaseWorld :=
  {| now_at := now_at w + call_time; ends_at := ends_at w; refusals := pred (refusals w) |}.

Definition lease_registry : @RegistryApi toy_metadata := {|
  World := LeaseWorld;
  RegistryChannel := string;
  SERVING := 1;
  status_to_string s := @Status.message toy_metadata s;
  registry_connect uri w := (Ok uri, w);
  register_instance _ req _ w := (Ok "lease-1", leased w (req_lease_ttl_seconds req));
  retrieve_instance _ _ _ w := (Ok None, w);
  renew_lease _ _ ttl _ w :=
    if Nat.eqb (refusals w) 0 && (now_at w <=? ends_at w) then (Ok (), leased w ttl)
    else (Err (@Status.unavailable toy_metadata "down"), refused w);
  deregister_instance _ _ _ w := (Ok (), w);
  registry_sleep d w :=
    {| now_at := now_at w + d + oversleep; ends_at := ends_at w; refusals := refusals w |}
|}.

#[local] Instance lease_plane : @LeasePlane toy_metadata lease_registry :=
  @Build_LeasePlane toy_metadata lease_registry now_at (λ _ w, Some (ends_at w)).

Lemma lease_plane_laws :
  @LeaseLaws _ _ lease_plane ∧ @Timely _ _ lease_plane oversleep call_time ∧
  @EvictionLaws _ _ lease_plane.
Proof.
  assert (0 < call_time ∧ 0 < oversleep) as [Hc Ho] by done.
  split_and!; split; simpl; intros; simplify_eq/=; try done;
    repeat case_match; simplify_eq/=; reflect_bools; try lia; try done.
  - exists (now_at w). split; [lia|done].
  - exists (now_at w). split; [lia|done].
Qed.

Definition lease_handle (ttl : Z) : @DiscoveryInstanceHandle toy_metadata lease_registry :=
  @Build_DiscoveryInstanceHandle toy_metadata lease_registry "http://127.0.0.1:19090"
    (test_config ttl "sdkwork-commerce-app-rpc") "lease-1"
    (Duration.from_secs (Z.max ttl 3 / 3))
    (@unsigned_registry_write_metadata toy_keys "sdkwork-commerce-service-host" test_ids).

Lemma toy_draws n : Forall (λ rng, @RandomLaws rng) (replicate n toy_random).
Proof. apply Forall_replicate, toy_random_laws. Qed.

(** The control plane refuses three renewals after a registration at time 0. *)
Definition flaky_world : LeaseWorld := {| now_at := 0; ends_at := 0; refusals := 3 |}.
Definition registered_world (ttl : Z) : LeaseWorld := leased flaky_world ttl.
Definition after_renewals (n : nat) : LeaseWorld :=
  (@spawn_renew_loop toy_metadata lease_registry (replicate n toy_random) (lease_handle 30)
     (registered_world 30)).2.

Lemma lease_survives_failures_witness :
  @lease_live _ _ lease_plane "lease-1" (after_renewals 3) ∧
  @lease_live _ _ lease_plane "lease-1"
    (@registry_sleep toy_metadata lease_registry
       (@renew_sleep toy_random (Duration.from_secs 10) renew_config_default 3) (after_renewals 3)).
Proof.
  destruct lease_plane_laws as (Hlaws & Htimely & _).
  apply (@lease_survives_failures _ _ lease_plane toy_utils toy_keys Hlaws oversleep call_time
    Htimely ltac:(done) ltac:(done) 3 (test_config 30 "sdkwork-commerce-app-rpc") test_ids test_ids
    flaky_world (lease_handle 30) (registered_world 30) (replicate 3 toy_random) toy_random
    renew_config_default
    (@spawn_renew_loop toy_metadata lease_registry (replicate 3 toy_random) (lease_handle 30)
       (registered_world 30)).1.1 3);
    [reflexivity|exact (toy_draws 4)|by_compute..|reflexivity|by_compute|by_compute].
Defined.

Lemma critical_alarm_precedes_expiry_witness :
  @lease_live _ _ lease_plane "lease-1" (after_renewals 3).
Proof.
  destruct lease_plane_laws as (Hlaws & Htimely & _).
  apply (@critical_alarm_precedes_expiry _ _ lease_plane toy_utils toy_keys Hlaws oversleep call_time
    Htimely ltac:(done) ltac:(done) (test_config 30 "sdkwork-commerce-app-rpc") test_ids test_ids
    flaky_world (lease_handle 30) (registered_world 30) (replicate 3 toy_random)
    (@spawn_renew_loop toy_metadata lease_registry (replicate 3 toy_random) (lease_handle 30)
       (registered_world 30)).1.1 3);
    [reflexivity|by_compute|by_compute|exact (toy_draws 3)|by_compute
    |reflexivity|reflexivity].
Defined.

(** A lease that ended while the control plane was away. *)
Definition late_world : LeaseWorld :=
  {| now_at := Duration.from_secs 40; ends_at := Duration.from_secs 30; refusals := 0 |}.

Lemma ended_lease_stays_ended_witness :
  @lease_ended _ _ lease_plane "lease-1"
    (@spawn_renew_loop toy_metadata lease_registry (replicate 4 toy_random) (lease_handle 30)
       late_world).2.
Proof.
  destruct lease_plane_laws as (Hlaws & _ & Hevict).
  apply (@ended_lease_stays_ended _ _ lease_plane Hlaws Hevict (replicate 4 toy_random)
    (lease_handle 30) renew_config_default late_world
    (@spawn_renew_loop toy_metadata lease_registry (replicate 4 toy_random) (lease_handle 30)
       late_world).1.1
    (@spawn_renew_loop toy_metadata lease_registry (replicate 4 toy_random) (lease_handle 30)
       late_world).1.2);
    [eexists; split; [reflexivity|by_compute]|by_compute..|exact (toy_draws 4)
    |by_compute|reflexivity].
Defined.
