(* ===== verification/Server.v ===== *)
(** * Server: serving and graceful shutdown

    Models the lifecycle half of [sdkwork-rpc-server/src/lib.rs]. What the
    asynchronous runtime decides is the record [ServeEnv]: whether the bind
    succeeds, whether the server stops before the shutdown signal, and when and
    how the drain ends. A run is the list of its actions, its result ([None]
    when it never returns) and the world the discovery calls leave behind.

    The renewal task runs beside the server from before the bind until it is
    aborted, and the abort comes after the answer to the deregistration. The
    serve function's only call to the registry is that deregistration, so how
    the two interleave is a matter of what the task has done when the registry
    serves it and what it does from then until the abort reaches it
    ([RenewSchedule]); renewals of the second kind reach the registry after the
    deregistration. Dropping the task's handle detaches it. *)
From Stdlib Require Import Sorted.
From S2P Require Import Prelude RustStd Core Interfaces Tls ClientMetadata Transport.
From S2P Require Import DiscoveryMetadata DiscoveryLifecycle.

Inductive Action : Type :=
| SpawnRenewLoop
| Bind
| SendShutdown
| DrainCompleted
| DrainTimedOut
| Deregister
| AbortRenewTask.

#[global] Instance Action_eq_dec : EqDecision Action.
Proof. solve_decision. Defined.

Record ServeEnv : Type := {
  (** [TcpListener::bind]. *)
  bind_result : result string ();
  (** The server's result, if it stops before the shutdown signal fires. *)
  stops_early : option (result string ());
  (** After the signal: how long the drain takes and how it ends, or [None]
      when a call never finishes. *)
  drain : option (Z * result string ())
}.

Section Serve.
Context `{MetadataApi}.
Context `{!RegistryApi}.

Definition Run : Type := list Action * option (result ServeError ()) * World.

(** [action;; run]: an action before the rest of the run. *)
Definition act (a : Action) (r : Run) : Run :=
  match r with (trace, res, w) => (a :: trace, res, w) end.

Definition serve_with_graceful_shutdown (env : ServeEnv) :
    list Action * option (result ServeError ()) :=
  match bind_result env with
  | Err error => ([Bind], Some (Err (ServeTransport error)))
  | Ok _ =>
      match stops_early env with
      | Some r => ([Bind], Some (map_err ServeTransport r))
      | None =>
          match drain env with
          | Some (_, r) => ([Bind; SendShutdown; DrainCompleted], Some (map_err ServeTransport r))
          | None => ([Bind; SendShutdown], None)
          end
      end
  end.

(** A task that runs beside the serve function: what it does to the world until
    the registry serves the deregistration (or the function returns without
    one), and what it goes on to do until an abort reaches it. *)
Definition Task : Type := World → World * (World → World).

(** The tail every path that reaches it shares; [rest] is what the renewal task
    does while the answer is awaited and until the abort reaches it. *)
Definition deregister_and_abort (handle : DiscoveryInstanceHandle) (rest : World → World)
    (w : World) : Run :=
  act Deregister
    (match deregister handle w with
     | (Err error, w) =>
         act AbortRenewTask
           ([], Some (Err (DiscoveryDeregister (DiscoveryRegistrationError_to_string error))), rest w)
     | (Ok _, w) => act AbortRenewTask ([], Some (Ok ()), rest w)
     end).

Definition serve_with_discovery_lifecycle_and_renew_task (env : ServeEnv)
    (handle : DiscoveryInstanceHandle) (drain_timeout : option Z)
    (renew_task : Task) (w : World) : Run :=
  let (w, rest) := renew_task w in
  act Bind
    (match bind_result env with
     | Err error => ([], Some (Err (ServeTransport error)), w)
     | Ok _ =>
         match stops_early env with
         | Some (Err error) => ([], Some (Err (ServeTransport error)), w)
         | Some (Ok _) => deregister_and_abort handle rest w
         | None =>
             act SendShutdown
               (match drain_timeout, drain env with
                | Some timeout, Some (elapsed, r) =>
                    if elapsed <=? timeout then
                      act DrainCompleted
                        (match r with
                         | Ok _ => deregister_and_abort handle rest w
                         | Err error => ([], Some (Err (ServeTransport error)), w)
                         end)
                    else act DrainTimedOut (deregister_and_abort handle rest w)
                | Some _, None => act DrainTimedOut (deregister_and_abort handle rest w)
                | None, Some (_, r) =>
                    act DrainCompleted
                      (match r with
                       | Ok _ => deregister_and_abort handle rest w
                       | Err error => ([], Some (Err (ServeTransport error)), w)
                       end)
                | None, None => ([], None, w)
                end)
         end
     end).

(** How far the renewal loop gets. *)
Record RenewSchedule : Type := {
  (** A generator per iteration completed when the registry serves the
      deregistration or, without one, when the run returns. *)
  completed : list RandomApi;
  (** How long the next iteration has slept by then. *)
  slept : Z;
  (** A generator per iteration completed after that, before the abort. *)
  late : list RandomApi
}.

(** The iterations [rngs] of the loop, the first of which has [slept] already. *)
Definition finish_renewals (rngs : list RandomApi) (handle : DiscoveryInstanceHandle)
    (cfg : RenewLoopConfig) (failures slept : Z) (w : World) : World :=
  match rngs with
  | [] => w
  | rng :: rngs' =>
      let rest := renew_sleep (renew_interval handle) cfg failures - slept in
      let (r, w) := renew_once handle (registry_sleep rest w) in
      (renew_loop rngs' handle cfg (renew_after cfg failures (is_ok r)).1 w).2
  end.

(** The task [spawn_renew_loop] spawns. *)
Definition renew_task (s : RenewSchedule) (handle : DiscoveryInstanceHandle) : Task := λ w,
  let '(_, failures, w) := spawn_renew_loop (completed s) handle w in
  (registry_sleep (slept s) w,
   finish_renewals (late s) handle renew_config_default failures (slept s)).

Definition serve_with_discovery_lifecycle (env : ServeEnv)
    (handle : DiscoveryInstanceHandle) (drain_timeout : option Z) (s : RenewSchedule)
    (w : World) : Run :=
  act SpawnRenewLoop
    (serve_with_discovery_lifecycle_and_renew_task env handle drain_timeout
       (renew_task s handle) w).
End Serve.

(** [wait_for_ctrl_c] with the outcome of installing the handler. *)
Definition wait_for_ctrl_c (installed : result string ()) : result ServeError () :=
  map_err Signal installed.

(** ** Specification *)

(** The order of the shutdown: no action comes after one of a later phase. *)
Definition phase (a : Action) : Z :=
  match a with
  | SpawnRenewLoop => 0
  | Bind => 1
  | SendShutdown => 2
  | DrainCompleted | DrainTimedOut => 3
  | Deregister => 4
  | AbortRenewTask => 5
  end.

(** The documented name of a shutdown action. *)
Definition shutdown_stage (a : Action) : option string :=
  match a with
  | DrainCompleted | DrainTimedOut => Some STAGE_DRAIN_RPC_SERVERS
  | Deregister => Some STAGE_DEREGISTER_DISCOVERY_INSTANCE
  | AbortRenewTask => Some STAGE_STOP_DISCOVERY_RENEW_LOOP
  | _ => None
  end.

(** The start-up actions, likewise. *)
Definition bootstrap_stage (a : Action) : option string :=
  match a with
  | SpawnRenewLoop => Some STAGE_START_DISCOVERY_RENEW_LOOP
  | Bind => Some STAGE_BIND_RPC_SERVICES
  | _ => None
  end.

(** The failures that end a run before the deregistration. *)
Definition fails_early (env : ServeEnv) (drain_timeout : option Z) : Prop :=
  (∃ e, bind_result env = Err e) ∨
  (bind_result env = Ok () ∧ ∃ e, stops_early env = Some (Err e)) ∨
  (bind_result env = Ok () ∧ stops_early env = None ∧
   ∃ d e, drain env = Some (d, Err e) ∧
     match drain_timeout with Some t => d ≤ t | None => True end).

(** ** Lemmas *)

Section ServeLemmas.
Context `{MetadataApi}.
Context `{!RegistryApi}.

(** Every run is one of four kinds. *)
Lemma serve_cases env (handle : DiscoveryInstanceHandle) timeout task w :
  let run := serve_with_discovery_lifecycle_and_renew_task env handle timeout task w in
  (fails_early env timeout ∧ ∃ e, run.1.2 = Some (Err (ServeTransport e)) ∧ run.2 = (task w).1 ∧
     run.1.1 ∈ [[Bind]; [Bind; SendShutdown; DrainCompleted]]) ∨
  (¬ fails_early env timeout ∧ run.1.2 = None ∧ timeout = None ∧ drain env = None ∧
     run.2 = (task w).1 ∧ run.1.1 = [Bind; SendShutdown]) ∨
  (¬ fails_early env timeout ∧
     run.1.2 = Some (match (deregister handle (task w).1).1 with
                     | Ok _ => Ok ()
                     | Err e => Err (DiscoveryDeregister (DiscoveryRegistrationError_to_string e))
                     end) ∧
     run.2 = (task w).2 (deregister handle (task w).1).2 ∧
     ((is_Some (stops_early env) ∧ run.1.1 = [Bind; Deregister; AbortRenewTask]) ∨
      ∃ d, (d = DrainCompleted ∨ (d = DrainTimedOut ∧ is_Some timeout)) ∧
        run.1.1 = [Bind; SendShutdown; d; Deregister; AbortRenewTask])).
Proof.
  unfold serve_with_discovery_lifecycle_and_renew_task, deregister_and_abort, fails_early, act.
  destruct (task w) as [w1 rest]; simpl; destruct (deregister handle w1) as [[[]|e] w'];
    destruct (bind_result env) as [[]|]; destruct (stops_early env) as [[[]|]|];
    destruct timeout as [t|]; destruct (drain env) as [[d [[]|]]|]; simpl.
  all: try case_if.
  all: try (right; right; split_and!;
    [naive_solver lia|done|done|first [left; split; [by eexists|done]
      |right; eexists; split; [by left|done]
      |right; eexists; split; [by right; split; [|by eexists]|done]]]; fail).
  all: try (left; split; [naive_solver|eexists; split_and!; [done|done|set_solver]]; fail).
  all: right; left; naive_solver.
Qed.
End ServeLemmas.

(** ** Properties *)

(** the shutdown is ordered: whatever happens, the listener is bound
    before traffic is drained, the drain ends before the instance is
    deregistered, and the renewal task is aborted only after the
    deregistration. *)
Theorem shutdown_ordered `{MetadataApi} `{!RegistryApi}
    env (handle : DiscoveryInstanceHandle) timeout s w :
  StronglySorted Z.lt
    (phase <$> (serve_with_discovery_lifecycle env handle timeout s w).1.1).
Proof.
  unfold serve_with_discovery_lifecycle.
  pose proof (serve_cases env handle timeout (renew_task s handle) w) as Hrun. cbv zeta in Hrun.
  destruct (serve_with_discovery_lifecycle_and_renew_task env handle timeout _ w)
    as [[trace res] w']. simpl in *.
  assert (trace ∈ [[Bind]; [Bind; SendShutdown; DrainCompleted]; [Bind; SendShutdown];
    [Bind; Deregister; AbortRenewTask];
    [Bind; SendShutdown; DrainCompleted; Deregister; AbortRenewTask];
    [Bind; SendShutdown; DrainTimedOut; Deregister; AbortRenewTask]]) as Hin.
  { destruct Hrun as [(_ & e & _ & _ & Ht)|[(_ & _ & _ & _ & _ & ->)|(_ & _ & _ &
      [[_ ->]|(d & [->|[-> _]] & ->)])]]; set_solver. }
  rewrite !elem_of_cons, elem_of_nil in Hin. destruct_or?; subst; simpl; try done;
    repeat constructor; lia.
Qed.

(** C18: a run in which nothing fails before the deregistration, and in which
    a timeout is set or the drain ends, ends the lease: however the renewals
    interleave with it, it deregisters the instance exactly once, aborts the
    renewal task after the answer, reports success exactly when the control
    plane accepted the deregistration, leaves to the control plane exactly the
    deregistration and the renewals before and after it, and after the signal
    goes through the documented shutdown stages in their order. *)
Theorem shutdown_completes `{MetadataApi} `{!RegistryApi}
    env (handle : DiscoveryInstanceHandle) timeout s w :
  ¬ fails_early env timeout →
  (is_Some timeout ∨ is_Some (drain env)) →
  let run := serve_with_discovery_lifecycle env handle timeout s w in
  (∃ front, run.1.1 = front ++ [Deregister; AbortRenewTask] ∧ Deregister ∉ front) ∧
  let (w1, rest) := renew_task s handle w in
  run.2 = rest (deregister handle w1).2 ∧
  (run.1.2 = Some (Ok ()) ↔ (deregister handle w1).1 = Ok ()) ∧
  is_Some run.1.2 ∧
  (stops_early env = None → omap shutdown_stage run.1.1 = SHUTDOWN_STAGES).
Proof.
  intros Hf Hd. unfold serve_with_discovery_lifecycle.
  pose proof (serve_cases env handle timeout (renew_task s handle) w) as Hrun. cbv zeta in Hrun.
  destruct (serve_with_discovery_lifecycle_and_renew_task env handle timeout _ w)
    as [[trace res] w']. simpl in *.
  destruct Hrun as [[? _]|[(_ & _ & -> & Hn & _)|(_ & -> & -> & Ht)]];
    [done|rewrite Hn in Hd; by destruct Hd as [[]|[]]|].
  assert (∃ front, SpawnRenewLoop :: trace = front ++ [Deregister; AbortRenewTask] ∧
    Deregister ∉ front) as Hfront.
  { destruct Ht as [[_ ->]|(d & Hd' & ->)];
      [exists [SpawnRenewLoop; Bind]|exists [SpawnRenewLoop; Bind; SendShutdown; d]];
      (split; [done|]); set_solver. }
  split; [done|]. destruct (renew_task s handle w) as [w1 rest]. simpl in *.
  split_and!; [done|destruct (deregister handle w1) as [[[]|] ?]; naive_solver|by eexists|].
  intros Hs. destruct Ht as [[[? Hs'] _]|(d & [->|[-> _]] & ->)]; [congruence|done..].
Qed.

(** a drain timeout bounds the shutdown: with one configured every run
    returns, even when a call never finishes. *)
Theorem drain_timeout_bounds_shutdown `{MetadataApi} `{!RegistryApi}
    env (handle : DiscoveryInstanceHandle) t s w :
  is_Some (serve_with_discovery_lifecycle env handle (Some t) s w).1.2.
Proof.
  unfold serve_with_discovery_lifecycle.
  pose proof (serve_cases env handle (Some t) (renew_task s handle) w) as Hrun. cbv zeta in Hrun.
  destruct (serve_with_discovery_lifecycle_and_renew_task env handle (Some t) _ w)
    as [[trace res] w']. simpl in *.
  destruct Hrun as [(_ & e & -> & _)|[(_ & _ & ? & _)|(_ & -> & _)]]; [by eexists|done|by eexists].
Qed.

(** C35: when the bind, the server or the drain fails, the run returns without
    deregistering the instance and without aborting the renewal task, which
    keeps the lease of a dead server alive. *)
Theorem early_failure_leaks_registration `{MetadataApi} `{!RegistryApi}
    env (handle : DiscoveryInstanceHandle) timeout s w :
  fails_early env timeout →
  let run := serve_with_discovery_lifecycle env handle timeout s w in
  SpawnRenewLoop ∈ run.1.1 ∧ (Deregister ∉ run.1.1) ∧ (AbortRenewTask ∉ run.1.1) ∧
  run.2 = (renew_task s handle w).1 ∧ ∃ e, run.1.2 = Some (Err (ServeTransport e)).
Proof.
  intros Hf. unfold serve_with_discovery_lifecycle.
  pose proof (serve_cases env handle timeout (renew_task s handle) w) as Hrun. cbv zeta in Hrun.
  destruct (serve_with_discovery_lifecycle_and_renew_task env handle timeout _ w)
    as [[trace res] w']. simpl in *.
  destruct Hrun as [(_ & e & -> & Hw & Ht)|[[? _]|[? _]]]; [|done|done].
  rewrite !elem_of_cons, elem_of_nil in Ht.
  destruct_or?; subst; try done; split_and!; [set_solver..|done|by eexists|set_solver
    |set_solver|set_solver|done|by eexists].
Qed.

(** the documented bootstrap order is not the one the server follows: the
    renewal loop of the registered instance starts before the listener is
    bound, although the stages bind first. *)
Theorem renewal_starts_before_bind `{MetadataApi} `{!RegistryApi}
    env (handle : DiscoveryInstanceHandle) timeout s w :
  omap bootstrap_stage (serve_with_discovery_lifecycle env handle timeout s w).1.1
  = [STAGE_START_DISCOVERY_RENEW_LOOP; STAGE_BIND_RPC_SERVICES] ∧
  filter (λ s, s ∈ [STAGE_START_DISCOVERY_RENEW_LOOP; STAGE_BIND_RPC_SERVICES]) BOOTSTRAP_STAGES
  = [STAGE_BIND_RPC_SERVICES; STAGE_START_DISCOVERY_RENEW_LOOP].
Proof.
  split; [|vm_compute; reflexivity]. unfold serve_with_discovery_lifecycle.
  pose proof (serve_cases env handle timeout (renew_task s handle) w) as Hrun. cbv zeta in Hrun.
  destruct (serve_with_discovery_lifecycle_and_renew_task env handle timeout _ w)
    as [[trace res] w']. simpl in *.
  destruct Hrun as [(_ & e & _ & _ & Ht)|[(_ & _ & _ & _ & _ & ->)|(_ & _ & _ &
    [[_ ->]|(d & [->|[-> _]] & ->)])]]; try done.
  rewrite !elem_of_cons, elem_of_nil in Ht. by destruct_or?; subst.
Qed.

(** ** Witnesses *)

Definition quiet_env : ServeEnv :=
  {| bind_result := Ok (); stops_early := None; drain := Some (Duration.from_secs 2, Ok ()) |}.
Definition port_taken : ServeEnv :=
  {| bind_result := Err "address in use"; stops_early := None; drain := None |}.

(** Two renewals before the deregistration, and one that is served after it. *)
Definition overlapping : RenewSchedule :=
  {| completed := [toy_random; toy_random]; slept := Duration.from_secs 9; late := [toy_random] |}.

(** The control plane has counted four calls. *)
Lemma shutdown_completes_witness :
  let run := @serve_with_discovery_lifecycle toy_metadata toy_registry quiet_env
    (test_handle 30) (Some (Duration.from_secs 5)) overlapping O in
  omap shutdown_stage run.1.1 = SHUTDOWN_STAGES ∧ run.2 = 4%nat.
Proof.
  destruct (@shutdown_completes toy_metadata toy_registry quiet_env (test_handle 30)
    (Some (Duration.from_secs 5)) overlapping O) as (_ & Hw & _ & _ & Hstages);
    [|left; eexists; reflexivity|].
  - intros [[e He]|[[_ [e He]]|(_ & _ & d & e & He & _)]]; discriminate He.
  - split; [by apply Hstages|]. rewrite Hw. reflexivity.
Defined.

Lemma early_failure_leaks_registration_witness :
  AbortRenewTask ∉
    (@serve_with_discovery_lifecycle toy_metadata toy_registry port_taken (test_handle 30) None
       overlapping O).1.1.
Proof.
  apply (@early_failure_leaks_registration toy_metadata toy_registry port_taken (test_handle 30)
    None overlapping O). left. eexists. reflexivity.
Defined.
