(* ===== verification/LifecycleEvents.v ===== *)
(** * LifecycleEvents: what registration, renewal and shutdown log

    [register], the renewal loop and [deregister] of
    [sdkwork-rpc-discovery/src/lifecycle.rs] and the serve functions of
    [sdkwork-rpc-server/src/lib.rs], with their events. *)
From S2P Require Import Prelude RustStd Core Interfaces Tracing Tls ClientMetadata Transport.
From S2P Require Import DiscoveryMetadata DiscoveryLifecycle Server.

(** ** The events of [lifecycle.rs] *)

(** [register] and [deregister] name no target. *)
Definition LIFECYCLE_MODULE : string := "sdkwork_rpc_discovery::lifecycle".
Definition RENEW_TARGET : string := "sdkwork.rpc.discovery.renew".

Definition registered_event (c : DiscoveryInstanceConfig) (lease : string) : Event := {|
  level := INFO; target := LIFECYCLE_MODULE;
  fields := [("service_name", Text (service_name c)); ("instance_id", Text (instance_id c));
             ("lease_id", Text lease)];
  message := "registered rpc instance with sdkwork-discovery"
|}.

Definition deregistered_event (c : DiscoveryInstanceConfig) : Event := {|
  level := INFO; target := LIFECYCLE_MODULE;
  fields := [("service_name", Text (service_name c)); ("instance_id", Text (instance_id c))];
  message := "deregistered rpc instance from sdkwork-discovery"
|}.

Definition recovered_event (c : DiscoveryInstanceConfig) (failures : Z) : Event := {|
  level := INFO; target := RENEW_TARGET;
  fields := [("service_name", Text (service_name c)); ("instance_id", Text (instance_id c));
             ("previous_failures", Num failures)];
  message := "discovery lease renewal recovered after failures"
|}.

Definition critical_event (c : DiscoveryInstanceConfig) (failures : Z) (error : string) : Event := {|
  level := ERROR; target := RENEW_TARGET;
  fields := [("service_name", Text (service_name c)); ("instance_id", Text (instance_id c));
             ("consecutive_failures", Num failures);
             ("lease_ttl_seconds", Num (lease_ttl_seconds c)); ("error", Text error)];
  message := "discovery lease renewal has failed beyond threshold; lease likely expired and instance will be evicted"
|}.

Definition backing_off_event (c : DiscoveryInstanceConfig) (failures : Z) (error : string) : Event := {|
  level := WARN; target := RENEW_TARGET;
  fields := [("service_name", Text (service_name c)); ("instance_id", Text (instance_id c));
             ("consecutive_failures", Num failures); ("error", Text error)];
  message := "discovery lease renewal failed, backing off"
|}.

(** ** The functions of [lifecycle.rs] *)

Section Lifecycle.
Context `{MetadataApi, UtilsApi, MetadataKeys}.
Context `{!RegistryApi}.
Open Scope logged_scope.

Definition register_logged (config : DiscoveryInstanceConfig) (write_ids read_ids : CallIds)
    (w : World) : logged (result DiscoveryRegistrationError DiscoveryInstanceHandle * World) :=
  match config_validate config with
  | Err e => quiet (Err e, w)
  | Ok _ =>
      match connect (discovery_endpoint config) w with
      | (Err e, w) => quiet (Err e, w)
      | (Ok client, w) =>
          let template :=
            unsigned_registry_write_metadata (config_subject_id config) write_ids in
          match resolve_expected_revision client config read_ids w with
          | (Err e, w) => quiet (Err e, w)
          | (Ok expected_revision, w) =>
              match register_instance client (register_request config expected_revision)
                      (request_headers template) w with
              | (Err status, w) => quiet (Err (map_status status), w)
              | (Ok lease_id, w) =>
                  if is_blank (Some lease_id) then
                    quiet (Err (RegRpc "register_instance returned empty lease_id"), w)
                  else
                    let renew_interval :=
                      Duration.from_secs (Z.max (lease_ttl_seconds config) 3 / 3) in
                    emit (registered_event config lease_id) ;!
                    quiet (Ok {| client := client; config := config; lease_id := lease_id;
                                 renew_interval := renew_interval;
                                 metadata_template := template |}, w)
              end
          end
      end
  end.

Definition deregister_logged (self : DiscoveryInstanceHandle) (w : World) :
    logged (result DiscoveryRegistrationError () * World) :=
  match deregister_instance (client self) (instance_key (config self))
          (request_headers (metadata_template self)) w with
  | (Err status, w) => quiet (Err (map_status status), w)
  | (Ok _, w) => emit (deregistered_event (config self)) ;! quiet (Ok (), w)
  end.
End Lifecycle.

Section RenewLoop.
Context `{MetadataApi}.
Context `{!RegistryApi}.
Open Scope logged_scope.

(** One iteration of the loop: the counter and the world it leaves. *)
Definition renew_pass_logged (rng : RandomApi) (handle : DiscoveryInstanceHandle)
    (cfg : RenewLoopConfig) (failures : Z) (w : World) : logged (Z * World) :=
  let slept :=
    if failures =? 0 then renew_interval handle
    else renew_backoff failures (initial_backoff cfg) (max_backoff cfg) in
  let w := registry_sleep slept w in
  match renew_once handle w with
  | (Ok _, w) =>
      (if 0 <? failures then emit (recovered_event (config handle) failures) else quiet ()) ;!
      quiet (0, w)
  | (Err error, w) =>
      let failures := saturating_add u32_max failures 1 in
      emit ((if max_consecutive_failures cfg <=? failures then critical_event else backing_off_event)
              (config handle) failures (DiscoveryRegistrationError_to_string error)) ;!
      quiet (failures, w)
  end.

Fixpoint renew_loop_logged (rngs : list RandomApi) (handle : DiscoveryInstanceHandle)
    (cfg : RenewLoopConfig) (failures : Z) (w : World) : logged (Z * World) :=
  match rngs with
  | [] => quiet (failures, w)
  | rng :: rngs' =>
      let! (failures, w) := renew_pass_logged rng handle cfg failures w in
      renew_loop_logged rngs' handle cfg failures w
  end.

Definition spawn_renew_loop_with_config_logged (rngs : list RandomApi)
    (handle : DiscoveryInstanceHandle) (cfg : RenewLoopConfig) (w : World) : logged (Z * World) :=
  renew_loop_logged rngs handle cfg 0 w.
End RenewLoop.

(** ** The events of the server's [lib.rs] *)

Definition shutdown_event : Event := {|
  level := INFO; target := "sdkwork.rpc.server.shutdown"; fields := [];
  message := "shutdown signal received, draining rpc server"
|}.

Definition drained_event : Event := {|
  level := INFO; target := "sdkwork.rpc.server.drain"; fields := [];
  message := "rpc server drained within timeout"
|}.

Definition drain_timeout_event (timeout : Z) : Event := {|
  level := WARN; target := "sdkwork.rpc.server.drain";
  fields := [("drain_timeout_ms", Num (as_u64 (Duration.as_millis timeout)))];
  message := "rpc server drain exceeded timeout; in-flight RPCs will be cancelled"
|}.

Definition deregister_failed_event (error : string) : Event := {|
  level := ERROR; target := "sdkwork.rpc.server.discovery";
  fields := [("error", Text error)];
  message := "discovery deregister failed during shutdown"
|}.

Definition clean_shutdown_event : Event := {|
  level := INFO; target := "sdkwork.rpc.server.discovery"; fields := [];
  message := "discovery instance deregistered cleanly"
|}.

(** ** The serve functions *)

Section Serve.
Context `{MetadataApi}.
Context `{!RegistryApi}.
Open Scope logged_scope.

(** [a;; run]: an action before the rest of the run. *)
Definition act_logged (a : Action) (r : logged Run) : logged Run :=
  Logged (act a (value r)) (events r).

Definition deregister_and_abort_logged (handle : DiscoveryInstanceHandle) (rest : World → World)
    (w : World) : logged Run :=
  act_logged Deregister
    (let! (r, w) := deregister_logged handle w in
     match r with
     | Err error =>
         emit (deregister_failed_event (DiscoveryRegistrationError_to_string error)) ;!
         act_logged AbortRenewTask
           (quiet ([], Some (Err (DiscoveryDeregister (DiscoveryRegistrationError_to_string error))),
                  rest w))
     | Ok _ =>
         emit clean_shutdown_event ;!
         act_logged AbortRenewTask (quiet ([], Some (Ok ()), rest w))
     end).

Definition serve_with_discovery_lifecycle_and_renew_task_logged (env : ServeEnv)
    (handle : DiscoveryInstanceHandle) (drain_timeout : option Z)
    (renew_task : Task) (w : World) : logged Run :=
  let (w, rest) := renew_task w in
  act_logged Bind
    (match bind_result env with
     | Err error => quiet ([], Some (Err (ServeTransport error)), w)
     | Ok _ =>
         match stops_early env with
         | Some (Err error) => quiet ([], Some (Err (ServeTransport error)), w)
         | Some (Ok _) => deregister_and_abort_logged handle rest w
         | None =>
             emit shutdown_event ;!
             act_logged SendShutdown
               (match drain_timeout, drain env with
                | Some timeout, Some (elapsed, r) =>
                    if elapsed <=? timeout then
                      act_logged DrainCompleted
                        (match r with
                         | Ok _ => emit drained_event ;! deregister_and_abort_logged handle rest w
                         | Err error => quiet ([], Some (Err (ServeTransport error)), w)
                         end)
                    else
                      act_logged DrainTimedOut
                        (emit (drain_timeout_event timeout) ;!
                         deregister_and_abort_logged handle rest w)
                | Some timeout, None =>
                    act_logged DrainTimedOut
                      (emit (drain_timeout_event timeout) ;!
                       deregister_and_abort_logged handle rest w)
                | None, Some (_, r) =>
                    act_logged DrainCompleted
                      (match r with
                       | Ok _ => deregister_and_abort_logged handle rest w
                       | Err error => quiet ([], Some (Err (ServeTransport error)), w)
                       end)
                | None, None => quiet ([], None, w)
                end)
         end
     end).

Definition serve_with_discovery_lifecycle_logged (env : ServeEnv)
    (handle : DiscoveryInstanceHandle) (drain_timeout : option Z) (s : RenewSchedule)
    (w : World) : logged Run :=
  act_logged SpawnRenewLoop
    (serve_with_discovery_lifecycle_and_renew_task_logged env handle drain_timeout
       (renew_task s handle) w).
End Serve.

(** ** Specification *)

(** What the outcomes of the renewals say the loop has to log, with the number
    each event reports: the failures before a recovery, or the failures in a
    row so far. *)
Fixpoint renewal_log (cfg : RenewLoopConfig) (count : Z) (outcomes : list bool) :
    list (RenewLog * Z) :=
  match outcomes with
  | [] => []
  | true :: outcomes' =>
      (if 0 <? count then [(Recovered, count)] else []) ++ renewal_log cfg 0 outcomes'
  | false :: outcomes' =>
      (if max_consecutive_failures cfg <=? count + 1 then Critical else BackingOff, count + 1)
        :: renewal_log cfg (count + 1) outcomes'
  end.

(** The kind of a renewal event, by its level, and the number it carries. *)
Definition renewal_entry (e : Event) : option (RenewLog * Z) :=
  match level e with
  | INFO => n ← event_num "previous_failures" e; Some (Recovered, n)
  | WARN => n ← event_num "consecutive_failures" e; Some (BackingOff, n)
  | ERROR => n ← event_num "consecutive_failures" e; Some (Critical, n)
  | DEBUG => None
  end.

(** Every event names the instance. *)
Definition names_instance (c : DiscoveryInstanceConfig) (e : Event) : Prop :=
  target e = RENEW_TARGET ∧
  event_field "service_name" e = Some (Text (service_name c)) ∧
  event_field "instance_id" e = Some (Text (instance_id c)).

(** The events an action of the serve function comes with, given the drain
    timeout and the result of the run. *)
Definition announce (c : DiscoveryInstanceConfig) (timeout : option Z)
    (res : option (result ServeError ())) (a : Action) : list Event :=
  match a with
  | SpawnRenewLoop | Bind | AbortRenewTask => []
  | SendShutdown => [shutdown_event]
  | DrainCompleted =>
      match timeout, res with
      | Some _, Some (Err (ServeTransport _)) => []
      | Some _, _ => [drained_event]
      | None, _ => []
      end
  | DrainTimedOut => match timeout with Some t => [drain_timeout_event t] | None => [] end
  | Deregister =>
      match res with
      | Some (Ok _) => [deregistered_event c; clean_shutdown_event]
      | Some (Err (DiscoveryDeregister e)) => [deregister_failed_event e]
      | _ => []
      end
  end.

(** ** Lemmas *)

Section RenewLemmas.
Context `{MetadataApi}.
Context `{!RegistryApi}.

Lemma renew_loop_logged_spec rngs (handle : DiscoveryInstanceHandle) cfg failures w :
  0 ≤ failures → failures + Z.of_nat (length rngs) < u32_max →
  let r := renew_loop_logged rngs handle cfg failures w in
  let run := renew_loop rngs handle cfg failures w in
  value r = (run.1.2, run.2) ∧
  renewal_entry <$> events r = Some <$> renewal_log cfg failures (pass_renewed <$> run.1.1) ∧
  Forall (names_instance (config handle)) (events r).
Proof.
  cbn zeta. revert failures w. induction rngs as [|rng rngs IH]; intros failures w Hf Hlen; [done|].
  cbn [renew_loop_logged renew_loop length] in *. rewrite value_bind, events_bind.
  unfold renew_pass_logged, renew_pass, renew_sleep.
  set (slept := if failures =? 0 then _ else _).
  destruct (renew_once handle (registry_sleep slept w)) as [[[]|error] w1]; cbn [is_ok].
  - rewrite renew_after_count by lia. rewrite value_bind, events_bind. cbn [value events quiet].
    destruct (IH 0 w1) as (Hv & He & Hn); [lia..|]. rewrite Hv.
    destruct (renew_loop rngs handle cfg 0 w1) as [[passes f] w2]. cbn [fst snd] in *.
    split; [done|]. rewrite !fmap_app, He. cbn [fmap list_fmap pass_renewed renewal_log].
    rewrite !fmap_app, app_nil_r. split.
    + f_equal. by destruct (0 <? failures).
    + apply Forall_app. split; [|done]. by destruct (0 <? failures); repeat constructor.
  - rewrite renew_after_count by lia. rewrite value_bind, events_bind. cbn [value events quiet emit].
    unfold saturating_add. rewrite Z.min_r by lia.
    destruct (IH (failures + 1) w1) as (Hv & He & Hn); [lia..|]. rewrite Hv.
    destruct (renew_loop rngs handle cfg (failures + 1) w1) as [[passes f] w2]. cbn [fst snd] in *.
    split; [done|]. rewrite !fmap_app, He. cbn [fmap list_fmap pass_renewed renewal_log app].
    split; [|repeat (constructor || apply Forall_app || split); [..|done]];
      by destruct (max_consecutive_failures cfg <=? failures + 1).
Qed.

(** An alarm is due exactly when the failures in a row reach the threshold. *)
Lemma renewal_log_critical cfg count outcomes :
  0 ≤ count →
  (∃ n, (Critical, n) ∈ renewal_log cfg count outcomes) ↔
  ∃ i, outcomes !! i = Some false ∧
    max_consecutive_failures cfg ≤ failures_in_a_row count (take (S i) outcomes).
Proof.
  revert count. induction outcomes as [|[] outcomes IH]; intros count Hc; simpl.
  - split; [by intros [n ?%not_elem_of_nil]|by intros (i & ? & _)].
  - setoid_rewrite elem_of_app. split.
    + intros [n [Hn|Hn]]; [destruct (0 <? count); set_solver|].
      destruct (proj1 (IH 0 ltac:(lia)) (ex_intro _ n Hn)) as (i & Hi & Hm). by exists (S i).
    + intros ([|i] & Hi & Hm); [done|]. destruct (proj2 (IH 0 ltac:(lia))) as [n Hn]; [by exists i|].
      exists n. by right.
  - setoid_rewrite elem_of_cons. split.
    + intros [n [Hn|Hn]]; [exists 0%nat; simpl; split; [done|]|].
      * destruct (Z.leb_spec (max_consecutive_failures cfg) (count + 1)); [done|by simplify_eq].
      * destruct (proj1 (IH (count + 1) ltac:(lia)) (ex_intro _ n Hn)) as (i & Hi & Hm). by exists (S i).
    + intros ([|i] & Hi & Hm).
      * exists (count + 1). left. simpl in Hm.
        by rewrite (proj2 (Z.leb_le (max_consecutive_failures cfg) (count + 1))).
      * destruct (proj2 (IH (count + 1) ltac:(lia))) as [n Hn]; [by exists i|]. exists n. by right.
Qed.

Lemma deregister_logged_value (handle : DiscoveryInstanceHandle) w :
  value (deregister_logged handle w) = deregister handle w.
Proof.
  unfold deregister_logged, deregister. by destruct (deregister_instance _ _ _ w) as [[[]|] ?].
Qed.

Lemma deregister_logged_events (handle : DiscoveryInstanceHandle) w :
  events (deregister_logged handle w) =
  match (deregister handle w).1 with Ok _ => [deregistered_event (config handle)] | Err _ => [] end.
Proof.
  unfold deregister_logged, deregister. by destruct (deregister_instance _ _ _ w) as [[[]|] ?].
Qed.

(** The tail, whose trace is fixed. *)
Lemma deregister_and_abort_logged_spec (handle : DiscoveryInstanceHandle) timeout rest w :
  let r := deregister_and_abort_logged handle rest w in
  let run := deregister_and_abort handle rest w in
  value r = run ∧ run.1.1 = [Deregister; AbortRenewTask] ∧
  (∀ e, run.1.2 ≠ Some (Err (ServeTransport e))) ∧
  events r = run.1.1 ≫= announce (config handle) timeout run.1.2.
Proof.
  cbn zeta. unfold deregister_and_abort_logged, deregister_and_abort, act_logged.
  rewrite value_bind, events_bind, deregister_logged_events, deregister_logged_value.
  by destruct (deregister handle w) as [[[]|error] w'].
Qed.
End RenewLemmas.

(** ** Properties *)

(** C26: the log of the renewal loop is an account of the renewals: for runs of up
    to [u32::MAX] iterations its events are, in order, one warning or error per
    failed renewal with the number of failures in a row, an error from the
    threshold on, and one information per recovery with the failures before it;
    a steady renewal logs nothing; every event names the instance; and an
    error is logged exactly when the threshold has been reached. *)
Theorem renewal_log_exact `{MetadataApi} `{!RegistryApi}
    rngs (handle : DiscoveryInstanceHandle) cfg w :
  Z.of_nat (length rngs) < u32_max →
  let r := spawn_renew_loop_with_config_logged rngs handle cfg w in
  let '(passes, failures, w') := spawn_renew_loop_with_config rngs handle cfg w in
  let outcomes := pass_renewed <$> passes in
  value r = (failures, w') ∧
  renewal_entry <$> events r = Some <$> renewal_log cfg 0 outcomes ∧
  Forall (names_instance (config handle)) (events r) ∧
  ((∃ e, e ∈ events r ∧ level e = ERROR) ↔
   ∃ i, outcomes !! i = Some false ∧
     max_consecutive_failures cfg ≤ failures_in_a_row 0 (take (S i) outcomes)).
Proof.
  intros Hlen. cbn zeta.
  pose proof (renew_loop_logged_spec rngs handle cfg 0 w) as Hspec. cbn zeta in Hspec.
  unfold spawn_renew_loop_with_config_logged, spawn_renew_loop_with_config.
  destruct (renew_loop rngs handle cfg 0 w) as [[passes f] w']. cbn [fst snd] in Hspec.
  destruct Hspec as (Hv & He & Hn); [lia..|]. split_and!; [done..|].
  rewrite <- renewal_log_critical by lia. split.
  - intros (e & Hin & Hlev). pose proof (list_elem_of_fmap_2 renewal_entry _ _ Hin) as Hent.
    rewrite He in Hent. apply list_elem_of_fmap in Hent as ([k n] & Hk & Hin').
    exists n. unfold renewal_entry in Hk. rewrite Hlev in Hk.
    destruct (event_num _ e); by simplify_eq/=.
  - intros (n & Hin). pose proof (list_elem_of_fmap_2 Some _ _ Hin) as Hent.
    rewrite <- He in Hent. apply list_elem_of_fmap in Hent as (e & Hk & Hin').
    exists e. split; [done|]. unfold renewal_entry in Hk.
    destruct (level e); try done; destruct (event_num _ e); by simplify_eq/=.
Qed.

(** C25: the log of a server run tells the run: its events are those of its actions,
    in their order. The signal is announced before the drain, a forced teardown
    by a warning with the timeout and a drain in time by an information, a
    deregistration by two informations or one error; a run that fails before
    the deregistration ends without an event of its own. *)
Theorem shutdown_log_tells_run `{MetadataApi} `{!RegistryApi}
    env (handle : DiscoveryInstanceHandle) timeout s w :
  let r := serve_with_discovery_lifecycle_logged env handle timeout s w in
  let run := serve_with_discovery_lifecycle env handle timeout s w in
  value r = run ∧
  events r = run.1.1 ≫= announce (config handle) timeout run.1.2.
Proof.
  cbn zeta. unfold serve_with_discovery_lifecycle_logged, serve_with_discovery_lifecycle.
  unfold serve_with_discovery_lifecycle_and_renew_task_logged.
  unfold serve_with_discovery_lifecycle_and_renew_task, act_logged.
  destruct (renew_task s handle w) as [w1 rest].
  destruct (bind_result env) as [[]|]; [|done].
  destruct (deregister_and_abort_logged_spec handle timeout rest w1) as (Hv & Ht & Hne & He).
  destruct (deregister_and_abort handle rest w1) as [[trace res] w'].
  set (tail := deregister_and_abort_logged _ _ _) in *. clearbody tail.
  simpl in Ht, Hne, He. subst trace.
  destruct (stops_early env) as [[[]|]|]; [simpl; by rewrite Hv, He|done|].
  destruct timeout as [t|], (drain env) as [[d [[]|]]|]; try (by destruct (d <=? t));
    try (destruct (d <=? t)); simpl; rewrite ?Hv, ?He; try done.
  all: split; [done|]; destruct res as [[[]|[e|e|e]]|]; try done; by destruct (Hne e).
Qed.

(** a registration is announced once, with the lease it was granted, when and
    only when it succeeds. *)
Theorem registration_logged_once `{MetadataApi, UtilsApi, MetadataKeys} `{!RegistryApi}
    c ids ids' (w : World) :
  let r := register_logged c ids ids' w in
  value r = register c ids ids' w ∧
  events r =
    match (register c ids ids' w).1 with
    | Ok h => [registered_event c (lease_id h)]
    | Err _ => []
    end.
Proof.
  cbn zeta. unfold register_logged, register. destruct (config_validate c); [|done].
  destruct (connect _ w) as [[client|] w1]; [|done].
  destruct (resolve_expected_revision client c ids' w1) as [[rev|] w2]; [|done].
  destruct (register_instance _ _ _ w2) as [[lease|] w3]; [|done].
  by destruct (is_blank (Some lease)).
Qed.

(** ** Witnesses *)

Lemma renewal_log_exact_witness :
  renewal_entry <$> events (@spawn_renew_loop_with_config_logged toy_metadata deaf_registry
      [toy_random; toy_random; toy_random] (deaf_handle 30) renew_config_default O) =
  [Some (BackingOff, 1); Some (BackingOff, 2); Some (Critical, 3)].
Proof.
  destruct (@renewal_log_exact toy_metadata deaf_registry [toy_random; toy_random; toy_random]
    (deaf_handle 30) renew_config_default O) as (_ & He & _); [by_compute|].
  rewrite He. reflexivity.
Defined.
