(* ===== verification/DiscoveryResolver.v ===== *)
(** * DiscoveryResolver: resolving names through the control plane

    Models [sdkwork-rpc-client/src/discovery_resolver.rs]. The control plane,
    the clock and the random draws are the parameter [DiscoveryApi]; the
    generated protobuf enumerations are the parameter [DiscoveryProto]. *)
From S2P Require Import Prelude RustStd Core Interfaces ClientMetadata LoadBalance Transport.
From S2P Require Import DiscoveryMetadata.

(** ** Messages *)

(** The variants of the generated enumerations that the code tests for. *)
Inductive InstanceStatus : Type := Serving | Degraded | OtherStatus.
Inductive WatchEventType : Type :=
  Unspecified | Heartbeat | InstanceDeregistered | OtherEvent.

#[global] Instance InstanceStatus_eq_dec : EqDecision InstanceStatus.
Proof. solve_decision. Defined.
#[global] Instance WatchEventType_eq_dec : EqDecision WatchEventType.
Proof. solve_decision. Defined.

Class DiscoveryProto : Type := {
  instance_status_try_from : Z → option InstanceStatus;
  watch_event_type_try_from : Z → option WatchEventType
}.

Record ServiceInstance : Type := {
  instance_endpoint : string;
  instance_weight : Z;
  instance_status : Z
}.

Record DiscoverInstancesRequest : Type := {
  disc_namespace : string;
  disc_environment : string;
  disc_service_name : string;
  disc_healthy_only : bool;
  disc_protocol : string;
  disc_label_filters : list string;
  disc_sort_by : Z;
  disc_page : option ()
}.

Record WatchServiceRequest : Type := {
  watch_namespace : string;
  watch_environment : string;
  watch_service_name : string;
  watch_from_revision : Z
}.

Record WatchMessage : Type := {
  msg_revision : option Z;
  msg_event_type : Z;
  msg_instance : option ServiceInstance
}.

(** [watch_service] answers with the messages of the stream, each with the
    time it arrives, and with the error that ends the stream, if one does. *)
Class DiscoveryApi `{MetadataApi} : Type := {
  World : Type;
  DiscoveryChannel : Type;
  instant_now : World → Z;
  draw_call_ids : World → CallIds * World;
  discovery_connect : string → World → result string DiscoveryChannel * World;
  discover_instances :
    DiscoveryChannel → DiscoverInstancesRequest → MetadataMap → World →
    result string (list ServiceInstance) * World;
  watch_service :
    DiscoveryChannel → WatchServiceRequest → MetadataMap → World →
    result string (list (Z * WatchMessage) * option string) * World;
  discovery_sleep : Z → World → World
}.

(** ** The resolver *)

Record DiscoveryNameResolverConfig : Type := {
  res_discovery_endpoint : string;
  res_namespace : string;
  res_environment : string;
  res_subject_id : string;
  healthy_only : bool;
  res_protocol : string
}.

Definition resolver_config_validate `{UtilsApi} (self : DiscoveryNameResolverConfig) :
    RpcFrameworkResult () :=
  map_err Validation (require_non_blank (res_discovery_endpoint self) "discovery_endpoint") ;?
  map_err Validation (require_non_blank (res_namespace self) "namespace") ;?
  map_err Validation (require_non_blank (res_environment self) "environment") ;?
  map_err Validation (require_non_blank (res_subject_id self) "subject_id") ;?
  map_err Validation (require_non_blank (res_protocol self) "protocol").

Section Resolver.
Context `{MetadataApi, UtilsApi, MetadataKeys, DiscoveryProto}.
Context `{!DiscoveryApi}.

(** [channel] is the contents of the shared [OnceCell]. *)
Record DiscoveryNameResolver : Type := {
  res_config : DiscoveryNameResolverConfig;
  channel : option DiscoveryChannel
}.

Definition resolver_new (config : DiscoveryNameResolverConfig) :
    RpcFrameworkResult DiscoveryNameResolver :=
  resolver_config_validate config ;?
  Ok {| res_config := config; channel := None |}.

Definition get_or_init_channel (self : DiscoveryNameResolver) (w : World) :
    RpcFrameworkResult DiscoveryChannel * DiscoveryNameResolver * World :=
  match channel self with
  | Some ch => (Ok ch, self, w)
  | None =>
      let endpoint := normalize_http_endpoint (res_discovery_endpoint (res_config self)) in
      match discovery_connect endpoint w with
      | (Err error, w) => (Err (Transport error), self, w)
      | (Ok ch, w) => (Ok ch, {| res_config := res_config self; channel := Some ch |}, w)
      end
  end.

Definition map_discovered_instance (instance : ServiceInstance) : option ResolvedEndpoint :=
  if is_blank (Some (instance_endpoint instance)) then None
  else
    let healthy :=
      match instance_status_try_from (instance_status instance) with
      | Some Serving | Some Degraded => true
      | _ => false
      end in
    Some {| endpoint := instance_endpoint instance;
            weight := Z.max (instance_weight instance) 1;
            healthy := healthy |}.

Definition discover_request (self : DiscoveryNameResolver) (service_name : string) :
    DiscoverInstancesRequest := {|
  disc_namespace := res_namespace (res_config self);
  disc_environment := res_environment (res_config self);
  disc_service_name := service_name;
  disc_healthy_only := healthy_only (res_config self);
  disc_protocol := res_protocol (res_config self);
  disc_label_filters := [];
  disc_sort_by := 0;
  disc_page := None
|}.

Definition discover_endpoints (self : DiscoveryNameResolver) (service_name : string)
    (w : World) :
    RpcFrameworkResult (list ResolvedEndpoint) * DiscoveryNameResolver * World :=
  match get_or_init_channel self w with
  | (Err e, self, w) => (Err e, self, w)
  | (Ok ch, self, w) =>
      let (ids, w) := draw_call_ids w in
      let headers :=
        apply_metadata_template metadata_new
          (unsigned_registry_read_metadata (res_subject_id (res_config self)) ids) in
      match discover_instances ch (discover_request self service_name) headers w with
      | (Err error, w) => (Err (Discovery error), self, w)
      | (Ok instances, w) =>
          let endpoints :=
            filter (λ e, healthy e = true) (omap map_discovered_instance instances) in
          if bool_decide (endpoints = []) then
            (Err (Discovery ("no healthy instances resolved for service " +:+ service_name)),
             self, w)
          else (Ok endpoints, self, w)
      end
  end.

Definition discovery_resolve (service_name : string) (r : DiscoveryNameResolver * World) :
    RpcFrameworkResult (list ResolvedEndpoint) * (DiscoveryNameResolver * World) :=
  let (self, w) := r in
  if is_blank (Some service_name) then (Err (Validation "service_name is required"), (self, w))
  else
    match discover_endpoints self service_name w with
    | (res, self, w) => (res, (self, w))
    end.

#[global] Instance discovery_resolver : NameResolver (DiscoveryNameResolver * World) :=
  {| resolve := discovery_resolve |}.

(** ** Specification *)

(** An endpoint load balancing may pick. *)
Definition endpoint_ok (e : ResolvedEndpoint) : Prop :=
  trim (endpoint e) ≠ "" ∧ 1 ≤ weight e ∧ healthy e = true.

(** ** Lemmas *)

Context `{!UtilsLaws}.

Lemma map_discovered_instance_Some i e :
  map_discovered_instance i = Some e →
  trim (endpoint e) ≠ "" ∧ 1 ≤ weight e ∧ endpoint e = instance_endpoint i ∧
  (healthy e = true ↔ instance_status_try_from (instance_status i) = Some Serving ∨
                      instance_status_try_from (instance_status i) = Some Degraded).
Proof.
  unfold map_discovered_instance. rewrite is_blank_Some. unfold str_is_empty.
  case_bool_decide as Hb; [done|]. intros [= <-]. simpl. split_and!; [done|lia|done|].
  destruct (instance_status_try_from _) as [[]|]; split; first [done | by auto | by intros [?|?]].
Qed.

Lemma discover_endpoints_ok self service w es self' w' :
  discover_endpoints self service w = (Ok es, self', w') → es ≠ [] ∧ Forall endpoint_ok es.
Proof.
  unfold discover_endpoints.
  destruct (get_or_init_channel self w) as [[[ch|] self1] w1]; [|done].
  destruct (draw_call_ids w1) as [ids w2].
  destruct (discover_instances _ _ _ w2) as [[instances|] w3]; [|done].
  case_bool_decide as Hne; [done|]. intros [= <- _ _]. split; [done|].
  apply Forall_forall. intros e [He Hin]%list_elem_of_filter.
  apply list_elem_of_omap in Hin as (i & _ & Hi).
  apply map_discovered_instance_Some in Hi as (? & ? & _ & _). by split_and!.
Qed.

Lemma discovery_resolve_ok service r es r' :
  discovery_resolve service r = (Ok es, r') → es ≠ [] ∧ Forall endpoint_ok es.
Proof.
  destruct r as [self w]. unfold discovery_resolve. case_match; [done|].
  destruct (discover_endpoints self service w) as [[res self1] w1] eqn:Hd.
  intros [= -> _]. by eapply discover_endpoints_ok.
Qed.

#[global] Instance discovery_resolver_non_empty :
  NonEmptyResolver (DiscoveryNameResolver * World).
Proof. split. intros service r es r' Hr. by eapply discovery_resolve_ok. Qed.
End Resolver.

(** ** Properties *)

(** a successful resolution is never empty and lists only endpoints load
    balancing may use: each has an address, a positive weight and a healthy
    status, and is one of the instances the control plane answered with. *)
Theorem discovery_resolve_sound `{MetadataApi, UtilsApi, MetadataKeys, DiscoveryProto}
    `{!DiscoveryApi} `{!UtilsLaws} service (r r' : DiscoveryNameResolver * World) es :
  resolve service r = (Ok es, r') →
  trim service ≠ "" ∧ es ≠ [] ∧ Forall endpoint_ok es ∧
  ∃ ch headers instances w2 w3,
    discover_instances ch (discover_request r.1 service) headers w2 = (Ok instances, w3) ∧
    ∀ e, e ∈ es ↔ healthy e = true ∧ ∃ i, i ∈ instances ∧ map_discovered_instance i = Some e.
Proof.
  intros Hr. destruct (discovery_resolve_ok service r es r' Hr) as [Hne Hok].
  destruct r as [self w]. cbn in Hr. unfold discovery_resolve in Hr.
  rewrite is_blank_Some in Hr. unfold str_is_empty in Hr. case_bool_decide as Hb; [done|].
  split_and!; [done..|]. unfold discover_endpoints, get_or_init_channel in Hr.
  destruct (channel self) as [ch|] eqn:Hch.
  - destruct (draw_call_ids w) as [ids w2].
    destruct (discover_instances _ _ _ w2) as [[instances|] w3] eqn:Hd; [|done].
    case_bool_decide; [done|]. injection Hr as <- _. eexists _, _, _, _, _. split; [exact Hd|].
    intros e. by rewrite list_elem_of_filter, list_elem_of_omap.
  - destruct (discovery_connect _ w) as [[ch|] w1]; [|done].
    destruct (draw_call_ids w1) as [ids w2].
    destruct (discover_instances _ _ _ w2) as [[instances|] w3] eqn:Hd; [|done].
    case_bool_decide; [done|]. injection Hr as <- _. eexists _, _, _, _, _. split; [exact Hd|].
    intros e. by rewrite list_elem_of_filter, list_elem_of_omap.
Qed.

(** the control-plane connection is opened at most once: after a call that
    returned a channel, every later call returns the same channel without
    touching the world. *)
Theorem channel_opened_once `{MetadataApi, UtilsApi} `{!DiscoveryApi}
    (self self' : DiscoveryNameResolver) w w' ch w'' :
  get_or_init_channel self w = (Ok ch, self', w') →
  res_config self' = res_config self ∧
  get_or_init_channel self' w'' = (Ok ch, self', w'').
Proof.
  unfold get_or_init_channel. destruct (channel self) as [c|] eqn:Hc.
  - intros [= -> <- _]. by rewrite Hc.
  - destruct (discovery_connect _ w) as [[c|] w1]; [|done]. intros [= -> <- _]. done.
Qed.

(** ** Witnesses *)

(** Statuses and event types by their numbers. *)
Definition toy_proto : DiscoveryProto := {|
  instance_status_try_from n :=
    if n =? 1 then Some Serving else if n =? 2 then Some Degraded
    else if n =? 3 then Some OtherStatus else None;
  watch_event_type_try_from n :=
    if n =? 0 then Some Unspecified else if n =? 1 then Some Heartbeat
    else if n =? 2 then Some InstanceDeregistered else if n =? 3 then Some OtherEvent else None
|}.

(** A control plane whose world is the time and the instances it knows. *)
Definition toy_discovery : @DiscoveryApi toy_metadata := {|
  World := Z * list ServiceInstance;
  DiscoveryChannel := string;
  instant_now w := w.1;
  draw_call_ids w := (test_ids, w);
  discovery_connect uri w := (Ok uri, w);
  discover_instances _ _ _ w := (Ok w.2, w);
  watch_service _ _ _ w := (Ok ([], None), w);
  discovery_sleep d w := (w.1 + d, w.2)
|}.

Definition test_instance (e : string) (status : Z) : ServiceInstance :=
  {| instance_endpoint := e; instance_weight := 0; instance_status := status |}.
Definition resolver_config : DiscoveryNameResolverConfig :=
  {| res_discovery_endpoint := "127.0.0.1:50051"; res_namespace := "sdkwork";
     res_environment := "development"; res_subject_id := "resolver-1";
     healthy_only := true; res_protocol := "grpc" |}.
Definition test_resolver (ch : option string) : @DiscoveryNameResolver toy_metadata toy_discovery :=
  @Build_DiscoveryNameResolver toy_metadata toy_discovery resolver_config ch.

Lemma discovery_resolve_sound_witness :
  Forall (@endpoint_ok) [{| endpoint := "grpc://a:1"; weight := 1; healthy := true |}].
Proof.
  apply (@discovery_resolve_sound toy_metadata toy_utils toy_keys toy_proto toy_discovery
    toy_utils_laws "svc"
    (test_resolver None, (0, [test_instance "grpc://a:1" 1; test_instance "grpc://b:1" 3]))
    (test_resolver (Some "http://127.0.0.1:50051"),
     (0, [test_instance "grpc://a:1" 1; test_instance "grpc://b:1" 3]))).
  reflexivity.
Defined.

Lemma channel_opened_once_witness :
  @get_or_init_channel toy_metadata toy_utils toy_discovery
    (test_resolver (Some "http://127.0.0.1:50051")) (5, []) =
  (Ok "http://127.0.0.1:50051", test_resolver (Some "http://127.0.0.1:50051"), (5, [])).
Proof.
  apply (@channel_opened_once toy_metadata toy_utils toy_discovery (test_resolver None)
    (test_resolver (Some "http://127.0.0.1:50051")) (0, []) (0, [])). reflexivity.
Defined.
