(* ===== verification/ControlPlane.v ===== *)
(** * ControlPlane: from a registration to a dialled channel

    Composes [DiscoveryLifecycle], [Server], [DiscoveryResolver],
    [LoadBalance] and [Transport]. The discovery control plane is not part of
    the repository; [ControlPlaneLaws] is what the end-to-end tests
    ([tests/architecture/tests/discovery_e2e.rs]) rely on: an accepted
    registration is stored under the instance's key and replaces an older one,
    an accepted deregistration removes it, and a discovery request lists the
    stored registrations of the service it asks for. [RenewalLaws] adds what a
    server that renews its lease until it has deregistered relies on: a renewal
    extends a lease and registers nothing. *)
From S2P Require Import Prelude RustStd Core Interfaces Tls ClientMetadata LoadBalance Transport.
From S2P Require Import DiscoveryMetadata DiscoveryLifecycle Server DiscoveryResolver.

(** ** Instance keys *)

#[global] Instance InstanceKey_eq_dec : EqDecision InstanceKey.
Proof. solve_decision. Defined.

#[global] Instance InstanceKey_countable : Countable InstanceKey.
Proof.
  refine (inj_countable'
    (λ k, (key_namespace k, key_environment k, key_service_name k, key_instance_id k))
    (λ '(n, e, s, i), {| key_namespace := n; key_environment := e;
                         key_service_name := s; key_instance_id := i |}) _).
  by intros [].
Defined.

Abbreviation Registrations := (gmap InstanceKey RegisterInstanceRequest).

(** How a registration is listed. *)
Definition listed (r : RegisterInstanceRequest) : ServiceInstance :=
  {| instance_endpoint := req_endpoint r; instance_weight := req_weight r;
     instance_status := req_status r |}.

(** The registrations a discovery request asks for. *)
Definition in_scope (q : DiscoverInstancesRequest) (k : InstanceKey)
    (r : RegisterInstanceRequest) : Prop :=
  key_namespace k = disc_namespace q ∧ key_environment k = disc_environment q ∧
  key_service_name k = disc_service_name q ∧ req_protocol r = disc_protocol q.

(** ** The contract of the control plane *)

(** [registered] is its table as the servers' calls see it, [visible] as the
    clients' calls see it. *)
Class ControlPlane `{MetadataApi} `{!RegistryApi} `{!DiscoveryApi} : Type := {
  registered : DiscoveryLifecycle.World → Registrations;
  visible : DiscoveryResolver.World → Registrations
}.

Class ControlPlaneLaws `{ControlPlane, DiscoveryProto} : Prop := {
  serving_status : instance_status_try_from SERVING = Some Serving;
  register_stores ch req headers w lease w' :
    register_instance ch req headers w = (Ok lease, w') →
    registered w' = <[req_key req := req]> (registered w);
  retrieve_keeps ch k headers w :
    registered (retrieve_instance ch k headers w).2 = registered w;
  registry_connect_keeps uri w : registered (registry_connect uri w).2 = registered w;
  deregister_removes ch k headers w w' :
    deregister_instance ch k headers w = (Ok (), w') →
    registered w' = delete k (registered w);
  discovery_connect_keeps uri v : visible (discovery_connect uri v).2 = visible v;
  draw_call_ids_keeps v : visible (draw_call_ids v).2 = visible v;
  discover_sound ch q headers v instances v' i :
    discover_instances ch q headers v = (Ok instances, v') → i ∈ instances →
    ∃ k r, visible v !! k = Some r ∧ in_scope q k r ∧ i = listed r;
  discover_complete ch q headers v instances v' k r :
    discover_instances ch q headers v = (Ok instances, v') →
    visible v !! k = Some r → in_scope q k r → req_status r = SERVING →
    listed r ∈ instances
}.

Class RenewalLaws `{ControlPlane} : Prop := {
  renew_registers_nothing ch lease ttl headers w k :
    registered w !! k = None → registered (renew_lease ch lease ttl headers w).2 !! k = None
}.

(** No other process registers the instance [k] while this one sleeps. *)
Definition sole_owner `{ControlPlane} (k : InstanceKey) : Prop :=
  ∀ d w, registered w !! k = None → registered (registry_sleep d w) !! k = None.

Section Composition.
Context `{HControl : ControlPlane, HUtils : UtilsApi, !UtilsLaws, HKeys : MetadataKeys}.
Context `{HProto : DiscoveryProto, !ControlPlaneLaws}.

(** ** Specification *)

(** What a resolver turns the registration of [c] into. *)
Definition advertised (c : DiscoveryInstanceConfig) : ResolvedEndpoint :=
  {| endpoint := advertised_endpoint c; weight := 100; healthy := true |}.

(** The resolver looks where the instance registers. *)
Definition looks_for (self : DiscoveryNameResolver) (c : DiscoveryInstanceConfig) : Prop :=
  res_namespace (res_config self) = namespace c ∧
  res_environment (res_config self) = environment c ∧
  res_protocol (res_config self) = protocol c.

(** A resolution that failed because a call to the control plane did. *)
Definition call_failed (e : RpcFrameworkError) : Prop :=
  (∃ uri v m, (discovery_connect uri v).1 = Err m ∧ e = Core.Transport m) ∨
  (∃ ch q headers v m, (discover_instances ch q headers v).1 = Err m ∧ e = Discovery m).

(** ** Lemmas *)

Lemma get_or_init_channel_keeps self v :
  let out := get_or_init_channel self v in
  visible out.2 = visible v ∧ res_config out.1.2 = res_config self ∧
  (∀ e, out.1.1 = Err e → call_failed e).
Proof.
  unfold get_or_init_channel. destruct (channel self); [by split_and!|].
  pose proof (discovery_connect_keeps
    (normalize_http_endpoint (res_discovery_endpoint (res_config self))) v) as Hk.
  destruct (discovery_connect _ v) as [[ch|m] v1] eqn:Hc; simpl in *; (split_and!; [done..|]).
  - done.
  - intros e [= <-]. left. eexists _, v, m. by rewrite Hc.
Qed.

(** A resolution either fails in a call, finds nothing, or answers with the
    healthy ones of what the control plane lists. *)
Lemma resolve_cases self service v :
  trim service ≠ "" →
  let out := resolve service (self, v) in
  (∃ e, out.1 = Err e ∧ call_failed e) ∨
  ∃ ch headers instances v2 v3 q,
    q = discover_request self service ∧
    discover_instances ch q headers v2 = (Ok instances, v3) ∧ visible v2 = visible v ∧
    let endpoints := filter (λ e, healthy e = true) (omap map_discovered_instance instances) in
    out.1 = if bool_decide (endpoints = [])
            then Err (Discovery ("no healthy instances resolved for service " +:+ service))
            else Ok endpoints.
Proof.
  intros Hs. cbn zeta. cbn [resolve discovery_resolver]. unfold discovery_resolve.
  rewrite is_blank_Some. unfold str_is_empty. rewrite bool_decide_false by done.
  unfold discover_endpoints. pose proof (get_or_init_channel_keeps self v) as (Hv & Hcfg & He).
  destruct (get_or_init_channel self v) as [[[ch|e] self1] v1]; simpl in *;
    [|left; eexists; split; [done|by apply He]].
  pose proof (draw_call_ids_keeps v1) as Hd. destruct (draw_call_ids v1) as [ids v2]. simpl in Hd.
  assert (discover_request self1 service = discover_request self service) as ->
    by (unfold discover_request; by rewrite Hcfg).
  destruct (discover_instances ch _ _ v2) as [[instances|m] v3] eqn:Hi.
  - right. eexists _, _, _, _, _, _. split_and!; [done|exact Hi|congruence|]. by case_bool_decide.
  - left. eexists. split; [done|]. right. eexists _, _, _, _, m. by rewrite Hi.
Qed.

(** Every resolved endpoint is a visible registration in the resolver's scope. *)
Lemma resolved_is_registered self service v es r' e :
  trim service ≠ "" → resolve service (self, v) = (Ok es, r') → e ∈ es →
  ∃ k r, visible v !! k = Some r ∧ in_scope (discover_request self service) k r ∧
         endpoint e = req_endpoint r.
Proof.
  intros Hs Hr He. pose proof (resolve_cases self service v Hs) as Hcases. cbv zeta in Hcases.
  rewrite Hr in Hcases.
  destruct Hcases as [(? & ? & _)|(ch & hd & found & v2 & v3 & q & -> & Hd & Hv & Hout)]; [done|].
  case_bool_decide; [done|]. injection Hout as ->.
  apply list_elem_of_filter in He as [_ He]. apply list_elem_of_omap in He as (i & Hi & Hm).
  destruct (discover_sound _ _ _ _ _ _ _ Hd Hi) as (k & r & Hk & Hq & ->).
  exists k, r. rewrite <- Hv. split_and!; [done..|].
  by apply map_discovered_instance_Some in Hm as (_ & _ & -> & _).
Qed.

(** A visible serving registration in the scope is resolved. *)
Lemma registered_is_resolved self c rev v :
  config_sound c → looks_for self c →
  visible v !! instance_key c = Some (register_request c rev) →
  (∃ e, (resolve (service_name c) (self, v)).1 = Err e ∧ call_failed e) ∨
  ∃ es, (resolve (service_name c) (self, v)).1 = Ok es ∧ advertised c ∈ es.
Proof.
  intros [Hf _ _] (Hns & Henv & Hp) Hk. rewrite !Forall_cons in Hf.
  destruct Hf as (_ & _ & _ & Hs & _ & Ha & _).
  pose proof (resolve_cases self (service_name c) v Hs) as Hcases. cbv zeta in Hcases.
  destruct Hcases as [?|(ch & hd & found & v2 & v3 & q & -> & Hd & Hv & ->)]; [by left|]. right.
  assert (listed (register_request c rev) ∈ found) as Hin.
  { eapply discover_complete; [exact Hd|by rewrite Hv|split_and!; simpl; congruence|done]. }
  assert (advertised c ∈ filter (λ e, healthy e = true) (omap map_discovered_instance found)) as He.
  { apply list_elem_of_filter. split; [done|]. apply list_elem_of_omap.
    exists (listed (register_request c rev)). split; [done|].
    unfold map_discovered_instance. rewrite is_blank_Some. unfold str_is_empty. simpl.
    rewrite bool_decide_false by done. by rewrite serving_status. }
  case_bool_decide as Hnil; [|by eexists].
  rewrite Hnil in He. by apply elem_of_nil in He.
Qed.

(** A successful registration is stored. *)
Lemma register_stored c ids ids' w h w' :
  register c ids ids' w = (Ok h, w') →
  config_sound c ∧ config h = c ∧
  ∃ rev, registered w' = <[instance_key c := register_request c rev]> (registered w).
Proof.
  unfold register. destruct (config_validate_cases c) as [[-> Hc]|(m & -> & _)]; [|done].
  unfold connect. pose proof (registry_connect_keeps
    (normalize_http_endpoint (discovery_endpoint c)) w) as Hk.
  destruct (registry_connect _ w) as [[ch|] w1]; simpl in *; [|done].
  assert (registered (resolve_expected_revision ch c ids' w1).2 = registered w1) as Hk2.
  { unfold resolve_expected_revision. destruct (expected_revision c); [done|].
    destruct (revision_cas_on_register c); [|done]. cbn [negb].
    match goal with |- context [retrieve_instance ?ch ?k ?hd ?w] =>
      pose proof (retrieve_keeps ch k hd w) as Hret;
      destruct (retrieve_instance ch k hd w) as [[[]|] w2] end; [done|done|].
    by case_match. }
  destruct (resolve_expected_revision ch c ids' w1) as [[rev|] w2]; simpl in Hk2; [|done].
  destruct (register_instance _ _ _ w2) as [[lease|] w3] eqn:Hreg; [|done].
  case_match; [done|]. intros [= <- <-]. split_and!; [done..|]. exists rev.
  rewrite (register_stores _ _ _ _ _ _ Hreg). simpl. by rewrite Hk2, Hk.
Qed.

Lemma deregister_unstored (h : DiscoveryInstanceHandle) w :
  (deregister h w).1 = Ok () →
  registered (deregister h w).2 = delete (instance_key (config h)) (registered w).
Proof.
  unfold deregister. destruct (deregister_instance _ _ _ w) as [[[]|] w'] eqn:Hd; [|done].
  intros _. by apply deregister_removes in Hd.
Qed.

(** The renewal task does not bring back an instance that is gone. *)
Section Renewals.
Context `{!RenewalLaws} (k : InstanceKey) (Howner : sole_owner k).

Lemma renew_once_gone (h : DiscoveryInstanceHandle) w :
  registered w !! k = None → registered (renew_once h w).2 !! k = None.
Proof using Type*.
  intros Hw. unfold renew_once.
  match goal with |- context [renew_lease ?ch ?l ?ttl ?hd w] =>
    pose proof (renew_registers_nothing ch l ttl hd w k Hw); by destruct (renew_lease ch l ttl hd w) end.
Qed.

Lemma renew_loop_gone rngs (h : DiscoveryInstanceHandle) cfg failures w :
  registered w !! k = None → registered (renew_loop rngs h cfg failures w).2 !! k = None.
Proof using Type*.
  revert failures w. induction rngs as [|rng rngs IH]; intros failures w Hw; [done|].
  cbn [renew_loop]. unfold renew_pass. set (w0 := registry_sleep _ w).
  pose proof (renew_once_gone h w0 (Howner _ _ Hw)) as Hw1.
  destruct (renew_once h w0) as [r w1]. destruct (renew_after cfg failures (is_ok r)) as [f log].
  specialize (IH f w1 Hw1). by destruct (renew_loop rngs h cfg f w1) as [[??]?].
Qed.

Lemma finish_renewals_gone rngs (h : DiscoveryInstanceHandle) cfg failures slept w :
  registered w !! k = None → registered (finish_renewals rngs h cfg failures slept w) !! k = None.
Proof using Type*.
  intros Hw. destruct rngs as [|rng rngs]; [done|]. unfold finish_renewals. set (w0 := registry_sleep _ w).
  pose proof (renew_once_gone h w0 (Howner _ _ Hw)) as Hw1.
  destruct (renew_once h w0) as [r w1]. by apply renew_loop_gone.
Qed.
End Renewals.
End Composition.

(** ** Properties *)

Section Properties.
Context `{HControl : ControlPlane, HUtils : UtilsApi, !UtilsLaws, HKeys : MetadataKeys}.
Context `{HProto : DiscoveryProto, !ControlPlaneLaws}.

(** C3: what a server registers is what its clients resolve: after a successful
    registration, a resolver that looks in the same namespace, environment and
    protocol resolves the service to a list that has the advertised address
    with the registered weight, unless its own call to the control plane fails;
    every other address of the list was registered by another instance, so an
    address the same instance registered earlier is gone. *)
Theorem registered_instance_is_resolved c ids ids' w h w' self v :
  register c ids ids' w = (Ok h, w') → visible v = registered w' → looks_for self c →
  match (resolve (service_name c) (self, v)).1 with
  | Err e => call_failed e
  | Ok es =>
      advertised c ∈ es ∧
      ∀ e, e ∈ es → endpoint e = advertised_endpoint c ∨
        ∃ k r, k ≠ instance_key c ∧ registered w !! k = Some r ∧ endpoint e = req_endpoint r
  end.
Proof.
  intros Hreg Hv Hl. destruct (register_stored _ _ _ _ _ _ Hreg) as (Hc & _ & rev & Hw').
  assert (trim (service_name c) ≠ "") as Hs
    by (pose proof (cs_fields c Hc) as Hf; rewrite !Forall_cons in Hf; apply Hf).
  destruct (resolve (service_name c) (self, v)) as [res r'] eqn:Hr.
  destruct (registered_is_resolved self c rev v Hc Hl) as [(e & He & Hf)|(es & He & Hin)];
    [by rewrite Hv, Hw', lookup_insert_eq|rewrite Hr in He; simpl in He; by subst|].
  rewrite Hr in He. simpl in He. subst res. split; [done|]. intros e He.
  destruct (resolved_is_registered _ _ _ _ _ _ Hs Hr He) as (k & r & Hk & Hq & ->).
  rewrite Hv, Hw' in Hk. destruct (decide (k = instance_key c)) as [->|Hne].
  - left. rewrite lookup_insert_eq in Hk. by injection Hk as <-.
  - right. rewrite lookup_insert_ne in Hk by done. by exists k, r.
Qed.

(** C29: a client of a service with one registered instance dials that
    instance's address, whatever the balancing algorithm and the cursor, unless
    the call to the control plane fails. *)
Theorem sole_instance_is_dialled `{FsApi, TransportApi} c ids ids' w h w' self v feature algorithm
    cursor cfg :
  register c ids ids' w = (Ok h, w') → visible v = registered w' → looks_for self c →
  0 ≤ next cursor →
  (∀ k r, registered w !! k = Some r →
     in_scope (discover_request self (service_name c)) k r → k = instance_key c) →
  let out := (resolve_and_connect feature (self, v) (service_name c) algorithm cursor cfg).1.1 in
  (∃ e, out = Err e ∧ call_failed e) ∨
  out = connect_grpc_channel_with_config feature (advertised_endpoint c) cfg.
Proof.
  intros Hreg Hv Hl Hcur Hsole. destruct (register_stored _ _ _ _ _ _ Hreg) as (Hc & _ & rev & Hw').
  assert (trim (service_name c) ≠ "") as Hs
    by (pose proof (cs_fields c Hc) as Hf; rewrite !Forall_cons in Hf; apply Hf).
  unfold resolve_and_connect. cbv zeta.
  destruct (registered_is_resolved self c rev v Hc Hl) as [(e & He & Hf)|(es & He & Hin)];
    [by rewrite Hv, Hw', lookup_insert_eq|..].
  all: destruct (resolve (service_name c) (self, v)) as [res r'] eqn:Hr; simpl in He; subst res.
  { left. by eexists. }
  right. assert (es ≠ []) as Hne by (intros ->; by apply elem_of_nil in Hin).
  destruct (pick_endpoint_candidate es algorithm cursor Hcur Hne) as (e & Hp & He).
  destruct (pick_endpoint es algorithm cursor) as [picked cursor']. simpl in Hp. subst picked.
  apply candidates_subset in He.
  destruct (resolved_is_registered _ _ _ _ _ _ Hs Hr He) as (k & r & Hk & Hq & He'). simpl.
  rewrite He'. rewrite Hv, Hw' in Hk.
  destruct (decide (k = instance_key c)) as [->|Hk'].
  - rewrite lookup_insert_eq in Hk. by injection Hk as <-.
  - rewrite lookup_insert_ne in Hk by done. by apply Hsole in Hk.
Qed.

(** C19: a server that shut down cleanly is no longer resolved: after a run that
    returned success, although its renewals went on until the answer to the
    deregistration had come, every address a client resolves belongs to another
    registered instance, and a service whose only instance it was does not
    resolve at all - provided that the control plane registers nothing when a
    lease is renewed and that no other process registers the same instance. *)
Theorem clean_shutdown_unlists_instance `{!RenewalLaws} env (handle : DiscoveryInstanceHandle)
    timeout s w self service v :
  sole_owner (instance_key (config handle)) → trim service ≠ "" →
  let run := serve_with_discovery_lifecycle env handle timeout s w in
  run.1.2 = Some (Ok ()) → visible v = registered run.2 →
  match (resolve service (self, v)).1 with
  | Err _ => True
  | Ok es => ∀ e, e ∈ es →
      ∃ k r, k ≠ instance_key (config handle) ∧ visible v !! k = Some r ∧
             in_scope (discover_request self service) k r ∧ endpoint e = req_endpoint r
  end ∧
  ((∀ k r, visible v !! k = Some r → in_scope (discover_request self service) k r →
      k = instance_key (config handle)) →
   is_ok (resolve service (self, v)).1 = false).
Proof.
  intros Howner Hs run Hok Hv. unfold run, serve_with_discovery_lifecycle in Hok, Hv. clear run.
  pose proof (serve_cases env handle timeout (renew_task s handle) w) as Hrun.
  cbv zeta in Hrun.
  destruct (serve_with_discovery_lifecycle_and_renew_task env handle timeout _ w)
    as [[trace res] w']. simpl in Hok, Hv, Hrun. subst res.
  destruct Hrun as [(_ & e & ? & _)|[(_ & ? & _)|(_ & Hd & -> & _)]]; [done..|].
  assert (visible v !! instance_key (config handle) = None) as Hnone.
  { rewrite Hv. unfold renew_task in *. destruct (spawn_renew_loop (completed s) handle w) as [[? f] w1].
    simpl in *. apply finish_renewals_gone; [done..|].
    rewrite deregister_unstored; [by rewrite lookup_delete_eq|].
    by destruct (deregister handle _) as [[[]|] ?]. }
  destruct (resolve service (self, v)) as [[es|e] r'] eqn:Hr; [|by split].
  assert (∀ e, e ∈ es → ∃ k r, k ≠ instance_key (config handle) ∧ visible v !! k = Some r ∧
    in_scope (discover_request self service) k r ∧ endpoint e = req_endpoint r) as Hall.
  { intros e He. destruct (resolved_is_registered _ _ _ _ _ _ Hs Hr He) as (k & r & Hk & Hq & ?).
    exists k, r. split_and!; [|done..]. intros ->. congruence. }
  split; [done|]. intros Hsole. apply resolve_non_empty in Hr as Hne.
  destruct es as [|e es]; [done|]. destruct (Hall e) as (k & r & Hk & Hkr & Hq & _); [by left|].
  by apply Hsole in Hkr.
Qed.

(** a server whose port is taken is resolved nevertheless: when the bind
    fails after the registration, the run returns an error and, if the renewals
    before that kept the registration, the address nobody listens on is still
    handed to the clients. *)
Theorem failed_bind_is_still_resolved c ids ids' w h w' env error timeout s self v :
  register c ids ids' w = (Ok h, w') → bind_result env = Err error →
  registered (renew_task s h w').1 = registered w' →
  let run := serve_with_discovery_lifecycle env h timeout s w' in
  visible v = registered run.2 → looks_for self c →
  run.1.2 = Some (Err (ServeTransport error)) ∧
  match (resolve (service_name c) (self, v)).1 with
  | Err e => call_failed e
  | Ok es => advertised c ∈ es
  end.
Proof.
  intros Hreg Hbind Hkept run Hv Hl. destruct (register_stored _ _ _ _ _ _ Hreg) as (Hc & _ & rev & Hw').
  assert (run = ([SpawnRenewLoop; Bind], Some (Err (ServeTransport error)), (renew_task s h w').1))
    as Hrun.
  { unfold run, serve_with_discovery_lifecycle, serve_with_discovery_lifecycle_and_renew_task.
    destruct (renew_task s h w'). by rewrite Hbind. }
  rewrite Hrun in *. split; [done|]. simpl in Hv. rewrite Hkept in Hv.
  destruct (registered_is_resolved self c rev v Hc Hl) as [(e & -> & Hf)|(es & -> & Hin)];
    [by rewrite Hv, Hw', lookup_insert_eq|done..].
Qed.
End Properties.

(** ** Witnesses *)

#[global] Instance in_scope_dec q k r : Decision (in_scope q k r).
Proof. unfold in_scope. apply _. Defined.

(** An in-memory control plane: its world is the log of what is registered,
    the latest first. *)
Abbreviation Log := (list (InstanceKey * RegisterInstanceRequest)).

Fixpoint latest (k : InstanceKey) (w : Log) : option RegisterInstanceRequest :=
  match w with
  | [] => None
  | (k', r) :: w' => if decide (k = k') then Some r else latest k w'
  end.

Definition without (k : InstanceKey) (w : Log) : Log := filter (λ kr, kr.1 ≠ k) w.

(** The latest entry of each key that is not in [seen]. *)
Fixpoint current (seen : list InstanceKey) (w : Log) : Log :=
  match w with
  | [] => []
  | (k, r) :: w' => if decide (k ∈ seen) then current seen w' else (k, r) :: current (k :: seen) w'
  end.

Definition matching (q : DiscoverInstancesRequest) (w : Log) : list ServiceInstance :=
  (λ kr, listed kr.2) <$> filter (λ kr, in_scope q kr.1 kr.2) (current [] w).

Definition memory_registry : @RegistryApi toy_metadata := {|
  DiscoveryLifecycle.World := Log;
  RegistryChannel := string;
  SERVING := 1;
  status_to_string s := @Status.message toy_metadata s;
  registry_connect uri w := (Ok uri, w);
  register_instance _ req _ w := (Ok "lease-1", (req_key req, req) :: w);
  retrieve_instance _ k _ w := (Ok (latest k w ≫= req_expected_revision), w);
  renew_lease _ _ _ _ w := (Ok (), w);
  deregister_instance _ k _ w := (Ok (), without k w);
  registry_sleep _ w := w
|}.

Definition memory_discovery : @DiscoveryApi toy_metadata := {|
  DiscoveryResolver.World := Log;
  DiscoveryChannel := string;
  instant_now _ := 0;
  draw_call_ids w := (test_ids, w);
  discovery_connect uri w := (Ok uri, w);
  discover_instances _ q _ w := (Ok (matching q w), w);
  watch_service _ _ _ w := (Ok ([], None), w);
  discovery_sleep _ w := w
|}.

Definition memory_plane : @ControlPlane toy_metadata memory_registry memory_discovery :=
  @Build_ControlPlane toy_metadata memory_registry memory_discovery list_to_map list_to_map.

Lemma latest_lookup k (w : Log) : (list_to_map w : Registrations) !! k = latest k w.
Proof.
  induction w as [|[k' r] w IH]; [done|]. simpl. case_decide as Hk; [subst|].
  - by rewrite lookup_insert_eq.
  - by rewrite lookup_insert_ne.
Qed.

Lemma current_latest k r seen w : (k, r) ∈ current seen w ↔ (k ∉ seen) ∧ latest k w = Some r.
Proof.
  revert seen. induction w as [|[k' r'] w IH]; intros seen; simpl.
  - rewrite elem_of_nil. naive_solver.
  - case_decide as Hs; rewrite ?elem_of_cons, IH, ?elem_of_cons; case_decide; naive_solver.
Qed.

Lemma without_delete k (w : Log) :
  (list_to_map (without k w) : Registrations) = delete k (list_to_map w).
Proof.
  unfold without. induction w as [|[k' r] w IH]; [symmetry; apply delete_empty|].
  rewrite filter_cons. cbn [fst list_to_map]. destruct (decide (k' = k)) as [->|Hk].
  - rewrite decide_False by naive_solver. simpl. by rewrite delete_insert_eq.
  - rewrite decide_True by done. simpl. by rewrite IH, delete_insert_ne.
Qed.

Lemma matching_spec q w i :
  i ∈ matching q w ↔
  ∃ k r, (list_to_map w : Registrations) !! k = Some r ∧ in_scope q k r ∧ i = listed r.
Proof.
  unfold matching. rewrite list_elem_of_fmap. setoid_rewrite latest_lookup. split.
  - intros ([k r] & -> & [Hq [_ Hl]%current_latest]%list_elem_of_filter). by exists k, r.
  - intros (k & r & Hk & Hq & ->). exists (k, r). split; [done|].
    apply list_elem_of_filter. split; [done|]. apply current_latest. split; [set_solver|done].
Qed.

Lemma memory_plane_laws :
  @ControlPlaneLaws toy_metadata memory_registry memory_discovery memory_plane toy_proto.
Proof.
  split; simpl; try done.
  - by intros _ req _ w lease w' [= _ <-].
  - intros _ k _ w w' [= <-]. apply without_delete.
  - intros _ q _ v instances v' i [= <- _] Hi. by apply matching_spec in Hi.
  - intros _ q _ v instances v' k r [= <- _] Hk Hq _. apply matching_spec. by exists k, r.
Qed.

Lemma memory_renewal_laws :
  @RenewalLaws toy_metadata memory_registry memory_discovery memory_plane.
Proof. by split. Qed.

Definition memory_handle : @DiscoveryInstanceHandle toy_metadata memory_registry :=
  @Build_DiscoveryInstanceHandle toy_metadata memory_registry "http://127.0.0.1:19090"
    (test_config 30 "sdkwork-commerce-app-rpc") "lease-1" (Duration.from_secs 10)
    (@unsigned_registry_write_metadata toy_keys "sdkwork-commerce-service-host" test_ids).

Definition memory_resolver : @DiscoveryNameResolver toy_metadata memory_discovery :=
  @Build_DiscoveryNameResolver toy_metadata memory_discovery resolver_config None.

Definition test_registration : RegisterInstanceRequest :=
  @register_request toy_metadata memory_registry (test_config 30 "sdkwork-commerce-app-rpc") None.
Definition one_registered : Log := [(req_key test_registration, test_registration)].

(** The same instance under an older address. *)
Definition old_registration : RegisterInstanceRequest := {|
  req_key := req_key test_registration; req_endpoint := "grpc://127.0.0.1:53051";
  req_protocol := "grpc"; req_version := "0.1.0"; req_region := "local"; req_zone := "local";
  req_weight := 100; req_priority := 0; req_status := 1; req_metadata := ∅;
  req_lease_ttl_seconds := 30; req_expected_revision := None; req_persistent := false;
  req_health_check := None
|}.
Definition moved_from : Log := [(req_key test_registration, old_registration)].

Lemma registered_instance_is_resolved_witness :
  match (@resolve _ (@discovery_resolver toy_metadata toy_utils toy_keys toy_proto
           memory_discovery) "sdkwork-commerce-app-rpc" (memory_resolver, one_registered ++ moved_from)).1 with
  | Ok es => advertised (test_config 30 "sdkwork-commerce-app-rpc") ∈ es
  | Err _ => False
  end.
Proof.
  refine (proj1 (@registered_instance_is_resolved toy_metadata memory_registry memory_discovery
    memory_plane toy_utils toy_utils_laws toy_keys toy_proto memory_plane_laws
    (test_config 30 "sdkwork-commerce-app-rpc") test_ids test_ids moved_from memory_handle
    (one_registered ++ moved_from) memory_resolver (one_registered ++ moved_from)
    eq_refl eq_refl (conj eq_refl (conj eq_refl eq_refl)))).
Defined.

Lemma sole_instance_is_dialled_witness :
  (@resolve_and_connect toy_utils (toy_fs ∅) toy_transport _
     (@discovery_resolver toy_metadata toy_utils toy_keys toy_proto memory_discovery) true
     (memory_resolver, one_registered) "sdkwork-commerce-app-rpc" Weighted {| next := 3 |}
     channel_config_default).1.1 =
  @connect_grpc_channel_with_config toy_utils (toy_fs ∅) toy_transport true
    "grpc://127.0.0.1:50051" channel_config_default.
Proof.
  destruct (@sole_instance_is_dialled toy_metadata memory_registry memory_discovery
    memory_plane toy_utils toy_utils_laws toy_keys toy_proto memory_plane_laws (toy_fs ∅)
    toy_transport (test_config 30 "sdkwork-commerce-app-rpc") test_ids test_ids [] memory_handle
    one_registered memory_resolver one_registered true Weighted {| next := 3 |}
    channel_config_default) as [(e & He & _)|Hok];
    [reflexivity|reflexivity|split_and!; reflexivity|by_compute|by intros ? ? ?|discriminate He
    |exact Hok].
Defined.

Lemma clean_shutdown_unlists_instance_witness :
  is_ok (@resolve _ (@discovery_resolver toy_metadata toy_utils toy_keys toy_proto
    memory_discovery) "sdkwork-commerce-app-rpc" (memory_resolver, [])).1 = false.
Proof.
  refine (proj2 (@clean_shutdown_unlists_instance toy_metadata memory_registry memory_discovery
    memory_plane toy_utils toy_utils_laws toy_keys toy_proto memory_plane_laws
    memory_renewal_laws quiet_env memory_handle (Some (Duration.from_secs 5)) overlapping
    one_registered memory_resolver "sdkwork-commerce-app-rpc" [] _ _ eq_refl eq_refl) _);
    [by intros d w|discriminate|by intros ? ? ?].
Defined.

Lemma failed_bind_is_still_resolved_witness :
  match (@resolve _ (@discovery_resolver toy_metadata toy_utils toy_keys toy_proto
           memory_discovery) "sdkwork-commerce-app-rpc" (memory_resolver, one_registered)).1 with
  | Ok es => advertised (test_config 30 "sdkwork-commerce-app-rpc") ∈ es
  | Err _ => False
  end.
Proof.
  refine (proj2 (@failed_bind_is_still_resolved toy_metadata memory_registry memory_discovery
    memory_plane toy_utils toy_utils_laws toy_keys toy_proto memory_plane_laws
    (test_config 30 "sdkwork-commerce-app-rpc") test_ids test_ids [] memory_handle
    one_registered port_taken "address in use" (Some (Duration.from_secs 5)) overlapping
    memory_resolver one_registered eq_refl eq_refl eq_refl eq_refl (conj eq_refl (conj eq_refl eq_refl)))).
Defined.
