(* ===== verification/WatchingResolver.v ===== *)
(** * WatchingResolver: the watch-driven resolver cache

    Models [sdkwork-rpc-client/src/watching_discovery_resolver.rs]. The shared
    state (the cache behind its lock and the atomic revision) is a record;
    instants are nanoseconds. One watch session is a fold of the loop body over
    the messages of the stream; the reconnect loop, which never returns, is a
    function of the outcomes of its sessions. *)
From S2P Require Import Prelude RustStd Core Interfaces ClientMetadata LoadBalance Transport.
From S2P Require Import DiscoveryMetadata DiscoveryLifecycle DiscoveryResolver.

Record WatchLoopConfig : Type := {
  initial_reconnect_backoff : Z;
  max_reconnect_backoff : Z;
  cache_ttl : Z
}.

Definition watch_config_default : WatchLoopConfig :=
  {| initial_reconnect_backoff := Duration.from_millis 500;
     max_reconnect_backoff := Duration.from_secs 30;
     cache_ttl := Duration.from_secs 15 |}.

Record CachedEndpoints : Type := {
  cached : list ResolvedEndpoint;
  updated_at : Z
}.

(** The state the clones of a resolver and its watch loops share. *)
Record WatchState : Type := {
  cache : gmap string CachedEndpoints;
  last_revision : Z
}.

Definition watch_state_new : WatchState := {| cache := ∅; last_revision := 0 |}.

Definition set_cache (f : gmap string CachedEndpoints → gmap string CachedEndpoints)
    (st : WatchState) : WatchState :=
  {| cache := f (cache st); last_revision := last_revision st |}.

(** ** The watch session *)

Fixpoint upsert_endpoint (endpoints : list ResolvedEndpoint) (e : ResolvedEndpoint) :
    list ResolvedEndpoint :=
  match endpoints with
  | [] => [e]
  | existing :: endpoints' =>
      if bool_decide (endpoint existing = endpoint e) then e :: endpoints'
      else existing :: upsert_endpoint endpoints' e
  end.

(** [endpoints.retain(|existing| existing.endpoint != removed)]. *)
Definition retain_other (removed : string) (endpoints : list ResolvedEndpoint) :
    list ResolvedEndpoint :=
  filter (λ existing, endpoint existing ≠ removed) endpoints.

Section Watch.
Context `{UtilsApi, DiscoveryProto}.

Definition is_serving (instance : ServiceInstance) : bool :=
  match instance_status_try_from (instance_status instance) with
  | Some Serving | Some Degraded => true
  | _ => false
  end.

(** The revision cursor after a message. *)
Definition advance_revision (msg : WatchMessage) (st : WatchState) : WatchState :=
  match msg_revision msg with
  | Some revision =>
      if 0 <? revision then
        {| cache := cache st; last_revision := Z.max (last_revision st) revision |}
      else st
  | None => st
  end.

(** What the loop does with a message under the lock of the cache, at [now]. *)
Definition update_cache (service_name : string) (now : Z) (msg : WatchMessage)
    (st : WatchState) : WatchState :=
  let event_type := default Unspecified (watch_event_type_try_from (msg_event_type msg)) in
  if bool_decide (event_type = Heartbeat) then
    set_cache
      (λ cache,
         match cache !! service_name with
         | Some entry =>
             <[service_name := {| cached := cached entry; updated_at := now |}]> cache
         | None => cache
         end) st
  else
    match msg_instance msg with
    | None => st
    | Some instance =>
        let new_endpoint := map_discovered_instance instance in
        let entry :=
          default {| cached := []; updated_at := now |} (cache st !! service_name) in
        if bool_decide (event_type = InstanceDeregistered) || negb (is_serving instance) then
          let endpoints := retain_other (instance_endpoint instance) (cached entry) in
          if bool_decide (endpoints = []) then set_cache (delete service_name) st
          else
            set_cache
              (<[service_name := {| cached := endpoints; updated_at := updated_at entry |}]>) st
        else
          match new_endpoint with
          | Some e =>
              set_cache
                (<[service_name := {| cached := upsert_endpoint (cached entry) e;
                                      updated_at := now |}]>) st
          | None => set_cache (<[service_name := entry]>) st
          end
    end.

(** The body of the [while let] loop for a message that arrives at [now]. *)
Definition on_message (service_name : string) (now : Z) (msg : WatchMessage)
    (st : WatchState) : WatchState :=
  update_cache service_name now msg (advance_revision msg st).

Definition watch_messages (service_name : string) (msgs : list (Z * WatchMessage))
    (st : WatchState) : WatchState :=
  foldl (λ st tm, on_message service_name tm.1 tm.2 st) st msgs.

Definition cached_endpoints (cfg : WatchLoopConfig) (service_name : string) (now : Z)
    (st : WatchState) : option (list ResolvedEndpoint) :=
  match cache st !! service_name with
  | None => None
  | Some entry =>
      if bool_decide (cached entry = []) then None
      else if cache_ttl cfg <? saturating_sub now (updated_at entry) then None
      else Some (cached entry)
  end.

(** The insertion at the end of [resolve]. *)
Definition store_endpoints (service_name : string) (endpoints : list ResolvedEndpoint)
    (now : Z) (st : WatchState) : WatchState :=
  set_cache (<[service_name := {| cached := endpoints; updated_at := now |}]>) st.
End Watch.

Section WatchingResolver.
Context `{MetadataApi, UtilsApi, MetadataKeys, DiscoveryProto}.
Context `{!DiscoveryApi}.

Record WatchingDiscoveryNameResolver : Type := {
  inner : DiscoveryNameResolver;
  shared : WatchState;
  watch_config : WatchLoopConfig
}.

Definition with_watch_config (config : DiscoveryNameResolverConfig)
    (watch_config : WatchLoopConfig) : RpcFrameworkResult WatchingDiscoveryNameResolver :=
  let? inner := resolver_new config in
  Ok {| inner := inner; shared := watch_state_new; watch_config := watch_config |}.

Definition watching_new (config : DiscoveryNameResolverConfig) :
    RpcFrameworkResult WatchingDiscoveryNameResolver :=
  with_watch_config config watch_config_default.

Definition watch_request (self : WatchingDiscoveryNameResolver) (service_name : string) :
    WatchServiceRequest := {|
  watch_namespace := res_namespace (res_config (inner self));
  watch_environment := res_environment (res_config (inner self));
  watch_service_name := service_name;
  watch_from_revision := last_revision (shared self)
|}.

Definition run_watch_session (self : WatchingDiscoveryNameResolver) (service_name : string)
    (w : World) : RpcFrameworkResult () * WatchingDiscoveryNameResolver * World :=
  match get_or_init_channel (inner self) w with
  | (Err e, inner', w) =>
      (Err e, {| inner := inner'; shared := shared self; watch_config := watch_config self |}, w)
  | (Ok ch, inner', w) =>
      let (ids, w) := draw_call_ids w in
      let headers :=
        apply_metadata_template metadata_new
          (unsigned_registry_read_metadata (res_subject_id (res_config (inner self))) ids) in
      match watch_service ch (watch_request self service_name) headers w with
      | (Err error, w) =>
          (Err (Transport error),
           {| inner := inner'; shared := shared self; watch_config := watch_config self |}, w)
      | (Ok (msgs, stream_error), w) =>
          (match stream_error with Some error => Err (Transport error) | None => Ok () end,
           {| inner := inner';
              shared := watch_messages service_name msgs (shared self);
              watch_config := watch_config self |}, w)
      end
  end.

(** [resolve]. The lock is free between the lookup and the insertion, which
    is [store_endpoints]. *)
Definition watching_resolve (service_name : string)
    (r : WatchingDiscoveryNameResolver * World) :
    RpcFrameworkResult (list ResolvedEndpoint) * (WatchingDiscoveryNameResolver * World) :=
  let (self, w) := r in
  match cached_endpoints (watch_config self) service_name (instant_now w) (shared self) with
  | Some endpoints => (Ok endpoints, (self, w))
  | None =>
      match resolve service_name (inner self, w) with
      | (Err e, (inner', w)) =>
          (Err e,
           ({| inner := inner'; shared := shared self; watch_config := watch_config self |}, w))
      | (Ok endpoints, (inner', w)) =>
          (Ok endpoints,
           ({| inner := inner';
               shared :=
                 store_endpoints service_name endpoints (instant_now w) (shared self);
               watch_config := watch_config self |}, w))
      end
  end.

#[global] Instance watching_resolver :
  NameResolver (WatchingDiscoveryNameResolver * World) := {| resolve := watching_resolve |}.
End WatchingResolver.

(** ** Reconnecting *)

Definition reconnect_backoff `{RandomApi} (attempt initial max_backoff : Z) : Z :=
  let exponent := Z.min attempt 16 in
  let base := Z.min (Duration.saturating_mul initial (Z.shiftl 1 exponent)) max_backoff in
  if Duration.is_zero base then initial
  else Duration.from_millis (random_range 0 (Z.min (Duration.as_millis base) u64_max)).

(** What one iteration of the reconnect loop did: whether its session ended
    cleanly, and the sleep after it. *)
Record ReconnectPass : Type := {
  session_clean : bool;
  reconnect_sleep : option Z
}.

Section ReconnectLoop.
Context `{MetadataApi, UtilsApi, MetadataKeys, DiscoveryProto}.
Context `{!DiscoveryApi}.

(** One iteration; [rng] is the generator [rand::rng()] returns in it. *)
Definition reconnect_pass (rng : RandomApi) (service_name : string) (attempt : Z)
    (self : WatchingDiscoveryNameResolver) (w : World) :
    ReconnectPass * Z * WatchingDiscoveryNameResolver * World :=
  match run_watch_session self service_name w with
  | (Ok _, self, w) => ({| session_clean := true; reconnect_sleep := None |}, 0, self, w)
  | (Err _, self, w) =>
      let backoff :=
        reconnect_backoff attempt (initial_reconnect_backoff (watch_config self))
          (max_reconnect_backoff (watch_config self)) in
      ({| session_clean := false; reconnect_sleep := Some backoff |},
       saturating_add u32_max attempt 1, self, discovery_sleep backoff w)
  end.

(** As many iterations as there are generators. *)
Fixpoint reconnect_loop (rngs : list RandomApi) (service_name : string) (attempt : Z)
    (self : WatchingDiscoveryNameResolver) (w : World) :
    list ReconnectPass * WatchingDiscoveryNameResolver * World :=
  match rngs with
  | [] => ([], self, w)
  | rng :: rngs' =>
      let '(pass, attempt, self, w) := reconnect_pass rng service_name attempt self w in
      let '(passes, self, w) := reconnect_loop rngs' service_name attempt self w in
      (pass :: passes, self, w)
  end.

(** [run_reconnect_loop], the body of the task [spawn_watch_loop] starts. *)
Definition run_reconnect_loop (rngs : list RandomApi) (service_name : string)
    (self : WatchingDiscoveryNameResolver) (w : World) :
    list ReconnectPass * WatchingDiscoveryNameResolver * World :=
  reconnect_loop rngs service_name 0 self w.

(** The task [spawn_watch_loop] spawns on the shared resolver. *)
Definition spawn_watch_loop (rngs : list RandomApi) (self : WatchingDiscoveryNameResolver)
    (service_name : string) (w : World) :
    list ReconnectPass * WatchingDiscoveryNameResolver * World :=
  run_reconnect_loop rngs service_name self w.
End ReconnectLoop.

(** ** Specification *)

(** What a message asks for. *)
Inductive Request : Type :=
| Upsert (e : ResolvedEndpoint)
| Remove (address : string)
| Ignore.

Section WatchSpec.
Context `{UtilsApi, DiscoveryProto}.

Definition classify (msg : WatchMessage) : Request :=
  match watch_event_type_try_from (msg_event_type msg), msg_instance msg with
  | Some Heartbeat, _ => Ignore
  | _, None => Ignore
  | Some InstanceDeregistered, Some i => Remove (instance_endpoint i)
  | _, Some i =>
      if is_serving i then
        match map_discovered_instance i with Some e => Upsert e | None => Ignore end
      else Remove (instance_endpoint i)
  end.

(** The endpoints of a service as a map from addresses. *)
Definition endpoint_map (l : list ResolvedEndpoint) : gmap string ResolvedEndpoint :=
  list_to_map ((λ e, (endpoint e, e)) <$> l).

Definition view (service_name : string) (st : WatchState) : gmap string ResolvedEndpoint :=
  match cache st !! service_name with
  | Some entry => endpoint_map (cached entry)
  | None => ∅
  end.

Definition spec_message (m : gmap string ResolvedEndpoint) (msg : WatchMessage) :
    gmap string ResolvedEndpoint :=
  match classify msg with
  | Upsert e => <[endpoint e := e]> m
  | Remove address => delete address m
  | Ignore => m
  end.

(** No service lists an address twice. *)
Definition addresses_unique (st : WatchState) : Prop :=
  map_Forall (λ _ entry, NoDup (endpoint <$> cached entry)) (cache st).

(** Every cached endpoint may be picked. *)
Definition cache_ok (st : WatchState) : Prop :=
  map_Forall (λ _ entry, Forall endpoint_ok (cached entry)) (cache st).

(** ** Lemmas *)

Lemma upsert_addresses l e :
  (endpoint <$> upsert_endpoint l e) =
  if decide (endpoint e ∈ endpoint <$> l) then endpoint <$> l
  else (endpoint <$> l) ++ [endpoint e].
Proof.
  induction l as [|x l IH]; [done|]. cbn [upsert_endpoint]. case_bool_decide as Hx.
  - rewrite decide_True by (csimpl; set_solver). csimpl. by rewrite Hx.
  - csimpl. rewrite IH. repeat case_decide; set_solver.
Qed.

Lemma upsert_map l e : endpoint_map (upsert_endpoint l e) = <[endpoint e := e]> (endpoint_map l).
Proof.
  unfold endpoint_map. induction l as [|x l IH]; [done|]. cbn [upsert_endpoint].
  case_bool_decide as Hx; csimpl.
  - by rewrite Hx, insert_insert_eq.
  - rewrite IH. by apply insert_insert_ne.
Qed.

Lemma retain_map a l : endpoint_map (retain_other a l) = delete a (endpoint_map l).
Proof.
  unfold endpoint_map, retain_other. induction l as [|x l IH]; [symmetry; apply delete_empty|].
  rewrite filter_cons. case_decide as Hx; csimpl.
  - rewrite IH. by rewrite delete_insert_ne.
  - by rewrite IH, Hx, delete_insert_eq.
Qed.

Lemma retain_addresses a l :
  NoDup (endpoint <$> l) → NoDup (endpoint <$> retain_other a l).
Proof.
  intros Hl. unfold retain_other. induction l as [|x l IH]; [done|].
  csimpl in Hl. apply NoDup_cons in Hl as [Hx Hl]. rewrite filter_cons.
  case_decide; [|by apply IH]. csimpl. apply NoDup_cons. split; [|by apply IH].
  rewrite list_elem_of_fmap in *. intros (y & Hy & [_ ?]%list_elem_of_filter). naive_solver.
Qed.

(** The cached endpoints of a service, none when it has no entry. *)
Definition entry_endpoints (service_name : string) (st : WatchState) : list ResolvedEndpoint :=
  match cache st !! service_name with Some entry => cached entry | None => [] end.

Lemma advance_revision_cache msg st : cache (advance_revision msg st) = cache st.
Proof. unfold advance_revision. by repeat case_match. Qed.

(** What a message leaves behind: only this service's entry changes, and its
    endpoints as the message asks for. *)
Lemma on_message_endpoints s now msg st :
  entry_endpoints s (on_message s now msg st) =
  match classify msg with
  | Upsert e => upsert_endpoint (entry_endpoints s st) e
  | Remove address => retain_other address (entry_endpoints s st)
  | Ignore => entry_endpoints s st
  end ∧
  (∀ s', s' ≠ s → cache (on_message s now msg st) !! s' = cache st !! s') ∧
  last_revision (on_message s now msg st) = last_revision (advance_revision msg st).
Proof.
  unfold on_message, update_cache, classify, set_cache, entry_endpoints.
  rewrite <-(advance_revision_cache msg st). set (st1 := advance_revision msg st).
  destruct (watch_event_type_try_from (msg_event_type msg)) as [[]|]; cbn [default from_option];
    repeat (case_bool_decide; try done); cbn [orb]; destruct (msg_instance msg) as [i|]; try done.
  all: try (destruct (is_serving i); cbn [negb]).
  all: try (destruct (map_discovered_instance i) as [e|]).
  all: repeat (case_bool_decide; try done).
  all: try (destruct (cache st1 !! s) as [entry|] eqn:He).
  all: simpl in *; rewrite ?He; try done.
  all: split_and!; [|intros s' Hs'|done].
  all: rewrite ?lookup_insert_eq, ?lookup_delete_eq; rewrite ?He; try done.
  all: by rewrite ?lookup_insert_ne, ?lookup_delete_ne.
Qed.

Lemma view_entry s st : view s st = endpoint_map (entry_endpoints s st).
Proof. unfold view, entry_endpoints. by case_match. Qed.
End WatchSpec.

(** A fold of [spec_message] over the messages of a session. *)
Definition spec_session `{UtilsApi, DiscoveryProto} (msgs : list (Z * WatchMessage))
    (m : gmap string ResolvedEndpoint) : gmap string ResolvedEndpoint :=
  foldl (λ m tm, spec_message m tm.2) m msgs.

(** The revisions a session delivers. *)
Definition session_revision (msgs : list (Z * WatchMessage)) (revision : Z) : Z :=
  foldl (λ r tm, match msg_revision tm.2 with Some r' => Z.max r r' | None => r end)
    revision msgs.

Section WatchLemmas.
Context `{UtilsApi, DiscoveryProto}.

Lemma on_message_view s now msg st :
  view s (on_message s now msg st) = spec_message (view s st) msg.
Proof.
  rewrite !view_entry. destruct (on_message_endpoints s now msg st) as [-> _].
  unfold spec_message. destruct (classify msg); [apply upsert_map|apply retain_map|done].
Qed.

(** A predicate on the endpoint lists that messages preserve. *)
Lemma on_message_invariant (P : list ResolvedEndpoint → Prop) s now msg st :
  P [] →
  (∀ l, P l → match classify msg with
              | Upsert e => P (upsert_endpoint l e)
              | Remove a => P (retain_other a l)
              | Ignore => True
              end) →
  map_Forall (λ _ entry, P (cached entry)) (cache st) →
  map_Forall (λ _ entry, P (cached entry)) (cache (on_message s now msg st)).
Proof.
  intros Hnil Hstep Hst s' entry Hs'.
  destruct (on_message_endpoints s now msg st) as (He & Ho & _).
  destruct (decide (s' = s)) as [->|Hne]; [|rewrite Ho in Hs' by done; by eapply Hst].
  unfold entry_endpoints in He. rewrite Hs' in He.
  assert (P (match cache st !! s with Some entry => cached entry | None => [] end)) as Hold.
  { destruct (cache st !! s) eqn:Hc; [by eapply Hst|done]. }
  rewrite He. specialize (Hstep _ Hold). by destruct (classify msg).
Qed.

Lemma upsert_Forall (P : ResolvedEndpoint → Prop) l e :
  Forall P l → P e → Forall P (upsert_endpoint l e).
Proof.
  intros Hl He. induction Hl as [|x l Hx Hl IH]; [by repeat constructor|].
  cbn [upsert_endpoint]. case_bool_decide; by constructor.
Qed.

Lemma on_message_unique s now msg st :
  addresses_unique st → addresses_unique (on_message s now msg st).
Proof.
  apply (on_message_invariant (λ l, NoDup (endpoint <$> l))); [constructor|].
  intros l Hl. destruct (classify msg); [|by apply retain_addresses|done].
  rewrite upsert_addresses. case_decide; [done|]. apply NoDup_app. split_and!; [done| |].
  - intros x Hx ->%list_elem_of_singleton. done.
  - apply NoDup_singleton.
Qed.

Lemma classify_upsert_ok `{!UtilsLaws} msg e : classify msg = Upsert e → endpoint_ok e.
Proof.
  unfold classify, is_serving. destruct (msg_instance msg) as [i|]; [|by repeat case_match].
  intros Hc. assert (map_discovered_instance i = Some e ∧
    (instance_status_try_from (instance_status i) = Some Serving ∨
     instance_status_try_from (instance_status i) = Some Degraded)) as [Hm Hs].
  { repeat case_match; simplify_eq; auto. }
  apply map_discovered_instance_Some in Hm as (? & ? & _ & Hh). split_and!; try done. by apply Hh.
Qed.

Lemma on_message_cache_ok `{!UtilsLaws} s now msg st :
  cache_ok st → cache_ok (on_message s now msg st).
Proof.
  apply (on_message_invariant (Forall endpoint_ok)); [constructor|].
  intros l Hl. destruct (classify msg) as [e|a|] eqn:Hc; [| |done].
  - apply upsert_Forall; [done|]. by eapply classify_upsert_ok.
  - unfold retain_other. apply Forall_forall. intros x [_ Hx]%list_elem_of_filter.
    by eapply Forall_forall in Hl.
Qed.

Lemma on_message_revision s now msg st :
  0 ≤ last_revision st →
  last_revision (on_message s now msg st) =
  match msg_revision msg with
  | Some r => Z.max (last_revision st) r
  | None => last_revision st
  end.
Proof.
  intros. destruct (on_message_endpoints s now msg st) as (_ & _ & ->).
  unfold advance_revision. destruct (msg_revision msg); [|done].
  case_if; simpl; lia.
Qed.
End WatchLemmas.

(** ** Properties *)

(** C13: the cache of a watched service is exactly the map the stream describes:
    a session that delivers the given messages turns the service's endpoints,
    seen as a map from addresses, by one insertion per serving instance and one
    deletion per deregistered or non-serving one, keeps addresses unique,
    changes no other service's entry, and leaves the revision cursor at the
    largest revision delivered. *)
Theorem watch_session_refines_map `{UtilsApi, DiscoveryProto} s msgs st :
  addresses_unique st → 0 ≤ last_revision st →
  let st' := watch_messages s msgs st in
  view s st' = spec_session msgs (view s st) ∧
  addresses_unique st' ∧
  (∀ s', s' ≠ s → cache st' !! s' = cache st !! s') ∧
  last_revision st' = session_revision msgs (last_revision st) ∧
  last_revision st ≤ last_revision st'.
Proof.
  revert st. induction msgs as [|[now msg] msgs IH]; intros st Hu Hr; [by split_and!|].
  cbn [watch_messages foldl fst snd].
  destruct (IH (on_message s now msg st)) as (Hv & Hu' & Ho & Hrev & Hmono).
  { by apply on_message_unique. }
  { rewrite on_message_revision by done. case_match; lia. }
  rewrite on_message_view in Hv. rewrite on_message_revision in Hrev, Hmono by done.
  split_and!; [done|done| |done|case_match; unfold watch_messages in *; lia].
  intros s' Hs'. etransitivity; [by apply Ho|].
  by apply on_message_endpoints.
Qed.

(** The states a resolver's cache goes through: messages of any watch loop and
    insertions by [resolve], in any order. *)
Inductive reachable `{UtilsApi, DiscoveryProto} : WatchState → Prop :=
| reachable_new : reachable watch_state_new
| reachable_message s now msg st :
    reachable st → reachable (on_message s now msg st)
| reachable_store s es now st :
    reachable st → Forall endpoint_ok es → reachable (store_endpoints s es now st).

Lemma reachable_cache_ok `{UtilsApi, DiscoveryProto} `{!UtilsLaws} st :
  reachable st → cache_ok st.
Proof.
  induction 1 as [|s now msg st _ IH|s es now st _ IH Hes].
  - apply map_Forall_empty.
  - by apply on_message_cache_ok.
  - apply map_Forall_insert_2; [done|exact IH].
Qed.

Lemma cached_endpoints_Some cfg s now st es :
  cached_endpoints cfg s now st = Some es ↔
  ∃ entry, cache st !! s = Some entry ∧ es = cached entry ∧ es ≠ [] ∧
           saturating_sub now (updated_at entry) ≤ cache_ttl cfg.
Proof.
  unfold cached_endpoints. destruct (cache st !! s) as [entry|]; [|naive_solver].
  case_bool_decide; [naive_solver|]. case_if; [split; [done|]; naive_solver lia|].
  split; [intros [= <-]; eauto|]. intros (e & [= <-] & -> & _). done.
Qed.

(** C24: the watching resolver only hands out usable endpoints: with a cache
    that any interleaving of watch messages and resolutions left behind, a
    successful resolution is non-empty and lists endpoints with an address, a
    positive weight and a healthy status; it comes from the cache, without a
    call, only within the cache's time to live, and from a discovery call
    otherwise, whose result then is the service's cache entry, stamped with the
    time after the call, with the entries of the other services kept. *)
Theorem watching_resolve_sound `{MetadataApi, UtilsApi, MetadataKeys, DiscoveryProto}
    `{!DiscoveryApi} `{!UtilsLaws} s (self self' : WatchingDiscoveryNameResolver) w w' es :
  reachable (shared self) →
  resolve s (self, w) = (Ok es, (self', w')) →
  es ≠ [] ∧ Forall endpoint_ok es ∧ reachable (shared self') ∧
  ((self' = self ∧ w' = w ∧
    ∃ entry, cache (shared self) !! s = Some entry ∧ es = cached entry ∧
      saturating_sub (instant_now w) (updated_at entry) ≤ cache_ttl (watch_config self)) ∨
   (cached_endpoints (watch_config self) s (instant_now w) (shared self) = None ∧
    resolve s (inner self, w) = (Ok es, (inner self', w')) ∧
    cache (shared self') !! s = Some {| cached := es; updated_at := instant_now w' |} ∧
    ∀ s', s' ≠ s → cache (shared self') !! s' = cache (shared self) !! s')).
Proof.
  intros Hreach. cbn [resolve watching_resolver]. unfold watching_resolve.
  destruct (cached_endpoints _ s _ _) as [es'|] eqn:Hc.
  - intros [= <- <- <-]. apply cached_endpoints_Some in Hc as (entry & He & -> & Hne & Httl).
    split_and!; [done| |done|].
    + by eapply (reachable_cache_ok (shared self)).
    + left. split_and!; [done..|]. by exists entry.
  - destruct (resolve s (inner self, w)) as [[es'|] [inner' w1]] eqn:Hres; [|done].
    intros [= <- <- <-]. destruct (discovery_resolve_ok s _ _ _ Hres) as [Hne Hok].
    split_and!; [done|done|by apply reachable_store|]. right.
    split_and!; [done|done|apply lookup_insert_eq|].
    intros s' Hs'. by apply lookup_insert_ne.
Qed.

#[global] Instance watching_resolver_non_empty
    `{MetadataApi, UtilsApi, MetadataKeys, DiscoveryProto} `{!DiscoveryApi} `{!UtilsLaws} :
  NonEmptyResolver (WatchingDiscoveryNameResolver * World).
Proof.
  split. intros s [self w] es r' Hr. change (watching_resolve s (self, w) = (Ok es, r')) in Hr.
  unfold watching_resolve in Hr.
  destruct (cached_endpoints _ s _ _) as [es'|] eqn:Hc.
  - injection Hr as <- _. by apply cached_endpoints_Some in Hc as (entry & _ & _ & ? & _).
  - destruct (resolve s (inner self, w)) as [[es'|] [inner' w1]] eqn:Hres; [|done].
    injection Hr as <- _. by destruct (discovery_resolve_ok s _ _ _ Hres).
Qed.

Lemma reachable_revision `{UtilsApi, DiscoveryProto} st : reachable st → 0 ≤ last_revision st.
Proof.
  induction 1 as [|s now msg st _ IH|s es now st _ IH _]; [done| |done].
  rewrite on_message_revision by done. case_match; lia.
Qed.

Lemma reachable_messages `{UtilsApi, DiscoveryProto} s msgs st :
  reachable st → reachable (watch_messages s msgs st) ∧
                 last_revision st ≤ last_revision (watch_messages s msgs st).
Proof.
  revert st. induction msgs as [|[now msg] msgs IH]; intros st Hst; [done|].
  destruct (IH (on_message s now msg st)) as [Hr Hm]; [by constructor|].
  split; [done|]. etransitivity; [|exact Hm].
  rewrite on_message_revision by (by apply reachable_revision). case_match; lia.
Qed.

Section ReconnectLemmas.
Context `{MetadataApi, UtilsApi, MetadataKeys, DiscoveryProto}.
Context `{!DiscoveryApi}.

(** A session keeps the resolver's settings and the cache sound, and never
    moves the revision cursor back. *)
Lemma run_watch_session_steps self s w r self' w' :
  run_watch_session self s w = (r, self', w') → reachable (shared self) →
  watch_config self' = watch_config self ∧ reachable (shared self') ∧
  last_revision (shared self) ≤ last_revision (shared self').
Proof.
  unfold run_watch_session. intros Hs Hr.
  destruct (get_or_init_channel (inner self) w) as [[[ch|] inner'] w1]; [|naive_solver].
  destruct (draw_call_ids w1) as [ids w2].
  destruct (watch_service _ _ _ w2) as [[[msgs stop]|] w3]; [|naive_solver].
  simplify_eq/=. split; [done|]. by apply reachable_messages.
Qed.

(** The longest sleep after [failures] failed sessions in a row: a maximum of
    zero stands for no maximum and no exponential step. *)
Definition longest_sleep (cfg : WatchLoopConfig) (failures : Z) : Z :=
  if max_reconnect_backoff cfg =? 0 then initial_reconnect_backoff cfg
  else Z.min (initial_reconnect_backoff cfg * 2 ^ Z.min failures 16) (max_reconnect_backoff cfg).

Lemma reconnect_backoff_bounds `{RandomApi} `{!RandomLaws} cfg failures :
  0 ≤ failures → 0 ≤ initial_reconnect_backoff cfg → 0 ≤ max_reconnect_backoff cfg →
  0 ≤ reconnect_backoff failures (initial_reconnect_backoff cfg) (max_reconnect_backoff cfg)
    ≤ longest_sleep cfg failures.
Proof.
  intros Hf Hi Hm. unfold longest_sleep.
  destruct (Z.eqb_spec (max_reconnect_backoff cfg) 0) as [->|Hm0].
  { unfold reconnect_backoff, Duration.saturating_mul.
    rewrite Z.shiftl_1_l, Z.min_r by (pose proof (Z.pow_nonneg 2 (Z.min failures 16)); zlia).
    simpl. lia. }
  destruct (decide (initial_reconnect_backoff cfg = 0)) as [Hi0|Hi0];
    [|apply (renew_backoff_bounds failures); lia].
  unfold reconnect_backoff, Duration.saturating_mul. rewrite Hi0, !Z.mul_0_l.
  rewrite (Z.min_l (Z.min _ _)) by zlia. simpl. lia.
Qed.

(** What the specification says of an iteration after [failures] failed
    sessions in a row. *)
Definition reconnect_ok (cfg : WatchLoopConfig) (failures : Z) (p : ReconnectPass) : Prop :=
  match reconnect_sleep p with
  | None => session_clean p = true
  | Some d =>
      session_clean p = false ∧ 0 ≤ d ≤ longest_sleep cfg failures
  end.

Lemma reconnect_pass_steps rng s count self w p attempt self' w' :
  @RandomLaws rng → 0 ≤ count < u32_max → reachable (shared self) →
  0 ≤ initial_reconnect_backoff (watch_config self) →
  0 ≤ max_reconnect_backoff (watch_config self) →
  reconnect_pass rng s count self w = (p, attempt, self', w') →
  reconnect_ok (watch_config self) count p ∧
  attempt = (if session_clean p then 0 else count + 1) ∧
  watch_config self' = watch_config self ∧ reachable (shared self') ∧
  last_revision (shared self) ≤ last_revision (shared self').
Proof.
  intros Hl Hc Hr Hi Hm. unfold reconnect_pass.
  destruct (run_watch_session self s w) as [[[u|e] self1] w1] eqn:Hs;
    apply run_watch_session_steps in Hs as (Hcfg & Hr' & Hle); [|done| |done];
    intros; simplify_eq/=; split_and!; try done.
  - split; [done|]. rewrite Hcfg. apply reconnect_backoff_bounds; [lia|done..].
  - unfold saturating_add. lia.
Qed.

Lemma reconnect_loop_steps rngs s count self w :
  Forall (λ rng, @RandomLaws rng) rngs → reachable (shared self) →
  0 ≤ count → count + Z.of_nat (length rngs) ≤ u32_max →
  0 ≤ initial_reconnect_backoff (watch_config self) →
  0 ≤ max_reconnect_backoff (watch_config self) →
  let '(passes, self', w') := reconnect_loop rngs s count self w in
  length passes = length rngs ∧
  (∀ i p, passes !! i = Some p →
     reconnect_ok (watch_config self)
       (failures_in_a_row count (session_clean <$> take i passes)) p) ∧
  reachable (shared self') ∧ last_revision (shared self) ≤ last_revision (shared self').
Proof.
  intros Hl. revert count self w. induction Hl as [|rng rngs Hlaw Hl IH];
    intros count self w Hr Hc Hlen Hi Hm; [by split_and!|].
  cbn [reconnect_loop length] in *.
  destruct (reconnect_pass rng s count self w) as [[[p attempt] self1] w1] eqn:Hp.
  apply reconnect_pass_steps in Hp as (Hok & -> & Hcfg & Hr1 & Hle); [|done|lia|done..].
  specialize (IH (if session_clean p then 0 else count + 1) self1 w1).
  destruct (reconnect_loop rngs s _ self1 w1) as [[passes self2] w2].
  rewrite Hcfg in IH.
  destruct IH as (Hn & Hps & Hr2 & Hle2); [done|by case_match; lia|by case_match; lia|done..|].
  split_and!; [simpl; lia| |done|lia].
  intros [|i] p' Hp'; [by simplify_eq/=|]. by apply Hps.
Qed.
End ReconnectLemmas.

(** C40: however many sessions the watch loop runs (up to [u32::MAX]), and whatever
    the control plane does in them, each failed session is followed by a sleep of
    at most the smaller of the exponential step of the failures in a row before
    it and the maximum - of at most the initial delay where the maximum is zero -
    and a clean one by none; the cache stays sound and the revision from which
    the next session resumes never moves back. *)
Theorem reconnect_loop_bounded `{MetadataApi, UtilsApi, MetadataKeys, DiscoveryProto}
    `{!DiscoveryApi} rngs s (self self' : WatchingDiscoveryNameResolver) w w' passes :
  Forall (λ rng, @RandomLaws rng) rngs → reachable (shared self) →
  Z.of_nat (length rngs) ≤ u32_max →
  0 ≤ initial_reconnect_backoff (watch_config self) →
  0 ≤ max_reconnect_backoff (watch_config self) →
  run_reconnect_loop rngs s self w = (passes, self', w') →
  length passes = length rngs ∧
  (∀ i p, passes !! i = Some p →
     reconnect_ok (watch_config self)
       (failures_in_a_row 0 (session_clean <$> take i passes)) p) ∧
  reachable (shared self') ∧
  watch_from_revision (watch_request self s) ≤ watch_from_revision (watch_request self' s).
Proof.
  intros Hl Hr Hlen Hi Hm Hrun.
  pose proof (reconnect_loop_steps rngs s 0 self w Hl Hr) as Hsteps.
  unfold run_reconnect_loop in Hrun. rewrite Hrun in Hsteps. by apply Hsteps.
Qed.

(** the revision cursor is shared by the watch loops of all services: a
    message for one service moves the point from which every other service's
    next session is replayed past that revision, without any of the other
    service's instances having been delivered. *)
Theorem revision_cursor_shared `{MetadataApi, UtilsApi, MetadataKeys, DiscoveryProto}
    `{!DiscoveryApi} (self : WatchingDiscoveryNameResolver) s s' now msg r :
  s' ≠ s → msg_revision msg = Some r → 0 < r → 0 ≤ last_revision (shared self) →
  let self' := {| inner := inner self; shared := on_message s now msg (shared self);
                  watch_config := watch_config self |} in
  r ≤ watch_from_revision (watch_request self' s') ∧
  cache (shared self') !! s' = cache (shared self) !! s'.
Proof.
  intros Hs Hr Hpos Hlast. simpl. split.
  - rewrite on_message_revision, Hr by done. lia.
  - by apply on_message_endpoints.
Qed.

(** a deregistration that arrives while [resolve] waits for its discovery
    call is lost: the answer is stored afterwards and the endpoint is served
    again, as fresh, for the whole time to live. *)
Theorem in_flight_resolve_revives_endpoint `{UtilsApi, DiscoveryProto} cfg s now now' msg i es e st :
  watch_event_type_try_from (msg_event_type msg) = Some InstanceDeregistered →
  msg_instance msg = Some i →
  e ∈ es → endpoint e = instance_endpoint i →
  0 ≤ cache_ttl cfg →
  let gone := on_message s now msg st in
  view s gone !! endpoint e = None ∧
  cached_endpoints cfg s now' (store_endpoints s es now' gone) = Some es.
Proof.
  intros Ht Hi He Hei Httl. simpl. split.
  - rewrite on_message_view. unfold spec_message, classify. rewrite Ht, Hi, Hei.
    apply lookup_delete_eq.
  - apply cached_endpoints_Some. eexists. split; [apply lookup_insert_eq|].
    split_and!; [done|by destruct es; [apply elem_of_nil in He|]|].
    simpl. unfold saturating_sub. lia.
Qed.

(** an address leaves the cache of a running session only through a message
    that names this very address: an instance that registers again under a new
    address is announced with the new one, and its old address stays beside it. *)
Theorem moved_instance_keeps_old_address `{UtilsApi, DiscoveryProto} s msgs st a now msg i e :
  is_Some (view s st !! a) →
  Forall (λ tm, classify tm.2 ≠ Remove a) msgs →
  classify msg = Upsert e → msg_instance msg = Some i → endpoint e ≠ a →
  let after := watch_messages s msgs (on_message s now msg st) in
  is_Some (view s after !! a) ∧
  view s (on_message s now msg st) !! endpoint e = Some e.
Proof.
  intros Ha Hmsgs Hmsg Hi Hne. simpl.
  assert (∀ m now' st', classify m ≠ Remove a → is_Some (view s st' !! a) →
    is_Some (view s (on_message s now' m st') !! a)) as Hkeep.
  { intros m now' st' Hm Hst. rewrite on_message_view. unfold spec_message.
    destruct (classify m) as [e'|a'|]; [|rewrite lookup_delete_ne; [done|congruence]|done].
    destruct (decide (endpoint e' = a)) as [->|]; [by rewrite lookup_insert_eq|].
    by rewrite lookup_insert_ne. }
  split.
  - unfold watch_messages.
    assert (is_Some (view s (on_message s now msg st) !! a)) as Hfirst
      by (apply Hkeep; [by rewrite Hmsg|done]).
    revert Hfirst. generalize (on_message s now msg st) as st'.
    induction Hmsgs as [|[t m] msgs Hm _ IH]; intros st' Hst; [done|]. cbn [foldl].
    by apply IH, Hkeep.
  - rewrite on_message_view. unfold spec_message. rewrite Hmsg. apply lookup_insert_eq.
Qed.

(** ** Witnesses *)

Definition event (revision kind : Z) (i : option ServiceInstance) : WatchMessage :=
  {| msg_revision := Some revision; msg_event_type := kind; msg_instance := i |}.

(** Two registrations, a heartbeat and a deregistration. *)
Definition test_session : list (Z * WatchMessage) :=
  [(1, event 4 3 (Some (test_instance "grpc://a:1" 1)));
   (2, event 5 3 (Some (test_instance "grpc://b:1" 2)));
   (3, event 5 1 None);
   (4, event 9 2 (Some (test_instance "grpc://a:1" 1)))].

Definition test_cached : ResolvedEndpoint :=
  {| endpoint := "grpc://b:1"; weight := 1; healthy := true |}.

Lemma watch_session_refines_map_witness :
  @view "svc" (@watch_messages toy_utils toy_proto "svc" test_session watch_state_new)
  = {["grpc://b:1" := test_cached]} ∧
  last_revision (@watch_messages toy_utils toy_proto "svc" test_session watch_state_new) = 9.
Proof.
  destruct (@watch_session_refines_map toy_utils toy_proto "svc" test_session watch_state_new)
    as (Hv & _ & _ & Hr & _); [apply map_Forall_empty|by_compute|].
  split; [rewrite Hv|rewrite Hr]; vm_compute; reflexivity.
Defined.

Definition test_watching (st : WatchState) (ch : option string) :
    @WatchingDiscoveryNameResolver toy_metadata toy_discovery :=
  @Build_WatchingDiscoveryNameResolver toy_metadata toy_discovery (test_resolver ch) st
    watch_config_default.

Lemma watching_resolve_sound_witness :
  Forall endpoint_ok [test_cached].
Proof.
  apply (@watching_resolve_sound toy_metadata toy_utils toy_keys toy_proto toy_discovery
    toy_utils_laws "svc" (test_watching watch_state_new None)
    (test_watching
       (store_endpoints "svc" [test_cached] 7 watch_state_new) (Some "http://127.0.0.1:50051"))
    (7, [test_instance "grpc://b:1" 2]) (7, [test_instance "grpc://b:1" 2]));
    [constructor|reflexivity].
Defined.

(** A control plane whose watch service is down for the first second. *)
Definition flaky_discovery : @DiscoveryApi toy_metadata := {|
  World := Z * list ServiceInstance;
  DiscoveryChannel := string;
  instant_now w := w.1;
  draw_call_ids w := (test_ids, w);
  discovery_connect uri w := (Ok uri, w);
  discover_instances _ _ _ w := (Ok w.2, w);
  watch_service _ _ _ w :=
    (if w.1 <? Duration.from_secs 1 then Err "unavailable" else Ok ([], None), w);
  discovery_sleep d w := (w.1 + d, w.2)
|}.

Definition flaky_watching (ch : option string) :
    @WatchingDiscoveryNameResolver toy_metadata flaky_discovery :=
  @Build_WatchingDiscoveryNameResolver toy_metadata flaky_discovery
    (@Build_DiscoveryNameResolver toy_metadata flaky_discovery resolver_config ch)
    watch_state_new watch_config_default.

(** Two failed sessions with their sleeps, then a clean one. *)
Lemma reconnect_loop_bounded_witness :
  reconnect_ok watch_config_default 1
    {| session_clean := false; reconnect_sleep := Some (Duration.from_secs 1) |}.
Proof.
  refine (proj1 (proj2 (@reconnect_loop_bounded toy_metadata toy_utils toy_keys toy_proto
    flaky_discovery [toy_random; toy_random; toy_random] "svc" (flaky_watching None)
    (flaky_watching (Some "http://127.0.0.1:50051")) (0, []) (Duration.from_millis 1500, [])
    [{| session_clean := false; reconnect_sleep := Some (Duration.from_millis 500) |};
     {| session_clean := false; reconnect_sleep := Some (Duration.from_secs 1) |};
     {| session_clean := true; reconnect_sleep := None |}] _ _ _ _ _ _)) 1%nat _ eq_refl);
    [repeat constructor; simpl; lia|constructor|by_compute|by_compute|by_compute|reflexivity].
Defined.

Lemma revision_cursor_shared_witness :
  9 ≤ watch_from_revision
        (watch_request
           (test_watching
              (@on_message toy_utils toy_proto "svc" 4
                 (event 9 2 (Some (test_instance "grpc://a:1" 1))) watch_state_new) None)
           "other").
Proof.
  apply (@revision_cursor_shared toy_metadata toy_utils toy_keys toy_proto toy_discovery
    (test_watching watch_state_new None) "svc" "other" 4
    (event 9 2 (Some (test_instance "grpc://a:1" 1))) 9); by_compute.
Defined.

Lemma in_flight_resolve_revives_endpoint_witness :
  cached_endpoints watch_config_default "svc" 8
    (store_endpoints "svc" [test_cached] 8
       (@on_message toy_utils toy_proto "svc" 7
          (event 9 2 (Some (test_instance "grpc://b:1" 1))) watch_state_new))
  = Some [test_cached].
Proof.
  apply (@in_flight_resolve_revives_endpoint toy_utils toy_proto watch_config_default "svc" 7 8
    (event 9 2 (Some (test_instance "grpc://b:1" 1))) (test_instance "grpc://b:1" 1)
    [test_cached] test_cached); by_compute.
Defined.

(** [a] registers again as [c]; a heartbeat follows. *)
Lemma moved_instance_keeps_old_address_witness :
  is_Some (view "svc" (@watch_messages toy_utils toy_proto "svc" [(3, event 6 1 None)]
    (@on_message toy_utils toy_proto "svc" 2
       (event 5 3 (Some (test_instance "grpc://c:1" 1)))
       (@on_message toy_utils toy_proto "svc" 1
          (event 4 3 (Some (test_instance "grpc://a:1" 1))) watch_state_new))) !! "grpc://a:1").
Proof.
  refine (proj1 (@moved_instance_keeps_old_address toy_utils toy_proto "svc" [(3, event 6 1 None)]
    _ "grpc://a:1" 2 _ (test_instance "grpc://c:1" 1)
    {| endpoint := "grpc://c:1"; weight := 1; healthy := true |} _ _ _ _ _)).
  - by_compute.
  - repeat constructor. discriminate.
  - reflexivity.
  - reflexivity.
  - discriminate.
Defined.
