(* ===== verification/WatchReplay.v ===== *)
(** * WatchReplay: watch sessions against a durable log

    Composes the reconnect loop of [WatchingResolver] with the control plane's
    watch storage. The storage is outside the repository; what the module
    comment of [watching_discovery_resolver.rs] says of it is the class
    [DurableLogLaws]: mutations are kept in the order of their revisions, a
    watch request is answered with the mutations of its service after the
    requested revision, in order and from the first one on until the stream
    ends, and idle streams get heartbeats that carry the last revision
    delivered. *)
From Stdlib Require Import Sorted.
From S2P Require Import Prelude RustStd Core Interfaces ClientMetadata LoadBalance Transport.
From S2P Require Import DiscoveryMetadata DiscoveryLifecycle DiscoveryResolver WatchingResolver.

(** ** The log *)

Record LogEntry : Type := {
  log_namespace : string;
  log_environment : string;
  log_service : string;
  log_revision : Z;
  log_event : Z;
  log_instance : ServiceInstance
}.

(** The message that delivers a mutation. *)
Definition entry_message (e : LogEntry) : WatchMessage :=
  {| msg_revision := Some (log_revision e); msg_event_type := log_event e;
     msg_instance := Some (log_instance e) |}.

(** A namespace, an environment and a service. *)
Abbreviation Scope := (string * string * string)%type.

Definition scope_of (e : LogEntry) : Scope :=
  (log_namespace e, log_environment e, log_service e).
Definition request_scope (q : WatchServiceRequest) : Scope :=
  (watch_namespace q, watch_environment q, watch_service_name q).

(** The mutations with a revision above [lo] and up to [hi]. *)
Definition between (q : Scope) (lo hi : Z) (log : list LogEntry) : list LogEntry :=
  filter (λ e, scope_of e = q ∧ lo < log_revision e ≤ hi) log.

Definition pending (q : WatchServiceRequest) (log : list LogEntry) : list LogEntry :=
  filter (λ e, scope_of e = request_scope q ∧ watch_from_revision q < log_revision e) log.

Section Replays.
Context `{DiscoveryProto}.

(** The streams that deliver [todo] after the revision [cursor]. *)
Inductive replays : Z → list LogEntry → list (Z * WatchMessage) → Prop :=
| replays_end cursor todo : replays cursor todo []
| replays_heartbeat cursor todo now msg msgs :
    watch_event_type_try_from (msg_event_type msg) = Some Heartbeat →
    (∀ r, msg_revision msg = Some r → r ≤ cursor) →
    replays cursor todo msgs → replays cursor todo ((now, msg) :: msgs)
| replays_entry cursor e todo now msgs :
    replays (log_revision e) todo msgs →
    replays cursor (e :: todo) ((now, entry_message e) :: msgs).
End Replays.

Definition revisions_increase : list LogEntry → Prop :=
  StronglySorted (λ e e', log_revision e < log_revision e').

Class DurableLog `{MetadataApi} `{!DiscoveryApi} : Type := {
  watch_log : World → list LogEntry
}.

Class DurableLogLaws `{DurableLog, DiscoveryProto} : Prop := {
  log_increases w : revisions_increase (watch_log w);
  log_positive w : Forall (λ e, 0 < log_revision e) (watch_log w);
  connect_keeps_log uri w : watch_log w `prefix_of` watch_log (discovery_connect uri w).2;
  draw_keeps_log w : watch_log w `prefix_of` watch_log (draw_call_ids w).2;
  sleep_keeps_log d w : watch_log w `prefix_of` watch_log (discovery_sleep d w);
  watch_keeps_log ch q headers w : watch_log w `prefix_of` watch_log (watch_service ch q headers w).2;
  watch_delivers ch q headers w msgs stop w' :
    watch_service ch q headers w = (Ok (msgs, stop), w') →
    replays (watch_from_revision q) (pending q (watch_log w')) msgs
}.

(** ** Specification *)

Section ReplaySpec.
Context `{UtilsApi, DiscoveryProto}.

Definition apply_entry (m : gmap string ResolvedEndpoint) (e : LogEntry) :
    gmap string ResolvedEndpoint := spec_message m (entry_message e).

(** The endpoints a part of the log leaves. *)
Definition replay (log : list LogEntry) (m : gmap string ResolvedEndpoint) :
    gmap string ResolvedEndpoint := foldl apply_entry m log.
End ReplaySpec.

(** ** Parts of an increasing log *)

Lemma filter_keeps {A} (P : A → Prop) `{∀ x, Decision (P x)} l : Forall P l → filter P l = l.
Proof. induction 1 as [|x l Hx _ IH]; [done|]. by rewrite filter_cons_True, IH. Qed.

Lemma filter_drops {A} (P : A → Prop) `{∀ x, Decision (P x)} l :
  Forall (λ x, ¬ P x) l → filter P l = [].
Proof. induction 1 as [|x l Hx _ IH]; [done|]. by rewrite filter_cons_False, IH. Qed.

Lemma increase_app log log' :
  revisions_increase (log ++ log') ↔
  revisions_increase log ∧ revisions_increase log' ∧
  ∀ e e', e ∈ log → e' ∈ log' → log_revision e < log_revision e'.
Proof.
  induction log as [|x log IH]; simpl.
  { split; [intros; split_and!; [constructor|done|set_solver]|naive_solver]. }
  split.
  - intros Hs. apply StronglySorted_inv in Hs as [Hs Hall].
    apply IH in Hs as (H1 & H2 & H3). rewrite Forall_app in Hall. destruct Hall as [Ha Hb].
    split_and!; [by constructor|done|]. intros e e' [->|He]%elem_of_cons He'; [|by apply H3].
    rewrite Forall_forall in Hb. by apply Hb.
  - intros (H1 & H2 & H3). apply StronglySorted_inv in H1 as [Hs Hall]. constructor.
    + apply IH. split_and!; [done..|]. intros. apply H3; [by right|done].
    + apply Forall_app. split; [done|]. apply Forall_forall. intros e' He'. apply H3; [left|done].
Qed.

Lemma between_nil q lo hi log :
  Forall (λ e, hi < log_revision e ∨ log_revision e ≤ lo) log → between q lo hi log = [].
Proof.
  intros Hlog. apply filter_drops. eapply Forall_impl; [exact Hlog|]. simpl. lia.
Qed.

Lemma between_ext q lo lo' hi log :
  Forall (λ e, lo < log_revision e ∧ lo' < log_revision e) log →
  between q lo hi log = between q lo' hi log.
Proof.
  unfold between. induction 1 as [|e log He _ IH]; [done|].
  rewrite !filter_cons, IH. repeat case_decide; naive_solver lia.
Qed.

(** A range of revisions is cut at any revision in it. *)
Lemma between_split q lo mid hi log :
  revisions_increase log → lo ≤ mid ≤ hi →
  between q lo hi log = between q lo mid log ++ between q mid hi log.
Proof.
  intros Hs Hle. induction Hs as [|e log Hs IH Hall]; [done|].
  destruct (Z.le_gt_cases (log_revision e) mid) as [Hm|Hm].
  - unfold between in *. rewrite !(filter_cons _ e).
    rewrite (decide_False (P := scope_of e = q ∧ mid < log_revision e ≤ hi)) by lia.
    destruct (decide (scope_of e = q ∧ lo < log_revision e ≤ hi)) as [Hd|Hd].
    + rewrite decide_True by (split; [apply Hd|lia]). by rewrite IH.
    + rewrite decide_False by (intros [? ?]; apply Hd; split; [done|lia]). done.
  - rewrite (between_nil q lo mid); [simpl|].
    + apply between_ext. constructor; [lia|]. eapply Forall_impl; [exact Hall|]. simpl. lia.
    + constructor; [lia|]. eapply Forall_impl; [exact Hall|]. simpl. lia.
Qed.

Lemma between_all q hi log :
  Forall (λ e, 0 < log_revision e) log →
  Forall (λ e, scope_of e = q → log_revision e ≤ hi) log →
  between q 0 hi log = filter (λ e, scope_of e = q) log.
Proof.
  unfold between. induction 1 as [|e log Hp _ IH]; intros Hall; [done|].
  apply Forall_cons in Hall as [He Hall]. rewrite !filter_cons, IH by done.
  repeat case_decide; naive_solver lia.
Qed.

(** Entries that a growing log gains lie beyond a revision it already has. *)
Lemma between_grow q lo hi log log' :
  log `prefix_of` log' → revisions_increase log' →
  hi ≤ lo ∨ (∃ e, e ∈ log ∧ log_revision e = hi) →
  between q lo hi log' = between q lo hi log.
Proof.
  intros [more ->] Hs Hhi. unfold between. rewrite filter_app. fold (between q lo hi log).
  fold (between q lo hi more). rewrite (between_nil q lo hi more); [by rewrite app_nil_r|].
  apply increase_app in Hs as (_ & _ & Hlt). apply Forall_forall. intros e He.
  destruct Hhi as [Hhi|(e' & He' & <-)]; [lia|]. left. by apply Hlt.
Qed.

Lemma filter_increases (P : LogEntry → Prop) `{∀ e, Decision (P e)} log :
  revisions_increase log → revisions_increase (filter P log).
Proof.
  induction 1 as [|e log Hs IH Hall]; [constructor|]. rewrite filter_cons. case_decide; [|done].
  constructor; [done|]. apply Forall_forall. intros e' [_ He']%list_elem_of_filter.
  rewrite Forall_forall in Hall. by apply Hall.
Qed.

(** ** One session *)

Section Session.
Context `{HUtils : UtilsApi, HProto : DiscoveryProto}.

Lemma heartbeat_ignored m msg :
  watch_event_type_try_from (msg_event_type msg) = Some Heartbeat → spec_message m msg = m.
Proof. unfold spec_message, classify. by intros ->. Qed.

(** A stream delivers a first part of what is pending, and the cursor ends at
    the last revision of that part. *)
Lemma replays_messages s cursor todo msgs st :
  replays cursor todo msgs → Forall (λ e, cursor < log_revision e) todo →
  revisions_increase todo → last_revision st = cursor → 0 ≤ cursor →
  ∃ delivered rest,
    todo = delivered ++ rest ∧
    view s (watch_messages s msgs st) = replay delivered (view s st) ∧
    last_revision (watch_messages s msgs st) = default cursor (log_revision <$> last delivered).
Proof.
  intros Hr. revert st.
  induction Hr as [cursor todo|cursor todo now msg msgs Hh Hrev Hr IH|cursor e todo now msgs Hr IH];
    intros st Hlow Hinc Hst Hc.
  - by exists [], todo.
  - destruct (IH (on_message s now msg st)) as (delivered & rest & -> & Hv & Hl); try done.
    { rewrite on_message_revision by lia. destruct (msg_revision msg) as [r|]; [|done].
      specialize (Hrev r eq_refl). lia. }
    exists delivered, rest. split_and!; [done| |done].
    rewrite on_message_view, heartbeat_ignored in Hv by done. exact Hv.
  - apply StronglySorted_inv in Hinc as [Hinc Hall]. apply Forall_cons in Hlow as [He Hlow].
    destruct (IH (on_message s now (entry_message e) st)) as (delivered & rest & -> & Hv & Hl);
      [done|done|rewrite on_message_revision by lia; simpl; lia|lia|].
    exists (e :: delivered), rest. split_and!; [done| |].
    + rewrite on_message_view in Hv. exact Hv.
    + etransitivity; [exact Hl|]. rewrite last_cons. by destruct (last delivered).
Qed.

(** The part of the pending entries up to the last one delivered. *)
Lemma delivered_between q delivered rest log :
  revisions_increase log → pending q log = delivered ++ rest →
  let hi := default (watch_from_revision q) (log_revision <$> last delivered) in
  delivered = between (request_scope q) (watch_from_revision q) hi log ∧ watch_from_revision q ≤ hi ∧
  (hi ≤ watch_from_revision q ∨ ∃ e, e ∈ log ∧ log_revision e = hi).
Proof.
  intros Hs Hp. cbv zeta. set (lo := watch_from_revision q).
  assert (revisions_increase (pending q log)) as Hinc by (by apply filter_increases).
  assert (∀ e, e ∈ delivered ++ rest → e ∈ log ∧ scope_of e = request_scope q ∧ lo < log_revision e) as Hin.
  { intros e. rewrite <- Hp. unfold pending. rewrite list_elem_of_filter. fold lo. tauto. }
  rewrite Hp in Hinc.
  apply increase_app in Hinc as (Hd & _ & Hlt).
  set (hi := default lo (log_revision <$> last delivered)).
  assert (∀ e, e ∈ delivered → log_revision e ≤ hi) as Hle.
  { intros e He. unfold hi. clear -Hd He. induction Hd as [|x l Hl IH Hall]; [by apply elem_of_nil in He|].
    rewrite last_cons. destruct (last l) as [y|] eqn:Hy; simpl in *.
    - apply elem_of_cons in He as [->|He]; [|by apply IH].
      apply last_Some_elem_of in Hy. rewrite Forall_forall in Hall. specialize (Hall y Hy). lia.
    - apply last_None in Hy as ->. apply list_elem_of_singleton in He as ->. done. }
  assert (∀ e, e ∈ rest → hi < log_revision e) as Hgt.
  { intros e He. unfold hi. destruct (last delivered) as [y|] eqn:Hy; simpl.
    - apply Hlt; [by apply last_Some_elem_of|done].
    - apply Hin. apply elem_of_app. by right. }
  split_and!.
  - transitivity (filter (λ e, log_revision e ≤ hi) (delivered ++ rest)).
    { rewrite filter_app, (filter_keeps _ delivered), (filter_drops _ rest), app_nil_r; [done|..].
      - apply Forall_forall. intros e He. specialize (Hgt e He). lia.
      - by apply Forall_forall. }
    rewrite <- Hp. unfold pending, between. fold lo. rewrite list_filter_filter.
    apply list_filter_iff. intros e. tauto.
  - unfold hi. destruct (last delivered) as [y|] eqn:Hy; simpl; [|done].
    apply last_Some_elem_of in Hy. destruct (Hin y) as (_ & _ & ?); [|lia].
    apply elem_of_app. by left.
  - unfold hi. destruct (last delivered) as [y|] eqn:Hy; simpl; [|by left]. right. exists y.
    split; [|done]. apply last_Some_elem_of in Hy. apply Hin, elem_of_app. by left.
Qed.
End Session.

(** ** Sessions and loops *)

Section Loop.
Context `{HMeta : MetadataApi, HUtils : UtilsApi, HKeys : MetadataKeys, HProto : DiscoveryProto}.
Context `{!DiscoveryApi, !DurableLog, !DurableLogLaws}.

(** The scope a resolver watches for a service. *)
Definition watch_scope (self : WatchingDiscoveryNameResolver) (s : string) : Scope :=
  request_scope (watch_request self s).

(** What sessions for [s] that take the resolver from [self] to [self'] have
    brought, when [log] is the log at their end: the cursor did not move back,
    and the endpoints are those of before changed by the mutations of [s] that
    the cursor has passed, each once and in order. *)
Record caught_up (s : string) (self self' : WatchingDiscoveryNameResolver) (log : list LogEntry) :
    Prop := {
  cu_scope : watch_scope self' s = watch_scope self s;
  cu_cursor : last_revision (shared self) ≤ last_revision (shared self');
  cu_known : last_revision (shared self') ≤ last_revision (shared self) ∨
             ∃ e, e ∈ log ∧ log_revision e = last_revision (shared self');
  cu_view : view s (shared self') =
    replay (between (watch_scope self s) (last_revision (shared self))
              (last_revision (shared self')) log) (view s (shared self))
}.

Lemma caught_up_refl s self self' log :
  shared self' = shared self → watch_scope self' s = watch_scope self s →
  caught_up s self self' log.
Proof.
  intros Hsh Hsc. split; rewrite ?Hsh; [done|lia|left; lia|].
  rewrite between_nil; [done|]. apply Forall_forall. intros. lia.
Qed.

Lemma caught_up_trans s self1 self2 self3 log log' :
  log `prefix_of` log' → revisions_increase log' →
  caught_up s self1 self2 log → caught_up s self2 self3 log' → caught_up s self1 self3 log'.
Proof.
  intros Hpre Hinc [Hs1 Hc1 Hk1 Hv1] [Hs2 Hc2 Hk2 Hv2].
  split; [congruence|lia| |].
  - destruct Hk2 as [Hk2|]; [|by right]. destruct Hk1 as [Hk1|(e & He & Hr)]; [left; lia|right].
    exists e. split; [|lia]. destruct Hpre as [more ->]. apply elem_of_app. by left.
  - rewrite (between_split _ _ (last_revision (shared self2))) by done.
    unfold replay in *. rewrite foldl_app, Hv2, Hv1, Hs1.
    by rewrite (between_grow _ _ (last_revision (shared self2)) log log').
Qed.

Lemma session_caught_up self s w r self' w' :
  run_watch_session self s w = (r, self', w') → 0 ≤ last_revision (shared self) →
  caught_up s self self' (watch_log w') ∧ watch_log w `prefix_of` watch_log w'.
Proof.
  unfold run_watch_session. intros Hrun Hpos.
  assert (watch_log w `prefix_of` watch_log (get_or_init_channel (inner self) w).2 ∧
    res_config (get_or_init_channel (inner self) w).1.2 = res_config (inner self)) as [Hp1 Hcfg].
  { unfold get_or_init_channel. destruct (channel (inner self)); [done|].
    pose proof (connect_keeps_log
      (normalize_http_endpoint (res_discovery_endpoint (res_config (inner self)))) w) as Hk.
    by destruct (discovery_connect _ w) as [[|] w1]. }
  destruct (get_or_init_channel (inner self) w) as [[[ch|e] inner'] w1]; simpl in Hp1, Hcfg.
  2:{ simplify_eq/=. split; [|done]. apply caught_up_refl; [done|]. unfold watch_scope, request_scope; simpl. by rewrite Hcfg. }
  pose proof (draw_keeps_log w1) as Hp2. destruct (draw_call_ids w1) as [ids w2]. simpl in Hp2.
  pose proof (watch_keeps_log ch (watch_request self s)
    (apply_metadata_template metadata_new
       (unsigned_registry_read_metadata (res_subject_id (res_config (inner self))) ids)) w2) as Hp3.
  destruct (watch_service ch _ _ w2) as [[[msgs stop]|e] w3] eqn:Hw; simpl in Hp3;
    simplify_eq/=; (split; [|by do 2 (etransitivity; [eassumption|])]).
  - apply watch_delivers in Hw.
    destruct (replays_messages s _ _ msgs (shared self) Hw) as (delivered & rest & Hp & Hv & Hl).
    { apply Forall_forall. intros e [[_ He] _]%list_elem_of_filter. done. }
    { apply filter_increases, log_increases. }
    { done. }
    { done. }
    destruct (delivered_between _ _ _ _ (log_increases w') Hp) as (Hd & Hle & Hk).
    split; simpl.
    + unfold watch_scope, request_scope; simpl. by rewrite Hcfg.
    + rewrite Hl. exact Hle.
    + rewrite Hl. exact Hk.
    + rewrite Hv, Hl. by rewrite Hd at 1.
  - apply caught_up_refl; [done|]. unfold watch_scope, request_scope; simpl. by rewrite Hcfg.
Qed.

Lemma loop_caught_up rngs s attempt self w :
  0 ≤ last_revision (shared self) →
  let '(_, self', w') := reconnect_loop rngs s attempt self w in
  caught_up s self self' (watch_log w') ∧ watch_log w `prefix_of` watch_log w'.
Proof.
  revert attempt self w. induction rngs as [|rng rngs IH]; intros attempt self w Hpos.
  { split; [by apply caught_up_refl|done]. }
  cbn [reconnect_loop]. unfold reconnect_pass.
  destruct (run_watch_session self s w) as [[r self1] w1] eqn:Hs.
  destruct (session_caught_up _ _ _ _ _ _ Hs Hpos) as [Hcu Hpre].
  pose proof (cu_cursor _ _ _ _ Hcu) as Hmono.
  assert (∀ w2 count, watch_log w1 `prefix_of` watch_log w2 →
    let '(_, self', w') := reconnect_loop rngs s count self1 w2 in
    caught_up s self self' (watch_log w') ∧ watch_log w `prefix_of` watch_log w') as Hrest.
  { intros w2 count Hw2. specialize (IH count self1 w2 ltac:(lia)).
    destruct (reconnect_loop rngs s count self1 w2) as [[passes self'] w'].
    destruct IH as [Hcu' Hpre'].
    split; [|by do 2 (etransitivity; [eassumption|])].
    eapply caught_up_trans; [|apply log_increases|exact Hcu|exact Hcu'].
    by etransitivity. }
  destruct r as [u|e].
  - specialize (Hrest w1 0 ltac:(done)).
    by destruct (reconnect_loop rngs s 0 self1 w1) as [[passes self'] w'].
  - match goal with |- context [discovery_sleep ?d w1] =>
      specialize (Hrest (discovery_sleep d w1) (saturating_add u32_max attempt 1) (sleep_keeps_log d w1)) end.
    by destruct (reconnect_loop rngs s _ self1 _) as [[passes self'] w'].
Qed.

(** Sessions keep the addresses of every entry distinct. *)
Lemma loop_unique rngs s attempt self w :
  addresses_unique (shared self) →
  addresses_unique (shared (reconnect_loop rngs s attempt self w).1.2).
Proof.
  assert (∀ self w, addresses_unique (shared self) →
    addresses_unique (shared (run_watch_session self s w).1.2)) as Hsession.
  { clear. intros self w Hu. unfold run_watch_session.
    destruct (get_or_init_channel _ w) as [[[ch|] inner'] w1]; [|done].
    destruct (draw_call_ids w1) as [ids w2].
    destruct (watch_service _ _ _ w2) as [[[msgs stop]|] w3]; [|done]. simpl.
    unfold watch_messages. generalize dependent (shared self).
    induction msgs as [|[now msg] msgs IH]; intros st Hst; [done|]. by apply IH, on_message_unique. }
  revert attempt self w. induction rngs as [|rng rngs IH]; intros attempt self w Hu; [done|].
  cbn [reconnect_loop]. unfold reconnect_pass. specialize (Hsession self w Hu).
  destruct (run_watch_session self s w) as [[[|] self1] w1]; simpl in Hsession;
    match goal with |- context [reconnect_loop rngs s ?a self1 ?w] =>
      specialize (IH a self1 w Hsession);
      by destruct (reconnect_loop rngs s a self1 w) as [[passes self'] w'] end.
Qed.

(** A loop that starts on a new resolver. *)
Lemma fresh_loop_view rngs s self w passes self' w' :
  shared self = watch_state_new → run_reconnect_loop rngs s self w = (passes, self', w') →
  view s (shared self') =
    replay (between (watch_scope self s) 0 (last_revision (shared self')) (watch_log w')) ∅ ∧
  addresses_unique (shared self').
Proof.
  intros Hnew Hrun. unfold run_reconnect_loop in Hrun.
  pose proof (loop_caught_up rngs s 0 self w) as Hcu.
  pose proof (loop_unique rngs s 0 self w) as Hu. rewrite Hrun in Hcu, Hu. rewrite Hnew in Hcu, Hu.
  destruct Hcu as [[_ _ _ Hv] _]; [done|]. rewrite Hnew in Hv.
  split; [exact Hv|exact (Hu (map_Forall_empty _))].
Qed.
End Loop.

Lemma view_elem `{UtilsApi, DiscoveryProto} s st e :
  addresses_unique st → e ∈ entry_endpoints s st ↔ view s st !! endpoint e = Some e.
Proof.
  intros Hu. rewrite view_entry. unfold endpoint_map.
  assert (NoDup (((λ e, (endpoint e, e)) <$> entry_endpoints s st).*1)) as Hnd.
  { rewrite <- list_fmap_compose. change (fst ∘ (λ e : ResolvedEndpoint, (endpoint e, e))) with endpoint.
    unfold entry_endpoints. destruct (cache st !! s) as [entry|] eqn:He; [|constructor].
    by apply (Hu s entry). }
  rewrite <- elem_of_list_to_map by done. rewrite list_elem_of_fmap. naive_solver.
Qed.

Lemma apply_entry_other `{UtilsApi, DiscoveryProto} `{!UtilsLaws} m e a :
  instance_endpoint (log_instance e) ≠ a → apply_entry m e !! a = m !! a.
Proof.
  intros Hne. unfold apply_entry, spec_message.
  destruct (classify (entry_message e)) as [x|a'|] eqn:Hc; [| |done].
  - rewrite lookup_insert_ne; [done|]. intros <-. apply Hne.
    unfold classify in Hc. simpl in Hc.
    assert (map_discovered_instance (log_instance e) = Some x) as Hm
      by (repeat case_match; simplify_eq; done).
    by apply map_discovered_instance_Some in Hm as (_ & _ & -> & _).
  - rewrite lookup_delete_ne; [done|]. intros ->. apply Hne. unfold classify in Hc. simpl in Hc.
    by repeat case_match; simplify_eq.
Qed.

(** ** Properties *)

Section Properties.
Context `{HMeta : MetadataApi, HUtils : UtilsApi, HKeys : MetadataKeys, HProto : DiscoveryProto}.
Context `{!DiscoveryApi, !DurableLog, !DurableLogLaws, !UtilsLaws}.

(** C8: reconnecting alone neither loses nor repeats a mutation: take a watch loop
    that runs on a resolver that was new when it started, with no other loop and
    no resolution writing to it. However many sessions it runs and however each
    of them ends, the cached endpoints of the service are what the control
    plane's log says at the revision the loop has reached; an answer from the
    cache hands out exactly those, and when the loop has reached the service's
    last mutation they are the endpoints the whole log leaves. *)
Theorem watch_loop_replays_log rngs s (self self' : WatchingDiscoveryNameResolver) w w' passes :
  shared self = watch_state_new →
  run_reconnect_loop rngs s self w = (passes, self', w') →
  let reached := last_revision (shared self') in
  let listed := replay (between (watch_scope self s) 0 reached (watch_log w')) ∅ in
  view s (shared self') = listed ∧
  (∀ cfg now es e, cached_endpoints cfg s now (shared self') = Some es →
     e ∈ es ↔ listed !! endpoint e = Some e) ∧
  (Forall (λ e, scope_of e = watch_scope self s → log_revision e ≤ reached) (watch_log w') →
   listed = replay (filter (λ e, scope_of e = watch_scope self s) (watch_log w')) ∅).
Proof.
  intros Hnew Hrun. cbv zeta. destruct (fresh_loop_view _ _ _ _ _ _ _ Hnew Hrun) as [Hv Hu].
  split_and!; [done| |].
  - intros cfg now es e Hc. rewrite <- Hv. rewrite <- view_elem by done. unfold entry_endpoints.
    by apply cached_endpoints_Some in Hc as (entry & -> & -> & _).
  - intros Hall. by rewrite between_all by (apply log_positive || done).
Qed.

(** C37: a message for one service hides mutations of another: it moves the cursor
    that all watch loops share, and no later session of the other service
    delivers the mutations the cursor has passed. An address that no newer
    mutation names stays in that service's cache as it was before, though the
    log may have removed it in between. *)
Theorem other_watch_hides_mutations rngs s s' now msg r a
    (self self' : WatchingDiscoveryNameResolver) w w' passes :
  s' ≠ s → msg_revision msg = Some r → 0 ≤ last_revision (shared self) →
  let moved := {| inner := inner self; shared := on_message s' now msg (shared self);
                  watch_config := watch_config self |} in
  run_reconnect_loop rngs s moved w = (passes, self', w') →
  Forall (λ e, scope_of e = watch_scope self s → r < log_revision e →
               instance_endpoint (log_instance e) ≠ a) (watch_log w') →
  view s (shared self') !! a = view s (shared self) !! a.
Proof.
  intros Hne Hr Hpos moved Hrun Hlog. unfold run_reconnect_loop in Hrun.
  pose proof (loop_caught_up rngs s 0 moved w) as Hcu. rewrite Hrun in Hcu.
  destruct Hcu as [[_ _ _ Hv] _].
  { simpl. rewrite on_message_revision, Hr by done. lia. }
  rewrite Hv. change (watch_scope moved s) with (watch_scope self s). simpl.
  assert (view s (on_message s' now msg (shared self)) = view s (shared self)) as ->.
  { unfold view. by rewrite (proj1 (proj2 (on_message_endpoints s' now msg (shared self))) s). }
  rewrite on_message_revision, Hr by done.
  set (delivered := between _ _ _ _).
  assert (Forall (λ e, instance_endpoint (log_instance e) ≠ a) delivered) as Hd.
  { apply Forall_forall. intros e [[Hsc He] Hin]%list_elem_of_filter.
    rewrite Forall_forall in Hlog. apply (Hlog e Hin Hsc). lia. }
  unfold replay. generalize (view s (shared self)). induction Hd as [|e l He _ IH]; intros m; [done|].
  simpl. rewrite IH. by apply apply_entry_other.
Qed.
End Properties.

(** ** Witnesses *)

Definition test_entry (s : string) (r kind : Z) (address : string) : LogEntry :=
  {| log_namespace := "sdkwork"; log_environment := "development"; log_service := s;
     log_revision := r; log_event := kind; log_instance := test_instance address 1 |}.

(** [a] registers, another service registers [b], [c] registers, [a] goes. *)
Definition test_log : list LogEntry :=
  [test_entry "svc" 1 3 "grpc://a:1"; test_entry "other" 2 3 "grpc://b:1";
   test_entry "svc" 4 3 "grpc://c:1"; test_entry "svc" 5 2 "grpc://a:1";
   test_entry "other" 7 2 "grpc://b:1"].

(** A control plane whose world is the time and the number of mutations so far;
    each sleep brings two more. It answers a watch request with everything
    pending and a heartbeat, and then breaks the stream. *)
Definition log_plane : @DiscoveryApi toy_metadata := {|
  World := Z * nat;
  DiscoveryChannel := string;
  instant_now w := w.1;
  draw_call_ids w := (test_ids, w);
  discovery_connect uri w := (Ok uri, w);
  discover_instances _ _ _ w := (Ok [], w);
  watch_service _ q _ w :=
    (Ok (((λ e, (w.1, entry_message e)) <$> pending q (take w.2 test_log)) ++
         [(w.1, {| msg_revision := None; msg_event_type := 1; msg_instance := None |})],
         Some "reset"), w);
  discovery_sleep d w := (w.1 + d, (w.2 + 2)%nat)
|}.

#[local] Instance log_plane_log : @DurableLog toy_metadata log_plane :=
  @Build_DurableLog toy_metadata log_plane (λ w, take w.2 test_log).

Lemma test_log_increases : revisions_increase test_log.
Proof. repeat constructor. Qed.

Lemma log_plane_laws : @DurableLogLaws toy_metadata log_plane log_plane_log toy_proto.
Proof.
  split; simpl; intros; simplify_eq/=; try done.
  - pose proof test_log_increases as Hs. rewrite <- (take_drop w.2 test_log) in Hs.
    by apply increase_app in Hs as [Hs _].
  - apply Forall_take. by repeat constructor.
  - replace w.2 with (w.2 `min` (w.2 + 2))%nat at 1 by lia. rewrite <- take_take. apply prefix_take.
  - generalize (watch_from_revision q). induction (pending q (take w'.2 test_log)) as [|e l IH];
      intros r; simpl; [apply replays_heartbeat; [done|done|constructor]|].
    by constructor.
Qed.

Definition log_watcher : @WatchingDiscoveryNameResolver toy_metadata log_plane :=
  @Build_WatchingDiscoveryNameResolver toy_metadata log_plane
    (@Build_DiscoveryNameResolver toy_metadata log_plane resolver_config None)
    watch_state_new watch_config_default.

Lemma triple_eta {A B C} (x : A * B * C) : x = (x.1.1, x.1.2, x.2).
Proof. by destruct x as [[? ?] ?]. Qed.

Abbreviation watch_run rngs self w :=
  (@run_reconnect_loop toy_metadata toy_utils toy_keys toy_proto log_plane rngs "svc" self w).

(** Two broken sessions; [a] comes in the first, [c] in the second. *)
Lemma watch_loop_replays_log_witness :
  view "svc" (shared (watch_run [toy_random; toy_random] log_watcher (7, 1%nat)).1.2)
  = {["grpc://a:1" := {| endpoint := "grpc://a:1"; weight := 1; healthy := true |};
      "grpc://c:1" := {| endpoint := "grpc://c:1"; weight := 1; healthy := true |}]}.
Proof.
  etransitivity.
  - apply (@watch_loop_replays_log toy_metadata toy_utils toy_keys toy_proto log_plane log_plane_log
      log_plane_laws [toy_random; toy_random] "svc" log_watcher _ (7, 1%nat)
      (watch_run [toy_random; toy_random] log_watcher (7, 1%nat)).2
      (watch_run [toy_random; toy_random] log_watcher (7, 1%nat)).1.1 eq_refl).
    apply triple_eta.
  - vm_compute. reflexivity.
Defined.

(** [a] is cached at revision 1; then a message of another service moves the
    cursor to 7, past the deregistration of [a] at 5. *)
Definition seen_a : WatchState :=
  {| cache := {["svc" := {| cached := [{| endpoint := "grpc://a:1"; weight := 1; healthy := true |}];
                             updated_at := 6 |}]};
     last_revision := 1 |}.

Definition seen_watcher : @WatchingDiscoveryNameResolver toy_metadata log_plane :=
  @Build_WatchingDiscoveryNameResolver toy_metadata log_plane
    (@Build_DiscoveryNameResolver toy_metadata log_plane resolver_config None)
    seen_a watch_config_default.

Definition moved_watcher : @WatchingDiscoveryNameResolver toy_metadata log_plane :=
  @Build_WatchingDiscoveryNameResolver toy_metadata log_plane
    (@Build_DiscoveryNameResolver toy_metadata log_plane resolver_config None)
    (@on_message toy_utils toy_proto "other" 7 (entry_message (test_entry "other" 7 2 "grpc://b:1")) seen_a)
    watch_config_default.

Lemma other_watch_hides_mutations_witness :
  is_Some (view "svc" (shared (watch_run [toy_random; toy_random] moved_watcher (7, 5%nat)).1.2)
             !! "grpc://a:1") ∧
  @replay toy_utils toy_proto (filter (λ e, scope_of e = ("sdkwork", "development", "svc")) test_log) ∅
    !! "grpc://a:1" = None.
Proof.
  split; [|vm_compute; reflexivity].
  rewrite (@other_watch_hides_mutations toy_metadata toy_utils toy_keys toy_proto log_plane log_plane_log
    log_plane_laws toy_utils_laws [toy_random; toy_random] "svc" "other" 7
    (entry_message (test_entry "other" 7 2 "grpc://b:1")) 7 "grpc://a:1" seen_watcher _ (7, 5%nat)
    (watch_run [toy_random; toy_random] moved_watcher (7, 5%nat)).2
    (watch_run [toy_random; toy_random] moved_watcher (7, 5%nat)).1.1); try done.
  apply Forall_take. by repeat constructor.
Defined.
