(* ===== verification/WatchControl.v ===== *)
(** * WatchControl: from a registration to a watcher's cache

    Composes the registration and deregistration of [DiscoveryLifecycle] with
    the watch loop of [WatchingResolver], through the control plane's log.
    [MutationLogLaws] says how the calls of the servers appear in it: an accepted
    registration or deregistration is one new mutation at the end. *)
From S2P Require Import Prelude RustStd Core Interfaces Tls ClientMetadata LoadBalance Transport.
From S2P Require Import DiscoveryMetadata DiscoveryLifecycle Server DiscoveryResolver ControlPlane.
From S2P Require Import WatchingResolver WatchReplay.

(** ** The log as the servers' calls see it *)

Class MutationLog `{MetadataApi} `{!RegistryApi} : Type := {
  mutations : DiscoveryLifecycle.World → list LogEntry;
  registrations : DiscoveryLifecycle.World → Registrations
}.

Definition key_scope (k : InstanceKey) : Scope :=
  (key_namespace k, key_environment k, key_service_name k).

Class MutationLogLaws `{MutationLog, DiscoveryProto} : Prop := {
  logged_status : instance_status_try_from SERVING = Some Serving;
  register_logs ch req headers w lease w' :
    register_instance ch req headers w = (Ok lease, w') →
    ∃ e, mutations w' = mutations w ++ [e] ∧ scope_of e = key_scope (req_key req) ∧
         log_instance e = listed req ∧ watch_event_type_try_from (log_event e) = Some OtherEvent;
  deregister_logs ch k headers w w' :
    deregister_instance ch k headers w = (Ok (), w') →
    ∃ e, mutations w' = mutations w ++ [e] ∧ scope_of e = key_scope k ∧
         watch_event_type_try_from (log_event e) = Some InstanceDeregistered ∧
         ∀ r, registrations w !! k = Some r → instance_endpoint (log_instance e) = req_endpoint r
}.

(** ** The last word on an address *)

(** An entry of the scope that no later one of the scope overrides. *)
Definition last_word (q : Scope) (e : LogEntry) (log : list LogEntry) : Prop :=
  ∃ earlier later,
    log = earlier ++ e :: later ∧ scope_of e = q ∧
    Forall (λ e', scope_of e' = q →
      instance_endpoint (log_instance e') ≠ instance_endpoint (log_instance e)) later.

Lemma replay_last_word `{UtilsApi, DiscoveryProto} `{!UtilsLaws} q e log :
  last_word q e log →
  ∃ m, replay (filter (λ e', scope_of e' = q) log) ∅ !! instance_endpoint (log_instance e)
       = apply_entry m e !! instance_endpoint (log_instance e).
Proof.
  intros (earlier & later & -> & Hq & Hlater). set (a := instance_endpoint _) in *.
  rewrite filter_app, filter_cons_True by done. unfold replay. rewrite foldl_app. cbn [foldl].
  set (m := foldl apply_entry ∅ _). exists m. generalize (apply_entry m e).
  induction Hlater as [|e' later He' _ IH]; intros m'; [done|]. rewrite filter_cons. case_decide; [|done].
  simpl. rewrite IH. apply apply_entry_other. by apply He'.
Qed.

(** A watcher that has reached the end of its scope's log. *)
Section Watcher.
Context `{HMeta : MetadataApi, HUtils : UtilsApi, HKeys : MetadataKeys, HProto : DiscoveryProto}.
Context `{!DiscoveryApi, !DurableLog, !DurableLogLaws, !UtilsLaws}.

Record follows (q : Scope) (s : string) (self' : WatchingDiscoveryNameResolver) (v' : World) : Prop := {
  fo_run : ∃ rngs self v passes,
    shared self = watch_state_new ∧ watch_scope self s = q ∧
    run_reconnect_loop rngs s self v = (passes, self', v');
  fo_reached : Forall (λ e, scope_of e = q → log_revision e ≤ last_revision (shared self')) (watch_log v')
}.

Lemma follows_view q s self' v' :
  follows q s self' v' →
  view s (shared self') = replay (filter (λ e, scope_of e = q) (watch_log v')) ∅ ∧
  addresses_unique (shared self').
Proof.
  intros [(rngs & self & v & passes & Hnew & Hq & Hrun) Hall].
  destruct (fresh_loop_view _ _ _ _ _ _ _ Hnew Hrun) as [Hv Hu]. split; [|done].
  rewrite Hv, Hq. by rewrite between_all by (apply log_positive || done).
Qed.
End Watcher.

(** ** Lemmas *)

Section Registration.
Context `{HLog : MutationLog, HUtils : UtilsApi, HKeys : MetadataKeys, HProto : DiscoveryProto}.
Context `{!UtilsLaws, !MutationLogLaws}.

(** A registration is the newest mutation, and lists what was configured. *)
Lemma register_logged c ids ids' w h w' :
  register c ids ids' w = (Ok h, w') →
  config_sound c ∧
  ∃ e earlier, mutations w' = earlier ++ [e] ∧ scope_of e = key_scope (instance_key c) ∧
    instance_endpoint (log_instance e) = advertised_endpoint c ∧
    classify (entry_message e) = Upsert (advertised c).
Proof.
  unfold register. destruct (config_validate_cases c) as [[-> Hc]|(m & -> & _)]; [|done].
  destruct (connect _ w) as [[ch|] w1]; [|done].
  destruct (resolve_expected_revision ch c ids' w1) as [[rev|] w2]; [|done].
  destruct (register_instance _ _ _ w2) as [[lease|] w3] eqn:Hr; [|done].
  destruct (is_blank _); [done|]. intros [= <- <-]. split; [done|].
  destruct (register_logs _ _ _ _ _ _ Hr) as (e & Hm & Hq & Hi & Ht). exists e, (mutations w2).
  split_and!; [done|done|by rewrite Hi|].
  assert (trim (advertised_endpoint c) ≠ "") as Ha
    by (pose proof (cs_fields c Hc) as Hf; rewrite !Forall_cons in Hf; apply Hf).
  unfold classify, is_serving, map_discovered_instance. cbn [entry_message msg_event_type msg_instance].
  rewrite Ht, Hi. cbn [listed register_request instance_status instance_endpoint instance_weight
    req_status req_endpoint req_weight].
  rewrite logged_status, is_blank_Some. unfold str_is_empty. by rewrite bool_decide_false.
Qed.

Lemma deregister_logged (h : DiscoveryInstanceHandle) w w' r :
  deregister h w = (Ok (), w') → registrations w !! instance_key (config h) = Some r →
  ∃ e, mutations w' = mutations w ++ [e] ∧ scope_of e = key_scope (instance_key (config h)) ∧
    instance_endpoint (log_instance e) = req_endpoint r ∧
    classify (entry_message e) = Remove (req_endpoint r).
Proof.
  unfold deregister. destruct (deregister_instance _ _ _ w) as [[[]|] w1] eqn:Hd; [|done].
  intros [= <-] Hr. destruct (deregister_logs _ _ _ _ _ Hd) as (e & Hm & Hq & Ht & Hi).
  specialize (Hi r Hr). exists e. split_and!; [done..|].
  unfold classify. cbn [entry_message msg_event_type msg_instance]. by rewrite Ht, Hi.
Qed.

(** The mutations of the scope in [later] leave the address [a] alone. *)
Definition spares (q : Scope) (a : string) (later : list LogEntry) : Prop :=
  Forall (λ e, scope_of e = q → instance_endpoint (log_instance e) ≠ a) later.

(** Whoever deregistered at an address, a watcher that has seen it does not
    serve the address. *)
Lemma deregistered_not_served `{!DiscoveryApi, !DurableLog, !DurableLogLaws}
    (h : DiscoveryInstanceHandle) s w1 w2 r later (self : WatchingDiscoveryNameResolver) v e :
  deregister h w1 = (Ok (), w2) → registrations w1 !! instance_key (config h) = Some r →
  follows (key_scope (instance_key (config h))) s self v →
  watch_log v = mutations w2 ++ later →
  spares (key_scope (instance_key (config h))) (req_endpoint r) later →
  endpoint e = req_endpoint r → e ∉ entry_endpoints s (shared self).
Proof.
  intros Hd Hr Hfo Hlog Hlater He Hin. destruct (follows_view _ _ _ _ Hfo) as [Hv Hu].
  destruct (deregister_logged _ _ _ _ Hd Hr) as (e' & Hm & Hq & Ha & Hcl).
  destruct (replay_last_word (key_scope (instance_key (config h))) e' (watch_log v)) as [m Hlast].
  { exists (mutations w1), later. rewrite Hlog, Hm, <- app_assoc. split_and!; [done|done|by rewrite Ha]. }
  apply view_elem in Hin; [|done]. rewrite Hv, He in Hin. rewrite Ha, Hin in Hlast.
  unfold apply_entry, spec_message in Hlast. by rewrite Hcl, lookup_delete_eq in Hlast.
Qed.
End Registration.

(** ** Properties *)

Section Properties.
Context `{HLog : MutationLog, HUtils : UtilsApi, HKeys : MetadataKeys, HProto : DiscoveryProto}.
Context `{!DiscoveryApi, !DurableLog, !DurableLogLaws, !UtilsLaws, !MutationLogLaws}.


(** C32: a late deregistration hides a live instance: the cache is keyed by address
    and not by instance, so when an instance has taken over an address and the
    instance that had it before is deregistered afterwards, a watch loop that
    runs alone on a resolver that was new when it started, and that has reached
    the end of its service's log, has dropped the address, although the new
    instance is registered there and was announced to the loop; until another
    mutation names the address, no answer from the cache has it. *)
Theorem late_deregistration_hides_live_instance c ids ids' (w : DiscoveryLifecycle.World) h w' mid
    (h' : DiscoveryInstanceHandle) w1 w2 r r' later self v :
  register c ids ids' w = (Ok h, w') → mutations w1 = mutations w' ++ mid →
  instance_key (config h') ≠ instance_key c →
  key_scope (instance_key (config h')) = key_scope (instance_key c) →
  registrations w1 !! instance_key (config h') = Some r → req_endpoint r = advertised_endpoint c →
  deregister h' w1 = (Ok (), w2) →
  registrations w2 !! instance_key c = Some r' → req_endpoint r' = advertised_endpoint c →
  watch_log v = mutations w2 ++ later →
  spares (key_scope (instance_key c)) (advertised_endpoint c) later →
  follows (key_scope (instance_key c)) (service_name c) self v →
  (∃ e, e ∈ watch_log v ∧ scope_of e = key_scope (instance_key c) ∧
        classify (entry_message e) = Upsert (advertised c) ∧
        log_revision e ≤ last_revision (shared self)) ∧
  (∃ k r, registrations w2 !! k = Some r ∧ req_endpoint r = endpoint (advertised c)) ∧
  ∀ cfg now es, cached_endpoints cfg (service_name c) now (shared self) = Some es →
    advertised c ∉ es.
Proof.
  intros Hreg Hmid Hne Hq Hr Hra Hd Hr' Hra' Hlog Hlater Hfo.
  destruct (register_logged _ _ _ _ _ _ Hreg) as (_ & e & earlier & Hm & Hqe & Ha & Hcl).
  destruct (deregister_logged _ _ _ _ Hd Hr) as (e' & Hm' & _). split_and!.
  - exists e. assert (e ∈ watch_log v) as Hin.
    { rewrite Hlog, Hm', Hmid, Hm. set_solver. }
    split_and!; [done..|]. by apply (proj1 (Forall_forall _ _) (fo_reached _ _ _ _ Hfo)).
  - by exists (instance_key c), r'.
  - intros cfg now es Hc. apply cached_endpoints_Some in Hc as (entry & He & -> & _).
    assert (advertised c ∉ entry_endpoints (service_name c) (shared self)) as Hout;
      [|unfold entry_endpoints in Hout; by rewrite He in Hout].
    rewrite <- Hq in *. rewrite <- Hra in *. eapply deregistered_not_served; try done.
Qed.
End Properties.

(** ** Witnesses *)

(** A log whose revisions are the positions of its mutations. *)
Definition at_revision (i : nat) (e : LogEntry) : LogEntry :=
  {| log_namespace := log_namespace e; log_environment := log_environment e;
     log_service := log_service e; log_revision := Z.of_nat i + 1;
     log_event := log_event e; log_instance := log_instance e |}.

Definition numbered (l : list LogEntry) : list LogEntry := imap at_revision l.

Lemma numbered_lookup l i e : numbered l !! i = Some e → log_revision e = Z.of_nat i + 1.
Proof. unfold numbered. rewrite list_lookup_imap. intros (x & _ & ->)%fmap_Some. done. Qed.

Lemma numbered_increases l : revisions_increase (numbered l).
Proof.
  assert (∀ k, revisions_increase (imap (λ i, at_revision (k + i)) l)) as Hgen; [|apply (Hgen 0%nat)].
  induction l as [|x l IH]; intros k; [constructor|]. cbn [imap]. constructor.
  - specialize (IH (S k)). erewrite imap_ext; [exact IH|]. intros i y _. simpl. f_equal. lia.
  - apply Forall_lookup. intros i e He. rewrite list_lookup_imap in He.
    apply fmap_Some in He as (y & _ & ->). simpl. lia.
Qed.

(** The mutation of a call, under the scope of a key. *)
Definition mutation (k : InstanceKey) (kind : Z) (i : ServiceInstance) : LogEntry :=
  {| log_namespace := key_namespace k; log_environment := key_environment k;
     log_service := key_service_name k; log_revision := 0; log_event := kind; log_instance := i |}.

(** A control plane whose world is its registrations and its log. *)
Definition logging_registry : @RegistryApi toy_metadata := {|
  DiscoveryLifecycle.World := Registrations * list LogEntry;
  RegistryChannel := string;
  SERVING := 1;
  status_to_string s := @Status.message toy_metadata s;
  registry_connect uri w := (Ok uri, w);
  register_instance _ req _ w :=
    (Ok "lease-1", (<[req_key req := req]> w.1, w.2 ++ [mutation (req_key req) 3 (listed req)]));
  retrieve_instance _ _ _ w := (Ok None, w);
  renew_lease _ _ _ _ w := (Ok (), w);
  deregister_instance _ k _ w :=
    (Ok (), (delete k w.1,
             w.2 ++ [mutation k 2 (test_instance (default "" (req_endpoint <$> w.1 !! k)) 3)]));
  registry_sleep _ w := w
|}.

#[local] Instance logging_mutations : @MutationLog toy_metadata logging_registry :=
  @Build_MutationLog toy_metadata logging_registry (λ w, numbered w.2) fst.

Lemma numbered_snoc l e : numbered (l ++ [e]) = numbered l ++ [at_revision (length l) e].
Proof. unfold numbered. rewrite imap_app. simpl. by rewrite Nat.add_0_r. Qed.

Lemma logging_mutations_laws :
  @MutationLogLaws toy_metadata logging_registry logging_mutations toy_proto.
Proof.
  split; simpl; intros; simplify_eq/=; [done| |].
  - eexists. split; [apply numbered_snoc|]. done.
  - eexists. split; [apply numbered_snoc|]. split_and!; [done|done|].
    intros r ->. done.
Qed.

(** The same log as the clients' calls see it. *)
Definition numbered_discovery : @DiscoveryApi toy_metadata := {|
  DiscoveryResolver.World := list LogEntry;
  DiscoveryChannel := string;
  instant_now _ := 0;
  draw_call_ids w := (test_ids, w);
  discovery_connect uri w := (Ok uri, w);
  discover_instances _ _ _ w := (Ok [], w);
  watch_service _ q _ w := (Ok ((λ e, (0, entry_message e)) <$> pending q (numbered w), None), w);
  discovery_sleep _ w := w
|}.

#[local] Instance numbered_log : @DurableLog toy_metadata numbered_discovery :=
  @Build_DurableLog toy_metadata numbered_discovery numbered.

Lemma numbered_log_laws : @DurableLogLaws toy_metadata numbered_discovery numbered_log toy_proto.
Proof.
  split; simpl; intros; simplify_eq/=; try done.
  - apply numbered_increases.
  - apply Forall_lookup. intros i e He. apply numbered_lookup in He. lia.
  - generalize (watch_from_revision q). generalize (pending q (numbered w')).
    intros l. induction l as [|e l IH]; intros r; simpl; by constructor.
Qed.

Definition numbered_watcher (st : WatchState) (ch : option string) :
    @WatchingDiscoveryNameResolver toy_metadata numbered_discovery :=
  @Build_WatchingDiscoveryNameResolver toy_metadata numbered_discovery
    (@Build_DiscoveryNameResolver toy_metadata numbered_discovery resolver_config ch)
    st watch_config_default.

Definition watched_config : DiscoveryInstanceConfig := test_config 30 "sdkwork-commerce-app-rpc".

Definition watched_request : RegisterInstanceRequest :=
  @register_request toy_metadata logging_registry watched_config None.


Definition watched_handle : @DiscoveryInstanceHandle toy_metadata logging_registry :=
  @Build_DiscoveryInstanceHandle toy_metadata logging_registry "http://127.0.0.1:19090"
    watched_config "lease-1" (Duration.from_secs 10)
    (@unsigned_registry_write_metadata toy_keys "sdkwork-commerce-service-host" test_ids).

Definition watcher_after (log : list LogEntry) :
    @WatchingDiscoveryNameResolver toy_metadata numbered_discovery :=
  (@run_reconnect_loop toy_metadata toy_utils toy_keys toy_proto numbered_discovery [toy_random]
     "sdkwork-commerce-app-rpc" (numbered_watcher watch_state_new None) log).1.2.



(** An instance that had the same address before, and is deregistered late. *)
Definition former_config : DiscoveryInstanceConfig := {|
  discovery_endpoint := discovery_endpoint watched_config; namespace := namespace watched_config;
  environment := environment watched_config; service_name := service_name watched_config;
  instance_id := "commerce-0"; advertised_endpoint := advertised_endpoint watched_config;
  protocol := protocol watched_config; version := version watched_config;
  region := region watched_config; zone := zone watched_config;
  lease_ttl_seconds := lease_ttl_seconds watched_config;
  config_subject_id := config_subject_id watched_config;
  config_metadata := config_metadata watched_config;
  revision_cas_on_register := revision_cas_on_register watched_config;
  expected_revision := expected_revision watched_config
|}.

Definition former_request : RegisterInstanceRequest :=
  @register_request toy_metadata logging_registry former_config None.

Definition former_handle : @DiscoveryInstanceHandle toy_metadata logging_registry :=
  @Build_DiscoveryInstanceHandle toy_metadata logging_registry "http://127.0.0.1:19090"
    former_config "lease-0" (Duration.from_secs 10)
    (@unsigned_registry_write_metadata toy_keys "sdkwork-commerce-service-host" test_ids).

(** The world before, with another instance elsewhere; after the new instance
    registered; and after the old one was deregistered. *)
Definition former_world : Registrations * list LogEntry :=
  ({[req_key former_request := former_request]},
   [mutation (req_key former_request) 3 (test_instance "grpc://127.0.0.1:50052" 1);
    mutation (req_key former_request) 3 (listed former_request)]).
Definition taken_over : Registrations * list LogEntry :=
  (<[req_key watched_request := watched_request]> former_world.1,
   former_world.2 ++ [mutation (req_key watched_request) 3 (listed watched_request)]).
Definition late_gone : Registrations * list LogEntry :=
  (@deregister toy_metadata logging_registry former_handle taken_over).2.

Lemma late_watcher_follows :
  @follows toy_metadata toy_utils toy_keys toy_proto numbered_discovery numbered_log
    (key_scope (instance_key watched_config)) "sdkwork-commerce-app-rpc"
    (watcher_after late_gone.2) late_gone.2.
Proof.
  split.
  - exists [toy_random], (numbered_watcher watch_state_new None), late_gone.2.
    eexists. split; [done|]. split; [done|]. apply triple_eta.
  - repeat constructor; intros _; by vm_compute.
Qed.

(** The new instance is registered, and the watcher serves the other one only. *)
Lemma late_deregistration_hides_live_instance_witness :
  late_gone.1 !! instance_key watched_config = Some watched_request ∧
  ∃ es, cached_endpoints watch_config_default "sdkwork-commerce-app-rpc" 0
          (shared (watcher_after late_gone.2)) = Some es ∧ advertised watched_config ∉ es.
Proof.
  split; [vm_compute; reflexivity|]. eexists. split; [vm_compute; reflexivity|].
  destruct (@late_deregistration_hides_live_instance toy_metadata logging_registry logging_mutations
    toy_utils toy_keys toy_proto numbered_discovery numbered_log numbered_log_laws toy_utils_laws
    logging_mutations_laws watched_config test_ids test_ids former_world watched_handle taken_over []
    former_handle taken_over late_gone former_request watched_request []
    (watcher_after late_gone.2) late_gone.2) as (_ & _ & Hout);
    [reflexivity|reflexivity|discriminate|reflexivity|reflexivity|reflexivity|reflexivity|reflexivity
    |reflexivity|reflexivity|constructor|exact late_watcher_follows|].
  apply (Hout watch_config_default 0). vm_compute. reflexivity.
Defined.
