(* ===== verification/WatchConcurrency.v ===== *)
(** * WatchConcurrency: watch loops and resolutions as concurrent tasks

    The watch loops of several services and the resolutions of any number of
    callers share the state of [WatchingResolver]. A task is a list of atomic
    actions on it: a message first advances the revision cursor, an atomic
    maximum, and then changes the cache under its lock; a resolution that missed
    the cache stores its answer under the lock. A schedule interleaves the
    actions of the tasks in any way. *)
From S2P Require Import Prelude RustStd Core Interfaces ClientMetadata LoadBalance Transport.
From S2P Require Import DiscoveryMetadata DiscoveryLifecycle DiscoveryResolver WatchingResolver.

(** ** Tasks *)

Inductive WatchAction : Type :=
| FetchMax (msg : WatchMessage)
| UpdateCache (service_name : string) (now : Z) (msg : WatchMessage)
| Store (service_name : string) (endpoints : list ResolvedEndpoint) (now : Z).

Section Tasks.
Context `{HUtils : UtilsApi, HProto : DiscoveryProto}.

Definition act (st : WatchState) (a : WatchAction) : WatchState :=
  match a with
  | FetchMax msg => advance_revision msg st
  | UpdateCache s now msg => update_cache s now msg st
  | Store s es now => store_endpoints s es now st
  end.

(** The task of the messages a watch loop receives, and of a resolution. *)
Definition watch_task (s : string) (msgs : list (Z * WatchMessage)) : list WatchAction :=
  flat_map (λ tm, [FetchMax tm.2; UpdateCache s tm.1 tm.2]) msgs.
Definition resolve_task (s : string) (es : list ResolvedEndpoint) (now : Z) : list WatchAction :=
  [Store s es now].

Inductive task : list WatchAction → Prop :=
| task_watch s msgs : task (watch_task s msgs)
| task_resolve s es now : Forall endpoint_ok es → task (resolve_task s es now).
End Tasks.

(** [schedule ts trace rest]: the tasks [ts] do the actions [trace] in this
    order and have [rest] left to do. *)
Inductive schedule : list (list WatchAction) → list WatchAction → list (list WatchAction) → Prop :=
| schedule_stop ts : schedule ts [] ts
| schedule_step ts i a t trace rest :
    ts !! i = Some (a :: t) → schedule (<[i := t]> ts) trace rest → schedule ts (a :: trace) rest.

(** ** Specification *)

(** The whole operations, in the order in which they took the lock. *)
Definition whole `{UtilsApi, DiscoveryProto} (st : WatchState) (a : WatchAction) : WatchState :=
  match a with
  | FetchMax _ => st
  | UpdateCache s now msg => on_message s now msg st
  | Store s es now => store_endpoints s es now st
  end.

Definition fetched (trace : list WatchAction) : list WatchMessage :=
  omap (λ a, match a with FetchMax msg => Some msg | _ => None end) trace.
Definition applied (trace : list WatchAction) : list WatchMessage :=
  omap (λ a, match a with UpdateCache _ _ msg => Some msg | _ => None end) trace.

(** ** The cursor and the cache apart *)

Section Lemmas.
Context `{HUtils : UtilsApi, HProto : DiscoveryProto}.

(** Changes of the cache and of the cursor do not see each other. *)
Lemma update_cache_revision s now msg st :
  last_revision (update_cache s now msg st) = last_revision st.
Proof. unfold update_cache, set_cache. by repeat case_match. Qed.

Lemma update_cache_cache s now msg st st' :
  cache st = cache st' → cache (update_cache s now msg st) = cache (update_cache s now msg st').
Proof. intros Hc. unfold update_cache, set_cache. rewrite Hc. by repeat case_match. Qed.

(** The revision a message raises the cursor to. *)
Definition raised_to (msg : WatchMessage) : Z :=
  match msg_revision msg with Some r => Z.max r 0 | None => 0 end.

Lemma advance_revision_max msg st :
  0 ≤ last_revision st →
  last_revision (advance_revision msg st) = Z.max (last_revision st) (raised_to msg).
Proof.
  intros. unfold advance_revision, raised_to. destruct (msg_revision msg); [|lia].
  case_if; reflect_bools; simpl; lia.
Qed.

Definition top (r : Z) (msgs : list WatchMessage) : Z :=
  foldl (λ r msg, Z.max r (raised_to msg)) r msgs.

Lemma top_le r msgs : r ≤ top r msgs.
Proof.
  unfold top. revert r. induction msgs as [|m msgs IH]; intros r; [done|]. simpl.
  etransitivity; [|apply IH]. lia.
Qed.

(** The top depends on which messages there are, not on their order. *)
Lemma top_spec r msgs x : top r msgs ≤ x ↔ r ≤ x ∧ ∀ m, m ∈ msgs → raised_to m ≤ x.
Proof.
  unfold top. revert r. induction msgs as [|m msgs IH]; intros r; simpl.
  - split; [|tauto]. intros. split; [done|]. intros m Hm. by apply elem_of_nil in Hm.
  - rewrite IH. split.
    + intros [Hr Hm]. split; [lia|]. intros m' [->|Hm']%elem_of_cons; [lia|by apply Hm].
    + intros [Hr Hm]. assert (raised_to m ≤ x) by (apply Hm; by left). split; [lia|]. set_solver.
Qed.

Lemma run_revision trace st :
  0 ≤ last_revision st →
  last_revision (foldl act st trace) = top (last_revision st) (fetched trace).
Proof.
  revert st. induction trace as [|a trace IH]; intros st Hst; [done|]. simpl.
  destruct a as [msg|s now msg|s es now]; cbn [act fetched omap list_omap].
  - rewrite IH by (rewrite advance_revision_max by done; lia). by rewrite advance_revision_max.
  - rewrite IH by (by rewrite update_cache_revision). by rewrite update_cache_revision.
  - by rewrite IH.
Qed.

Lemma whole_revision trace st :
  0 ≤ last_revision st →
  last_revision (foldl whole st trace) = top (last_revision st) (applied trace).
Proof.
  revert st. induction trace as [|a trace IH]; intros st Hst; [done|]. simpl.
  destruct a as [msg|s now msg|s es now]; cbn [whole applied omap list_omap]; [by apply IH| |by rewrite IH].
  unfold on_message. rewrite IH by (rewrite update_cache_revision, advance_revision_max by done; lia).
  by rewrite update_cache_revision, advance_revision_max.
Qed.

Lemma run_cache trace st st' :
  cache st = cache st' → cache (foldl act st trace) = cache (foldl whole st' trace).
Proof.
  revert st st'. induction trace as [|a trace IH]; intros st st' Hc; [done|]. simpl. apply IH.
  destruct a as [msg|s now msg|s es now]; cbn [act whole].
  - by rewrite advance_revision_cache.
  - unfold on_message. apply update_cache_cache. by rewrite advance_revision_cache.
  - unfold store_endpoints, set_cache. simpl. by rewrite Hc.
Qed.
End Lemmas.

(** ** Order within a task *)

(** Every change of the cache in [t] comes after its message is in [before] or
    was fetched in [t]. *)
Fixpoint fetched_first (before : list WatchMessage) (t : list WatchAction) : Prop :=
  match t with
  | [] => True
  | FetchMax msg :: t' => fetched_first (msg :: before) t'
  | UpdateCache _ _ msg :: t' => msg ∈ before ∧ fetched_first before t'
  | Store _ _ _ :: t' => fetched_first before t'
  end.

(** Every fetched message is applied later in the task. *)
Fixpoint applied_later (t : list WatchAction) : Prop :=
  match t with
  | [] => True
  | FetchMax msg :: t' => msg ∈ applied t' ∧ applied_later t'
  | _ :: t' => applied_later t'
  end.

Lemma fetched_first_mono before before' t :
  before ⊆ before' → fetched_first before t → fetched_first before' t.
Proof.
  revert before before'. induction t as [|[msg|s now msg|s es now] t IH]; intros b b' Hb; simpl; [done|..].
  - apply IH. set_solver.
  - intros [Hm Ht]. split; [by apply Hb|by eapply IH].
  - by apply IH.
Qed.

Lemma task_ordered t : task t → fetched_first [] t ∧ applied_later t.
Proof.
  intros [s msgs|s es now _]; [|done]. unfold watch_task.
  split; [generalize (@nil WatchMessage)|];
    induction msgs as [|[now msg] msgs IH]; simpl; try done; intros.
  - split; [by left|]. apply IH.
  - split; [by left|done].
Qed.

(** A change that a task has to make is made or still to be made. *)
Lemma schedule_pending ts trace rest t m :
  schedule ts trace rest → t ∈ ts → m ∈ applied t →
  m ∈ applied trace ∨ ∃ t', t' ∈ rest ∧ m ∈ applied t'.
Proof.
  intros Hs. revert t. induction Hs as [ts|ts i a t0 trace rest Hi Hs IH]; intros t Ht Hm;
    [right; by exists t|].
  assert (∃ t', t' ∈ <[i := t0]> ts ∧ m ∈ applied t' ∨ m ∈ applied [a]) as (t' & [[Ht' Hm']|Hm']).
  { apply list_elem_of_lookup in Ht as [j Hj]. destruct (decide (j = i)) as [->|Hne].
    - rewrite Hi in Hj. injection Hj as <-.
      assert (applied (a :: t0) = applied [a] ++ applied t0) as Heq by (by destruct a).
      rewrite Heq in Hm. apply elem_of_app in Hm as [Hm|Hm]; [exists []; by right|].
      exists t0. left. split; [|done]. apply list_elem_of_insert. by eapply lookup_lt_Some.
    - exists t. left. split; [|done]. apply list_elem_of_lookup. exists j.
      by rewrite list_lookup_insert_ne. }
  - destruct (IH t' Ht' Hm') as [?|?]; [left|by right]. destruct a; simpl; set_solver.
  - left. destruct a; simpl in *; set_solver.
Qed.

(** What a schedule has applied it has fetched, and what it has fetched is
    applied or still to be applied. *)
Lemma schedule_ordered ts trace rest before :
  schedule ts trace rest → Forall (λ t, fetched_first before t ∧ applied_later t) ts →
  (∀ m, m ∈ applied trace → m ∈ before ∨ m ∈ fetched trace) ∧
  (∀ m, m ∈ fetched trace → m ∈ applied trace ∨ ∃ t, t ∈ rest ∧ m ∈ applied t).
Proof.
  intros Hs. revert before.
  induction Hs as [ts|ts i a t trace rest Hi Hs IH]; intros before Hts.
  { split; intros m Hm; by apply elem_of_nil in Hm. }
  assert (fetched_first before (a :: t) ∧ applied_later (a :: t)) as [Hf Ha]
    by (by apply (Forall_lookup_1 _ _ _ _ Hts Hi)).
  destruct a as [msg|s now msg|s es now]; simpl in Hf, Ha.
  - destruct Ha as [Hin Ha]. destruct (IH (msg :: before)) as [IH1 IH2].
    { apply Forall_insert; [|done]. eapply Forall_impl; [exact Hts|]. intros t' [? ?].
      split; [|done]. eapply fetched_first_mono; [|done]. set_solver. }
    split; simpl; [set_solver|]. intros m [->|Hm]%elem_of_cons; [|by apply IH2].
    eapply schedule_pending; [exact Hs| |exact Hin].
    apply list_elem_of_insert. by eapply lookup_lt_Some.
  - destruct Hf as [Hin Hf]. destruct (IH before) as [IH1 IH2]; [by apply Forall_insert|].
    split; simpl; [set_solver|]. intros m Hm. destruct (IH2 m Hm); set_solver.
  - destruct (IH before) as [IH1 IH2]; [by apply Forall_insert|]. done.
Qed.

(** Stored endpoints of a schedule come from its tasks. *)
Lemma schedule_stores `{HUtils : UtilsApi, HProto : DiscoveryProto} ts trace rest :
  schedule ts trace rest →
  Forall (Forall (λ a, match a with Store _ es _ => Forall endpoint_ok es | _ => True end)) ts →
  Forall (λ a, match a with Store _ es _ => Forall endpoint_ok es | _ => True end) trace.
Proof.
  induction 1 as [ts|ts i a t trace rest Hi Hs IH]; intros Hts; [constructor|].
  pose proof (Forall_lookup_1 _ _ _ _ Hts Hi) as Ht. inversion_clear Ht as [|? ? Ha Ht'].
  constructor; [done|]. apply IH. by apply Forall_insert.
Qed.

(** ** Properties *)

(** C10: the watch loops and resolutions of a resolver are linearizable: however
    the actions of any number of tasks interleave, the cache is always the one
    that whole messages and insertions, done one after the other in the order in
    which they took the lock, leave behind; the cursor is never behind theirs,
    equals it when no task is in the middle of a message, and such a state is
    one the sequential theorems on the cache speak of. *)
Theorem watch_tasks_linearize `{HUtils : UtilsApi, HProto : DiscoveryProto} ts trace rest st :
  Forall task ts → schedule ts trace rest → 0 ≤ last_revision st →
  let concurrent := foldl act st trace in
  let sequential := foldl whole st trace in
  cache concurrent = cache sequential ∧
  last_revision sequential ≤ last_revision concurrent ∧
  (Forall (λ t, applied t = []) rest → concurrent = sequential) ∧
  (reachable st → reachable sequential).
Proof.
  intros Hts Hs Hpos. cbv zeta.
  assert (cache (foldl act st trace) = cache (foldl whole st trace)) as Hc by (by apply run_cache).
  destruct (schedule_ordered ts trace rest [] Hs) as [H1 H2].
  { eapply Forall_impl; [exact Hts|]. apply task_ordered. }
  assert (top (last_revision st) (applied trace) ≤ top (last_revision st) (fetched trace)) as Hle.
  { apply top_spec. split; [apply top_le|]. intros m Hm.
    destruct (H1 m Hm) as [Hb|Hf]; [by apply elem_of_nil in Hb|].
    by apply (proj1 (top_spec (last_revision st) (fetched trace) _)). }
  split_and!; [done|by rewrite run_revision, whole_revision| |].
  - intros Hdone.
    assert (last_revision (foldl act st trace) = last_revision (foldl whole st trace)) as Hr.
    { rewrite run_revision, whole_revision by done. apply Z.le_antisymm; [|done].
      apply top_spec. split; [apply top_le|]. intros m Hm.
      destruct (H2 m Hm) as [Ha|(t & Ht & Ha)].
      - by apply (proj1 (top_spec (last_revision st) (applied trace) _)).
      - rewrite Forall_forall in Hdone. rewrite (Hdone t Ht) in Ha. by apply elem_of_nil in Ha. }
    destruct (foldl act st trace), (foldl whole st trace). simpl in *. by subst.
  - assert (Forall (λ a, match a with Store _ es _ => Forall endpoint_ok es | _ => True end) trace)
      as Hst.
    { eapply schedule_stores; [exact Hs|]. eapply Forall_impl; [exact Hts|].
      intros t [s msgs|s es now Hes]; [|by repeat constructor]. unfold watch_task.
      induction msgs as [|m msgs IH]; simpl; [constructor|]. by repeat constructor. }
    clear -Hst. revert st. induction Hst as [|a trace Ha _ IH]; intros st Hr; [done|]. simpl.
    apply IH. destruct a; simpl; [done|by constructor|by constructor].
Qed.

(** a task stopped between its two actions loses its message: the cursor has
    passed the message's revision and no other task has changed the cache by
    it, so the next session, which asks for what comes after the cursor, is not
    told of it again. *)
Theorem aborted_update_is_lost `{HMeta : MetadataApi, HUtils : UtilsApi, HProto : DiscoveryProto}
    `{!DiscoveryApi} s msg r (self : WatchingDiscoveryNameResolver) now msgs :
  msg_revision msg = Some r → last_revision (shared self) < r → 0 ≤ last_revision (shared self) →
  schedule [watch_task s ((now, msg) :: msgs)] [FetchMax msg]
    [UpdateCache s now msg :: watch_task s msgs] ∧
  let aborted := {| inner := inner self; shared := act (shared self) (FetchMax msg);
                    watch_config := watch_config self |} in
  view s (shared aborted) = view s (shared self) ∧
  watch_from_revision (watch_request aborted s) = r.
Proof.
  intros Hr Hlt Hpos. split; [|split].
  - eapply (schedule_step _ 0); [done|]. constructor.
  - unfold view. simpl. by rewrite advance_revision_cache.
  - simpl. rewrite advance_revision_max by done. unfold raised_to. rewrite Hr. lia.
Qed.

(** ** Witnesses *)

Definition came : WatchMessage := event 4 3 (Some (test_instance "grpc://b:1" 1)).
Definition gone : WatchMessage := event 9 2 (Some (test_instance "grpc://b:1" 1)).

(** A loop for each of two services and a resolution; the second loop and the
    resolution run between the two actions of the first loop's message. *)
Definition test_tasks : list (list WatchAction) :=
  [watch_task "svc" [(3, gone)]; watch_task "other" [(1, came)]; resolve_task "svc" [test_cached] 2].
Definition test_trace : list WatchAction :=
  [FetchMax gone; FetchMax came; UpdateCache "other" 1 came; Store "svc" [test_cached] 2;
   UpdateCache "svc" 3 gone].

Lemma test_schedule : schedule test_tasks test_trace [[]; []; []].
Proof.
  eapply (schedule_step _ 0); [reflexivity|]. eapply (schedule_step _ 1); [reflexivity|].
  eapply (schedule_step _ 1); [reflexivity|]. eapply (schedule_step _ 2); [reflexivity|].
  eapply (schedule_step _ 0); [reflexivity|]. constructor.
Qed.

Lemma watch_tasks_linearize_witness :
  foldl (@act toy_utils toy_proto) watch_state_new test_trace
  = foldl (@whole toy_utils toy_proto) watch_state_new test_trace ∧
  @reachable toy_utils toy_proto (foldl (@whole toy_utils toy_proto) watch_state_new test_trace).
Proof.
  destruct (@watch_tasks_linearize toy_utils toy_proto test_tasks test_trace [[]; []; []]
    watch_state_new) as (_ & _ & Heq & Hr).
  - apply Forall_cons. split; [constructor|]. apply Forall_cons. split; [constructor|].
    apply Forall_singleton. constructor. apply Forall_singleton. by_compute.
  - exact test_schedule.
  - done.
  - split; [apply Heq; by repeat constructor|apply Hr; constructor].
Defined.

Lemma aborted_update_is_lost_witness :
  watch_from_revision (watch_request (test_watching
    (@act toy_utils toy_proto watch_state_new (FetchMax gone)) None) "svc") = 9.
Proof.
  apply (@aborted_update_is_lost toy_metadata toy_utils toy_proto toy_discovery "svc" gone 9
    (test_watching watch_state_new None) 1 []); by_compute.
Defined.
