(* ===== verification/WatchCursor.v ===== *)
(** * WatchCursor: the revision cursor under release/acquire

    [last_revision] of the watching resolver is an atomic that the watch loops of
    all services share: a session reads it when it starts ([load], acquire) and
    each message raises it ([fetch_max], acquire-release). {!WatchConcurrency}
    reads the one current value. Here a read may be stale, as in {!WeakMemory}:
    the writes of the atomic form a list, every loop has a view into it, and a
    read takes any write that is not older than the view. All writes are
    read-modify-writes and each takes the place next to the write it reads, so
    each reads the last one. What the lock of the cache synchronises besides is
    left out, which only adds executions. *)
From S2P Require Import Prelude RustStd Core Interfaces DiscoveryResolver WatchingResolver.

(** ** The loops *)

(** What a loop does, as far as the cursor is concerned. *)
Inductive CursorOp : Type :=
| StartSession
| Receive (msg : WatchMessage).

(** One session: it asks for what comes after the cursor, and takes the messages
    of the stream. *)
Definition session_ops (msgs : list WatchMessage) : list CursorOp :=
  StartSession :: (Receive <$> msgs).

(** A reconnect loop runs one session after the other. *)
Definition loop_ops (sessions : list (list WatchMessage)) : list CursorOp :=
  sessions ≫= session_ops.

(** ** The machine *)

(** What a step did: loop [i] asked for what comes after a revision, or took a
    message. *)
Inductive CursorEvent : Type :=
| Resumed (i : nat) (from_revision : Z)
| Received (i : nat) (msg : WatchMessage).

(** A loop is what it still has to do and its view. *)
Abbreviation CursorLoop := (list CursorOp * nat)%type.

(** [last_revision()] of a loop with the view [view]; [t] is the write the read
    takes. *)
Definition load_cursor (t view : nat) (writes : list Z) : option Z :=
  if bool_decide (view ≤ t)%nat then writes !! t else None.

(** [last_revision.fetch_max(revision)]: the new writes and the new view. *)
Definition fetch_max_cursor (revision : Z) (writes : list Z) : option (list Z * nat) :=
  v ← last writes; Some (writes ++ [Z.max v revision], length writes).

(** What a message does to the cursor. *)
Definition receive_cursor (msg : WatchMessage) (view : nat) (writes : list Z) :
    option (list Z * nat) :=
  match msg_revision msg with
  | Some revision =>
      if 0 <? revision then fetch_max_cursor revision writes else Some (writes, view)
  | None => Some (writes, view)
  end.

(** One step of a loop. *)
Definition cursor_exec (i t : nat) (p : CursorLoop) (writes : list Z) :
    option (CursorLoop * list Z * CursorEvent) :=
  match p with
  | ([], _) => None
  | (StartSession :: ops, view) =>
      v ← load_cursor t view writes; Some ((ops, t), writes, Resumed i v)
  | (Receive msg :: ops, view) =>
      '(writes', view') ← receive_cursor msg view writes;
      Some ((ops, view'), writes', Received i msg)
  end.

Inductive cursor_trace : list CursorLoop * list Z → list CursorEvent →
    list CursorLoop * list Z → Prop :=
| CursorStart c : cursor_trace c [] c
| CursorStep c es ls writes i t p p' writes' e :
    cursor_trace c es (ls, writes) → ls !! i = Some p →
    cursor_exec i t p writes = Some (p', writes', e) →
    cursor_trace c (es ++ [e]) (<[i := p']> ls, writes').

(** Executes a schedule: which loop steps, and the write it takes. *)
Fixpoint cursor_run (schedule : list (nat * nat)) (es : list CursorEvent)
    (c : list CursorLoop * list Z) : option (list CursorEvent * (list CursorLoop * list Z)) :=
  match schedule with
  | [] => Some (es, c)
  | (i, t) :: schedule' =>
      p ← c.1 !! i;
      '(p', writes', e) ← cursor_exec i t p c.2;
      cursor_run schedule' (es ++ [e]) (<[i := p']> c.1, writes')
  end.

(** Loops that start on a resolver whose cursor was written once. *)
Definition cursor_start (loops : list (list (list WatchMessage))) (r0 : Z) :
    list CursorLoop * list Z :=
  ((λ sessions, (loop_ops sessions, 0%nat)) <$> loops, [r0]).

(** ** Lemmas *)

Lemma cursor_run_sound schedule es c0 c es' c' :
  cursor_trace c0 es c → cursor_run schedule es c = Some (es', c') → cursor_trace c0 es' c'.
Proof.
  revert es c. induction schedule as [|[i t] schedule IH]; intros es [ls writes] Ht; simpl.
  { by intros [= <- <-]. }
  destruct (ls !! i) as [p|] eqn:Hp; simpl; [|done].
  destruct (cursor_exec i t p writes) as [[[p' writes'] e]|] eqn:Hs; simpl; [|done].
  apply IH. by econstructor.
Qed.

(** What loop [i] has itself seen: the revisions it resumed from and those of its
    messages. *)
Definition seen_by (i : nat) (e : CursorEvent) : option Z :=
  match e with
  | Resumed j v => if bool_decide (i = j) then Some v else None
  | Received j msg => if bool_decide (i = j) then msg_revision msg else None
  end.

(** Some message of the log carried [v]. *)
Definition carried (v : Z) (es : list CursorEvent) : Prop :=
  ∃ j msg, Received j msg ∈ es ∧ msg_revision msg = Some v.

Lemma carried_snoc v es e : carried v es → carried v (es ++ [e]).
Proof. intros (j & msg & Hin & Hr). exists j, msg. split; [set_solver|done]. Qed.

Record cursor_inv (r0 : Z) (es : list CursorEvent) (c : list CursorLoop * list Z) : Prop := {
  ci_sorted a b v w : c.2 !! a = Some v → c.2 !! b = Some w → (a ≤ b)%nat → v ≤ w;
  ci_low v : v ∈ c.2 → r0 ≤ v;
  ci_origin v : v ∈ c.2 → v = r0 ∨ carried v es;
  ci_view i ops view :
    c.1 !! i = Some (ops, view) →
    ∃ v, c.2 !! view = Some v ∧ ∀ x, x ∈ omap (seen_by i) es → x ≤ v
}.

Lemma last_value {A} (l : list A) v : last l = Some v → l !! pred (length l) = Some v.
Proof. by rewrite last_lookup. Qed.

(** A step either leaves the writes as they are and its loop at a write that is
    not older and not below the revision of the event, or it adds a write that
    covers the revision of its message. *)
Lemma cursor_exec_cases i t p writes p' writes' e :
  cursor_exec i t p writes = Some (p', writes', e) →
  (writes' = writes ∧ (p.2 ≤ p'.2)%nat ∧
   ((∃ v, writes !! p'.2 = Some v ∧ e = Resumed i v) ∨
    ∃ msg, e = Received i msg ∧ p'.2 = p.2 ∧ ∀ r, msg_revision msg = Some r → r ≤ 0)) ∨
  (∃ v msg r, writes !! pred (length writes) = Some v ∧ p'.2 = length writes ∧
     writes' = writes ++ [Z.max v r] ∧ e = Received i msg ∧ msg_revision msg = Some r).
Proof.
  destruct p as [[|[|msg] ops] view]; simpl; [done|..];
    unfold load_cursor, receive_cursor, fetch_max_cursor.
  - case_bool_decide; [|done]. destruct (writes !! t) as [v|] eqn:Hv; simpl; [|done].
    intros [= <- <- <-]. left. eauto 6.
  - destruct (msg_revision msg) as [r|] eqn:Hr; [destruct (Z.ltb_spec 0 r)|]; simpl.
    + destruct (last writes) as [v|] eqn:Hv; simpl; [|done].
      intros [= <- <- <-]. right. exists v, msg, r. split_and!; [by apply last_value|done..].
    + intros [= <- <- <-]. left. split_and!; [done..|]. right. exists msg. split_and!; [done..|].
      intros r'. rewrite Hr. by intros [= <-].
    + intros [= <- <- <-]. left. split_and!; [done..|]. right. exists msg. split_and!; [done..|].
      intros r'. by rewrite Hr.
Qed.

Lemma seen_by_snoc i es e x :
  x ∈ omap (seen_by i) (es ++ [e]) ↔ x ∈ omap (seen_by i) es ∨ seen_by i e = Some x.
Proof.
  rewrite omap_app, elem_of_app. simpl. destruct (seen_by i e) as [y|]; set_solver.
Qed.

(** The views after a step of loop [i] that saw nothing above [v], its new
    write. *)
Lemma views_step i es e (ls : list CursorLoop) (p' : CursorLoop) (writes writes' : list Z) v :
  (∀ j ops view, ls !! j = Some (ops, view) →
     ∃ v, writes !! view = Some v ∧ ∀ x, x ∈ omap (seen_by j) es → x ≤ v) →
  (i < length ls)%nat → (∀ j, j ≠ i → seen_by j e = None) →
  (∀ t w, writes !! t = Some w → writes' !! t = Some w) →
  writes' !! p'.2 = Some v → (∀ x, x ∈ omap (seen_by i) (es ++ [e]) → x ≤ v) →
  ∀ j ops view, <[i := p']> ls !! j = Some (ops, view) →
    ∃ v, writes' !! view = Some v ∧ ∀ x, x ∈ omap (seen_by j) (es ++ [e]) → x ≤ v.
Proof.
  intros Hview Hlt Hother Hkeep Hv Hle j ops view. destruct (decide (i = j)) as [<-|Hij].
  - rewrite list_lookup_insert_eq by done. intros [= ->]. by exists v.
  - rewrite list_lookup_insert_ne by done. intros Hj. destruct (Hview j _ _ Hj) as (w & Hw & Hall).
    exists w. split; [by apply Hkeep|]. intros x. rewrite seen_by_snoc, Hother by done.
    intros [?|?]; [by apply Hall|done].
Qed.

(** The invariant after a step; a session that starts is at or above all that
    its loop has seen. *)
Lemma cursor_inv_step r0 es ls writes i p p' writes' e t :
  0 ≤ r0 → cursor_inv r0 es (ls, writes) → ls !! i = Some p →
  cursor_exec i t p writes = Some (p', writes', e) →
  cursor_inv r0 (es ++ [e]) (<[i := p']> ls, writes') ∧
  (∀ v, e = Resumed i v → (∀ x, x ∈ omap (seen_by i) es → x ≤ v) ∧ v ∈ writes).
Proof.
  intros Hr0 [Hsort Hlow Horigin Hview] Hi Hex. simpl in *. destruct p as [ops view].
  destruct (Hview i ops view Hi) as (v0 & Hv0 & Hseen). pose proof (lookup_lt_Some _ _ _ Hi) as Hlt.
  pose proof Hex as Hother. apply cursor_exec_cases in Hother.
  assert (∀ j, j ≠ i → seen_by j e = None) as Hothers.
  { intros j Hj. destruct Hother as [(_ & _ & [(? & _ & ->)|(? & -> & _)])|(? & ? & ? & _ & _ & _ & -> & _)];
      simpl; by rewrite bool_decide_false. }
  destruct Hother as [(-> & Hle & Hcase)|(v & msg & r & Hv & Hp' & -> & -> & Hr)].
  - assert (∃ v, writes !! p'.2 = Some v ∧ (∀ x, x ∈ omap (seen_by i) es → x ≤ v) ∧
      ∀ x, seen_by i e = Some x → x ≤ v) as (v & Hv & Hold & Hnew).
    { destruct Hcase as [(v & Hv & ->)|(msg & -> & -> & Hmsg)]; simpl; rewrite bool_decide_true by done.
      - exists v. split_and!; [done| |by intros x [= ->]]. intros x Hx.
        etransitivity; [by apply Hseen|]. by eapply Hsort.
      - exists v0. split_and!; [done..|]. intros x Hx%Hmsg.
        pose proof (Hlow v0 ltac:(by eapply list_elem_of_lookup_2)). lia. }
    split; [split; simpl; [done|done| |]|].
    + intros w Hw. destruct (Horigin w Hw) as [->|?]; [by left|right; by apply carried_snoc].
    + eapply views_step; try done. intros x. rewrite seen_by_snoc. naive_solver.
    + intros w ->. destruct Hcase as [(w' & Hw' & [= <-])|(? & ? & _)]; [|done].
      simplify_eq. split; [done|]. by eapply list_elem_of_lookup_2.
  - assert (∀ a w, writes !! a = Some w → w ≤ v) as Hlast.
    { intros a w Ha. eapply Hsort; [exact Ha|exact Hv|]. apply lookup_lt_Some in Ha. lia. }
    split; [split; simpl|done].
    + intros a b x y Ha Hb Hab. apply lookup_snoc_Some in Ha, Hb.
      destruct Ha as [[Ha Hx]|[-> <-]], Hb as [[Hb Hy]|[-> <-]]; [by eapply Hsort| |lia|done].
      pose proof (Hlast _ _ Hx). lia.
    + intros w. rewrite elem_of_app, list_elem_of_singleton. intros [Hw| ->]; [by apply Hlow|].
      pose proof (Hlow v ltac:(by eapply list_elem_of_lookup_2)). lia.
    + intros w. rewrite elem_of_app, list_elem_of_singleton.
      assert (∀ x, x ∈ writes → x = r0 ∨ carried x (es ++ [Received i msg])) as Hold.
      { intros x Hx. destruct (Horigin x Hx) as [->|?]; [by left|right; by apply carried_snoc]. }
      intros [Hw| ->]; [by apply Hold|].
      destruct (Z.max_spec v r) as [[_ ->]|[_ ->]]; [|apply Hold; by eapply list_elem_of_lookup_2].
      right. exists i, msg. split; [set_solver|done].
    + eapply (views_step i es _ ls p' writes _ (Z.max v r)); try done.
      * intros t' w Hw. rewrite lookup_app_l; [done|]. by eapply lookup_lt_Some.
      * rewrite Hp', lookup_snoc_Some. by right.
      * intros x. rewrite seen_by_snoc. simpl. rewrite bool_decide_true, Hr by done.
        intros [Hx|[= <-]]; [|lia]. pose proof (Hseen x Hx). pose proof (Hlast _ _ Hv0). lia.
Qed.

Lemma cursor_start_inv loops r0 : cursor_inv r0 [] (cursor_start loops r0).
Proof.
  split; simpl.
  - intros [|a] [|b] v w Ha Hb _; by simplify_eq/=.
  - by intros v ->%list_elem_of_singleton.
  - intros v ->%list_elem_of_singleton. by left.
  - intros i ops view (s & [= -> ->] & _)%list_lookup_fmap_Some. exists r0. split; [done|].
    by intros x ?%not_elem_of_nil.
Qed.

(** What the log of an execution says of a session that resumes. *)
Definition resumes_well (r0 : Z) (es : list CursorEvent) : Prop :=
  ∀ pre i v post, es = pre ++ Resumed i v :: post →
    (∀ x, x ∈ omap (seen_by i) pre → x ≤ v) ∧ (v = r0 ∨ carried v pre).

Lemma resumes_well_snoc r0 es e :
  resumes_well r0 es →
  (∀ i v, e = Resumed i v →
    (∀ x, x ∈ omap (seen_by i) es → x ≤ v) ∧ (v = r0 ∨ carried v es)) →
  resumes_well r0 (es ++ [e]).
Proof.
  intros Hes He pre i v post. induction post as [|e' post _] using rev_ind; intros Heq.
  - apply app_inj_tail in Heq as [-> ->]. by apply He.
  - rewrite app_comm_cons, app_assoc in Heq. apply app_inj_tail in Heq as [-> _]. by eapply Hes.
Qed.

Lemma cursor_trace_inv loops r0 es c :
  0 ≤ r0 → cursor_trace (cursor_start loops r0) es c → cursor_inv r0 es c ∧ resumes_well r0 es.
Proof.
  intros Hr0. remember (cursor_start loops r0) as c0 eqn:Hc0.
  induction 1 as [c|c es ls writes i t p p' writes' e Htr IH Hi Hex]; subst.
  - split; [apply cursor_start_inv|]. intros pre i v post Heq. by destruct pre.
  - destruct (IH eq_refl) as [Hinv Hwell].
    destruct (cursor_inv_step _ _ _ _ _ _ _ _ _ _ Hr0 Hinv Hi Hex) as [Hinv' Hres].
    split; [done|]. apply resumes_well_snoc; [done|]. intros j v ->.
    assert (j = i) as ->.
    { apply cursor_exec_cases in Hex as [(_ & _ & [(? & _ & [= -> _])|(? & [=] & _)])
        |(? & ? & ? & _ & _ & _ & [=] & _)]. done. }
    destruct (Hres v eq_refl) as [Hle Hin]. split; [done|]. by apply (ci_origin _ _ _ Hinv).
Qed.

(** ** What the loops have done *)

(** The messages loop [i] has taken, and the sessions it has started. *)
Definition messages_of (i : nat) (es : list CursorEvent) : list WatchMessage :=
  omap (λ e, match e with Received j msg => if bool_decide (i = j) then Some msg else None
                        | Resumed _ _ => None end) es.

Definition sessions_of (i : nat) (es : list CursorEvent) : nat :=
  length (omap (λ e, match e with Resumed j v => if bool_decide (i = j) then Some v else None
                                | Received _ _ => None end) es).

(** The messages and the sessions left to a loop. *)
Definition messages_left (ops : list CursorOp) : list WatchMessage :=
  omap (λ o, match o with Receive msg => Some msg | StartSession => None end) ops.

Definition sessions_left (ops : list CursorOp) : nat :=
  length (omap (λ o, match o with StartSession => Some () | Receive _ => None end) ops).

Lemma loop_ops_cons msgs sessions :
  loop_ops (msgs :: sessions) = StartSession :: (Receive <$> msgs) ++ loop_ops sessions.
Proof. done. Qed.

Lemma loop_ops_messages sessions : messages_left (loop_ops sessions) = mjoin sessions.
Proof.
  induction sessions as [|msgs sessions IH]; [done|]. rewrite loop_ops_cons. simpl. rewrite <- IH.
  unfold messages_left. rewrite omap_app. f_equal.
  induction msgs as [|msg msgs IHm]; [done|]. cbn [fmap list_fmap omap]. simpl in *. f_equal. exact IHm.
Qed.

Lemma loop_ops_sessions sessions : sessions_left (loop_ops sessions) = length sessions.
Proof.
  induction sessions as [|msgs sessions IH]; [done|]. rewrite loop_ops_cons.
  unfold sessions_left in *. simpl. f_equal. rewrite omap_app, length_app, IH.
  induction msgs as [|msg msgs IHm]; [done|]. exact IHm.
Qed.

Lemma sessions_left_start ops : sessions_left (StartSession :: ops) = S (sessions_left ops).
Proof. done. Qed.

Lemma sessions_left_receive msg ops : sessions_left (Receive msg :: ops) = sessions_left ops.
Proof. done. Qed.

Lemma sessions_of_snoc i es e :
  sessions_of i (es ++ [e]) =
  (sessions_of i es +
   match e with Resumed j _ => if bool_decide (i = j) then 1 else 0 | Received _ _ => 0 end)%nat.
Proof.
  unfold sessions_of. rewrite omap_app, length_app. f_equal. destruct e; [|done]. simpl.
  by case_bool_decide.
Qed.

Lemma messages_of_snoc i es e :
  messages_of i (es ++ [e]) =
  messages_of i es ++
  match e with Received j msg => if bool_decide (i = j) then [msg] else [] | Resumed _ _ => [] end.
Proof.
  unfold messages_of. rewrite omap_app. f_equal. destruct e; [done|]. simpl. by case_bool_decide.
Qed.

(** What a loop has taken and what is left to it make up its sessions. *)
Lemma cursor_trace_account loops r0 es c i ops view sessions :
  cursor_trace (cursor_start loops r0) es c → loops !! i = Some sessions → c.1 !! i = Some (ops, view) →
  messages_of i es ++ messages_left ops = mjoin sessions ∧
  (sessions_of i es + sessions_left ops)%nat = length sessions.
Proof.
  intros Htr Hi. remember (cursor_start loops r0) as c0 eqn:Hc0. revert ops view.
  induction Htr as [c|c es ls writes j t p p' writes' e Htr IH Hj Hex]; intros ops view; subst.
  - simpl. rewrite list_lookup_fmap, Hi. intros [= <- <-].
    by rewrite loop_ops_messages, loop_ops_sessions.
  - rewrite messages_of_snoc, sessions_of_snoc. cbn [fst]. destruct (decide (j = i)) as [->|Hne].
    + rewrite list_lookup_insert_eq by (by eapply lookup_lt_Some). intros [= ->].
      destruct p as [ops0 view0]. destruct (IH eq_refl ops0 view0 Hj) as [Hm Hs].
      destruct ops0 as [|[|msg] ops0]; cbn [cursor_exec] in Hex; [done|..].
      * destruct (load_cursor t view0 writes); simpl in Hex; [|done]. injection Hex as <- <- <- <-.
        rewrite bool_decide_true, app_nil_r by done. rewrite sessions_left_start in Hs.
        split; [exact Hm|lia].
      * destruct (receive_cursor msg view0 writes) as [[??]|]; simpl in Hex; [|done].
        injection Hex as <- <- <- <-. rewrite bool_decide_true, <- app_assoc by done.
        rewrite sessions_left_receive in Hs. split; [exact Hm|lia].
    + rewrite list_lookup_insert_ne by done. intros Hops. destruct (IH eq_refl ops view Hops) as [Hm Hs].
      apply cursor_exec_cases in Hex as [(_ & _ & [(v & _ & ->)|(msg & -> & _)])
        |(v & msg & r & _ & _ & _ & -> & _)];
        rewrite ?bool_decide_false by congruence; by rewrite app_nil_r, Nat.add_0_r.
Qed.

(** ** Properties *)

(** C39: a watch loop never falls behind itself: under release/acquire atomics,
    however the loops of any number of services interleave and however stale
    their reads are, each session resumes at or above the revision of every
    message its own loop has received and every revision it has resumed from
    before, and from a revision that some message carried (or the initial one);
    and each loop starts its sessions and receives their messages, all of them
    and in their order, by the time it is done. So no reconnect asks a loop's
    service for mutations the loop has already received. *)
Theorem sessions_resume_past_own_messages loops r0 es c :
  0 ≤ r0 → cursor_trace (cursor_start loops r0) es c →
  (∀ pre i v post, es = pre ++ Resumed i v :: post →
     (∀ msg r, Received i msg ∈ pre → msg_revision msg = Some r → r ≤ v) ∧
     (∀ r, Resumed i r ∈ pre → r ≤ v) ∧
     (v = r0 ∨ ∃ j msg, Received j msg ∈ pre ∧ msg_revision msg = Some v)) ∧
  (∀ i sessions ops view, loops !! i = Some sessions → c.1 !! i = Some (ops, view) →
     messages_of i es `prefix_of` mjoin sessions ∧
     (ops = [] → messages_of i es = mjoin sessions ∧ sessions_of i es = length sessions)).
Proof.
  intros Hr0 Htr. destruct (cursor_trace_inv _ _ _ _ Hr0 Htr) as [_ Hwell]. split.
  - intros pre i v post Hes. destruct (Hwell pre i v post Hes) as [Hle Horigin].
    split_and!; [..|done]; [intros msg r Hin Hr|intros r Hin]; apply Hle, list_elem_of_omap;
      eexists; (split; [exact Hin|]); simpl; by rewrite bool_decide_true.
  - intros i sessions ops view Hi Hops.
    destruct (cursor_trace_account _ _ _ _ _ _ _ _ Htr Hi Hops) as [Hm Hs].
    split; [by exists (messages_left ops)|]. intros ->. simpl in *.
    rewrite app_nil_r in Hm. unfold sessions_left in Hs. simpl in Hs. split; [done|lia].
Qed.

(** ** Witnesses *)

(** Two loops; the second one's reconnect reads a stale cursor, but not one
    from before its own message. *)
Definition two_loops : list (list (list WatchMessage)) :=
  [[[event 9 3 None]]; [[event 4 3 None]; []]].
Definition two_loops_log : list CursorEvent :=
  [Resumed 1 0; Received 1 (event 4 3 None); Resumed 0 0; Received 0 (event 9 3 None); Resumed 1 4].

Lemma sessions_resume_past_own_messages_witness :
  cursor_run [(1, 0); (1, 0); (0, 0); (0, 0); (1, 1)]%nat [] (cursor_start two_loops 0) =
    Some (two_loops_log, ([([], 2); ([], 1)]%nat, [0; 4; 9])) ∧
  4 ≤ 4 ∧ messages_of 1 two_loops_log = [event 4 3 None].
Proof.
  split; [vm_compute; reflexivity|].
  destruct (sessions_resume_past_own_messages two_loops 0 two_loops_log
    ([([], 2); ([], 1)]%nat, [0; 4; 9])) as [Hresume Hdone]; [done| |split].
  - eapply (cursor_run_sound [(1, 0); (1, 0); (0, 0); (0, 0); (1, 1)]%nat);
      [constructor|vm_compute; reflexivity].
  - eapply (proj1 (Hresume (take 4 two_loops_log) 1%nat 4 [] eq_refl)); [right; left|done].
  - by apply (proj2 (Hdone 1%nat _ _ _ eq_refl eq_refl)).
Defined.
