(* ===== verification/ClientEvents.v ===== *)
(** * ClientEvents: what channels, resolvers and watch loops log

    [connect_grpc_channel_with_config] of [sdkwork-rpc-client/src/transport.rs],
    the discovery resolver and the watching resolver, with their events. *)
From Stdlib Require Import Sorted.
From S2P Require Import Prelude RustStd Core Interfaces Tracing LoadBalance Tls ClientMetadata.
From S2P Require Import Transport DiscoveryMetadata DiscoveryLifecycle DiscoveryResolver.
From S2P Require Import WatchingResolver.

(** ** The events *)

Definition CONNECT_TARGET : string := "sdkwork.rpc.transport.connect".
Definition PLANE_TARGET : string := "sdkwork.rpc.discovery.connect".
Definition RESOLVE_TARGET : string := "sdkwork.rpc.discovery.resolve".
Definition WATCH_TARGET : string := "sdkwork.rpc.discovery.watch".

Definition connecting_event (uri : string) (config : GrpcChannelConfig) : Event := {|
  level := DEBUG; target := CONNECT_TARGET;
  fields := [("endpoint", Text uri);
             ("tls_enabled", Flag (bool_decide (is_Some (channel_tls config))));
             ("connect_timeout_ms", Num (as_u64 (Duration.as_millis (connect_timeout config))));
             ("keepalive_interval_ms", Num (as_u64 (Duration.as_millis (keepalive_interval config))))];
  message := "connecting grpc channel"
|}.

Definition connect_failed_event (uri : string) (config : GrpcChannelConfig) (error : string) :
    Event := {|
  level := WARN; target := CONNECT_TARGET;
  fields := [("endpoint", Text uri);
             ("tls_enabled", Flag (bool_decide (is_Some (channel_tls config))));
             ("error", Text error)];
  message := "grpc channel connect failed"
|}.

Definition plane_connecting_event (endpoint : string) : Event := {|
  level := DEBUG; target := PLANE_TARGET;
  fields := [("discovery_endpoint", Text endpoint)];
  message := "connecting to discovery control plane"
|}.

Definition plane_failed_event (error : string) : Event := {|
  level := WARN; target := PLANE_TARGET;
  fields := [("error", Text error)];
  message := "discovery control plane connect failed"
|}.

Definition discovering_event (c : DiscoveryNameResolverConfig) (service_name : string) : Event := {|
  level := DEBUG; target := RESOLVE_TARGET;
  fields := [("service_name", Text service_name); ("namespace", Text (res_namespace c));
             ("environment", Text (res_environment c)); ("healthy_only", Flag (healthy_only c))];
  message := "discovering service endpoints"
|}.

Definition no_instances_event (service_name : string) : Event := {|
  level := WARN; target := RESOLVE_TARGET;
  fields := [("service_name", Text service_name)];
  message := "no healthy instances resolved for service"
|}.

Definition discovered_event (service_name : string) (count : Z) : Event := {|
  level := DEBUG; target := RESOLVE_TARGET;
  fields := [("service_name", Text service_name); ("endpoint_count", Num count)];
  message := "discovered healthy endpoints"
|}.

Definition session_started_event (service_name : string) (from_revision : Z) : Event := {|
  level := INFO; target := WATCH_TARGET;
  fields := [("service_name", Text service_name); ("from_revision", Num from_revision)];
  message := "started discovery watch session"
|}.

Definition session_ended_event (service_name : string) : Event := {|
  level := INFO; target := WATCH_TARGET;
  fields := [("service_name", Text service_name)];
  message := "watch stream ended cleanly, reconnecting"
|}.

Definition session_failed_event (service_name error : string) (attempt : Z) : Event := {|
  level := WARN; target := WATCH_TARGET;
  fields := [("service_name", Text service_name); ("error", Text error); ("attempt", Num attempt)];
  message := "watch stream error, reconnecting after backoff"
|}.

(** ** [transport.rs] *)

Section Channels.
Context `{UtilsApi, FsApi, TransportApi}.
Open Scope logged_scope.

Definition connect_grpc_channel_with_config_logged (feature_tls : bool) (endpoint : string)
    (config : GrpcChannelConfig) : logged (RpcFrameworkResult Channel) :=
  match tonic_endpoint_uri endpoint with
  | Err e => quiet (Err e)
  | Ok uri =>
      emit (connecting_event uri config) ;!
      match map_err Core.Transport (endpoint_from_shared uri) with
      | Err e => quiet (Err e)
      | Ok shared =>
          let endpoint_builder :=
            endpoint_settings (connect_timeout config) (keepalive_interval config)
              (keepalive_timeout config) (keepalive_while_idle config) shared in
          match
            match channel_tls config with
            | Some tls_config =>
                let? client_tls := build_client_tls_config feature_tls tls_config in
                map_err (λ error, Configuration ("tls config error: " +:+ error))
                  (endpoint_tls_config client_tls endpoint_builder)
            | None => Ok endpoint_builder
            end
          with
          | Err e => quiet (Err e)
          | Ok endpoint_builder =>
              match endpoint_connect endpoint_builder with
              | Err error =>
                  emit (connect_failed_event uri config error) ;! quiet (Err (Core.Transport error))
              | Ok channel => quiet (Ok channel)
              end
          end
      end
  end.
End Channels.

(** ** [discovery_resolver.rs] *)

(** Whether [Endpoint::from_shared] accepts an address; a dial that fails
    before it reaches the network is not reported. *)
Class EndpointSyntax : Type := {
  uri_accepted : string → bool
}.

Section Resolver.
Context `{MetadataApi, UtilsApi, MetadataKeys, DiscoveryProto, EndpointSyntax}.
Context `{!DiscoveryApi}.
Open Scope logged_scope.

Definition get_or_init_channel_logged (self : DiscoveryNameResolver) (w : World) :
    logged (RpcFrameworkResult DiscoveryChannel * DiscoveryNameResolver * World) :=
  match channel self with
  | Some ch => quiet (Ok ch, self, w)
  | None =>
      let endpoint := normalize_http_endpoint (res_discovery_endpoint (res_config self)) in
      emit (plane_connecting_event endpoint) ;!
      match discovery_connect endpoint w with
      | (Err error, w) =>
          (if uri_accepted endpoint then emit (plane_failed_event error) else quiet ()) ;!
          quiet (Err (Core.Transport error), self, w)
      | (Ok ch, w) => quiet (Ok ch, {| res_config := res_config self; channel := Some ch |}, w)
      end
  end.

Definition discover_endpoints_logged (self : DiscoveryNameResolver) (service_name : string)
    (w : World) :
    logged (RpcFrameworkResult (list ResolvedEndpoint) * DiscoveryNameResolver * World) :=
  emit (discovering_event (res_config self) service_name) ;!
  let! (r, self, w) := get_or_init_channel_logged self w in
  match r with
  | Err e => quiet (Err e, self, w)
  | Ok ch =>
      let (ids, w) := draw_call_ids w in
      let headers :=
        apply_metadata_template metadata_new
          (unsigned_registry_read_metadata (res_subject_id (res_config self)) ids) in
      match discover_instances ch (discover_request self service_name) headers w with
      | (Err error, w) => quiet (Err (Discovery error), self, w)
      | (Ok instances, w) =>
          let endpoints :=
            filter (λ e, healthy e = true) (omap map_discovered_instance instances) in
          if bool_decide (endpoints = []) then
            emit (no_instances_event service_name) ;!
            quiet (Err (Discovery ("no healthy instances resolved for service " +:+ service_name)),
                   self, w)
          else
            emit (discovered_event service_name (Z.of_nat (length endpoints))) ;!
            quiet (Ok endpoints, self, w)
      end
  end.

Definition discovery_resolve_logged (service_name : string) (self : DiscoveryNameResolver)
    (w : World) :
    logged (RpcFrameworkResult (list ResolvedEndpoint) * DiscoveryNameResolver * World) :=
  if is_blank (Some service_name) then
    quiet (Err (Validation "service_name is required"), self, w)
  else discover_endpoints_logged self service_name w.

(** ** [watching_discovery_resolver.rs] *)

Definition watching_resolve_logged (service_name : string) (self : WatchingDiscoveryNameResolver)
    (w : World) :
    logged (RpcFrameworkResult (list ResolvedEndpoint) * WatchingDiscoveryNameResolver * World) :=
  match cached_endpoints (watch_config self) service_name (instant_now w) (shared self) with
  | Some endpoints => quiet (Ok endpoints, self, w)
  | None =>
      let! (r, inner', w) := discovery_resolve_logged service_name (inner self) w in
      match r with
      | Err e =>
          quiet (Err e,
                 {| inner := inner'; shared := shared self; watch_config := watch_config self |}, w)
      | Ok endpoints =>
          quiet (Ok endpoints,
                 {| inner := inner';
                    shared := store_endpoints service_name endpoints (instant_now w) (shared self);
                    watch_config := watch_config self |}, w)
      end
  end.

Definition run_watch_session_logged (self : WatchingDiscoveryNameResolver)
    (service_name : string) (w : World) :
    logged (RpcFrameworkResult () * WatchingDiscoveryNameResolver * World) :=
  let! (r, inner', w) := get_or_init_channel_logged (inner self) w in
  match r with
  | Err e =>
      quiet (Err e, {| inner := inner'; shared := shared self; watch_config := watch_config self |}, w)
  | Ok ch =>
      let from_revision := last_revision (shared self) in
      let (ids, w) := draw_call_ids w in
      let headers :=
        apply_metadata_template metadata_new
          (unsigned_registry_read_metadata (res_subject_id (res_config (inner self))) ids) in
      match watch_service ch (watch_request self service_name) headers w with
      | (Err error, w) =>
          quiet (Err (Core.Transport error),
                 {| inner := inner'; shared := shared self; watch_config := watch_config self |}, w)
      | (Ok (msgs, stream_error), w) =>
          emit (session_started_event service_name from_revision) ;!
          quiet (match stream_error with Some error => Err (Core.Transport error) | None => Ok () end,
                 {| inner := inner';
                    shared := watch_messages service_name msgs (shared self);
                    watch_config := watch_config self |}, w)
      end
  end.

Definition reconnect_pass_logged (rng : RandomApi) (service_name : string) (attempt : Z)
    (self : WatchingDiscoveryNameResolver) (w : World) :
    logged (Z * WatchingDiscoveryNameResolver * World) :=
  let! (r, self, w) := run_watch_session_logged self service_name w in
  match r with
  | Ok _ => emit (session_ended_event service_name) ;! quiet (0, self, w)
  | Err error =>
      emit (session_failed_event service_name (RpcFrameworkError_to_string error) attempt) ;!
      let backoff :=
        reconnect_backoff attempt (initial_reconnect_backoff (watch_config self))
          (max_reconnect_backoff (watch_config self)) in
      quiet (saturating_add u32_max attempt 1, self, discovery_sleep backoff w)
  end.

Fixpoint reconnect_loop_logged (rngs : list RandomApi) (service_name : string) (attempt : Z)
    (self : WatchingDiscoveryNameResolver) (w : World) :
    logged (WatchingDiscoveryNameResolver * World) :=
  match rngs with
  | [] => quiet (self, w)
  | rng :: rngs' =>
      let! (attempt, self, w) := reconnect_pass_logged rng service_name attempt self w in
      reconnect_loop_logged rngs' service_name attempt self w
  end.

Definition run_reconnect_loop_logged (rngs : list RandomApi) (service_name : string)
    (self : WatchingDiscoveryNameResolver) (w : World) :
    logged (WatchingDiscoveryNameResolver * World) :=
  reconnect_loop_logged rngs service_name 0 self w.
End Resolver.

(** ** Specification *)

(** How the session an event ends has ended, if it ends one. *)
Definition session_end (e : Event) : option bool :=
  if bool_decide (target e = WATCH_TARGET) then
    match level e, event_num "from_revision" e with
    | INFO, None => Some true
    | WARN, _ => Some false
    | _, _ => None
    end
  else None.

(** The attempts the failed sessions have to report: the failures in a row
    before each. *)
Fixpoint attempts_log (count : Z) (clean : list bool) : list Z :=
  match clean with
  | [] => []
  | true :: clean' => attempts_log 0 clean'
  | false :: clean' => count :: attempts_log (count + 1) clean'
  end.

(** ** Lemmas *)

Section ResolverLemmas.
Context `{MetadataApi, UtilsApi, MetadataKeys, DiscoveryProto, EndpointSyntax}.
Context `{!DiscoveryApi}.

Lemma channel_logged_value (self : DiscoveryNameResolver) w :
  value (get_or_init_channel_logged self w) = get_or_init_channel self w.
Proof.
  unfold get_or_init_channel_logged, get_or_init_channel. destruct (channel self); [done|].
  rewrite value_bind. by destruct (discovery_connect _ w) as [[?|?] ?].
Qed.

(** Only a resolver without a channel reports a connection, and nothing else. *)
Lemma channel_logged_events (self : DiscoveryNameResolver) w :
  (is_Some (channel self) → events (get_or_init_channel_logged self w) = []) ∧
  Forall (λ e, (∃ uri, e = plane_connecting_event uri) ∨ ∃ error, e = plane_failed_event error)
    (events (get_or_init_channel_logged self w)).
Proof.
  unfold get_or_init_channel_logged. destruct (channel self) as [ch|]; [by split|].
  split; [by intros []|]. rewrite events_bind. constructor; [by eauto|].
  destruct (discovery_connect _ w) as [[?|?] ?]; [constructor|].
  rewrite events_bind. destruct (uri_accepted _); repeat constructor; by eauto.
Qed.

Lemma omap_none {A B} (f : A → option B) l : Forall (λ a, f a = None) l → omap f l = [].
Proof. induction 1 as [|a l Ha _ IH]; [done|]. simpl. by rewrite Ha. Qed.

(** A reading of the log that connections have no part in. *)
Lemma channel_logged_omap {B} (f : Event → option B) (self : DiscoveryNameResolver) w :
  (∀ uri, f (plane_connecting_event uri) = None) →
  (∀ error, f (plane_failed_event error) = None) →
  omap f (events (get_or_init_channel_logged self w)) = [].
Proof.
  intros Hc Hf. apply omap_none. eapply Forall_impl; [apply channel_logged_events|].
  by intros e [[? ->]|[? ->]].
Qed.

Lemma resolve_logged_value s (self : DiscoveryNameResolver) w :
  value (discovery_resolve_logged s self w) =
  let '(r, (self', w')) := discovery_resolve s (self, w) in (r, self', w').
Proof.
  unfold discovery_resolve_logged, discovery_resolve. destruct (is_blank (Some s)); [done|].
  unfold discover_endpoints_logged, discover_endpoints. rewrite !value_bind, channel_logged_value.
  destruct (get_or_init_channel self w) as [[[ch|e] self1] w1]; [|done].
  destruct (draw_call_ids w1) as [ids w2].
  destruct (discover_instances _ _ _ w2) as [[instances|e] w3]; [|done]. by case_bool_decide.
Qed.

Lemma session_logged_value (self : WatchingDiscoveryNameResolver) s w :
  value (run_watch_session_logged self s w) = run_watch_session self s w.
Proof.
  unfold run_watch_session_logged, run_watch_session. rewrite value_bind, channel_logged_value.
  destruct (get_or_init_channel (inner self) w) as [[[ch|e] inner'] w1]; [|done].
  destruct (draw_call_ids w1) as [ids w2]. by destruct (watch_service _ _ _ w2) as [[[? ?]|] ?].
Qed.

Lemma pass_logged_value rng s attempt (self : WatchingDiscoveryNameResolver) w :
  value (reconnect_pass_logged rng s attempt self w) =
  let '(_, attempt', self', w') := reconnect_pass rng s attempt self w in (attempt', self', w').
Proof.
  unfold reconnect_pass_logged, reconnect_pass. rewrite value_bind, session_logged_value.
  by destruct (run_watch_session self s w) as [[[?|?] ?] ?].
Qed.

Lemma messages_revision s msgs st : last_revision st ≤ last_revision (watch_messages s msgs st).
Proof.
  revert st. induction msgs as [|[now msg] msgs IH]; intros st; [done|].
  etransitivity; [|apply IH]. cbn [fst snd]. destruct (on_message_endpoints s now msg st) as (_ & _ & ->).
  unfold advance_revision. destruct (msg_revision msg) as [r|]; [|done]. case_match; simpl; lia.
Qed.

(** What a session logs before its end: the connection, if it makes one, and
    its start with the revision it resumes from. *)
Lemma session_logged_events (self : WatchingDiscoveryNameResolver) s w :
  let es := events (run_watch_session_logged self s w) in
  let '(_, self', _) := run_watch_session self s w in
  omap session_end es = [] ∧ omap (event_num "attempt") es = [] ∧
  last_revision (shared self) ≤ last_revision (shared self') ∧
  (omap (event_num "from_revision") es = [] ∨
   omap (event_num "from_revision") es = [last_revision (shared self)]).
Proof.
  cbn zeta. unfold run_watch_session_logged, run_watch_session.
  rewrite !events_bind, channel_logged_value, !omap_app.
  rewrite !channel_logged_omap by done.
  destruct (get_or_init_channel (inner self) w) as [[[ch|e] inner'] w1]; [|split_and!; [done..|by left]].
  destruct (draw_call_ids w1) as [ids w2].
  destruct (watch_service _ _ _ w2) as [[[msgs stop]|] w3]; [|split_and!; [done..|by left]].
  rewrite events_bind. split_and!; [done..|apply messages_revision|by right].
Qed.

Lemma sorted_extend a b F l :
  a ≤ b → F = [] ∨ F = [a] → StronglySorted Z.le (b :: l) → StronglySorted Z.le (a :: F ++ l).
Proof.
  intros Hab HF Hs. assert (StronglySorted Z.le (a :: l)) as Ha.
  { inversion Hs as [|? ? Hl Hall]; subst. constructor; [done|].
    eapply Forall_impl; [exact Hall|]. simpl. lia. }
  destruct HF as [->| ->]; [done|]. simpl. constructor; [done|].
  inversion Ha; subst. by constructor.
Qed.

(** The log of the loop against its passes. *)
Lemma loop_logged_spec rngs s attempt (self : WatchingDiscoveryNameResolver) w :
  0 ≤ attempt → attempt + Z.of_nat (length rngs) < u32_max →
  let r := reconnect_loop_logged rngs s attempt self w in
  let '(passes, self', w') := reconnect_loop rngs s attempt self w in
  value r = (self', w') ∧
  omap session_end (events r) = session_clean <$> passes ∧
  omap (event_num "attempt") (events r) = attempts_log attempt (session_clean <$> passes) ∧
  StronglySorted Z.le (last_revision (shared self) ::
    omap (event_num "from_revision") (events r) ++ [last_revision (shared self')]).
Proof.
  cbn zeta. revert attempt self w.
  induction rngs as [|rng rngs IH]; intros attempt self w Ha Hlen; [by repeat constructor|].
  cbn [reconnect_loop_logged reconnect_loop length] in *.
  rewrite value_bind, events_bind, pass_logged_value. unfold reconnect_pass_logged, reconnect_pass.
  rewrite events_bind, session_logged_value.
  pose proof (session_logged_events self s w) as Hses.
  destruct (run_watch_session self s w) as [[[[]|error] self1] w1]; cbn zeta in Hses;
    destruct Hses as (He & Hat & Hle & Hfrom).
  - specialize (IH 0 self1 w1). destruct (reconnect_loop rngs s 0 self1 w1) as [[passes self2] w2].
    destruct IH as (Hv & Hend & Hats & Hsort); [lia..|].
    rewrite events_bind, !omap_app, He, Hat, Hend, Hats. split_and!; [done..|].
    rewrite <- !app_assoc. exact (sorted_extend _ _ _ _ Hle Hfrom Hsort).
  - unfold saturating_add. rewrite Z.min_r by lia. set (w2 := discovery_sleep _ w1).
    specialize (IH (attempt + 1) self1 w2).
    destruct (reconnect_loop rngs s (attempt + 1) self1 w2) as [[passes self2] w3].
    destruct IH as (Hv & Hend & Hats & Hsort); [lia..|].
    rewrite events_bind, !omap_app, He, Hat, Hend, Hats. split_and!; [done..|].
    rewrite <- !app_assoc. exact (sorted_extend _ _ _ _ Hle Hfrom Hsort).
Qed.
End ResolverLemmas.

(** ** Properties *)

(** the log of a watch loop is an account of its sessions: for runs of up to
    [u32::MAX] sessions it holds, in order, one event per session for how it
    ended, with the number of failures in a row before it when it failed; the
    revisions from which the sessions were resumed, which the log also holds,
    start at the cursor, never decrease, and end at or below the cursor the loop
    leaves; and the loop is that of the code without its log. *)
Theorem watch_log_exact `{MetadataApi, UtilsApi, MetadataKeys, DiscoveryProto, EndpointSyntax}
    `{!DiscoveryApi} rngs s (self : WatchingDiscoveryNameResolver) w :
  Z.of_nat (length rngs) < u32_max →
  let r := run_reconnect_loop_logged rngs s self w in
  let '(passes, self', w') := run_reconnect_loop rngs s self w in
  value r = (self', w') ∧
  omap session_end (events r) = session_clean <$> passes ∧
  omap (event_num "attempt") (events r) = attempts_log 0 (session_clean <$> passes) ∧
  StronglySorted Z.le (last_revision (shared self) ::
    omap (event_num "from_revision") (events r) ++ [last_revision (shared self')]).
Proof. intros Hlen. by apply loop_logged_spec. Qed.

(** a resolution reports its outcome: it logs the service it looks for, a
    connection only if the resolver has no channel yet, and at the end the
    number of endpoints it answers with, or a warning when the control plane
    lists no healthy instance; a blank name is refused without an event. *)
Theorem resolution_log_exact `{MetadataApi, UtilsApi, MetadataKeys, DiscoveryProto, EndpointSyntax}
    `{!DiscoveryApi} s (self : DiscoveryNameResolver) w :
  let r := discovery_resolve_logged s self w in
  let '(res, (self', w')) := discovery_resolve s (self, w) in
  value r = (res, self', w') ∧
  (is_blank (Some s) = true → events r = []) ∧
  (is_Some (channel self) → Forall (λ e, target e = RESOLVE_TARGET) (events r)) ∧
  (∀ es, res = Ok es →
    ∃ connects, events r = discovering_event (res_config self) s :: connects
                           ++ [discovered_event s (Z.of_nat (length es))] ∧
      Forall (λ e, target e = PLANE_TARGET) connects) ∧
  (no_instances_event s ∈ events r →
    res = Err (Discovery ("no healthy instances resolved for service " +:+ s))).
Proof.
  cbn zeta. unfold discovery_resolve_logged, discovery_resolve.
  destruct (is_blank (Some s)); [split_and!; try done; by intros ?%not_elem_of_nil|].
  unfold discover_endpoints_logged, discover_endpoints.
  rewrite !value_bind, !events_bind, channel_logged_value.
  destruct (channel_logged_events self w) as [Hquiet Hplane].
  set (connects := events (get_or_init_channel_logged self w)) in *. clearbody connects.
  assert (Forall (λ e, target e = PLANE_TARGET) connects) as Htarget.
  { eapply Forall_impl; [exact Hplane|]. by intros e [[? ->]|[? ->]]. }
  assert (no_instances_event s ∉ connects) as Hnot.
  { intros Hin. rewrite Forall_forall in Htarget. by specialize (Htarget _ Hin). }
  assert (∀ tail, Forall (λ e, target e = RESOLVE_TARGET) tail → is_Some (channel self) →
    Forall (λ e, target e = RESOLVE_TARGET) (discovering_event (res_config self) s :: connects ++ tail))
    as Hres by (intros tail ? Hc; rewrite (Hquiet Hc); by constructor).
  destruct (get_or_init_channel self w) as [[[ch|e] self1] w1]; cycle 1.
  { split_and!; [done|done|apply Hres; constructor|done|]. simpl. rewrite app_nil_r. set_solver. }
  destruct (draw_call_ids w1) as [ids w2].
  destruct (discover_instances _ _ _ w2) as [[instances|e] w3]; cycle 1.
  { split_and!; [done|done|apply Hres; constructor|done|]. simpl. rewrite app_nil_r. set_solver. }
  case_bool_decide as Hne; (split_and!; [done|done|apply Hres; by repeat constructor|..]).
  - done.
  - done.
  - intros es [= <-]. by exists connects.
  - simpl. rewrite elem_of_cons, elem_of_app, list_elem_of_singleton. by intros [?|[?|?]].
Qed.

(** a watching resolver that has a fresh answer in its cache gives it without a
    call and without an event; otherwise it logs what its discovery resolver
    logs. *)
Theorem cached_answer_is_silent `{MetadataApi, UtilsApi, MetadataKeys, DiscoveryProto, EndpointSyntax}
    `{!DiscoveryApi} s (self : WatchingDiscoveryNameResolver) w :
  let r := watching_resolve_logged s self w in
  let '(res, (self', w')) := watching_resolve s (self, w) in
  value r = (res, self', w') ∧
  events r =
    match cached_endpoints (watch_config self) s (instant_now w) (shared self) with
    | Some _ => []
    | None => events (discovery_resolve_logged s (inner self) w)
    end.
Proof.
  cbn zeta. unfold watching_resolve_logged, watching_resolve.
  destruct (cached_endpoints _ s _ (shared self)); [done|].
  rewrite value_bind, events_bind, resolve_logged_value. cbn [resolve discovery_resolver].
  destruct (discovery_resolve s (inner self, w)) as [[es|e] [inner' w']];
    (split; [done|]); by rewrite app_nil_r.
Qed.

(** a channel reports TLS as enabled for an address that is dialled in plain
    text: with a TLS configuration, a [grpc] endpoint is logged as an [http]
    URI with [tls_enabled]. *)
Theorem tls_enabled_reported_for_http `{UtilsApi} `{!UtilsLaws} `{FsApi, TransportApi}
    feature authority config tls :
  channel_tls config = Some tls → str_all plain authority = true → authority ≠ "" →
  ∃ e, head (events (connect_grpc_channel_with_config_logged feature ("grpc://" +:+ authority) config))
         = Some e ∧
    event_field "endpoint" e = Some (Text ("http://" +:+ authority)) ∧
    event_field "tls_enabled" e = Some (Flag true).
Proof.
  intros Hc Hp Hne. unfold connect_grpc_channel_with_config_logged, tonic_endpoint_uri.
  rewrite utils_trim_std, is_blank_Some.
  rewrite !(trim_plain ("grpc://" +:+ authority)) by (by rewrite str_all_app, Hp).
  eexists. split; [reflexivity|]. split; [done|]. unfold event_field. cbn [fields connecting_event field_of].
  rewrite Hc. reflexivity.
Qed.

(** a dial is reported when it starts and, if it fails, once more with its
    error: the log of [connect_grpc_channel_with_config] is empty for an
    endpoint that has no URI, and holds a warning exactly when the endpoint was
    built and the connection refused. *)
Theorem dial_log_exact `{UtilsApi, FsApi, TransportApi} feature endpoint config :
  let r := connect_grpc_channel_with_config_logged feature endpoint config in
  value r = connect_grpc_channel_with_config feature endpoint config ∧
  match tonic_endpoint_uri endpoint with
  | Err _ => events r = []
  | Ok uri =>
      events r = [connecting_event uri config] ∨
      ∃ error, value r = Err (Core.Transport error) ∧
        events r = [connecting_event uri config; connect_failed_event uri config error]
  end.
Proof.
  cbn zeta. unfold connect_grpc_channel_with_config_logged, connect_grpc_channel_with_config.
  destruct (tonic_endpoint_uri endpoint) as [uri|e]; [|done]. cbn [result_bind].
  rewrite value_bind, events_bind.
  destruct (endpoint_from_shared uri) as [shared|e]; [|by split; [|left]].
  cbn [map_err result_bind].
  destruct (channel_tls config) as [tls|];
    [destruct (build_client_tls_config feature tls) as [c|e]; [|by split; [|left]]; cbn [result_bind];
     destruct (endpoint_tls_config c _) as [b|e]; [|by split; [|left]]|];
    cbn [map_err result_bind];
    (destruct (endpoint_connect _) as [ch|e]; [by split; [|left]|split; [done|right; by exists e]]).
Qed.

(** ** Witnesses *)

(** A control plane that refuses the first call it is asked to watch with and
    then delivers one mutation; its world counts the calls. *)
Definition flaky_plane : @DiscoveryApi toy_metadata := {|
  World := nat;
  DiscoveryChannel := string;
  instant_now w := Z.of_nat w;
  draw_call_ids w := (test_ids, w);
  discovery_connect uri w := (Ok uri, w);
  discover_instances _ _ _ w := (Ok [], w);
  watch_service _ _ _ w :=
    match w with
    | O => (Err "unavailable", 1%nat)
    | S _ => (Ok ([(Z.of_nat w, event (Z.of_nat w) 3 (Some (test_instance "grpc://a:1" 1)))], None), S w)
    end;
  discovery_sleep _ w := w
|}.

Definition any_syntax : EndpointSyntax := {| uri_accepted _ := true |}.

Definition flaky_watcher : @WatchingDiscoveryNameResolver toy_metadata flaky_plane :=
  @Build_WatchingDiscoveryNameResolver toy_metadata flaky_plane
    (@Build_DiscoveryNameResolver toy_metadata flaky_plane resolver_config None)
    watch_state_new watch_config_default.

(** A failed session and two clean ones, resumed from revisions 0 and 1. *)
Lemma watch_log_exact_witness :
  let log := events (@run_reconnect_loop_logged toy_metadata toy_utils toy_keys toy_proto any_syntax
               flaky_plane [toy_random; toy_random; toy_random] "svc" flaky_watcher O) in
  omap session_end log = [false; true; true] ∧ omap (event_num "attempt") log = [0] ∧
  omap (event_num "from_revision") log = [0; 1].
Proof.
  pose proof (@watch_log_exact toy_metadata toy_utils toy_keys toy_proto any_syntax
    flaky_plane [toy_random; toy_random; toy_random] "svc" flaky_watcher O ltac:(by_compute)) as Hlog.
  cbn zeta in *. split_and!.
  - etransitivity; [exact (proj1 (proj2 Hlog))|vm_compute; reflexivity].
  - etransitivity; [exact (proj1 (proj2 (proj2 Hlog)))|vm_compute; reflexivity].
  - vm_compute. reflexivity.
Defined.

Lemma tls_enabled_reported_for_http_witness :
  ∃ e, head (events (@connect_grpc_channel_with_config_logged toy_utils (toy_fs ∅) toy_transport true
              "grpc://127.0.0.1:50051" tls_channel)) = Some e ∧
    event_field "endpoint" e = Some (Text "http://127.0.0.1:50051") ∧
    event_field "tls_enabled" e = Some (Flag true).
Proof.
  apply (@tls_enabled_reported_for_http toy_utils toy_utils_laws (toy_fs ∅) toy_transport true
    "127.0.0.1:50051" tls_channel server_verified); [reflexivity|vm_compute; reflexivity|done].
Defined.
