(* ===== verification/Binary64.v ===== *)
(** * Binary64: [f64] arithmetic

    An [f64] is an IEEE 754 binary64 number of the Standard Library's
    [SpecFloat], whose operations round to nearest even. The lemmas show that
    on natural numbers below two to the power of 53 the conversion, the
    comparisons, the sum, the difference and the product are exact. *)
From Stdlib Require Import SpecFloat.
From S2P Require Import Prelude RustStd.

Module F64.
Definition t : Type := spec_float.
Definition prec : Z := 53.
Definition emax : Z := 1024.

(** [n as f64]. *)
Definition of_Z (n : Z) : t := binary_normalize prec emax n 0 false.
Definition zero : t := S754_zero false.
Definition nan : t := S754_nan.
Definition add (x y : t) : t := SFadd prec emax x y.
Definition sub (x y : t) : t := SFsub prec emax x y.
Definition mul (x y : t) : t := SFmul prec emax x y.
Definition div (x y : t) : t := SFdiv prec emax x y.
Definition ltb (x y : t) : bool := SFltb x y.
Definition leb (x y : t) : bool := SFleb x y.

(** [f64::min]: a NaN operand is ignored. *)
Definition min (x y : t) : t :=
  match x, y with
  | S754_nan, _ => y
  | _, S754_nan => x
  | _, _ => if ltb x y then x else y
  end.
End F64.

(** [Duration::as_secs_f64]. *)
Definition as_secs_f64 (d : Z) : F64.t :=
  F64.add (F64.of_Z (d / Duration.NANOS_PER_SEC))
    (F64.div (F64.of_Z (d mod Duration.NANOS_PER_SEC)) (F64.of_Z Duration.NANOS_PER_SEC)).

(** ** Comparison and minimum of all numbers *)

Lemma SFcompare_refl x : x ≠ S754_nan → SFcompare x x = Some Eq.
Proof.
  destruct x as [s|s| |s m e]; try (by destruct s); [done|]. intros _. simpl.
  destruct s; rewrite Z.compare_refl, ?Pos.compare_cont_refl; done.
Qed.

Lemma leb_refl x : x ≠ S754_nan → F64.leb x x = true.
Proof. intros. unfold F64.leb, SFleb. by rewrite SFcompare_refl. Qed.

Lemma min_leb x y : y ≠ S754_nan → F64.leb (F64.min x y) y = true.
Proof.
  intros Hy.
  assert (F64.leb (if F64.ltb x y then x else y) y = true) as Hlt.
  { destruct (F64.ltb x y) eqn:E; [|by apply leb_refl].
    unfold F64.ltb, SFltb in E. unfold F64.leb, SFleb. by destruct (SFcompare x y) as [[]|]. }
  unfold F64.min. destruct x, y; done || exact Hlt || by apply leb_refl.
Qed.

(** ** Mantissas *)

(** [n * 2 ^ k]. *)
Fixpoint shl (n : positive) (k : nat) : positive :=
  match k with O => n | S k' => xO (shl n k') end.

Definition digits (n : positive) : Z := Zpos (digits2_pos n).

Lemma shl_Z n k : Zpos (shl n k) = Zpos n * 2 ^ Z.of_nat k.
Proof.
  induction k as [|k IH]; [simpl; lia|].
  cbn [shl]. rewrite Pos2Z.inj_xO, IH, Nat2Z.inj_succ, Z.pow_succ_r by lia. lia.
Qed.

Lemma shl_shl n j k : shl (shl n j) k = shl n (k + j).
Proof. induction k as [|k IH]; [done|]. simpl. by rewrite IH. Qed.

Lemma shl_iter n p : Pos.iter xO n p = shl n (Pos.to_nat p).
Proof.
  induction p as [|p IH] using Pos.peano_ind; [done|].
  by rewrite Pos.iter_succ, IH, Pos2Nat.inj_succ.
Qed.

Lemma digits_shl n k : digits (shl n k) = digits n + Z.of_nat k.
Proof.
  unfold digits. induction k as [|k IH]; [simpl; lia|].
  cbn [shl digits2_pos]. rewrite Pos2Z.inj_succ, IH. lia.
Qed.

Lemma digits_pos n : 1 ≤ digits n.
Proof. unfold digits. lia. Qed.

Lemma digits_bounds n : 2 ^ (digits n - 1) ≤ Zpos n < 2 ^ digits n.
Proof.
  change (digits n) with (Zpos (Pos.size n)).
  pose proof (Pos.size_gt n) as Hgt. pose proof (Pos.size_le n) as Hle.
  apply Pos2Z.pos_lt_pos in Hgt. apply Pos2Z.pos_le_pos in Hle.
  rewrite Pos2Z.inj_pow in Hgt, Hle.
  replace (Zpos (Pos.size n)) with (Z.succ (Zpos (Pos.size n) - 1)) in Hle at 1 by lia.
  rewrite Z.pow_succ_r in Hle by lia. lia.
Qed.

(** A number below [2 ^ b] has at most [b] digits. *)
Lemma digits_le n b : 0 ≤ b → Zpos n < 2 ^ b → digits n ≤ b.
Proof.
  intros Hb Hn. pose proof (digits_bounds n) as [Hlo _].
  assert (digits n - 1 < b); [|lia]. apply (Z.pow_lt_mono_r_iff 2); lia.
Qed.

Lemma digits_mono m n : digits m < digits n → Zpos m < Zpos n.
Proof.
  intros Hd. pose proof (digits_bounds m) as [_ Hm]. pose proof (digits_bounds n) as [Hn _].
  pose proof (digits_pos m).
  pose proof (Z.pow_le_mono_r 2 (digits m) (digits n - 1)). lia.
Qed.

(** ** Exact rounding *)

Lemma shr_shl n p k :
  SpecFloat.iter_pos shr_1 p {| shr_m := Zpos (shl n (Pos.to_nat p + k)); shr_r := false; shr_s := false |}
  = {| shr_m := Zpos (shl n k); shr_r := false; shr_s := false |}.
Proof.
  revert k. induction p as [p IH|p IH|]; intros k; cbn [SpecFloat.iter_pos].
  - rewrite Pos2Nat.inj_xI.
    replace (S (2 * Pos.to_nat p) + k)%nat with (S (Pos.to_nat p + (Pos.to_nat p + k))) by lia.
    cbn [shl shr_1 orb]. by rewrite !IH.
  - rewrite Pos2Nat.inj_xO.
    replace (2 * Pos.to_nat p + k)%nat with (Pos.to_nat p + (Pos.to_nat p + k))%nat by lia.
    by rewrite !IH.
  - done.
Qed.

(** The float of a positive number of at most 53 digits. *)
Definition float_of_pos (n : positive) : F64.t :=
  S754_finite false (shl n (Z.to_nat (53 - digits n))) (digits n - 53).

Lemma fexp_normal e : -1021 ≤ e → fexp F64.prec F64.emax e = e - 53.
Proof. intros. unfold fexp, emin, F64.prec, F64.emax. lia. Qed.

(** Rounding drops zero bits only. *)
Lemma round_aux_exact n k e :
  digits n ≤ 53 → 53 ≤ digits n + Z.of_nat k → e + Z.of_nat k = 0 →
  binary_round_aux F64.prec F64.emax false (Zpos (shl n k)) e loc_Exact = float_of_pos n.
Proof.
  intros Hd Hk He. pose proof (digits_pos n). unfold binary_round_aux.
  set (k' := Z.to_nat (53 - digits n)).
  assert (shr_fexp F64.prec F64.emax (Zpos (shl n k)) e loc_Exact
          = ({| shr_m := Zpos (shl n k'); shr_r := false; shr_s := false |}, digits n - 53)) as ->.
  { unfold shr_fexp. cbn [Zdigits2 shr_record_of_loc]. fold (digits (shl n k)).
    rewrite digits_shl, fexp_normal by lia.
    replace (digits n + Z.of_nat k + e - 53 - e) with (digits n + Z.of_nat k - 53) by lia.
    destruct (digits n + Z.of_nat k - 53) as [|p|p] eqn:Hp; [| |lia]; cbn [shr].
    - replace k with k' by (unfold k'; lia). f_equal. lia.
    - replace k with (Pos.to_nat p + k')%nat by (unfold k'; lia).
      rewrite shr_shl. f_equal. lia. }
  cbn [shr_m loc_of_shr_record round_nearest_even].
  unfold shr_fexp. cbn [Zdigits2 shr_record_of_loc]. fold (digits (shl n k')).
  rewrite digits_shl. replace (digits n + Z.of_nat k') with 53 by (unfold k'; lia).
  rewrite fexp_normal by lia.
  replace (53 + (digits n - 53) - 53 - (digits n - 53)) with 0 by lia. cbn [shr shr_m].
  rewrite (proj2 (Z.leb_le _ _)) by (unfold F64.emax, F64.prec; lia). done.
Qed.

Lemma round_exact n k e :
  digits n ≤ 53 → e + Z.of_nat k = 0 →
  binary_round F64.prec F64.emax false (shl n k) e = float_of_pos n.
Proof.
  intros Hd He. pose proof (digits_pos n). unfold binary_round.
  fold (digits (shl n k)). rewrite digits_shl, fexp_normal by lia.
  unfold shl_align.
  destruct (digits n + Z.of_nat k + e - 53 - e) as [|p|p] eqn:Hp;
    [by apply round_aux_exact; lia..|].
  rewrite shl_iter, shl_shl. apply round_aux_exact; lia.
Qed.

(** ** Natural numbers below two to the power of 53 *)

Definition nat53 (n : Z) : Prop := 0 ≤ n < 2 ^ 53.

Lemma of_Z_pos n : nat53 (Zpos n) → F64.of_Z (Zpos n) = float_of_pos n.
Proof. intros [_ Hn]. apply (round_exact n 0); [by apply digits_le|done]. Qed.

(** The number [n] at an exponent that makes [n * 2 ^ k] an integer. *)
Lemma normalize_exact n k e :
  nat53 n → e + Z.of_nat k = 0 →
  binary_normalize F64.prec F64.emax (n * 2 ^ Z.of_nat k) e false = F64.of_Z n.
Proof.
  intros Hn He. destruct n as [|n|n]; [done| |by destruct Hn].
  rewrite <- shl_Z, of_Z_pos by done. apply round_exact; [|done].
  apply digits_le; [done|]. by destruct Hn.
Qed.

(** Aligning a float with a smaller exponent. *)
Lemma align_exact n e :
  digits n ≤ 53 → e ≤ digits n - 53 →
  Zpos (shl_align (shl n (Z.to_nat (53 - digits n))) (digits n - 53) e).1
  = Zpos n * 2 ^ Z.of_nat (Z.to_nat (- e)).
Proof.
  intros Hd He. pose proof (digits_pos n). rewrite <- shl_Z. unfold shl_align.
  destruct (e - (digits n - 53)) as [|p|p] eqn:Hp; cbn [fst]; [|lia|].
  - do 2 f_equal. lia.
  - rewrite shl_iter, shl_shl. do 2 f_equal. lia.
Qed.

Lemma of_Z_cases n :
  nat53 n →
  (n = 0 ∧ F64.of_Z n = S754_zero false) ∨
  (∃ p, n = Zpos p ∧ digits p ≤ 53 ∧ F64.of_Z n = float_of_pos p).
Proof.
  intros Hn. destruct n as [|p|p]; [by left| |by destruct Hn].
  right. exists p. split_and!; [done| |by apply of_Z_pos].
  apply digits_le; [done|]. by destruct Hn.
Qed.

Lemma add_exact a b : nat53 a → nat53 b → nat53 (a + b) → F64.add (F64.of_Z a) (F64.of_Z b) = F64.of_Z (a + b).
Proof.
  intros Ha Hb Hab.
  destruct (of_Z_cases a Ha) as [[-> ->]|(p & -> & Hp & Hfa)];
    [destruct (of_Z_cases b Hb) as [[-> ->]|(q & -> & Hq & ->)]; [done|]; rewrite Z.add_0_l;
     by rewrite of_Z_pos|].
  destruct (of_Z_cases b Hb) as [[-> ->]|(q & -> & Hq & Hfb)].
  { rewrite Z.add_0_r, Hfa. done. }
  rewrite Hfa, Hfb. unfold F64.add, float_of_pos, SFadd. cbn [cond_Zopp].
  set (e := Z.min _ _). pose proof (digits_pos p). pose proof (digits_pos q).
  rewrite !align_exact by (unfold e; lia).
  rewrite <- Z.mul_add_distr_r. apply normalize_exact; [done|unfold e; lia].
Qed.

Lemma sub_exact a b : nat53 a → nat53 b → b ≤ a → F64.sub (F64.of_Z a) (F64.of_Z b) = F64.of_Z (a - b).
Proof.
  intros Ha Hb Hle. assert (nat53 (a - b)) as Hab by (unfold nat53 in *; lia).
  destruct (of_Z_cases b Hb) as [[-> ->]|(q & -> & Hq & Hfb)].
  { rewrite Z.sub_0_r. destruct (of_Z_cases a Ha) as [[-> ->]|(p & -> & Hp & ->)]; done. }
  destruct (of_Z_cases a Ha) as [[-> _]|(p & -> & Hp & Hfa)]; [lia|].
  rewrite Hfa, Hfb. unfold F64.sub, float_of_pos, SFsub. cbn [cond_Zopp].
  set (e := Z.min _ _). pose proof (digits_pos p). pose proof (digits_pos q).
  rewrite !align_exact by (unfold e; lia).
  rewrite <- Z.mul_sub_distr_r. apply normalize_exact; [done|unfold e; lia].
Qed.

Lemma mul_exact a b : nat53 a → nat53 b → nat53 (a * b) → F64.mul (F64.of_Z a) (F64.of_Z b) = F64.of_Z (a * b).
Proof.
  intros Ha Hb Hab.
  destruct (of_Z_cases a Ha) as [[-> ->]|(p & -> & Hp & Hfa)].
  { by destruct (of_Z_cases b Hb) as [[-> ->]|(q & -> & Hq & ->)]. }
  destruct (of_Z_cases b Hb) as [[-> ->]|(q & -> & Hq & Hfb)].
  { by rewrite Z.mul_0_r, Hfa. }
  rewrite <- Pos2Z.inj_mul in *. rewrite (of_Z_pos (p * q)), Hfa, Hfb by done.
  unfold F64.mul, float_of_pos at 1 2, SFmul. cbn [xorb].
  set (j := Z.to_nat (53 - digits p)). set (k := Z.to_nat (53 - digits q)).
  assert (shl p j * shl q k = shl (p * q) (j + k))%positive as ->.
  { apply Pos2Z.inj. rewrite Pos2Z.inj_mul, !shl_Z, Pos2Z.inj_mul, Nat2Z.inj_add, Z.pow_add_r by lia.
    ring. }
  assert (digits (p * q) ≤ 53) by (apply digits_le; [done|by destruct Hab]).
  apply round_aux_exact; [done| |unfold j, k; lia].
  assert (Z.max (digits p) (digits q) ≤ digits (p * q)); [|unfold j, k; lia].
  destruct (Z.lt_ge_cases (digits (p * q)) (Z.max (digits p) (digits q))) as [Hlt|]; [|done].
  assert (Zpos (p * q) < Z.max (Zpos p) (Zpos q)); [|nia].
  destruct (Z.max_spec (digits p) (digits q)) as [[_ Hm]|[_ Hm]]; rewrite Hm in Hlt;
    apply digits_mono in Hlt; lia.
Qed.

Lemma compare_exact a b :
  nat53 a → nat53 b → SFcompare (F64.of_Z a) (F64.of_Z b) = Some (a ?= b).
Proof.
  intros Ha Hb.
  destruct (of_Z_cases a Ha) as [[-> ->]|(p & -> & Hp & ->)];
    destruct (of_Z_cases b Hb) as [[-> ->]|(q & -> & Hq & ->)]; [done..|].
  unfold SFcompare, float_of_pos. f_equal.
  destruct (Z.compare_spec (digits p - 53) (digits q - 53)) as [Hd|Hd|Hd].
  - match goal with |- Pos.compare_cont Eq ?m ?n = _ =>
      change (Pos.compare_cont Eq m n) with (Zpos m ?= Zpos n) end.
    rewrite !shl_Z.
    replace (digits q) with (digits p) by lia.
    destruct (Z.compare_spec (Zpos p) (Zpos q)) as [Hpq|Hpq|Hpq].
    + rewrite Hpq. apply Z.compare_refl.
    + apply Z.compare_lt_iff, Z.mul_lt_mono_pos_r; lia.
    + apply Z.compare_gt_iff, Z.mul_lt_mono_pos_r; lia.
  - symmetry. apply Z.compare_lt_iff, digits_mono. lia.
  - symmetry. apply Z.compare_gt_iff, digits_mono. lia.
Qed.

Lemma ltb_exact a b : nat53 a → nat53 b → F64.ltb (F64.of_Z a) (F64.of_Z b) = (a <? b).
Proof. intros. unfold F64.ltb, SFltb. rewrite compare_exact by done. done. Qed.

Lemma leb_exact a b : nat53 a → nat53 b → F64.leb (F64.of_Z a) (F64.of_Z b) = (a <=? b).
Proof.
  intros. unfold F64.leb, SFleb, Z.leb. rewrite compare_exact by done. by destruct (a ?= b).
Qed.

Lemma of_Z_not_nan a : nat53 a → F64.of_Z a ≠ S754_nan.
Proof. intros Ha. by destruct (of_Z_cases a Ha) as [[_ ->]|(p & _ & _ & ->)]. Qed.

Lemma min_exact a b :
  nat53 a → nat53 b → F64.min (F64.of_Z a) (F64.of_Z b) = F64.of_Z (Z.min a b).
Proof.
  intros Ha Hb.
  assert (F64.min (F64.of_Z a) (F64.of_Z b)
          = if F64.ltb (F64.of_Z a) (F64.of_Z b) then F64.of_Z a else F64.of_Z b) as ->.
  { pose proof (of_Z_not_nan a Ha). pose proof (of_Z_not_nan b Hb).
    by destruct (F64.of_Z a), (F64.of_Z b). }
  rewrite ltb_exact by done. destruct (Z.ltb_spec a b).
  - by rewrite Z.min_l by lia.
  - by rewrite Z.min_r by lia.
Qed.

(** A whole number of seconds converts exactly. *)
Lemma as_secs_exact s : nat53 s → as_secs_f64 (Duration.from_secs s) = F64.of_Z s.
Proof.
  intros Hs. unfold as_secs_f64, Duration.from_secs.
  rewrite Z.div_mul, Z.mod_mul by done.
  change (F64.div _ _) with (F64.of_Z 0).
  rewrite add_exact by (done || by rewrite Z.add_0_r). by rewrite Z.add_0_r.
Qed.
