(* ===== verification/Binary64Error.v ===== *)
(** * Binary64Error: how far a rounded operation lies above the exact one

    [value] is the rational number an [f64] stands for. One lemma bounds what
    rounding adds to a number, relative to it and, among the subnormal numbers,
    absolutely; the lemmas on the sum, the difference, the product and the
    quotient of numbers that are not negative follow from it. *)
From Stdlib Require Import SpecFloat QArith Qpower Lqa.
From S2P Require Import Prelude RustStd Binary64.
Open Scope Z_scope.

(** ** Powers of two *)

Definition pow2 (e : Z) : Q := Qpower 2 e.

Lemma pow2_pos e : (0 < pow2 e)%Q.
Proof. by apply Qpower_0_lt. Qed.

Lemma pow2_add a b : (pow2 (a + b) == pow2 a * pow2 b)%Q.
Proof. by apply Qpower_plus. Qed.

Lemma pow2_le a b : a ≤ b → (pow2 a <= pow2 b)%Q.
Proof. intros. by apply Qpower_le_compat_l. Qed.

Lemma pow2_Z k : 0 ≤ k → (pow2 k == inject_Z (2 ^ k))%Q.
Proof. intros. unfold pow2. by rewrite Zpower_Qpower. Qed.

(** ** Values *)

(** [m * 2 ^ e]. *)
Definition scaled (m e : Z) : Q := inject_Z m * pow2 e.

(** The value of a number; an infinity counts as the first power of two that
    no number reaches. *)
Definition value (f : F64.t) : Q :=
  match f with
  | S754_zero _ | S754_nan => 0
  | S754_infinity s => if s then - pow2 1024 else pow2 1024
  | S754_finite s m e => scaled (cond_Zopp s (Zpos m)) e
  end.

(** Numbers in canonical form without a minus sign (a zero may have one). *)
Definition nonneg (f : F64.t) : Prop :=
  valid_binary F64.prec F64.emax f = true ∧
  match f with
  | S754_zero _ | S754_infinity false | S754_finite false _ _ => True
  | _ => False
  end.

Definition is_finite (f : F64.t) : Prop :=
  match f with S754_zero _ | S754_finite _ _ _ => True | _ => False end.

(** The relative and the absolute error of one rounding. *)
Definition u64 : Q := pow2 (-52).
Definition eta64 : Q := pow2 (-1074).

Lemma u64_pos : (0 < u64)%Q.
Proof. apply pow2_pos. Qed.
Lemma eta64_pos : (0 < eta64)%Q.
Proof. apply pow2_pos. Qed.
Lemma u64_small : (0 < u64 <= 1 # 1000000)%Q.
Proof. by vm_compute. Qed.

(** [f] is a rounding of the exact result [x]: above it by one rounding at most
    and, unless it overflowed, below it by two at most. *)
Record rounds_to (x : Q) (f : F64.t) : Prop := {
  rt_nonneg : nonneg f;
  rt_le : (value f <= x * (1 + u64) + eta64)%Q;
  rt_ge : is_finite f → (x * (1 - 2 * u64) - 2 * eta64 <= value f)%Q
}.

#[global] Instance rounds_to_proper : Proper (Qeq ==> eq ==> iff) rounds_to.
Proof.
  intros x y Hxy f _ <-. split; intros [Hn Hle Hge]; (split; [done|..]).
  - by rewrite <- Hxy.
  - by rewrite <- Hxy.
  - by rewrite Hxy.
  - by rewrite Hxy.
Qed.

(** Exact results. *)
Lemma rounds_to_exact x f : nonneg f → (0 <= x)%Q → (value f == x)%Q → rounds_to x f.
Proof.
  intros Hn Hx Hv. pose proof u64_pos. pose proof eta64_pos.
  split; [done|rewrite Hv..]; intros; generalize dependent u64; intros; nra.
Qed.

Lemma scaled_nonneg m e : 0 ≤ m → (0 <= scaled m e)%Q.
Proof.
  intros. apply Qmult_le_0_compat; [by rewrite <- (Zle_Qle 0)|]. apply Qlt_le_weak, pow2_pos.
Qed.

Lemma scaled_le m n e : m ≤ n → (scaled m e <= scaled n e)%Q.
Proof. intros. apply Qmult_le_compat_r; [by rewrite <- Zle_Qle|]. apply Qlt_le_weak, pow2_pos. Qed.

Lemma scaled_add m n e : (scaled (m + n) e == scaled m e + scaled n e)%Q.
Proof. unfold scaled. rewrite inject_Z_plus. ring. Qed.

Lemma scaled_mul m n e e' : (scaled m e * scaled n e' == scaled (m * n) (e + e'))%Q.
Proof. unfold scaled. rewrite inject_Z_mult, pow2_add. ring. Qed.

(** Moving a factor between the mantissa and the exponent. *)
Lemma scaled_shift m k e : 0 ≤ k → (scaled (m * 2 ^ k) e == scaled m (e + k))%Q.
Proof.
  intros. unfold scaled. rewrite inject_Z_mult, pow2_add, (pow2_Z k) by done. ring.
Qed.

Lemma scaled_pow2 k e : 0 ≤ k → (scaled (2 ^ k) e == pow2 (k + e))%Q.
Proof. intros. unfold scaled. by rewrite pow2_add, (pow2_Z k). Qed.

Lemma value_nonneg f : nonneg f → (0 <= value f)%Q.
Proof.
  intros [_ Hf]. destruct f as [s|[]| |[] m e]; simpl in *; try done.
  by apply scaled_nonneg.
Qed.

(** ** Shifts and digits *)

Lemma Zdigits2_log2 m : 0 < m → Zdigits2 m = Z.log2 m + 1.
Proof.
  destruct m as [|p|p]; [done| |done]. intros _. cbn [Zdigits2]. fold (digits p).
  pose proof (digits_bounds p) as Hb. pose proof (digits_pos p).
  rewrite (Z.log2_unique (Zpos p) (digits p - 1)); [lia|lia|].
  by replace (Z.succ (digits p - 1)) with (digits p) by lia.
Qed.

Lemma shr_1_m mrs : 0 ≤ shr_m mrs → shr_m (shr_1 mrs) = shr_m mrs / 2.
Proof.
  destruct mrs as [[|[p|p|]|p] r s]; simpl; intros; try done.
  - rewrite Pos2Z.inj_xI. by apply Z.div_unique with 1; lia.
  - rewrite Pos2Z.inj_xO. by apply Z.div_unique with 0; lia.
Qed.

Lemma shr_m_iter p mrs :
  0 ≤ shr_m mrs → shr_m (SpecFloat.iter_pos shr_1 p mrs) = shr_m mrs / 2 ^ Zpos p.
Proof.
  revert mrs. induction p as [p IH|p IH|]; intros mrs Hm; cbn [SpecFloat.iter_pos];
    try pose proof (Z.pow_pos_nonneg 2 (Zpos p) eq_refl ltac:(lia)).
  - assert (shr_m (SpecFloat.iter_pos shr_1 p (shr_1 mrs)) = shr_m mrs / 2 / 2 ^ Zpos p) as E
      by (rewrite IH; rewrite shr_1_m by done; [done|by apply Z.div_pos]).
    rewrite IH, E by (rewrite E; apply Z.div_pos; [by apply Z.div_pos|done]).
    rewrite !Z.div_div by lia. f_equal.
    rewrite Pos2Z.inj_xI, Z.pow_add_r, Z.pow_twice_r by lia. lia.
  - assert (shr_m (SpecFloat.iter_pos shr_1 p mrs) = shr_m mrs / 2 ^ Zpos p) as E by (by rewrite IH).
    rewrite IH, E by (rewrite E; by apply Z.div_pos).
    rewrite !Z.div_div by lia. f_equal.
    by rewrite (Pos2Z.inj_xO p), Z.pow_twice_r.
  - by rewrite shr_1_m.
Qed.

(** The shift that brings [m * 2 ^ e] to the precision. *)
Definition shift_of (m e : Z) : Z :=
  Z.max 0 (fexp F64.prec F64.emax (Zdigits2 m + e) - e).

Lemma shr_fexp_spec m e l :
  0 ≤ m →
  shr_m (shr_fexp F64.prec F64.emax m e l).1 = m / 2 ^ shift_of m e ∧
  (shr_fexp F64.prec F64.emax m e l).2 = e + shift_of m e.
Proof.
  intros Hm. unfold shr_fexp, shift_of.
  assert (shr_m (shr_record_of_loc m l) = m) as Hl by (by destruct l as [|[]]).
  destruct (fexp F64.prec F64.emax (Zdigits2 m + e) - e) as [|p|p]; cbn [shr fst snd].
  - rewrite Hl, Z.div_1_r. split; [done|]. lia.
  - rewrite shr_m_iter, Hl by (by rewrite Hl). done.
  - rewrite Hl, Z.div_1_r. split; [done|]. lia.
Qed.

Lemma round_nearest_even_cases m l :
  round_nearest_even m l = m ∨ round_nearest_even m l = m + 1 ∧ l ≠ loc_Exact.
Proof. destruct l as [|[]]; simpl; try case_match; auto. Qed.

(** ** One rounding *)

(** The last step of rounding. *)
Definition finish (m e : Z) : F64.t :=
  match m with
  | Z0 => S754_zero false
  | Zpos p => if e <=? 971 then S754_finite false p e else S754_infinity false
  | Zneg _ => S754_nan
  end.

Lemma round_aux_form m e l :
  0 ≤ m →
  let e' := e + shift_of m e in
  ∃ m2, (m2 = m / 2 ^ shift_of m e ∨
         m2 = m / 2 ^ shift_of m e + 1 ∧ (l ≠ loc_Exact ∨ 0 < shift_of m e)) ∧
        binary_round_aux F64.prec F64.emax false m e l
        = finish (m2 / 2 ^ shift_of m2 e') (e' + shift_of m2 e').
Proof.
  intros Hm. cbv zeta. unfold binary_round_aux.
  pose proof (shr_fexp_spec m e l Hm) as [Hs He].
  assert (shift_of m e = 0 → l = loc_Exact →
          loc_of_shr_record (shr_fexp F64.prec F64.emax m e l).1 = loc_Exact) as Hexact.
  { unfold shift_of, shr_fexp. intros H0 ->.
    by destruct (fexp F64.prec F64.emax (Zdigits2 m + e) - e) as [|p|p]; [|lia|]. }
  destruct (shr_fexp F64.prec F64.emax m e l) as [mrs e1]. cbn [fst snd] in *. subst e1.
  set (loc := loc_of_shr_record mrs) in *.
  exists (round_nearest_even (shr_m mrs) loc). rewrite Hs.
  assert (0 ≤ m / 2 ^ shift_of m e) as Hm1.
  { apply Z.div_pos; [done|]. apply Z.pow_pos_nonneg; unfold shift_of; lia. }
  pose proof (round_nearest_even_cases (m / 2 ^ shift_of m e) loc) as Hr. split.
  { destruct Hr as [Hr|[Hr Hl]]; [by left|right]. split; [done|].
    assert (0 ≤ shift_of m e) by (unfold shift_of; lia).
    destruct l as [|c]; [|by left].
    right. destruct (decide (shift_of m e = 0)); [|lia]. by rewrite Hexact in Hl. }
  pose proof (shr_fexp_spec (round_nearest_even (m / 2 ^ shift_of m e) loc) (e + shift_of m e)
                loc_Exact ltac:(lia)) as [Hs2 He2].
  destruct (shr_fexp _ _ (round_nearest_even _ loc) _ _) as [mrs2 e2]. cbn [fst snd] in *.
  by rewrite Hs2, He2.
Qed.

Lemma fexp_eq x : fexp F64.prec F64.emax x = Z.max (x - 53) (-1074).
Proof. done. Qed.

Lemma shift_nonneg m e : 0 ≤ shift_of m e.
Proof. unfold shift_of. lia. Qed.
#[local] Hint Resolve shift_nonneg : core.

Lemma pow_shift_pos m e : 0 < 2 ^ shift_of m e.
Proof. by apply Z.pow_pos_nonneg. Qed.

(** Digits after a shift to the right. *)
Lemma Zdigits2_div m k :
  0 ≤ k → 0 < m / 2 ^ k → Zdigits2 (m / 2 ^ k) = Zdigits2 m - k ∧ k < Zdigits2 m.
Proof.
  intros Hk Hd. assert (0 < 2 ^ k) as Hp by (by apply Z.pow_pos_nonneg).
  assert (2 ^ k ≤ m) as Hle.
  { destruct (Z.le_gt_cases (2 ^ k) m); [done|]. destruct (Z.le_gt_cases 0 m).
    - rewrite Z.div_small in Hd by lia. lia.
    - assert (m / 2 ^ k < 0) by (by apply Z.div_lt_upper_bound; lia). lia. }
  assert (k ≤ Z.log2 m) by (by apply Z.log2_le_pow2; lia).
  rewrite !Zdigits2_log2 by lia. rewrite <- Z.shiftr_div_pow2, Z.log2_shiftr by lia. lia.
Qed.

(** A mantissa rounded at its precision is in canonical form, with the
    exponent the rounding gives it. *)
Lemma rounded_exponent m e m2 :
  0 ≤ m → e ≤ fexp F64.prec F64.emax (Zdigits2 m + e) →
  let k := shift_of m e in
  (m2 = m / 2 ^ k ∨ m2 = m / 2 ^ k + 1) → 0 < m2 →
  e + k = fexp F64.prec F64.emax (Zdigits2 m + e) ∧
  e + k ≤ fexp F64.prec F64.emax (Zdigits2 m2 + (e + k)).
Proof.
  intros Hm He. cbv zeta. set (k := shift_of m e). intros Hm2 Hpos.
  assert (e + k = fexp F64.prec F64.emax (Zdigits2 m + e)) as Hk by (unfold k, shift_of; lia).
  split; [done|]. rewrite !fexp_eq in *.
  assert (0 ≤ k) by apply shift_nonneg. assert (0 < 2 ^ k) by apply pow_shift_pos.
  destruct (Z.le_gt_cases (m / 2 ^ k) 0) as [Hle|Hgt].
  - assert (m / 2 ^ k = 0) as Hz by (apply Z.le_antisymm; [done|by apply Z.div_pos]).
    assert (m2 = 1) as -> by lia. change (Zdigits2 1) with 1.
    apply Z.div_small_iff in Hz; [|lia]. destruct Hz as [Hz|]; [|lia].
    destruct (decide (m = 0)) as [->|]; [change (Zdigits2 0) with 0 in *; lia|].
    assert (Zdigits2 m ≤ k); [|lia]. rewrite Zdigits2_log2 by lia.
    assert (Z.log2 m < k) by (apply Z.log2_lt_pow2; lia). lia.
  - destruct (Zdigits2_div m k) as [Hd _]; [done..|].
    assert (Zdigits2 (m / 2 ^ k) ≤ Zdigits2 m2); [|lia].
    rewrite !Zdigits2_log2 by lia. assert (Z.log2 (m / 2 ^ k) ≤ Z.log2 m2); [|lia].
    apply Z.log2_le_mono. lia.
Qed.

(** Dropping bits only makes a number smaller. *)
Lemma scaled_div_le m k e : 0 ≤ k → (scaled (m / 2 ^ k) (e + k) <= scaled m e)%Q.
Proof.
  intros. rewrite <- scaled_shift by done. apply scaled_le.
  pose proof (Z.mul_div_le m (2 ^ k)) as Hle. assert (0 < 2 ^ k) by (by apply Z.pow_pos_nonneg). lia.
Qed.

Lemma finish_spec m e :
  0 ≤ m → (0 < m → e ≤ fexp F64.prec F64.emax (Zdigits2 m + e)) →
  nonneg (finish (m / 2 ^ shift_of m e) (e + shift_of m e)) ∧
  (value (finish (m / 2 ^ shift_of m e) (e + shift_of m e)) <= scaled m e)%Q.
Proof.
  intros Hm He. set (k := shift_of m e).
  assert (0 ≤ k) as Hk by apply shift_nonneg. assert (0 < 2 ^ k) by apply pow_shift_pos.
  assert (0 ≤ m / 2 ^ k) as Hm3 by (by apply Z.div_pos).
  pose proof (scaled_div_le m k e Hk) as Hle.
  destruct (m / 2 ^ k) as [|p|p] eqn:Hp; [| |done].
  { split; [done|]. by apply scaled_nonneg. }
  destruct (Zdigits2_div m k) as [Hd Hlt]; [done|by rewrite Hp|]. rewrite Hp in Hd.
  assert (e + k = fexp F64.prec F64.emax (Zdigits2 m + e)) as Hek.
  { unfold k, shift_of in *. assert (0 < m); [|lia]. destruct (decide (m = 0)) as [->|]; [done|lia]. }
  assert (fexp F64.prec F64.emax (Zdigits2 (Zpos p) + (e + k)) = e + k) as Hcan
    by (rewrite Hd, Hek; f_equal; lia).
  unfold finish. destruct (Z.leb_spec (e + k) 971) as [Hmax|Hmax].
  - split; [|done]. split; [|done]. unfold valid_binary, bounded, canonical_mantissa.
    change (Zpos (digits2_pos p)) with (Zdigits2 (Zpos p)). rewrite Hcan, Z.eqb_refl.
    by apply Z.leb_le.
  - split; [done|]. eapply Qle_trans; [|exact Hle]. cbn [value].
    rewrite fexp_eq in Hcan. cbn [Zdigits2] in Hcan. fold (digits p) in Hcan.
    pose proof (digits_bounds p) as [Hlo _]. assert (digits p = 53) as Hd53 by lia.
    rewrite Hd53 in Hlo. eapply Qle_trans; [|apply scaled_le, Hlo].
    rewrite scaled_pow2 by lia. apply pow2_le. lia.
Qed.

(** The unit in the last place. *)
Lemma ulp_le m e :
  0 ≤ m → e ≤ fexp F64.prec F64.emax (Zdigits2 m + e) →
  (scaled 1 (e + shift_of m e) <= scaled m e * u64 + eta64)%Q.
Proof.
  intros Hm He.
  assert (e + shift_of m e = fexp F64.prec F64.emax (Zdigits2 m + e)) as ->
    by (unfold shift_of; lia).
  rewrite fexp_eq in *. unfold scaled at 1. rewrite Qmult_1_l.
  assert (0 <= scaled m e * u64)%Q
    by (apply Qmult_le_0_compat; [by apply scaled_nonneg|apply Qlt_le_weak, pow2_pos]).
  assert (0 < eta64)%Q by apply pow2_pos.
  destruct (Z.max_spec (Zdigits2 m + e - 53) (-1074)) as [[_ ->]|[Hge ->]].
  { fold eta64. lra. }
  assert (0 < m) by (destruct (decide (m = 0)) as [->|]; [change (Zdigits2 0) with 0 in *|]; lia).
  assert (pow2 (Zdigits2 m + e - 53) <= scaled m e * u64)%Q; [|lra].
  replace (Zdigits2 m + e - 53) with ((Zdigits2 m - 1 + e) + -52) by lia.
  rewrite pow2_add. apply Qmult_le_compat_r; [|apply Qlt_le_weak, pow2_pos].
  rewrite Zdigits2_log2, Z.add_simpl_r by done. rewrite <- scaled_pow2 by apply Z.log2_nonneg.
  by apply scaled_le, Z.log2_spec.
Qed.

(** What one rounding may add to [m * 2 ^ e]. *)
Lemma round_aux_le m e l :
  0 ≤ m → e ≤ fexp F64.prec F64.emax (Zdigits2 m + e) →
  nonneg (binary_round_aux F64.prec F64.emax false m e l) ∧
  (value (binary_round_aux F64.prec F64.emax false m e l)
   <= scaled m e * (1 + u64) + eta64)%Q.
Proof.
  intros Hm He. destruct (round_aux_form m e l Hm) as (m2 & Hm2 & ->).
  set (k := shift_of m e) in *.
  assert (0 ≤ k) as Hk by apply shift_nonneg. assert (0 < 2 ^ k) by apply pow_shift_pos.
  assert (0 ≤ m / 2 ^ k) as Hm1 by (by apply Z.div_pos).
  destruct (finish_spec m2 (e + k)) as [Hn Hv]; [lia| |].
  { intros. apply (rounded_exponent m e m2); try done. naive_solver. }
  split; [done|]. eapply Qle_trans; [exact Hv|].
  pose proof (scaled_div_le m k e Hk) as Hdiv.
  assert (0 <= scaled m e * u64)%Q
    by (apply Qmult_le_0_compat; [by apply scaled_nonneg|apply Qlt_le_weak, pow2_pos]).
  assert (0 < eta64)%Q by apply pow2_pos.
  destruct Hm2 as [->|[-> Hcase]]; [lra|].
  rewrite scaled_add.
  assert (scaled 1 (e + k) <= scaled m e * u64 + eta64)%Q; [|lra].
  by apply ulp_le.
Qed.

(** What dropping bits takes from a number. *)
Lemma scaled_div_ge m k e :
  0 ≤ k → (scaled m e - scaled 1 (e + k) <= scaled (m / 2 ^ k) (e + k))%Q.
Proof.
  intros Hk. assert (0 < 2 ^ k) by (by apply Z.pow_pos_nonneg).
  assert (scaled m e <= scaled (m / 2 ^ k + 1) (e + k))%Q; [|rewrite scaled_add in *; lra].
  rewrite <- scaled_shift by done. apply scaled_le.
  pose proof (Z.mul_succ_div_gt m (2 ^ k)). lia.
Qed.

(** A finite result lies below the exact one by two roundings at most. *)
Lemma round_aux_ge m e l :
  0 ≤ m → e ≤ fexp F64.prec F64.emax (Zdigits2 m + e) →
  is_finite (binary_round_aux F64.prec F64.emax false m e l) →
  (scaled m e * (1 - 2 * u64) - 2 * eta64
   <= value (binary_round_aux F64.prec F64.emax false m e l))%Q.
Proof.
  intros Hm He Hfin. destruct (round_aux_form m e l Hm) as (m2 & Hm2 & Heq). rewrite Heq in *.
  set (k := shift_of m e) in *. set (e1 := e + k) in *. set (k2 := shift_of m2 e1) in *.
  assert (0 ≤ k) as Hk by apply shift_nonneg. assert (0 ≤ k2) as Hk2 by apply shift_nonneg.
  assert (0 < 2 ^ k) by apply pow_shift_pos.
  assert (0 ≤ m / 2 ^ k) as Hm1 by (by apply Z.div_pos). assert (0 ≤ m2) as H2 by lia.
  pose proof (scaled_div_ge m k e Hk) as Hdiv. fold e1 in Hdiv.
  pose proof (ulp_le m e Hm He) as Hulp. fold k e1 in Hulp.
  assert (scaled (m / 2 ^ k) e1 <= scaled m2 e1)%Q as Hup by (apply scaled_le; lia).
  pose proof (scaled_nonneg m e Hm) as Hx. pose proof u64_pos. pose proof eta64_pos.
  assert (value (finish (m2 / 2 ^ k2) (e1 + k2)) == scaled (m2 / 2 ^ k2) (e1 + k2))%Q as ->.
  { unfold finish in *. destruct (m2 / 2 ^ k2) as [|p|p] eqn:Hq; [unfold scaled; simpl; ring| |].
    - by destruct (e1 + k2 <=? 971).
    - assert (0 ≤ m2 / 2 ^ k2) by (apply Z.div_pos; [done|apply pow_shift_pos]). lia. }
  pose proof (scaled_div_ge m2 k2 e1 Hk2) as Hdiv2.
  assert (m2 = 0 ∨ e1 ≤ fexp F64.prec F64.emax (Zdigits2 m2 + e1)) as [->|He1].
  { destruct (decide (m2 = 0)); [by left|right]. apply (rounded_exponent m e m2); try done; [|lia].
    naive_solver. }
  { assert (scaled 0 e1 == 0)%Q as Hz by (unfold scaled; ring). rewrite Hz in *.
    assert (0 <= scaled (0 / 2 ^ k2) (e1 + k2))%Q by (by apply scaled_nonneg).
    generalize dependent (scaled m e). intros. nra. }
  pose proof (ulp_le m2 e1 H2 He1) as Hulp2. fold k2 in Hulp2.
  pose proof u64_small as [_ Hu]. generalize dependent u64. intros u. intros. nra.
Qed.

Lemma round_aux_spec m e l :
  0 ≤ m → e ≤ fexp F64.prec F64.emax (Zdigits2 m + e) →
  rounds_to (scaled m e) (binary_round_aux F64.prec F64.emax false m e l).
Proof.
  intros Hm He. destruct (round_aux_le m e l Hm He). split; [done..|]. by apply round_aux_ge.
Qed.

(** ** The operations *)

Lemma shl_align_value m e ez :
  ez ≤ e → (scaled (Zpos (shl_align m e ez).1) ez == scaled (Zpos m) e)%Q.
Proof.
  intros He. unfold shl_align. destruct (ez - e) as [|p|p] eqn:Hp; cbn [fst]; [|lia|].
  - by replace ez with e by lia.
  - rewrite shl_iter, shl_Z, scaled_shift by lia. by replace (ez + _) with e by lia.
Qed.

Lemma shl_align_digits m e ez :
  let '(mz, e') := shl_align m e ez in
  digits mz + e' = digits m + e ∧ e' = Z.min e ez ∧
  (scaled (Zpos mz) e' == scaled (Zpos m) e)%Q.
Proof.
  unfold shl_align. destruct (ez - e) as [|p|p] eqn:Hp; [split_and!; (done || lia)..|].
  rewrite shl_iter, digits_shl, shl_Z, scaled_shift by lia.
  replace (ez + _) with e by lia. split_and!; (done || lia).
Qed.

Lemma round_spec p e :
  rounds_to (scaled (Zpos p) e) (binary_round F64.prec F64.emax false p e).
Proof.
  unfold binary_round. fold (digits p).
  pose proof (shl_align_digits p e (fexp F64.prec F64.emax (digits p + e))) as Ha.
  destruct (shl_align p e _) as [mz e']. destruct Ha as (Hd & He & <-).
  apply round_aux_spec; [done|]. cbn [Zdigits2]. fold (digits mz). rewrite Hd. lia.
Qed.

Lemma normalize_spec m e :
  0 ≤ m → rounds_to (scaled m e) (binary_normalize F64.prec F64.emax m e false).
Proof.
  intros Hm. destruct m as [|p|p]; [|apply round_spec|done].
  apply rounds_to_exact; [done|by apply scaled_nonneg|]. unfold scaled. simpl. ring.
Qed.

(** An infinite sum bounds nothing from below. *)
Lemma rounds_to_infinity x : (pow2 1024 <= x)%Q → rounds_to x (S754_infinity false).
Proof.
  intros Hx. pose proof u64_pos. pose proof eta64_pos. split; [done| |done]. cbn [value].
  assert (0 < pow2 1024)%Q by apply pow2_pos. generalize dependent (pow2 1024).
  generalize dependent u64. intros. nra.
Qed.

Lemma add_spec x y :
  nonneg x → nonneg y → rounds_to (value x + value y) (F64.add x y).
Proof.
  intros Hx Hy. pose proof (value_nonneg x Hx) as Hvx. pose proof (value_nonneg y Hy) as Hvy.
  destruct x as [[]|[]| |[] m e], y as [[]|[]| |[] m' e'];
    try destruct (proj2 Hx : False); try destruct (proj2 Hy : False); unfold F64.add; cbn [SFadd];
    lazymatch goal with
    | |- rounds_to _ (S754_infinity _) =>
        apply rounds_to_infinity; cbn [value] in *; generalize dependent (pow2 1024); intros; lra
    | |- rounds_to _ (S754_zero _) => apply rounds_to_exact; [done|cbn [value]; lra..]
    | |- rounds_to _ (S754_finite _ _ _) => apply rounds_to_exact; [done|cbn [value] in *; lra..]
    | |- _ => idtac
    end.
  cbn [cond_Zopp value].
  rewrite <- (shl_align_value m e (Z.min e e')), <- (shl_align_value m' e' (Z.min e e')), <- scaled_add
    by lia.
  by apply normalize_spec.
Qed.

Lemma sub_spec x y :
  nonneg x → nonneg y → is_finite x → is_finite y → (value y <= value x)%Q →
  rounds_to (value x - value y) (F64.sub x y).
Proof.
  intros Hx Hy Hfx Hfy Hle.
  destruct x as [s|[]| |[] m e], y as [s'|[]| |[] m' e'];
    try destruct (proj2 Hx : False); try destruct (proj2 Hy : False); try done.
  - destruct s, s'; by apply rounds_to_exact.
  - exfalso. cbn [value cond_Zopp] in Hle. revert Hle. apply Qlt_not_le.
    apply Qmult_lt_0_compat; [done|apply pow2_pos].
  - pose proof (scaled_nonneg (Zpos m) e ltac:(done)).
    apply rounds_to_exact; cbn [value F64.sub SFsub cond_Zopp]; [done|lra|lra].
  - cbn [value cond_Zopp] in Hle. unfold F64.sub, SFsub. cbn [cond_Zopp value].
    rewrite <- (shl_align_value m e (Z.min e e')), <- (shl_align_value m' e' (Z.min e e')) in * by lia.
    set (a := Zpos (shl_align m e _).1) in *. set (b := Zpos (shl_align m' e' _).1) in *.
    assert (b ≤ a) as Hba.
    { apply Z.nlt_ge. intros Hlt. revert Hle. apply Qlt_not_le. unfold scaled.
      apply Qmult_lt_compat_r; [apply pow2_pos|by rewrite <- Zlt_Qlt]. }
    assert (scaled a (Z.min e e') - scaled b (Z.min e e') == scaled (a - b) (Z.min e e'))%Q as ->.
    { replace a with ((a - b) + b) at 1 by lia. rewrite scaled_add. ring. }
    apply normalize_spec. lia.
Qed.

(** What canonical form says of a mantissa. *)
Lemma canonical_digits m e :
  valid_binary F64.prec F64.emax (S754_finite false m e) = true →
  digits m ≤ 53 ∧ -1074 ≤ e ≤ 971 ∧ (digits m = 53 ∨ e = -1074).
Proof.
  unfold valid_binary, bounded, canonical_mantissa. fold (digits m).
  intros [Hc%Z.eqb_eq Hb%Z.leb_le]%andb_true_iff. rewrite fexp_eq in Hc.
  unfold F64.emax, F64.prec in Hb. lia.
Qed.

Lemma mul_spec x y :
  nonneg x → nonneg y → is_finite x → is_finite y →
  rounds_to (value x * value y) (F64.mul x y).
Proof.
  intros Hx Hy Hfx Hfy. pose proof (value_nonneg x Hx) as Hvx. pose proof (value_nonneg y Hy) as Hvy.
  destruct x as [s|[]| |[] m e], y as [s'|[]| |[] m' e'];
    try destruct (proj2 Hx : False); try destruct (proj2 Hy : False); try done;
    try (apply rounds_to_exact; cbn [value F64.mul SFmul cond_Zopp] in *; [done|nra|lra]).
  unfold F64.mul, SFmul. cbn [xorb value cond_Zopp].
  destruct Hx as [(Hd & He & Hc)%canonical_digits _], Hy as [(Hd' & He' & Hc')%canonical_digits _].
  rewrite scaled_mul, <- Pos2Z.inj_mul. apply round_aux_spec; [done|]. rewrite fexp_eq, Zdigits2_log2, Pos2Z.inj_mul by done.
  pose proof (Z.log2_mul_below (Zpos m) (Zpos m') ltac:(done) ltac:(done)).
  assert (digits m = Z.log2 (Zpos m) + 1) by (by apply (Zdigits2_log2 (Zpos m))).
  assert (digits m' = Z.log2 (Zpos m') + 1) by (by apply (Zdigits2_log2 (Zpos m'))).
  pose proof (digits_pos m). pose proof (digits_pos m'). lia.
Qed.

Lemma div_core_spec m1 e1 m2 e2 :
  let '(q, e, _) := SFdiv_core_binary F64.prec F64.emax (Zpos m1) e1 (Zpos m2) e2 in
  0 ≤ q ∧ e ≤ fexp F64.prec F64.emax (Zdigits2 q + e) ∧
  (scaled q e * scaled (Zpos m2) e2 <= scaled (Zpos m1) e1)%Q ∧
  (scaled (Zpos m1) e1 <= scaled (q + 1) e * scaled (Zpos m2) e2)%Q.
Proof.
  unfold SFdiv_core_binary. cbn [Zdigits2]. fold (digits m1) (digits m2).
  set (X := digits m1 + e1 - (digits m2 + e2)). rewrite fexp_eq.
  set (e := Z.min (Z.max (X - 53) (-1074)) (e1 - e2)). set (s := e1 - e2 - e).
  assert (0 ≤ s) as Hs by (unfold s, e; lia).
  assert (match s with Z0 => Zpos m1 | Zpos _ => Z.shiftl (Zpos m1) s | Zneg _ => 0 end
          = Zpos m1 * 2 ^ s) as ->.
  { destruct s as [|p|p]; [by rewrite Z.mul_1_r|by rewrite Z.shiftl_mul_pow2|done]. }
  pose proof (Z.div_mod (Zpos m1 * 2 ^ s) (Zpos m2) ltac:(done)) as Hdm.
  pose proof (Z.mod_pos_bound (Zpos m1 * 2 ^ s) (Zpos m2) ltac:(done)) as Hmod.
  assert (0 < 2 ^ s) by (by apply Z.pow_pos_nonneg).
  assert (0 ≤ Zpos m1 * 2 ^ s / Zpos m2) as Hq by (apply Z.div_pos; lia).
  unfold Z.div, Z.modulo in *. destruct (Z.div_eucl _ _) as [q r]. split_and!; [done| | |].
  - rewrite fexp_eq. destruct (Z.le_gt_cases e (-1074)); [lia|].
    assert (53 ≤ Zdigits2 q); [|lia].
    pose proof (digits_bounds m1) as [Hlo _]. pose proof (digits_bounds m2) as [_ Hhi].
    pose proof (digits_pos m1). pose proof (digits_pos m2).
    assert (2 ^ (52 + digits m2) ≤ 2 ^ (digits m1 - 1 + s)) as Hpow
      by (apply Z.pow_le_mono_r; unfold s, e, X in *; lia).
    rewrite !Z.pow_add_r in Hpow by lia.
    assert (2 ^ 52 * Zpos m2 ≤ Zpos m1 * 2 ^ s).
    { transitivity (2 ^ 52 * 2 ^ digits m2); [apply Z.mul_le_mono_nonneg_l; lia|].
      etransitivity; [exact Hpow|]. apply Z.mul_le_mono_nonneg_r; lia. }
    assert (2 ^ 52 ≤ q) as Hq52.
    { apply Z.nlt_ge. intros Hlt. assert (Zpos m2 * (q + 1) ≤ Zpos m2 * 2 ^ 52) by nia. lia. }
    apply Z.log2_le_mono in Hq52. rewrite Z.log2_pow2 in Hq52 by done.
    rewrite Zdigits2_log2; lia.
  - rewrite scaled_mul. eapply Qle_trans; [apply (scaled_le _ (Zpos m1 * 2 ^ s)); lia|].
    rewrite scaled_shift by done. replace (e + e2 + s) with e1 by (unfold s; lia). lra.
  - rewrite scaled_mul.
    eapply Qle_trans; [|apply (scaled_le (Zpos m1 * 2 ^ s)); lia].
    rewrite scaled_shift by done. replace (e + e2 + s) with e1 by (unfold s; lia). lra.
Qed.

(** The mantissa of a quotient is cut off before it is rounded, which costs a
    second rounding downwards. *)
Lemma div_spec x m e :
  nonneg x → is_finite x → nonneg (S754_finite false m e) →
  let quotient := (value x / value (S754_finite false m e))%Q in
  let r := F64.div x (S754_finite false m e) in
  nonneg r ∧ (value r <= quotient * (1 + u64) + eta64)%Q ∧
  (is_finite r → quotient * (1 - 4 * u64) - 4 * eta64 <= value r)%Q.
Proof.
  intros Hx Hf Hy. cbv zeta.
  assert (0 < scaled (Zpos m) e)%Q as Hpos by (apply Qmult_lt_0_compat; [done|apply pow2_pos]).
  pose proof u64_small as [Hu Hu2]. pose proof eta64_pos as Heta.
  destruct x as [s|[]| |[] m1 e1]; try destruct (proj2 Hx : False); try destruct Hf.
  { unfold F64.div. cbn [SFdiv value xorb]. unfold Qdiv. rewrite Qmult_0_l. split; [done|lra]. }
  unfold F64.div, SFdiv. pose proof (div_core_spec m1 e1 m e) as Hd.
  destruct (SFdiv_core_binary _ _ _ _ _ _) as [[q ez] l]. destruct Hd as (Hq & He & Hle & Hge).
  destruct (round_aux_spec q ez l Hq He) as [Hn Hv Hv2]. cbn [value cond_Zopp xorb].
  apply Qle_shift_div_l in Hle; [|done]. apply Qle_shift_div_r in Hge; [|done].
  set (x := (scaled (Zpos m1) e1 / scaled (Zpos m) e)%Q) in *. clearbody x.
  split_and!; [done|eapply Qle_trans; [exact Hv|]; nra|]. intros Hfin. apply Hv2 in Hfin.
  eapply Qle_trans; [|exact Hfin].
  assert (scaled 1 ez <= scaled q ez * u64 + eta64)%Q as Hulp.
  { eapply Qle_trans; [|by apply ulp_le]. unfold scaled. rewrite !Qmult_1_l. apply pow2_le.
    pose proof (shift_nonneg q ez). lia. }
  rewrite scaled_add in Hge. pose proof (scaled_nonneg q ez Hq) as Hq0.
  generalize dependent (scaled q ez). intros y. intros. clear Hv Hv2 Hfin.
  generalize dependent (scaled 1 ez). intros. generalize dependent u64. intros u. intros. 
  assert (x <= y * (1 + u) + eta64)%Q by lra.
  assert (x * (1 - 4 * u) <= (y * (1 + u) + eta64) * (1 - 4 * u))%Q
    by (apply Qmult_le_compat_r; lra). nra.
Qed.

(** ** Comparisons *)

(** Of two canonical numbers the one with the larger exponent is larger. *)
Lemma exponent_lt m e m' e' :
  nonneg (S754_finite false m e) → nonneg (S754_finite false m' e') → e < e' →
  (scaled (Zpos m) e < scaled (Zpos m') e')%Q.
Proof.
  intros [(Hd & He & Hc)%canonical_digits _] [(Hd' & He' & Hc')%canonical_digits _] Hlt.
  pose proof (digits_bounds m) as [_ Hhi]. pose proof (digits_bounds m') as [Hlo _].
  assert (Zpos m < 2 ^ 53) as Hm.
  { pose proof (Z.pow_le_mono_r 2 (digits m) 53 ltac:(lia) Hd). lia. }
  assert (digits m' = 53) as Hd53 by lia. rewrite Hd53 in Hlo.
  apply Qlt_le_trans with (scaled (2 ^ 53) e).
  { apply Qmult_lt_compat_r; [apply pow2_pos|by rewrite <- Zlt_Qlt]. }
  apply Qle_trans with (scaled (2 ^ 52) e'); [|by apply scaled_le].
  rewrite !scaled_pow2 by lia. apply pow2_le. lia.
Qed.

Lemma finite_lt_infinity m e :
  nonneg (S754_finite false m e) → (scaled (Zpos m) e < pow2 1024)%Q.
Proof.
  intros [(Hd & He & _)%canonical_digits _]. pose proof (digits_bounds m) as [_ Hhi].
  pose proof (Z.pow_le_mono_r 2 (digits m) 53 ltac:(lia) Hd) as Hp.
  apply Qlt_le_trans with (scaled (2 ^ 53) e).
  { apply Qmult_lt_compat_r; [apply pow2_pos|]. rewrite <- Zlt_Qlt. lia. }
  rewrite scaled_pow2 by lia. apply pow2_le. lia.
Qed.

Lemma Qcompare_gt x y : (y < x)%Q → (x ?= y)%Q = Gt.
Proof. intros. by apply Qgt_alt. Qed.

Lemma compare_value x y :
  nonneg x → nonneg y → SFcompare x y = Some (value x ?= value y)%Q.
Proof.
  intros Hx Hy.
  destruct x as [s|[]| |[] m e] eqn:Ex, y as [s'|[]| |[] m' e'] eqn:Ey;
    try destruct (proj2 Hx : False); try destruct (proj2 Hy : False); cbn [SFcompare value cond_Zopp]; f_equal; symmetry;
    try (by apply Qeq_alt); try (apply Qlt_alt); try (apply Qcompare_gt);
    try (apply Qmult_lt_0_compat; [done|apply pow2_pos]); try apply pow2_pos;
    try (by apply finite_lt_infinity).
  destruct (Z.compare_spec e e') as [<-|Hlt|Hgt].
  - change (Pos.compare_cont Eq m m') with (Zpos m ?= Zpos m').
    unfold scaled. destruct (Z.compare_spec (Zpos m) (Zpos m')) as [->|Hlt|Hgt].
    + by apply Qeq_alt.
    + apply Qlt_alt, Qmult_lt_compat_r; [apply pow2_pos|by rewrite <- Zlt_Qlt].
    + apply Qcompare_gt, Qmult_lt_compat_r; [apply pow2_pos|by rewrite <- Zlt_Qlt].
  - apply Qlt_alt. by apply exponent_lt.
  - apply Qcompare_gt. by apply exponent_lt.
Qed.

Lemma leb_value x y : nonneg x → nonneg y → F64.leb x y = true ↔ (value x <= value y)%Q.
Proof.
  intros Hx Hy. unfold F64.leb, SFleb. rewrite compare_value by done. rewrite Qle_alt.
  destruct (value x ?= value y)%Q; split; congruence.
Qed.

Lemma ltb_value x y : nonneg x → nonneg y → F64.ltb x y = true ↔ (value x < value y)%Q.
Proof.
  intros Hx Hy. unfold F64.ltb, SFltb. rewrite compare_value by done. rewrite Qlt_alt.
  destruct (value x ?= value y)%Q; split; congruence.
Qed.

Lemma min_value x y :
  nonneg x → nonneg y →
  (F64.min x y = x ∨ F64.min x y = y) ∧
  (value (F64.min x y) <= value x)%Q ∧ (value (F64.min x y) <= value y)%Q.
Proof.
  intros Hx Hy.
  assert (F64.min x y = if F64.ltb x y then x else y) as ->
    by (destruct x, y; (by destruct Hx) || (by destruct Hy) || done).
  destruct (F64.ltb x y) eqn:Hlt.
  - apply ltb_value in Hlt; [|done..]. split; [by left|]. lra.
  - assert (¬ (value x < value y)%Q) as Hge by (rewrite <- ltb_value by done; congruence).
    apply Qnot_lt_le in Hge. split; [by right|]. lra.
Qed.

(** ** Conversions *)

Lemma of_Z_spec n : 0 ≤ n → rounds_to (inject_Z n) (F64.of_Z n).
Proof.
  intros Hn. assert (inject_Z n == scaled n 0)%Q as -> by (unfold scaled, pow2; simpl; ring).
  by apply normalize_spec.
Qed.

(** Natural numbers below two to the power of 53 are represented exactly. *)
Lemma of_Z_value n : nat53 n → (value (F64.of_Z n) == inject_Z n)%Q.
Proof.
  intros Hn. destruct (of_Z_cases n Hn) as [[-> ->]|(p & -> & Hp & ->)]; [done|].
  unfold float_of_pos. cbn [value cond_Zopp]. rewrite shl_Z, scaled_shift by lia.
  replace (digits p - 53 + _) with 0 by lia. unfold scaled, pow2. simpl. ring.
Qed.

Lemma of_Z_finite n : nat53 n → is_finite (F64.of_Z n).
Proof. intros Hn. by destruct (of_Z_cases n Hn) as [[_ ->]|(p & _ & _ & ->)]. Qed.

Lemma below_infinity_finite f : nonneg f → (value f < pow2 1024)%Q → is_finite f.
Proof.
  intros [_ Hf] Hv. by destruct f as [|[]| |].
Qed.

(** A duration in seconds. *)
Definition secs (d : Z) : Q := inject_Z d / inject_Z Duration.NANOS_PER_SEC.

Lemma secs_nonneg d : 0 ≤ d → (0 <= secs d)%Q.
Proof. intros. apply Qle_shift_div_l; [done|]. rewrite Qmult_0_l. by rewrite <- (Zle_Qle 0). Qed.

Lemma secs_add a b : (secs (a + b) == secs a + secs b)%Q.
Proof. unfold secs. rewrite inject_Z_plus. by field. Qed.

Lemma eta64_small d : 0 < d → (8 * eta64 <= u64 * secs d)%Q.
Proof.
  intros. apply Qle_trans with (u64 * secs 1)%Q; [by vm_compute|].
  apply Qmult_le_l; [apply u64_pos|]. unfold secs. apply Qmult_le_compat_r; [|done].
  rewrite <- Zle_Qle. lia.
Qed.

Lemma add_finite_inv x y :
  nonneg x → nonneg y → is_finite (F64.add x y) → is_finite x ∧ is_finite y.
Proof.
  intros Hx Hy.
  destruct x as [[]|[]| |[] m e], y as [[]|[]| |[] m' e'];
    try destruct (proj2 Hx : False); try destruct (proj2 Hy : False); done.
Qed.

(** The fraction of a second that [n] nanoseconds are. *)
Lemma nanos_spec n :
  0 ≤ n < Duration.NANOS_PER_SEC →
  let q := F64.div (F64.of_Z n) (F64.of_Z Duration.NANOS_PER_SEC) in
  nonneg q ∧ (value q <= secs n * (1 + u64) + eta64)%Q ∧
  (is_finite q → secs n * (1 - 4 * u64) - 4 * eta64 <= value q)%Q.
Proof.
  intros Hn. cbv zeta. assert (nat53 n) as Hn53 by (unfold nat53, Duration.NANOS_PER_SEC in *; lia).
  change (F64.of_Z Duration.NANOS_PER_SEC) with (S754_finite false 8388608000000000 (-23)).
  assert (secs n == value (F64.of_Z n) / value (S754_finite false 8388608000000000 (-23)))%Q as ->.
  { rewrite of_Z_value by done. unfold secs.
    by assert (value (S754_finite false 8388608000000000 (-23)) == inject_Z Duration.NANOS_PER_SEC)%Q
      as -> by (by vm_compute). }
  apply div_spec; [apply of_Z_spec; lia|by apply of_Z_finite|done].
Qed.

(** The errors of the two parts of a duration and of their sum. *)
Section SecsErrors.
Context (S f vs vf : Q) (HS : (0 <= S)%Q) (Hf : (0 <= f)%Q) (Hsmall : (8 * eta64 <= u64 * (S + f))%Q).

Lemma secs_upper :
  (vs <= S * (1 + u64) + eta64 → vf <= f * (1 + u64) + eta64 →
   (vs + vf) * (1 + u64) + eta64 <= (S + f) * (1 + 4 * u64))%Q.
Proof using All.
  intros Hs Hv. pose proof u64_small as [Hu Hu2]. pose proof eta64_pos.
  apply Qle_trans with (((S + f) * (1 + u64) + 2 * eta64) * (1 + u64) + eta64)%Q.
  { apply Qplus_le_compat; [|lra]. apply Qmult_le_compat_r; lra. }
  clear Hs Hv. assert (0 <= S + f)%Q by lra. generalize dependent (S + f)%Q.
  generalize dependent u64. generalize dependent eta64. intros eta He u. intros. nra.
Qed.

Lemma secs_lower :
  (S * (1 - 2 * u64) - 2 * eta64 <= vs → f * (1 - 4 * u64) - 4 * eta64 <= vf →
   (S + f) * (1 - 7 * u64) <= (vs + vf) * (1 - 2 * u64) - 2 * eta64)%Q.
Proof using All.
  intros Hs Hv. pose proof u64_small as [Hu Hu2]. pose proof eta64_pos.
  apply Qle_trans with (((S + f) * (1 - 4 * u64) - 6 * eta64) * (1 - 2 * u64) - 2 * eta64)%Q.
  2:{ apply Qplus_le_compat; [|lra]. apply Qmult_le_compat_r; [|lra]. nra. }
  clear Hs Hv. assert (0 <= S + f)%Q by lra. generalize dependent (S + f)%Q.
  generalize dependent u64. generalize dependent eta64. intros eta He u. intros. nra.
Qed.
End SecsErrors.

(** [as_secs_f64] is off by a few roundings at most. *)
Lemma as_secs_spec d :
  0 < d → d ≤ Duration.MAX →
  nonneg (as_secs_f64 d) ∧ is_finite (as_secs_f64 d) ∧
  (secs d * (1 - 7 * u64) <= value (as_secs_f64 d) <= secs d * (1 + 4 * u64))%Q.
Proof.
  intros Hd Hmax. unfold as_secs_f64. pose proof (eta64_small d Hd) as Hsmall.
  set (s := d / Duration.NANOS_PER_SEC). set (f := d mod Duration.NANOS_PER_SEC).
  assert (0 ≤ s ∧ 0 ≤ f < Duration.NANOS_PER_SEC ∧ d = s * Duration.NANOS_PER_SEC + f)
    as (Hs & Hf & Hsf) by (unfold s, f; zlia).
  assert (secs d == inject_Z s + secs f)%Q as HT.
  { rewrite Hsf, secs_add. unfold secs at 1. rewrite inject_Z_mult. by field. }
  assert (0 <= inject_Z s)%Q as Hs0 by (by rewrite <- (Zle_Qle 0)).
  pose proof (secs_nonneg f ltac:(lia)) as Hf0.
  destruct (of_Z_spec s Hs) as [Hns Hvs Hls]. destruct (nanos_spec f Hf) as (Hnq & Hvq & Hlq).
  destruct (add_spec _ _ Hns Hnq) as [Hn Hv Hl]. rewrite HT in *.
  assert (value (F64.add (F64.of_Z s) (F64.div (F64.of_Z f) (F64.of_Z Duration.NANOS_PER_SEC)))
          <= (inject_Z s + secs f) * (1 + 4 * u64))%Q as Hbound
    by (eapply Qle_trans; [exact Hv|by apply secs_upper]).
  assert (is_finite (F64.add (F64.of_Z s) (F64.div (F64.of_Z f) (F64.of_Z Duration.NANOS_PER_SEC))))
    as Hfin.
  { apply below_infinity_finite; [done|]. eapply Qle_lt_trans; [exact Hbound|]. rewrite <- HT.
    apply Qle_lt_trans with (secs Duration.MAX * (1 + 4 * u64))%Q; [|by vm_compute].
    apply Qmult_le_compat_r; [|by vm_compute]. unfold secs. apply Qmult_le_compat_r; [|done].
    by rewrite <- Zle_Qle. }
  split_and!; [done..| |done]. destruct (add_finite_inv _ _ Hns Hnq Hfin) as [Hfs Hfq].
  eapply Qle_trans; [|exact (Hl Hfin)]. apply secs_lower; [done..|by apply Hls|by apply Hlq].
Qed.
