(* ===== verification/RetryBudget.v ===== *)
(** * RetryBudget: the cross-call retry budget

    Models [sdkwork-rpc-client/src/retry_budget.rs]. Token counts are [f64], as
    in the code; the mutex makes each operation atomic, so the registry is a map
    that operations take and return. *)
From Stdlib Require Import SpecFloat Sorted.
From S2P Require Import Prelude RustStd Binary64.

(** ** Buckets *)

Record RetryBudgetConfig : Type := {
  capacity : Z;
  refill_per_second : F64.t
}.

Definition budget_config_default : RetryBudgetConfig :=
  {| capacity := 100; refill_per_second := F64.of_Z 10 |}.

Record TokenBucket : Type := {
  tokens : F64.t;
  last_refill : Z
}.

(** [now] is the reading of the monotonic clock, in nanoseconds. *)
Definition bucket_new (filled_to now : Z) : TokenBucket :=
  {| tokens := F64.of_Z filled_to; last_refill := now |}.

Definition refill (config : RetryBudgetConfig) (now : Z) (self : TokenBucket) : TokenBucket :=
  let elapsed := as_secs_f64 (saturating_sub now (last_refill self)) in
  if F64.ltb F64.zero elapsed then
    let added := F64.mul elapsed (refill_per_second config) in
    {| tokens := F64.min (F64.add (tokens self) added) (F64.of_Z (capacity config));
       last_refill := now |}
  else self.

Definition try_consume (self : TokenBucket) : bool * TokenBucket :=
  if F64.leb (F64.of_Z 1) (tokens self) then
    (true, {| tokens := F64.sub (tokens self) (F64.of_Z 1); last_refill := last_refill self |})
  else (false, self).

(** ** The registry *)

Abbreviation Buckets := (gmap string TokenBucket).

(** [entry(service_name).or_insert_with(..)] followed by the refill; [created]
    is the clock when a missing bucket is made and [now] the clock when the
    bucket is refilled. *)
Definition refilled_bucket (config : RetryBudgetConfig) (service_name : string)
    (created now : Z) (buckets : Buckets) : TokenBucket :=
  refill config now (default (bucket_new (capacity config) created) (buckets !! service_name)).

Definition try_acquire (config : RetryBudgetConfig) (service_name : string)
    (created now : Z) (buckets : Buckets) : bool * Buckets :=
  let (admitted, bucket) := try_consume (refilled_bucket config service_name created now buckets) in
  (admitted, <[service_name := bucket]> buckets).

Definition available_tokens (config : RetryBudgetConfig) (service_name : string)
    (created now : Z) (buckets : Buckets) : F64.t * Buckets :=
  let bucket := refilled_bucket config service_name created now buckets in
  (tokens bucket, <[service_name := bucket]> buckets).

(** A registry and its clones share [buckets]. *)
Record RetryBudgetRegistry : Type := {
  buckets : Buckets;
  registry_config : RetryBudgetConfig
}.

Definition registry_new (config : RetryBudgetConfig) : RetryBudgetRegistry :=
  {| buckets := ∅; registry_config := config |}.

Definition registry_default : RetryBudgetRegistry := registry_new budget_config_default.

(** The two methods of the registry at a clock reading. *)
Definition registry_try_acquire (service_name : string) (created now : Z)
    (self : RetryBudgetRegistry) : bool * RetryBudgetRegistry :=
  let (admitted, b) := try_acquire (registry_config self) service_name created now (buckets self) in
  (admitted, {| buckets := b; registry_config := registry_config self |}).

Definition registry_available_tokens (service_name : string) (created now : Z)
    (self : RetryBudgetRegistry) : F64.t * RetryBudgetRegistry :=
  let (tokens, b) :=
    available_tokens (registry_config self) service_name created now (buckets self) in
  (tokens, {| buckets := b; registry_config := registry_config self |}).

(** [n] attempts between two ticks of the clock. *)
Fixpoint acquire_many (n : nat) (config : RetryBudgetConfig) (service_name : string) (now : Z)
    (buckets : Buckets) : list bool * Buckets :=
  match n with
  | O => ([], buckets)
  | S n' =>
      let (admitted, buckets) := try_acquire config service_name now now buckets in
      let (rest, buckets) := acquire_many n' config service_name now buckets in
      (admitted :: rest, buckets)
  end.

(** Attempts against one service, each at the given number of seconds after
    [start]. *)
Fixpoint attempts (config : RetryBudgetConfig) (service_name : string) (start : Z)
    (times : list Z) (buckets : Buckets) : list bool :=
  match times with
  | [] => []
  | t :: times' =>
      let now := start + Duration.from_secs t in
      let (admitted, buckets) := try_acquire config service_name now now buckets in
      admitted :: attempts config service_name start times' buckets
  end.

(** ** Specification *)

(** The token bucket on integers: [tokens] at second [last], attempts at
    [times]. *)
Fixpoint spec_attempts (cap rate tokens last : Z) (times : list Z) : list bool :=
  match times with
  | [] => []
  | t :: times' =>
      let tokens := Z.min (tokens + (t - last) * rate) cap in
      if 1 <=? tokens then true :: spec_attempts cap rate (tokens - 1) t times'
      else false :: spec_attempts cap rate tokens t times'
  end.

Definition retries_admitted (outcomes : list bool) : Z :=
  Z.of_nat (length (filter (λ b, b = true) outcomes)).

(** ** Lemmas *)

Lemma retries_admitted_cons b outcomes :
  retries_admitted (b :: outcomes) = (if b then 1 else 0) + retries_admitted outcomes.
Proof.
  unfold retries_admitted. destruct b; [rewrite filter_cons_True|rewrite filter_cons_False]; cbn [length]; done || lia.
Qed.

Lemma spec_attempts_bound cap rate k since times :
  0 ≤ rate → 0 ≤ k → 0 ≤ cap → StronglySorted Z.le (since :: times) →
  retries_admitted (spec_attempts cap rate k since times)
  ≤ k + (default since (last times) - since) * rate.
Proof.
  intros Hr. revert k since. induction times as [|t times IH]; intros k since Hk Hc Hs.
  { unfold retries_admitted. simpl. lia. }
  inversion_clear Hs as [|? ? Hs' Hall]. inversion_clear Hall as [|? ? Hle _].
  assert (default since (last (t :: times)) = default t (last times)) as ->.
  { rewrite last_cons. by destruct (last times). }
  cbn [spec_attempts]. set (k' := Z.min _ cap).
  assert (k' ≤ k + (t - since) * rate) by lia. assert (0 ≤ k') by (assert (0 ≤ (t - since) * rate) by nia; unfold k'; lia).
  destruct (Z.leb_spec 1 k').
  - specialize (IH (k' - 1) t ltac:(lia) Hc Hs'). rewrite retries_admitted_cons. nia.
  - specialize (IH k' t ltac:(lia) Hc Hs'). rewrite retries_admitted_cons. nia.
Qed.

Section Exact.
Context (cap rate : Z).
Context (Hcap : u32 cap) (Hrate : nat53 rate).

Abbreviation config := {| capacity := cap; refill_per_second := F64.of_Z rate |}.

(** A bucket that holds [k] tokens since [now]. *)
Abbreviation bucket k now := {| tokens := F64.of_Z k; last_refill := now |}.

Lemma refill_exact k start last t :
  0 ≤ k ≤ cap → 0 ≤ last ≤ t → t < 2 ^ 53 → cap + t * rate < 2 ^ 53 →
  refill config (start + Duration.from_secs t) (bucket k (start + Duration.from_secs last))
  = bucket (Z.min (k + (t - last) * rate) cap) (start + Duration.from_secs t).
Proof using Hcap Hrate.
  intros Hk Hl Ht Hb. unfold nat53, u32 in *. unfold refill. cbn [last_refill tokens capacity].
  assert (0 ≤ (t - last) * rate ≤ t * rate) by nia.
  replace (saturating_sub _ _) with (Duration.from_secs (t - last))
    by (unfold saturating_sub, Duration.from_secs, Duration.NANOS_PER_SEC; lia).
  rewrite as_secs_exact by (unfold nat53; zlia).
  change F64.zero with (F64.of_Z 0). rewrite ltb_exact by (unfold nat53; zlia).
  destruct (Z.ltb_spec 0 (t - last)).
  - cbn [refill_per_second].
    rewrite mul_exact, add_exact, min_exact by (unfold nat53; zlia). done.
  - replace last with t by lia. do 2 f_equal. lia.
Qed.

Lemma try_consume_exact k now :
  0 ≤ k ≤ cap →
  try_consume (bucket k now) = if 1 <=? k then (true, bucket (k - 1) now) else (false, bucket k now).
Proof using Hcap.
  intros Hk. unfold u32 in *. unfold try_consume. cbn [tokens last_refill].
  rewrite leb_exact by (unfold nat53; zlia). destruct (Z.leb_spec 1 k); [|done].
  by rewrite sub_exact by (unfold nat53; zlia).
Qed.

Lemma attempts_exact s start k last times buckets :
  buckets !! s = Some (bucket k (start + Duration.from_secs last)) →
  0 ≤ k ≤ cap → 0 ≤ last → StronglySorted Z.le (last :: times) →
  Forall (λ t, t < 2 ^ 53 ∧ cap + t * rate < 2 ^ 53) times →
  attempts config s start times buckets = spec_attempts cap rate k last times.
Proof using Hcap Hrate.
  revert k last buckets. induction times as [|t times IH];
    intros k last buckets Hb Hk Hl Hs Hf; [done|].
  inversion_clear Hs as [|? ? Hs' Hall]. inversion_clear Hall as [|? ? Hle _].
  inversion_clear Hf as [|? ? [Ht Hbound] Hf'].
  cbn [attempts spec_attempts]. unfold try_acquire, refilled_bucket.
  rewrite Hb. cbn [default from_option id]. rewrite refill_exact by done.
  assert (0 ≤ Z.min (k + (t - last) * rate) cap ≤ cap) as Hk'.
  { unfold nat53, u32 in *. assert (0 ≤ (t - last) * rate) by nia. lia. }
  rewrite try_consume_exact by done. destruct (Z.leb_spec 1 (Z.min (k + (t - last) * rate) cap));
    cbn [fst snd]; f_equal; apply IH; try done; try lia; apply lookup_insert_eq.
Qed.

(** The first attempt against an unseen service makes a full bucket. *)
Lemma attempts_fresh s start times (buckets : Buckets) :
  buckets !! s = None → StronglySorted Z.le (0 :: times) →
  Forall (λ t, t < 2 ^ 53 ∧ cap + t * rate < 2 ^ 53) times →
  attempts config s start times buckets = spec_attempts cap rate cap 0 times.
Proof using Hcap Hrate.
  intros Hb Hs Hf. destruct times as [|t times]; [done|].
  assert (spec_attempts cap rate cap 0 (t :: times) = spec_attempts cap rate cap t (t :: times)) as ->.
  { cbn [spec_attempts]. inversion_clear Hs as [|? ? _ Hall]. inversion_clear Hall.
    assert (0 ≤ t * rate) by (unfold nat53 in Hrate; nia).
    by rewrite Z.sub_0_r, Z.sub_diag, Z.mul_0_l, Z.add_0_r, Z.min_id, Z.min_r by lia. }
  rewrite <- (attempts_exact s start cap t (t :: times)
    (<[s := bucket cap (start + Duration.from_secs t)]> buckets)).
  - cbn [attempts]. unfold try_acquire, refilled_bucket.
    rewrite Hb, lookup_insert_eq. cbn [default from_option id]. unfold bucket_new.
    cbn [capacity]. destruct (try_consume _). by rewrite insert_insert_eq.
  - apply lookup_insert_eq.
  - unfold u32 in *. lia.
  - inversion_clear Hs as [|? ? _ Hall]. by inversion_clear Hall.
  - inversion_clear Hs as [|? ? Hs' Hall]. inversion_clear Hs' as [|? ? Hs Hall'].
    repeat constructor; try done.
  - done.
Qed.
End Exact.

(** ** Properties *)

(** a service's attempts touch its own bucket only, and an attempt is
    admitted exactly when the refilled bucket holds at least one token; a
    refused attempt takes nothing. *)
Theorem acquire_isolated config s created now buckets :
  let bucket := refilled_bucket config s created now buckets in
  let outcome := try_acquire config s created now buckets in
  (∀ s', s' ≠ s → outcome.2 !! s' = buckets !! s') ∧
  (outcome.1 = true ↔ F64.leb (F64.of_Z 1) (tokens bucket) = true) ∧
  (outcome.1 = false → outcome.2 !! s = Some bucket) ∧
  (outcome.1 = true →
     outcome.2 !! s = Some {| tokens := F64.sub (tokens bucket) (F64.of_Z 1);
                              last_refill := last_refill bucket |}).
Proof.
  cbv zeta. unfold try_acquire, try_consume. case_if; cbn [fst snd];
    (split; [intros s' Hs'; apply lookup_insert_ne; congruence|]); rewrite lookup_insert_eq;
    split_and!; done.
Qed.

(** a refill that lets time pass never leaves more than the capacity in
    the bucket, whatever the rate is. *)
Theorem refill_capped config now bucket :
  F64.ltb F64.zero (as_secs_f64 (saturating_sub now (last_refill bucket))) = true →
  F64.of_Z (capacity config) ≠ S754_nan →
  F64.leb (tokens (refill config now bucket)) (F64.of_Z (capacity config)) = true ∧
  last_refill (refill config now bucket) = now.
Proof.
  intros He Hc. unfold refill. rewrite He. split; [|done]. by apply min_leb.
Qed.

(** C28: rounding never shows: for every capacity and whole refill rate, the
    registry's floating-point buckets admit exactly what a token bucket on
    integers admits, for any attempts at whole seconds against a service not
    seen before; in any period from its first sight on, that is at most the
    capacity plus the rate times the seconds passed. *)
Theorem budget_refines_integer_bucket cap rate s start times (buckets : Buckets) :
  u32 cap → nat53 rate → buckets !! s = None → StronglySorted Z.le (0 :: times) →
  Forall (λ t, t < 2 ^ 53 ∧ cap + t * rate < 2 ^ 53) times →
  let outcomes :=
    attempts {| capacity := cap; refill_per_second := F64.of_Z rate |} s start times buckets in
  outcomes = spec_attempts cap rate cap 0 times ∧
  retries_admitted outcomes ≤ cap + default 0 (last times) * rate.
Proof.
  intros Hcap Hrate Hb Hs Hf. cbv zeta.
  rewrite (attempts_fresh cap rate Hcap Hrate) by done. split; [done|].
  rewrite <- (Z.sub_0_r (default 0 (last times))).
  destruct Hcap, Hrate. by apply spec_attempts_bound.
Qed.

(** the default budget admits a burst of exactly 100 retries against a
    service it has not seen, ten more a second later, and none in between. *)
Theorem default_burst :
  let start := Duration.from_secs 1000 in
  let (burst, buckets) := acquire_many 105 budget_config_default "svc" start ∅ in
  burst = replicate 100 true ++ replicate 5 false ∧
  (acquire_many 12 budget_config_default "svc" (start + Duration.from_secs 1) buckets).1
  = replicate 10 true ++ replicate 2 false.
Proof. vm_compute. split; reflexivity. Qed.

(** with a capacity of zero even the first retry against an unseen service
    is refused. *)
Theorem zero_capacity_refuses_first rate s created now :
  (try_acquire {| capacity := 0; refill_per_second := rate |} s created now ∅).1 = false.
Proof.
  unfold try_acquire, refilled_bucket. rewrite lookup_empty. cbn [default from_option id].
  unfold refill, bucket_new, try_consume. cbn [last_refill capacity tokens].
  case_if; [|done]. cbn [tokens].
  change (F64.of_Z 0) with (S754_zero false).
  by destruct (F64.add _ _) as [s'|[]| |[] m e].
Qed.

(** a rate that is not a number disables the budget: every refill fills
    the bucket to its capacity, so after any time has passed an attempt is
    admitted however many were made before. *)
Theorem nan_rate_disables_budget config now bucket :
  refill_per_second config = F64.nan →
  F64.ltb F64.zero (as_secs_f64 (saturating_sub now (last_refill bucket))) = true →
  F64.leb (F64.of_Z 1) (F64.of_Z (capacity config)) = true →
  (try_consume (refill config now bucket)).1 = true.
Proof.
  intros Hr He Hc. unfold refill. rewrite He, Hr.
  assert (∀ x, F64.add x (F64.mul (as_secs_f64 (saturating_sub now (last_refill bucket))) F64.nan)
               = S754_nan) as ->.
  { intros x. assert (∀ y, F64.mul y F64.nan = S754_nan) as -> by (by intros []). by destruct x. }
  unfold try_consume. cbn [tokens F64.min]. by rewrite Hc.
Qed.

(** ** Witnesses *)

Lemma budget_refines_integer_bucket_witness :
  attempts {| capacity := 2; refill_per_second := F64.of_Z 1 |} "svc" 5 [0; 0; 0; 3; 3; 3] ∅
  = [true; true; false; true; true; false].
Proof.
  etransitivity;
    [apply (budget_refines_integer_bucket 2 1 "svc" 5 [0; 0; 0; 3; 3; 3] ∅)|reflexivity].
  - by_compute.
  - by_compute.
  - reflexivity.
  - repeat constructor; lia.
  - repeat constructor; lia.
Defined.

Lemma refill_capped_witness :
  F64.leb (tokens (refill budget_config_default (Duration.from_secs 60) (bucket_new 95 0)))
    (F64.of_Z 100) = true.
Proof.
  apply (refill_capped budget_config_default (Duration.from_secs 60) (bucket_new 95 0));
    by_compute.
Defined.

Lemma nan_rate_disables_budget_witness :
  (try_consume (refill {| capacity := 5; refill_per_second := F64.nan |} 1 (bucket_new 0 0))).1
  = true.
Proof.
  apply (nan_rate_disables_budget {| capacity := 5; refill_per_second := F64.nan |} 1
    (bucket_new 0 0)); by_compute.
Defined.
