(* ===== verification/RetryBudgetBounds.v ===== *)
(** * RetryBudgetBounds: the retry budget at any instants

    [RetryBudget] is exact at whole seconds. Here the attempts come at arbitrary
    nanoseconds, against any number of services and mixed with readings of the
    token counts, and the refill rate is any finite [f64]: the rounding of the
    bucket's arithmetic is bounded with [Binary64Error]. *)
From Stdlib Require Import SpecFloat QArith Lqa.
From S2P Require Import Prelude RustStd Binary64 Binary64Error RetryBudget.
Open Scope Z_scope.

(** ** Histories of a registry *)

(** The two calls of the registry. *)
Inductive BudgetCall : Type := TryAcquire | AvailableTokens.

(** A call at the clock readings [call_created] (when a missing bucket is made)
    and [call_now] (when the bucket is refilled). *)
Record BudgetEvent : Type := {
  call : BudgetCall;
  call_service : string;
  call_created : Z;
  call_now : Z
}.

(** Whether the call admitted a retry, and the buckets after it. *)
Definition budget_step (config : RetryBudgetConfig) (ev : BudgetEvent) (buckets : Buckets) :
    bool * Buckets :=
  match call ev with
  | TryAcquire => try_acquire config (call_service ev) (call_created ev) (call_now ev) buckets
  | AvailableTokens =>
      (false, (available_tokens config (call_service ev) (call_created ev) (call_now ev) buckets).2)
  end.

Fixpoint run_events (config : RetryBudgetConfig) (evs : list BudgetEvent) (buckets : Buckets) :
    Buckets :=
  match evs with
  | [] => buckets
  | ev :: evs' => run_events config evs' (budget_step config ev buckets).2
  end.

(** The retries against [s] that a history admits. *)
Fixpoint admitted (config : RetryBudgetConfig) (s : string) (evs : list BudgetEvent)
    (buckets : Buckets) : Z :=
  match evs with
  | [] => 0
  | ev :: evs' =>
      let (ok, buckets) := budget_step config ev buckets in
      (if ok && bool_decide (call_service ev = s) then 1 else 0) + admitted config s evs' buckets
  end.

(** The readings of a monotonic clock from [t] on. *)
Fixpoint in_order (t : Z) (evs : list BudgetEvent) : Prop :=
  match evs with
  | [] => True
  | ev :: evs' => t ≤ call_created ev ≤ call_now ev ∧ in_order (call_now ev) evs'
  end.

Fixpoint finish_time (t : Z) (evs : list BudgetEvent) : Z :=
  match evs with
  | [] => t
  | ev :: evs' => finish_time (call_now ev) evs'
  end.

(** ** One bucket *)

Record rate_ok (config : RetryBudgetConfig) : Prop := {
  rate_cap : u32 (capacity config);
  rate_nonneg : nonneg (refill_per_second config);
  rate_finite : is_finite (refill_per_second config)
}.

Record bucket_ok (config : RetryBudgetConfig) (b : TokenBucket) : Prop := {
  tokens_nonneg : nonneg (tokens b);
  tokens_le : (value (tokens b) <= inject_Z (capacity config))%Q;
  refill_time : 0 ≤ last_refill b
}.

(** The error of a refill: [tau] tokens, [r] of them a second, for [T] seconds
    that the code takes for [el], of which it computes the product [p]. *)
Section Errors.
Context (tau r T el p c : Q).
Context (Hr : (0 <= r)%Q) (Htau : (0 <= tau <= c)%Q) (HT : (0 <= T)%Q).

Lemma refill_upper :
  (el <= T * (1 + 4 * u64) → p <= el * r * (1 + u64) + eta64 →
   (tau + p) * (1 + u64) + eta64
   <= tau + r * T * (1 + 8 * u64) + u64 * c + 3 * eta64)%Q.
Proof using All.
  intros Hel Hp. pose proof u64_small as [Hu Hu2]. pose proof eta64_pos.
  generalize dependent u64. generalize dependent eta64. intros eta He u. intros.
  assert (el * r <= T * (1 + 4 * u) * r)%Q by (by apply Qmult_le_compat_r).
  assert (0 <= r * T)%Q by (by apply Qmult_le_0_compat).
  assert ((1 + 4 * u) * (1 + u) * (1 + u) <= 1 + 8 * u)%Q by nra.
  assert (p <= T * (1 + 4 * u) * r * (1 + u) + eta)%Q.
  { eapply Qle_trans; [eassumption|]. apply Qplus_le_compat; [|lra].
    apply Qmult_le_compat_r; lra. }
  assert (p * (1 + u) <= (T * (1 + 4 * u) * r * (1 + u) + eta) * (1 + u))%Q
    by (apply Qmult_le_compat_r; lra).
  assert (r * T * ((1 + 4 * u) * (1 + u) * (1 + u)) <= r * T * (1 + 8 * u))%Q
    by (rewrite !(Qmult_comm (r * T)); by apply Qmult_le_compat_r).
  assert (tau * u <= c * u)%Q by (apply Qmult_le_compat_r; lra).
  assert (eta * u <= eta)%Q by nra. lra.
Qed.

Lemma refill_lower :
  (T * (1 - 7 * u64) <= el → el * r * (1 - 2 * u64) - 2 * eta64 <= p →
   tau + r * T * (1 - 12 * u64) - 2 * u64 * c - 5 * eta64
   <= (tau + p) * (1 - 2 * u64) - 2 * eta64)%Q.
Proof using All.
  intros Hel Hp. pose proof u64_small as [Hu Hu2]. pose proof eta64_pos.
  generalize dependent u64. generalize dependent eta64. intros eta He u. intros.
  assert (T * (1 - 7 * u) * r <= el * r)%Q by (by apply Qmult_le_compat_r).
  assert (0 <= r * T)%Q by (by apply Qmult_le_0_compat).
  assert (1 - 12 * u <= (1 - 7 * u) * (1 - 2 * u) * (1 - 2 * u))%Q by nra.
  assert (T * (1 - 7 * u) * r * (1 - 2 * u) - 2 * eta <= p)%Q.
  { eapply Qle_trans; [|eassumption]. apply Qplus_le_compat; [|lra].
    apply Qmult_le_compat_r; lra. }
  assert ((T * (1 - 7 * u) * r * (1 - 2 * u) - 2 * eta) * (1 - 2 * u) <= p * (1 - 2 * u))%Q
    by (apply Qmult_le_compat_r; lra).
  assert (r * T * (1 - 12 * u) <= r * T * ((1 - 7 * u) * (1 - 2 * u) * (1 - 2 * u)))%Q
    by (rewrite !(Qmult_comm (r * T)); by apply Qmult_le_compat_r).
  assert (tau * u <= c * u)%Q by (apply Qmult_le_compat_r; lra).
  assert (0 <= eta * u <= eta)%Q by nra. lra.
Qed.
End Errors.

Section Bucket.
Context (config : RetryBudgetConfig) (Hcfg : rate_ok config).

Abbreviation cap := (inject_Z (capacity config)).
Abbreviation rate := (value (refill_per_second config)).

Lemma cap_value :
  nonneg (F64.of_Z (capacity config)) ∧ (value (F64.of_Z (capacity config)) == cap)%Q ∧ (0 <= cap)%Q.
Proof using Hcfg.
  destruct Hcfg as [Hc _ _]. assert (nat53 (capacity config)) by (unfold nat53, u32 in *; zlia).
  split_and!.
  - apply of_Z_spec. by destruct Hc.
  - by apply of_Z_value.
  - rewrite <- (Zle_Qle 0). by destruct Hc.
Qed.

Lemma cap_cases : (cap == 0)%Q ∨ (1 <= cap <= 4294967296)%Q.
Proof using Hcfg.
  destruct Hcfg as [[Hl Hh] _ _]. unfold u32_max in *.
  destruct (decide (capacity config = 0)) as [->|]; [by left|right].
  split; [rewrite <- (Zle_Qle 1)|rewrite <- (Zle_Qle _ 4294967296)]; lia.
Qed.

(** The tokens a refill after a positive time leaves, from above and below. *)
Lemma refill_tokens d b :
  bucket_ok config b → 0 < d ≤ Duration.MAX →
  let added := F64.mul (as_secs_f64 d) (refill_per_second config) in
  let t := F64.min (F64.add (tokens b) added) (F64.of_Z (capacity config)) in
  nonneg t ∧ (value t <= cap)%Q ∧
  (value t <= value (tokens b) + rate * secs d * (1 + 8 * u64) + u64 * cap + 3 * eta64)%Q ∧
  (cap <= value t ∨
   value (tokens b) + rate * secs d * (1 - 12 * u64) - 2 * u64 * cap - 5 * eta64 <= value t)%Q.
Proof using Hcfg.
  intros [Hn Hle _] Hd. cbv zeta. destruct cap_value as (Hcn & Hcv & Hc0).
  destruct Hcfg as [_ Hrn Hrf].
  destruct (as_secs_spec d) as (Hen & Hef & Hel & Heu); [lia..|].
  destruct (mul_spec _ _ Hen Hrn Hef Hrf) as [Hmn Hmu Hml].
  destruct (add_spec _ _ Hn Hmn) as [Hsn Hsu Hsl].
  set (product := F64.mul _ _) in *. set (sum := F64.add _ _) in *.
  destruct (min_value sum (F64.of_Z (capacity config)) Hsn Hcn) as (Hcase & Hm1 & Hm2).
  rewrite Hcv in Hm2. pose proof (value_nonneg _ Hrn) as Hr. pose proof (value_nonneg _ Hn) as Ht.
  pose proof (secs_nonneg d ltac:(lia)) as HT.
  split_and!; [by destruct Hcase as [-> | ->]|done| |].
  - eapply Qle_trans; [exact Hm1|]. eapply Qle_trans; [exact Hsu|].
    by apply (refill_upper _ _ _ (value (as_secs_f64 d))).
  - destruct Hcase as [Hs|Hs]; rewrite Hs in *; [right|left; rewrite Hcv; lra].
    assert (is_finite sum) as Hfin.
    { apply below_infinity_finite; [done|]. eapply Qle_lt_trans; [exact Hm2|].
      destruct cap_cases as [-> |[_ Hb]]; [by vm_compute|]. eapply Qle_lt_trans; [exact Hb|].
      by vm_compute. }
    destruct (add_finite_inv _ _ Hn Hmn Hfin) as [_ Hpf].
    eapply Qle_trans; [|by apply Hsl].
    by apply (refill_lower _ _ _ (value (as_secs_f64 d))); [..|apply Hml].
Qed.

(** What a refill adds. *)
Lemma refill_bounds now b :
  bucket_ok config b → last_refill b ≤ now ≤ Duration.MAX →
  let b' := refill config now b in
  let added := (rate * secs (now - last_refill b))%Q in
  bucket_ok config b' ∧ last_refill b' = now ∧
  (value (tokens b') <= value (tokens b) + added * (1 + 8 * u64) + 2 * u64 * cap)%Q ∧
  (cap <= value (tokens b') ∨
   value (tokens b) + added * (1 - 12 * u64) - 3 * u64 * cap <= value (tokens b'))%Q.
Proof using Hcfg.
  intros Hb [Hlast Hmax]. cbv zeta. unfold refill.
  replace (saturating_sub now (last_refill b)) with (now - last_refill b)
    by (unfold saturating_sub; lia).
  destruct Hb as [Hn Hle Ht]. pose proof u64_small as [Hu _]. destruct cap_value as (_ & _ & Hc0).
  destruct (decide (now = last_refill b)) as [->|Hne].
  - rewrite Z.sub_diag. change (F64.ltb _ _) with false. cbv iota.
    assert (rate * secs 0 == 0)%Q as -> by (change (secs 0) with (0 / 1000000000)%Q; field).
    assert (0 <= u64 * cap)%Q by (apply Qmult_le_0_compat; lra).
    split_and!; [done|done|lra|right; lra].
  - assert (0 < now - last_refill b ≤ Duration.MAX) as Hd by lia.
    destruct (as_secs_spec (now - last_refill b)) as (Hen & _ & Hel & _); [lia..|].
    assert (F64.ltb F64.zero (as_secs_f64 (now - last_refill b)) = true) as ->.
    { apply ltb_value; [done..|]. pose proof u64_small as [_ Hu2].
      eapply Qlt_le_trans; [|exact Hel]. apply Qmult_lt_0_compat; [|lra].
      apply Qlt_shift_div_l; [done|]. rewrite Qmult_0_l, <- (Zlt_Qlt 0). lia. }
    destruct (refill_tokens (now - last_refill b) b) as (Hn' & Hc & Hup & Hlo); [done..|].
    cbn [tokens last_refill]. split_and!; [by split; [| |simpl; lia]|done| |].
    + destruct cap_cases as [Hz|[H1 _]].
      * rewrite Hz in Hc. pose proof (value_nonneg _ Hn). eapply Qle_trans; [exact Hc|].
        assert (0 <= rate * secs (now - last_refill b) * (1 + 8 * u64))%Q; [|rewrite Hz; lra].
        apply Qmult_le_0_compat; [|lra].
        apply Qmult_le_0_compat; [by apply value_nonneg, rate_nonneg|apply secs_nonneg; lia].
      * assert (3 * eta64 <= u64 * cap)%Q; [|lra].
        apply Qle_trans with (u64 * 1)%Q; [by vm_compute|]. apply Qmult_le_l; lra.
    + destruct Hlo as [Hlo|Hlo]; [by left|]. destruct cap_cases as [Hz|[H1 _]].
      * left. rewrite Hz. by apply value_nonneg.
      * right. assert (5 * eta64 <= u64 * cap)%Q; [|lra].
        apply Qle_trans with (u64 * 1)%Q; [by vm_compute|]. apply Qmult_le_l; lra.
Qed.

(** An attempt on a bucket: admitted exactly when it holds a token, which it
    then loses. *)
Lemma consume_bounds b :
  bucket_ok config b →
  let (ok, b') := try_consume b in
  (ok = true ↔ (1 <= value (tokens b))%Q) ∧ bucket_ok config b' ∧ last_refill b' = last_refill b ∧
  (value (tokens b') <= value (tokens b) - (if ok then 1 else 0) + 2 * u64 * cap)%Q.
Proof using Hcfg.
  intros [Hn Hle Ht]. unfold try_consume. pose proof u64_small as [Hu Hu2].
  destruct cap_value as (_ & _ & Hc0). assert (0 <= u64 * cap)%Q by (apply Qmult_le_0_compat; lra).
  destruct (of_Z_spec 1 ltac:(done)) as [H1n _ _].
  assert (value (F64.of_Z 1) == 1)%Q as H1v by (by apply of_Z_value).
  destruct (F64.leb (F64.of_Z 1) (tokens b)) eqn:Hleb.
  - apply leb_value in Hleb; [|done..]. rewrite H1v in Hleb.
    assert (1 <= cap <= 4294967296)%Q as [Hc1 Hc2]
      by (destruct cap_cases as [Hz|]; [rewrite Hz in Hle; lra|done]).
    assert (is_finite (tokens b)) as Hfin.
    { apply below_infinity_finite; [done|]. eapply Qle_lt_trans; [exact Hle|].
      eapply Qle_lt_trans; [exact Hc2|]. by vm_compute. }
    destruct (sub_spec (tokens b) (F64.of_Z 1)) as [Hsn Hsu _]; [done..|by rewrite H1v|].
    rewrite H1v in Hsu. cbn [tokens last_refill].
    assert (value (tokens b) * u64 <= u64 * cap)%Q
      by (rewrite (Qmult_comm u64); apply Qmult_le_compat_r; lra).
    assert (eta64 <= u64 * cap)%Q.
    { apply Qle_trans with (u64 * 1)%Q; [by vm_compute|]. apply Qmult_le_l; lra. }
    assert (u64 * cap <= 1 # 1000)%Q.
    { apply Qle_trans with (u64 * 4294967296)%Q; [apply Qmult_le_l; lra|by vm_compute]. }
    split_and!; [done|split; cbn [tokens]; [done|lra|done]|done|lra].
  - assert (¬ (1 <= value (tokens b))%Q) as Hlt.
    { rewrite <- H1v. rewrite <- leb_value by done. congruence. }
    split_and!; [done|done|done|lra].
Qed.
End Bucket.

(** ** Histories *)

Definition buckets_ok (config : RetryBudgetConfig) (t : Z) (buckets : Buckets) : Prop :=
  map_Forall (λ _ b, bucket_ok config b ∧ last_refill b ≤ t) buckets.

Lemma secs_le a b : a ≤ b → (secs a <= secs b)%Q.
Proof. intros. unfold secs. apply Qmult_le_compat_r; [by rewrite <- Zle_Qle|done]. Qed.

Lemma in_order_finish t evs : in_order t evs → t ≤ finish_time t evs.
Proof.
  revert t. induction evs as [|ev evs IH]; intros t; simpl; [done|]. intros [Ht Ho].
  specialize (IH _ Ho). lia.
Qed.

Lemma in_order_app t evs evs' :
  in_order t (evs ++ evs') ↔ in_order t evs ∧ in_order (finish_time t evs) evs'.
Proof. revert t. induction evs as [|ev evs IH]; intros t; simpl; [naive_solver|]. rewrite IH. tauto. Qed.

Lemma finish_time_app t evs evs' :
  finish_time t (evs ++ evs') = finish_time (finish_time t evs) evs'.
Proof. revert t. by induction evs as [|ev evs IH]; intros t; simpl. Qed.

Lemma run_events_app config evs evs' buckets :
  run_events config (evs ++ evs') buckets = run_events config evs' (run_events config evs buckets).
Proof. revert buckets. by induction evs as [|ev evs IH]; intros buckets; simpl. Qed.

(** A service that was called has a bucket. *)
Lemma run_events_seen config s evs buckets :
  Exists (λ ev, call_service ev = s) evs ∨ is_Some (buckets !! s) →
  is_Some (run_events config evs buckets !! s).
Proof.
  revert buckets. induction evs as [|ev evs IH]; intros buckets Hs.
  { destruct Hs as [Hs|Hs]; [by inversion Hs|done]. }
  cbn [run_events]. apply IH.
  assert (∃ ok b, budget_step config ev buckets = (ok, <[call_service ev := b]> buckets)) as (ok & b & ->).
  { unfold budget_step, try_acquire, available_tokens. destruct (call ev); [|by eexists _, _].
    destruct (try_consume _) as [ok b]. by eexists _, _. }
  cbn [snd]. destruct (decide (call_service ev = s)) as [->|Hne]; [right; by rewrite lookup_insert_eq|].
  destruct Hs as [Hs|Hs]; [|right; by rewrite lookup_insert_ne].
  inversion_clear Hs; [done|by left].
Qed.

Section History.
Context (config : RetryBudgetConfig) (Hcfg : rate_ok config).

Abbreviation cap := (inject_Z (capacity config)).
Abbreviation rate := (value (refill_per_second config)).

Lemma bucket_new_ok now : 0 ≤ now → bucket_ok config (bucket_new (capacity config) now).
Proof using Hcfg.
  intros. destruct (cap_value config Hcfg) as (Hn & Hv & _).
  split; simpl; [done|rewrite Hv; lra|done].
Qed.

(** A call leaves its service a bucket refilled at the call's instant, with at
    most the capacity, or what there was before and what the time since then
    added; an admitted retry is taken from it. *)
Lemma budget_step_bounds t ev buckets :
  buckets_ok config t buckets → 0 ≤ t → t ≤ call_created ev ≤ call_now ev →
  call_now ev ≤ Duration.MAX →
  let (ok, buckets') := budget_step config ev buckets in
  buckets_ok config (call_now ev) buckets' ∧
  (∀ s, s ≠ call_service ev → buckets' !! s = buckets !! s) ∧
  ∃ b', buckets' !! call_service ev = Some b' ∧ last_refill b' = call_now ev ∧
    (value (tokens b') + (if ok then 1 else 0) <= cap + 4 * u64 * cap)%Q ∧
    ∀ b, buckets !! call_service ev = Some b →
      (value (tokens b') + (if ok then 1 else 0)
       <= value (tokens b) + rate * secs (call_now ev - last_refill b) * (1 + 8 * u64)
          + 4 * u64 * cap)%Q.
Proof using Hcfg.
  intros Hok Ht Hord Hmax.
  set (b0 := default (bucket_new (capacity config) (call_created ev)) (buckets !! call_service ev)).
  assert (bucket_ok config b0 ∧ last_refill b0 ≤ call_now ev) as [Hb0 Hl0].
  { unfold b0. destruct (buckets !! call_service ev) as [b|] eqn:Hb; simpl.
    - destruct (Hok _ _ Hb). split; [done|lia].
    - split; [apply bucket_new_ok|]; lia. }
  destruct (refill_bounds config Hcfg (call_now ev) b0 Hb0) as (Hr & Hlast & Hup & _); [lia|].
  set (b1 := refill config (call_now ev) b0) in *.
  assert (0 <= u64 * cap)%Q as Hslack.
  { apply Qmult_le_0_compat; [apply Qlt_le_weak, u64_pos|by apply cap_value]. }
  pose proof (consume_bounds config Hcfg b1 Hr) as Hc.
  assert (∃ ok b2, budget_step config ev buckets = (ok, <[call_service ev := b2]> buckets) ∧
    bucket_ok config b2 ∧ last_refill b2 = call_now ev ∧
    (value (tokens b2) <= value (tokens b1) - (if ok then 1 else 0) + 2 * u64 * cap)%Q)
    as (ok & b2 & -> & Hb2 & Hl2 & Hv2).
  { unfold budget_step, try_acquire, available_tokens, refilled_bucket. fold b0 b1.
    destruct (call ev).
    - destruct (try_consume b1) as [ok b2]. exists ok, b2. destruct Hc as (_ & ? & -> & ?).
      split_and!; done.
    - exists false, b1. split_and!; [done..|lra]. }
  split_and!.
  - apply map_Forall_insert_2; [split; [done|lia]|]. intros s b Hs. destruct (Hok s b Hs).
    split; [done|lia].
  - intros s Hs. by rewrite lookup_insert_ne.
  - exists b2. rewrite lookup_insert_eq. split_and!; [done|done| |].
    + pose proof (tokens_le _ _ Hr). lra.
    + intros b Hb. unfold b0 in Hup. rewrite Hb in Hup. simpl in Hup. lra.
Qed.

(** The retries admitted from a bucket: what it holds, what the time adds, and
    the error of each call. *)
Lemma admitted_from_bucket s b t evs buckets :
  buckets !! s = Some b → buckets_ok config t buckets → 0 ≤ t → in_order t evs →
  finish_time t evs ≤ Duration.MAX →
  (inject_Z (admitted config s evs buckets)
   <= value (tokens b) + rate * secs (finish_time t evs - last_refill b) * (1 + 8 * u64)
      + inject_Z (Z.of_nat (length evs)) * (4 * u64 * cap))%Q.
Proof using Hcfg.
  revert b t buckets. induction evs as [|ev evs IH]; intros b t buckets Hb Hok Ht Ho Hmax.
  - cbn [admitted finish_time length] in *. destruct (Hok _ _ Hb) as [[Hn _ _] Hl].
    pose proof (value_nonneg _ Hn). pose proof (secs_nonneg (t - last_refill b) ltac:(lia)).
    pose proof (value_nonneg _ (rate_nonneg _ Hcfg)). pose proof u64_pos.
    assert (0 <= rate * secs (t - last_refill b) * (1 + 8 * u64))%Q
      by (apply Qmult_le_0_compat; [by apply Qmult_le_0_compat|lra]).
    change (inject_Z 0) with 0%Q. change (inject_Z (Z.of_nat 0)) with 0%Q. lra.
  - cbn [admitted finish_time in_order] in *. destruct Ho as [Hord Ho].
    pose proof (in_order_finish _ _ Ho) as Hf.
    pose proof (budget_step_bounds t ev buckets Hok Ht Hord ltac:(lia)) as Hs.
    destruct (budget_step config ev buckets) as [ok buckets'].
    destruct Hs as (Hok' & Hother & b' & Hb' & Hl' & _ & Hbound).
    assert (length (ev :: evs) = S (length evs)) as -> by done.
    rewrite Nat2Z.inj_succ, <- Z.add_1_l, !inject_Z_plus.
    pose proof u64_pos. destruct (cap_value config Hcfg) as (_ & _ & Hc0).
    assert (0 <= u64 * cap)%Q by (apply Qmult_le_0_compat; lra).
    destruct (decide (call_service ev = s)) as [Heq|Hne].
    + rewrite Heq in *. rewrite bool_decide_true, andb_true_r by done.
      specialize (IH b' _ _ Hb' Hok' ltac:(lia) Ho Hmax). specialize (Hbound b Hb).
      rewrite Hl' in IH. set (F := finish_time (call_now ev) evs) in *.
      assert (secs (F - last_refill b) == secs (F - call_now ev) + secs (call_now ev - last_refill b))%Q
        as -> by (rewrite <- secs_add; by replace (F - last_refill b)
                    with (F - call_now ev + (call_now ev - last_refill b)) by lia).
      assert (inject_Z (if ok then 1 else 0) == if ok then 1 else 0)%Q as -> by (by destruct ok).
      change (inject_Z 1) with 1%Q. lra.
    + rewrite bool_decide_false, andb_false_r by done. rewrite <- Hother in Hb by done.
      specialize (IH b _ _ Hb Hok' ltac:(lia) Ho Hmax).
      change (inject_Z 0) with 0%Q. change (inject_Z 1) with 1%Q. lra.
Qed.

(** The same from any state, counted from an instant before the first call. *)
Lemma admitted_from t evs s buckets :
  buckets_ok config t buckets → 0 ≤ t → in_order t evs → finish_time t evs ≤ Duration.MAX →
  (inject_Z (admitted config s evs buckets)
   <= cap + rate * secs (finish_time t evs - t) * (1 + 8 * u64)
      + inject_Z (Z.of_nat (length evs)) * (4 * u64 * cap))%Q.
Proof using Hcfg.
  revert t buckets. induction evs as [|ev evs IH]; intros t buckets Hok Ht Ho Hmax;
    pose proof u64_pos as Hu; destruct (cap_value config Hcfg) as (_ & _ & Hc0);
    assert (0 <= u64 * cap)%Q by (apply Qmult_le_0_compat; lra);
    pose proof (value_nonneg _ (rate_nonneg _ Hcfg)) as Hr.
  - cbn [admitted finish_time length]. rewrite Z.sub_diag.
    assert (rate * secs 0 == 0)%Q as -> by (change (secs 0) with (0 / 1000000000)%Q; field).
    change (inject_Z 0) with 0%Q. change (inject_Z (Z.of_nat 0)) with 0%Q. lra.
  - cbn [admitted finish_time in_order] in *. destruct Ho as [Hord Ho].
    pose proof (in_order_finish _ _ Ho) as Hf.
    pose proof (budget_step_bounds t ev buckets Hok Ht Hord ltac:(lia)) as Hs.
    destruct (budget_step config ev buckets) as [ok buckets'].
    destruct Hs as (Hok' & _ & b' & Hb' & Hl' & Hbound & _).
    assert (length (ev :: evs) = S (length evs)) as -> by done.
    rewrite Nat2Z.inj_succ, <- Z.add_1_l, !inject_Z_plus.
    change (inject_Z 1) with 1%Q. set (F := finish_time (call_now ev) evs) in *.
    assert (rate * secs (F - call_now ev) * (1 + 8 * u64)
            <= rate * secs (F - t) * (1 + 8 * u64))%Q.
    { apply Qmult_le_compat_r; [|lra]. rewrite !(Qmult_comm rate). apply Qmult_le_compat_r; [|done].
      apply secs_le. lia. }
    destruct (decide (call_service ev = s)) as [Heq|Hne].
    + rewrite Heq in *. rewrite bool_decide_true, andb_true_r by done.
      pose proof (admitted_from_bucket s b' _ evs buckets' Hb' Hok' ltac:(lia) Ho Hmax) as Hrest.
      rewrite Hl' in Hrest. fold F in Hrest.
      assert (inject_Z (if ok then 1 else 0) == if ok then 1 else 0)%Q as -> by (by destruct ok).
      lra.
    + rewrite bool_decide_false, andb_false_r by done.
      specialize (IH _ _ Hok' ltac:(lia) Ho Hmax). fold F in IH. change (inject_Z 0) with 0%Q. lra.
Qed.

(** Every history leaves sound buckets, and touches those of its services only. *)
Lemma run_events_ok t evs buckets :
  buckets_ok config t buckets → 0 ≤ t → in_order t evs → finish_time t evs ≤ Duration.MAX →
  buckets_ok config (finish_time t evs) (run_events config evs buckets) ∧
  ∀ s, Forall (λ ev, call_service ev ≠ s) evs → run_events config evs buckets !! s = buckets !! s.
Proof using Hcfg.
  revert t buckets. induction evs as [|ev evs IH]; intros t buckets Hok Ht Ho Hmax; [done|].
  cbn [run_events finish_time in_order] in *. destruct Ho as [Hord Ho].
  pose proof (in_order_finish _ _ Ho) as Hf.
  pose proof (budget_step_bounds t ev buckets Hok Ht Hord ltac:(lia)) as Hs.
  destruct (budget_step config ev buckets) as [ok buckets']. destruct Hs as (Hok' & Hother & _).
  destruct (IH _ _ Hok' ltac:(lia) Ho Hmax) as [IHok IHs]. split; [done|].
  intros s [Hne Hall]%Forall_cons. cbn [snd]. rewrite (IHs s Hall). by apply Hother.
Qed.
End History.

(** ** Properties *)

(** C9: the budget bounds the retries of every window: whatever was called
    before, in any period the registry admits for a service at most its capacity
    plus the refill rate times the length of the period. Rounding adds no more
    than a fraction [2 ^ -49] of the refill and [2 ^ -50] of the capacity for
    each call; calls for other services and readings of token counts may be
    interleaved at any nanosecond, and the rate may be any finite number that is
    not negative. *)
Theorem budget_bounds_retries config s start past window :
  rate_ok config → in_order 0 past → finish_time 0 past ≤ start →
  in_order start window → finish_time start window ≤ Duration.MAX →
  (inject_Z (admitted config s window (run_events config past ∅))
   <= inject_Z (capacity config)
      + value (refill_per_second config) * secs (finish_time start window - start)
        * (1 + pow2 (-49))
      + inject_Z (Z.of_nat (length window)) * inject_Z (capacity config) * pow2 (-50))%Q.
Proof.
  intros Hcfg Hpast Hstart Hwin Hmax.
  pose proof (in_order_finish _ _ Hpast) as Hp. pose proof (in_order_finish _ _ Hwin) as Hw.
  destruct (run_events_ok config Hcfg 0 past ∅) as [Hok _]; [apply map_Forall_empty|done..|lia|].
  pose proof (admitted_from config Hcfg start window s (run_events config past ∅)) as Hb.
  assert (pow2 (-49) == 8 * u64)%Q as -> by (by vm_compute).
  assert (pow2 (-50) == 4 * u64)%Q as -> by (by vm_compute).
  eapply Qle_trans; [apply Hb; [|lia|done|done]|lra].
  intros s' b Hs'. destruct (Hok s' b Hs'). split; [done|lia].
Qed.

(** C36: the budget recovers: however far a service's budget was drained, after a
    pause long enough to earn one token (and a fraction for the rounding) its
    next retry is admitted, whatever other services did meanwhile. *)
Theorem idle_budget_recovers config s past quiet created now pause :
  rate_ok config → 1 ≤ capacity config →
  in_order 0 (past ++ quiet) → Exists (λ ev, call_service ev = s) past →
  Forall (λ ev, call_service ev ≠ s) quiet →
  finish_time 0 (past ++ quiet) ≤ created ≤ now → now ≤ Duration.MAX →
  0 ≤ pause → finish_time 0 past + pause ≤ now →
  (1 + 3 * pow2 (-52) * inject_Z (capacity config)
   <= value (refill_per_second config) * secs pause * (1 - 12 * pow2 (-52)))%Q →
  (try_acquire config s created now (run_events config (past ++ quiet) ∅)).1 = true.
Proof.
  intros Hcfg Hcap Ho Hseen Hquiet Hcreated Hmax Hpause Hnow Hearn.
  apply in_order_app in Ho as [Hop Hoq]. rewrite finish_time_app in Hcreated.
  pose proof (in_order_finish _ _ Hop) as Hfp. pose proof (in_order_finish _ _ Hoq) as Hfq.
  destruct (run_events_ok config Hcfg 0 past ∅) as [Hok _]; [apply map_Forall_empty|done..|lia|].
  destruct (run_events_ok config Hcfg _ quiet _ Hok) as [_ Hsame]; [lia|done|lia|].
  destruct (run_events_seen config s past ∅) as [b Hbs]; [by left|]. destruct (Hok _ _ Hbs) as [Hb Hl].
  unfold try_acquire, refilled_bucket. rewrite run_events_app, Hsame, Hbs by done. cbn [default from_option id].
  destruct (refill_bounds config Hcfg now b Hb) as (Hr & _ & _ & Hlow); [lia|].
  pose proof (consume_bounds config Hcfg (refill config now b) Hr) as Hc.
  destruct (try_consume (refill config now b)) as [ok b']. destruct Hc as [Hiff _].
  apply Hiff. fold u64 in Hearn. pose proof u64_small as [Hu Hu2].
  assert (1 <= inject_Z (capacity config))%Q as Hc1 by (by rewrite <- (Zle_Qle 1)).
  destruct Hlow as [Hlow|Hlow]; [lra|].
  pose proof (value_nonneg _ (tokens_nonneg _ _ Hb)).
  assert (value (refill_per_second config) * secs pause * (1 - 12 * u64)
    <= value (refill_per_second config) * secs (now - last_refill b) * (1 - 12 * u64))%Q; [|lra].
  apply Qmult_le_compat_r; [|lra]. rewrite !(Qmult_comm (value _)).
  apply Qmult_le_compat_r; [apply secs_le; lia|apply value_nonneg, Hcfg].
Qed.

(** ** Witnesses *)

Definition attempt (s : string) (now : Z) : BudgetEvent :=
  {| call := TryAcquire; call_service := s; call_created := now; call_now := now |}.

(** One token a tenth of a second: the rate is not a binary fraction of it. *)
Definition tenth_config : RetryBudgetConfig :=
  {| capacity := 1; refill_per_second := F64.of_Z 10 |}.

Lemma tenth_config_ok : rate_ok tenth_config.
Proof. split; by_compute. Qed.

Definition tenths : list BudgetEvent :=
  [attempt "svc" 50000000; attempt "svc" 100000000; attempt "other" 120000000;
   attempt "svc" 150000001].

Lemma budget_bounds_retries_witness :
  (inject_Z (admitted tenth_config "svc" tenths ∅)
   <= 1 + 10 * secs 150000001 * (1 + pow2 (-49)) + 4 * 1 * pow2 (-50))%Q.
Proof.
  refine (budget_bounds_retries tenth_config "svc" 0 [] tenths tenth_config_ok I _ _ _); [done| |by_compute].
  by_compute.
Defined.

Lemma idle_budget_recovers_witness :
  (try_acquire tenth_config "svc" 200000001 200000001
     (run_events tenth_config
        ([attempt "svc" 100000000; attempt "svc" 100000000] ++ [attempt "other" 150000000]) ∅)).1
  = true.
Proof.
  refine (idle_budget_recovers tenth_config "svc" [attempt "svc" 100000000; attempt "svc" 100000000]
    [attempt "other" 150000000] 200000001 200000001 100000001 tenth_config_ok _ _ _ _ _ _ _ _ _);
    [by_compute..| | | | | | |].
  - by apply Exists_cons_hd.
  - by repeat constructor.
  - by_compute.
  - by_compute.
  - by_compute.
  - by_compute.
  - by_compute.
Defined.
