(* ===== verification/RetryEvents.v ===== *)
(** * RetryEvents: what the retry decisions log

    The functions of {!Retry} and {!RetryBudget} that emit events, with the
    events: [deadline_covers_backoff] and the two decisions of
    [sdkwork-rpc-resilience], and [RetryBudgetRegistry::try_acquire] of
    [sdkwork-rpc-client]. *)
From S2P Require Import Prelude RustStd Core Interfaces Tracing Retry Binary64 RetryBudget.

(** ** The events *)

Definition deadline_event (remaining_ms required_ms : Z) : Event := {|
  level := WARN; target := "sdkwork.rpc.retry.deadline";
  fields := [("remaining_ms", Num remaining_ms); ("required_ms", Num required_ms)];
  message := "retry skipped: insufficient remaining deadline"
|}.

Definition call_budget_event (attempt : Z) : Event := {|
  level := WARN; target := "sdkwork.rpc.retry.budget";
  fields := [("attempt", Num attempt)];
  message := "retry skipped: per-call retry budget exhausted"
|}.

Definition service_budget_event (service_name operation_id : string) : Event := {|
  level := WARN; target := "sdkwork.rpc.retry.budget";
  fields := [("service_name", Text service_name); ("operation_id", Text operation_id)];
  message := "cross-call retry budget exhausted; failing fast instead of retrying"
|}.

(** ** The functions *)

Section Decisions.
Context `{RandomApi, MetadataApi}.
Open Scope logged_scope.

Definition deadline_covers_backoff_logged (backoff_ms : Z) (remaining : Z) : logged bool :=
  match u64_try_from (Duration.as_millis remaining) with
  | Some remaining_ms =>
      if required_ms backoff_ms <=? remaining_ms then quiet true
      else emit (deadline_event remaining_ms (required_ms backoff_ms)) ;! quiet false
  | None => quiet true
  end.

Definition should_retry_with_deadline_logged (self : RetryPolicy) (code : Code.t)
    (attempt : Z) (budget : RetryBudgetTracker) (remaining_deadline : Z) :
    logged (bool * RetryBudgetTracker) :=
  if max_attempts self <=? attempt then quiet (false, budget)
  else if negb (allows_retry self code (remaining budget)) then quiet (false, budget)
  else
    let backoff_ms := retry_backoff_ms self attempt in
    let! covered := deadline_covers_backoff_logged backoff_ms remaining_deadline in
    if negb covered then quiet (false, budget)
    else
      let (consumed, budget') := Tracker.consume budget in
      if negb consumed then emit (call_budget_event attempt) ;! quiet (false, budget')
      else quiet (true, budget').

Definition should_retry_call_with_deadline_logged (policy : RetryPolicy) (code : Code.t)
    (attempt : Z) (budget : RetryBudgetTracker) (admission : RetryAdmission)
    (remaining_deadline : Z) : logged (bool * RetryBudgetTracker) :=
  if negb (allows_retry_metadata admission) then quiet (false, budget)
  else should_retry_with_deadline_logged policy code attempt budget remaining_deadline.

Definition should_retry_call_with_pushback_logged (policy : RetryPolicy) (status : Status.t)
    (attempt : Z) (budget : RetryBudgetTracker) (admission : RetryAdmission)
    (remaining_deadline : Z) : logged (RetryDecision * RetryBudgetTracker) :=
  if negb (allows_retry_metadata admission) then quiet (Stop, budget)
  else if max_attempts policy <=? attempt then quiet (Stop, budget)
  else
    let code := Status.code status in
    let pushback_ms :=
      if bool_decide (code = Code.ResourceExhausted)
      then extract_retry_pushback_ms status else None in
    let code_allowed :=
      if bool_decide (code = Code.ResourceExhausted)
      then bool_decide (is_Some pushback_ms)
           && codes_contain (retryable_codes policy) code
      else codes_contain (retryable_codes policy) code in
    if negb code_allowed then quiet (Stop, budget)
    else
      let backoff_ms := effective_retry_backoff_ms policy attempt pushback_ms in
      let! covered := deadline_covers_backoff_logged backoff_ms remaining_deadline in
      if negb covered then quiet (Stop, budget)
      else
        let (consumed, budget') := Tracker.consume budget in
        if negb consumed then emit (call_budget_event attempt) ;! quiet (Stop, budget')
        else quiet (Retry backoff_ms, budget').
End Decisions.

Definition try_acquire_logged (config : RetryBudgetConfig) (service_name operation_id : string)
    (created now : Z) (buckets : Buckets) : logged (bool * Buckets) :=
  (let (admitted, bucket) := try_consume (refilled_bucket config service_name created now buckets) in
   let buckets := <[service_name := bucket]> buckets in
   if admitted then quiet (true, buckets)
   else emit (service_budget_event service_name operation_id) ;! quiet (false, buckets))%logged.

(** One attempt against the registry: the service, the operation, and the clock
    at its start and when the bucket is refilled. *)
Record BudgetCall : Type := {
  call_service : string;
  call_operation : string;
  call_created : Z;
  call_now : Z
}.

(** The attempts of all callers, in the order in which they take the mutex. *)
Fixpoint acquire_all_logged (config : RetryBudgetConfig) (calls : list BudgetCall)
    (buckets : Buckets) : logged (list bool * Buckets) :=
  match calls with
  | [] => quiet ([], buckets)
  | c :: calls' =>
      (let! (admitted, buckets) :=
         try_acquire_logged config (call_service c) (call_operation c) (call_created c)
           (call_now c) buckets in
       let! (answers, buckets) := acquire_all_logged config calls' buckets in
       quiet (admitted :: answers, buckets))%logged
  end.

(** ** Lemmas *)

Section Lemmas.
Context `{RandomApi, MetadataApi}.

Lemma deadline_logged_value b d :
  value (deadline_covers_backoff_logged b d) = deadline_covers_backoff b d.
Proof.
  unfold deadline_covers_backoff_logged, deadline_covers_backoff.
  destruct (u64_try_from _); [|done]. by destruct (_ <=? _).
Qed.

Lemma required_ms_u64 b : required_ms b ≤ u64_max.
Proof. unfold required_ms, saturating_add. lia. Qed.

(** The check logs exactly when it refuses, with the numbers it compared. *)
Lemma deadline_logged_cases b d :
  0 ≤ d →
  deadline_covers_backoff_logged b d =
  if Duration.as_millis d <? required_ms b
  then Logged false [deadline_event (Duration.as_millis d) (required_ms b)] else Logged true [].
Proof.
  intros Hd. unfold deadline_covers_backoff_logged, u64_try_from.
  assert (0 ≤ Duration.as_millis d) by (unfold Duration.as_millis; apply Z.div_pos; zlia).
  pose proof (required_ms_u64 b) as Hr. case_bool_decide as Hu; unfold u64 in Hu.
  - by destruct (Z.leb_spec (required_ms b) (Duration.as_millis d));
      destruct (Z.ltb_spec (Duration.as_millis d) (required_ms b)); try lia.
  - destruct (Z.ltb_spec (Duration.as_millis d) (required_ms b)); [lia|done].
Qed.

Lemma should_retry_logged_value policy code attempt budget d :
  value (should_retry_with_deadline_logged policy code attempt budget d) =
  should_retry_with_deadline policy code attempt budget d.
Proof.
  unfold should_retry_with_deadline_logged, should_retry_with_deadline.
  repeat (destruct (_ : bool); [done|]). rewrite value_bind, deadline_logged_value.
  destruct (deadline_covers_backoff _ _); [|done]. simpl.
  by destruct (Tracker.consume budget) as [[] ?].
Qed.

Lemma pushback_logged_value policy status attempt budget admission d :
  value (should_retry_call_with_pushback_logged policy status attempt budget admission d) =
  should_retry_call_with_pushback policy status attempt budget admission d.
Proof.
  unfold should_retry_call_with_pushback_logged, should_retry_call_with_pushback.
  destruct (negb (allows_retry_metadata admission)); [done|].
  destruct (max_attempts policy <=? attempt); [done|].
  fold (governing_pushback status). fold (code_gate policy status).
  destruct (negb (code_gate policy status)); [done|]. rewrite value_bind, deadline_logged_value.
  destruct (deadline_covers_backoff _ _); [|done]. simpl.
  by destruct (Tracker.consume budget) as [[] ?].
Qed.

Lemma try_acquire_logged_value config s operation created now buckets :
  value (try_acquire_logged config s operation created now buckets) =
  try_acquire config s created now buckets.
Proof.
  unfold try_acquire_logged, try_acquire. by destruct (try_consume _) as [[] ?].
Qed.

Lemma try_acquire_logged_events config s operation created now buckets :
  events (try_acquire_logged config s operation created now buckets) =
  if (try_acquire config s created now buckets).1 then [] else [service_budget_event s operation].
Proof.
  unfold try_acquire_logged, try_acquire. by destruct (try_consume _) as [[] ?].
Qed.

(** A call that only its deadline or its budget can stop, and the delay its
    retry would have. *)
Record eligible (policy : RetryPolicy) (status : Status.t) (attempt : Z)
    (admission : RetryAdmission) (b : Z) : Prop := {
  el_admitted :
    method_requires_idempotency admission = true → has_idempotency_key admission = true;
  el_attempt : attempt < max_attempts policy;
  el_code : Status.code status ∈ retryable_codes policy;
  el_pushback :
    Status.code status = Code.ResourceExhausted →
    ∃ ms, extract_retry_pushback_ms status = Some ms ∧ b = Z.min ms (max_backoff_ms policy);
  el_jitter :
    Status.code status ≠ Code.ResourceExhausted → b = retry_backoff_ms policy attempt
}.

Lemma eligible_gates policy status attempt admission b :
  eligible policy status attempt admission b ↔
  allows_retry_metadata admission = true ∧ (max_attempts policy <=? attempt) = false ∧
  code_gate policy status = true ∧
  b = effective_retry_backoff_ms policy attempt (governing_pushback status).
Proof.
  rewrite code_gate_spec, admission_spec, Z.leb_gt. split; [by intros []|].
  by intros (?&?&?&?&?).
Qed.
End Lemmas.

(** ** Properties *)

(** the retry decision reports what it refuses: a call that is admitted, below
    its attempt limit, retryable and pushed back if it has to be logs one
    warning with the remaining and the required milliseconds when its deadline
    is too short, one with the attempt when its budget is spent, and nothing
    when it is retried; a call stopped earlier logs nothing; and the decision
    is that of the function without its log. *)
Theorem retry_refusals_reported `{RandomApi, MetadataApi} policy status attempt budget admission d :
  Tracker.wf budget → 0 ≤ d →
  let r := should_retry_call_with_pushback_logged policy status attempt budget admission d in
  value r = should_retry_call_with_pushback policy status attempt budget admission d ∧
  (∀ b, eligible policy status attempt admission b →
    events r =
      if Duration.as_millis d <? required_ms b
      then [deadline_event (Duration.as_millis d) (required_ms b)]
      else if remaining budget =? 0 then [call_budget_event attempt] else []) ∧
  ((∀ b, ¬ eligible policy status attempt admission b) → events r = []).
Proof.
  intros Hb Hd r. split; [apply pushback_logged_value|]. subst r.
  unfold should_retry_call_with_pushback_logged.
  fold (governing_pushback status). fold (code_gate policy status).
  setoid_rewrite eligible_gates.
  destruct (allows_retry_metadata admission) eqn:Ha; simpl; [|by split; [intros b [? _]|]].
  destruct (max_attempts policy <=? attempt) eqn:Hm; [by split; [intros b (_&?&_)|]|].
  destruct (code_gate policy status) eqn:Hg; simpl; [|by split; [intros b (_&_&?&_)|]].
  split; [intros b (_&_&_&->)|intros Hno; by destruct (Hno _ (conj eq_refl (conj eq_refl (conj eq_refl eq_refl))))].
  rewrite deadline_logged_cases by done. destruct (_ <? _); [done|]. simpl.
  unfold Tracker.consume. by destruct (remaining budget =? 0).
Qed.

(** the deadline-aware decision never reports an exhausted budget: the budget
    has been checked before it is spent, so its warning about it is
    unreachable, and a call refused for its budget leaves no trace. *)
Theorem exhausted_budget_is_silent `{RandomApi} policy code attempt budget d :
  Tracker.wf budget →
  let r := should_retry_with_deadline_logged policy code attempt budget d in
  (call_budget_event attempt ∉ events r) ∧
  (remaining budget = 0 → r = Logged (false, budget) []).
Proof.
  intros Hb r. subst r. unfold should_retry_with_deadline_logged, allows_retry, Tracker.wf, u32 in *.
  destruct (max_attempts policy <=? attempt); [split; [by apply not_elem_of_nil|done]|].
  destruct (0 <? remaining budget) eqn:Hr; simpl; [|split; [by apply not_elem_of_nil|done]].
  destruct (codes_contain _ _); simpl; [|split; [by apply not_elem_of_nil|]]; reflect_bools; [|lia].
  split; [|lia]. unfold Tracker.consume. rewrite (proj2 (Z.eqb_neq (remaining budget) 0)) by lia.
  unfold deadline_covers_backoff_logged. destruct (u64_try_from _); simpl; [|by apply not_elem_of_nil].
  destruct (_ <=? _); simpl; [by apply not_elem_of_nil|]. by rewrite list_elem_of_singleton.
Qed.

(** the cross-call budget reports every refusal and nothing else: after any
    sequence of attempts on any services, the log holds one warning per refused
    attempt, in their order, each naming its service and its operation. *)
Theorem budget_refusals_reported config calls buckets :
  let r := acquire_all_logged config calls buckets in
  length (value r).1 = length calls ∧
  events r =
    (λ ca, service_budget_event (call_service ca.1) (call_operation ca.1)) <$>
      filter (λ ca, ca.2 = false) (zip calls (value r).1).
Proof.
  simpl. revert buckets. induction calls as [|c calls IH]; intros buckets; [done|].
  cbn [acquire_all_logged]. rewrite !value_bind, events_bind, try_acquire_logged_events.
  rewrite try_acquire_logged_value.
  destruct (try_acquire config _ _ _ buckets) as [admitted buckets'].
  destruct (IH buckets') as [Hlen Hev].
  rewrite value_bind, events_bind.
  destruct (value (acquire_all_logged config calls buckets')) as [answers buckets''].
  simpl in *. rewrite Hev, Hlen, app_nil_r. split; [done|]. by destruct admitted.
Qed.

(** ** Witnesses *)

Lemma retry_refusals_reported_witness :
  events (@should_retry_call_with_pushback_logged toy_random toy_metadata
    (for_profile ResilienceProfile.RpcDefault) (example_status Code.Unavailable ∅) 1
    (Tracker.new 0) plain_admission (Duration.from_secs 10)) = [call_budget_event 1].
Proof.
  destruct (@retry_refusals_reported toy_random toy_metadata
    (for_profile ResilienceProfile.RpcDefault) (example_status Code.Unavailable ∅) 1
    (Tracker.new 0) plain_admission (Duration.from_secs 10)) as (_ & Hev & _).
  - by_compute.
  - by_compute.
  - rewrite (Hev 50); [reflexivity|]. split; [done|done| |done|reflexivity].
    apply list_elem_of_singleton. reflexivity.
Defined.

Lemma exhausted_budget_is_silent_witness :
  @should_retry_with_deadline_logged toy_random (for_profile ResilienceProfile.RpcDefault)
    Code.Unavailable 1 (Tracker.new 0) (Duration.from_secs 10) = Logged (false, Tracker.new 0) [].
Proof.
  apply (@exhausted_budget_is_silent toy_random (for_profile ResilienceProfile.RpcDefault)
    Code.Unavailable 1 (Tracker.new 0) (Duration.from_secs 10)); by_compute.
Defined.
