(* ===== verification/Testing.v ===== *)
(** * Testing: unit tests as definitions

    A Rust unit test is translated to a boolean: [true] when no assertion
    fails and nothing panics. The files named [Tests...] hold the tests of a
    crate and the theorems that they pass. *)
From S2P Require Import Prelude.

(** All the assertions of a test. *)
Definition asserts (checks : list bool) : bool := forallb id checks.

(** [expect] and [unwrap]: the rest of a test runs on the value or panics. *)
Definition expect_some {A} (o : option A) (rest : A → bool) : bool :=
  match o with Some a => rest a | None => false end.
Definition expect_ok {E A} (r : result E A) (rest : A → bool) : bool :=
  match r with Ok a => rest a | Err _ => false end.
Definition expect_err {E A} (r : result E A) (rest : E → bool) : bool :=
  match r with Ok _ => false | Err e => rest e end.

(** [assert_eq!]. *)
Definition assert_eq {A} `{EqDecision A} (x y : A) : bool := bool_decide (x = y).

Lemma asserts_spec checks : asserts checks = true ↔ Forall (λ b, b = true) checks.
Proof.
  unfold asserts. rewrite forallb_forall, Forall_forall.
  by setoid_rewrite list_elem_of_In.
Qed.

Lemma assert_eq_spec {A} `{EqDecision A} (x y : A) : assert_eq x y = true ↔ x = y.
Proof. apply bool_decide_eq_true. Qed.

(** Splits a test into its assertions. *)
Ltac by_asserts :=
  apply asserts_spec; repeat (apply Forall_cons; split);
  rewrite ?assert_eq_spec; try apply Forall_nil; try reflexivity.

(** [is_err]. *)
Definition is_err {E A} (r : result E A) : bool := negb (is_ok r).
