(* ===== verification/TestsResilience.v ===== *)
(** * TestsResilience: the unit tests of [sdkwork-rpc-resilience]

    The [#[cfg(test)]] modules of [lib.rs], [backoff.rs], [idempotency.rs] and
    [pushback.rs], translated next to the code they test: a test is a boolean
    that is [true] when no assertion fails and nothing panics. Draws of the
    random generator and the metadata map are parameters, so a test that
    passes here passes for every draw. The tests of the circuit breaker are in
    [BreakerTests]. *)
From S2P Require Import Prelude RustStd Core Interfaces Testing Retry.

(** ** [lib.rs] *)

Module LibTests.
Definition critical_write_profile_does_not_retry : bool :=
  let policy := for_profile ResilienceProfile.RpcCriticalWrite in
  asserts [negb (allows_retry policy Code.Unavailable 10)].

Definition default_profile_retries_unavailable_within_budget : bool :=
  let policy := for_profile ResilienceProfile.RpcDefault in
  asserts [allows_retry policy Code.Unavailable 1;
           negb (allows_retry policy Code.InvalidArgument 1)].

Section Draws.
Context `{RandomApi}.

Definition should_retry_respects_budget_and_attempt_limits : bool :=
  let policy := for_profile ResilienceProfile.RpcDefault in
  let budget := Tracker.new 1 in
  let (first, budget) := should_retry policy Code.Unavailable 1 budget in
  let (second, budget) := should_retry policy Code.Unavailable 2 budget in
  asserts [first; negb second].

Definition should_retry_with_deadline_skips_when_remaining_is_insufficient : bool :=
  let policy := for_profile ResilienceProfile.RpcDefault in
  let budget := Tracker.new 10 in
  let (retried, budget) :=
    should_retry_with_deadline policy Code.Unavailable 1 budget (Duration.from_millis 1) in
  asserts [negb retried; assert_eq (remaining budget) 10].

Definition should_retry_with_deadline_proceeds_when_remaining_is_sufficient : bool :=
  let policy := for_profile ResilienceProfile.RpcDefault in
  let budget := Tracker.new 10 in
  let (retried, budget) :=
    should_retry_with_deadline policy Code.Unavailable 1 budget (Duration.from_secs 10) in
  asserts [retried; assert_eq (remaining budget) 9].
End Draws.
End LibTests.

(** ** [backoff.rs] *)

Module BackoffTests.
(** [r1] and [r2] are the generators of the two jittered calls. *)
Definition backoff_grows_with_attempts_and_stays_bounded (r1 r2 : RandomApi) : bool :=
  let policy := for_profile ResilienceProfile.RpcDefault in
  let first := @retry_backoff_ms r1 policy 1 in
  let later := @retry_backoff_ms r2 policy 4 in
  asserts [later <=? max_backoff_ms policy; first <=? max_backoff_ms policy;
           assert_eq (@retry_backoff_ms r1 policy 0) (initial_backoff_ms policy)].

(** [rngs] has the generators of the 32 calls. *)
Definition backoff_jitter_is_non_deterministic_across_calls (rngs : list RandomApi) : bool :=
  let policy := for_profile ResilienceProfile.RpcDefault in
  let distinct := remove_dups ((λ rng, @retry_backoff_ms rng policy 3) <$> rngs) in
  asserts [(1 <? length distinct)%nat].
End BackoffTests.

(** ** [idempotency.rs] *)

Module IdempotencyTests.
Section Draws.
Context `{RandomApi}.

Definition blocks_retry_without_idempotency_key_when_required : bool :=
  let policy := for_profile ResilienceProfile.RpcIdempotentWrite in
  let budget := Tracker.new 10 in
  let admission :=
    {| method_requires_idempotency := true; has_idempotency_key := false |} in
  asserts [negb (should_retry_call policy Code.Unavailable 1 budget admission).1].

Definition allows_retry_when_idempotency_key_is_present : bool :=
  let policy := for_profile ResilienceProfile.RpcIdempotentWrite in
  let budget := Tracker.new 10 in
  let admission := {| method_requires_idempotency := true; has_idempotency_key := true |} in
  asserts [(should_retry_call policy Code.Unavailable 1 budget admission).1].

Definition should_retry_call_with_deadline_skips_when_remaining_is_insufficient : bool :=
  let policy := for_profile ResilienceProfile.RpcDefault in
  let budget := Tracker.new 10 in
  let admission :=
    {| method_requires_idempotency := false; has_idempotency_key := false |} in
  let (retried, budget) :=
    should_retry_call_with_deadline policy Code.Unavailable 1 budget admission
      (Duration.from_millis 1) in
  asserts [negb retried; assert_eq (remaining budget) 10].

Definition should_retry_call_with_deadline_still_enforces_idempotency_admission : bool :=
  let policy := for_profile ResilienceProfile.RpcIdempotentWrite in
  let budget := Tracker.new 10 in
  let admission :=
    {| method_requires_idempotency := true; has_idempotency_key := false |} in
  let (retried, budget) :=
    should_retry_call_with_deadline policy Code.Unavailable 1 budget admission
      (Duration.from_secs 10) in
  asserts [negb retried; assert_eq (remaining budget) 10].

Definition should_retry_call_with_deadline_proceeds_when_admission_and_deadline_ok : bool :=
  let policy := for_profile ResilienceProfile.RpcIdempotentWrite in
  let budget := Tracker.new 10 in
  let admission := {| method_requires_idempotency := true; has_idempotency_key := true |} in
  let (retried, budget) :=
    should_retry_call_with_deadline policy Code.Unavailable 1 budget admission
      (Duration.from_secs 10) in
  asserts [retried; assert_eq (remaining budget) 9].
End Draws.
End IdempotencyTests.

(** ** [pushback.rs] *)

Module PushbackTests.
Section Draws.
Context `{RandomApi, MetadataApi}.

(** [None] when the value does not parse and [unwrap] panics. *)
Definition status_with (code : Code.t) (pushback : option string) : option Status.t :=
  let metadata := metadata_new in
  metadata ←
    match pushback with
    | Some value =>
        v ← value_try_from value;
        Some (metadata_insert GRPC_RETRY_PUSHBACK_MS v metadata)
    | None => Some metadata
    end;
  Some {| Status.code := code; Status.message := "test"; Status.metadata := metadata |}.

Definition extract_pushback_parses_valid_ascii_ms : bool :=
  expect_some (status_with Code.ResourceExhausted (Some "250")) (λ status,
  asserts [assert_eq (extract_retry_pushback_ms status) (Some 250)]).

Definition extract_pushback_returns_none_when_trailer_absent : bool :=
  expect_some (status_with Code.ResourceExhausted None) (λ status,
  asserts [assert_eq (extract_retry_pushback_ms status) None]).

Definition extract_pushback_returns_none_for_non_numeric : bool :=
  expect_some (status_with Code.ResourceExhausted (Some "soon")) (λ status,
  asserts [assert_eq (extract_retry_pushback_ms status) None]).

Definition effective_backoff_uses_pushback_clamped_to_max : bool :=
  let policy := for_profile ResilienceProfile.RpcReadOnly in
  asserts [assert_eq (effective_retry_backoff_ms policy 1 (Some 100)) 100;
           assert_eq (effective_retry_backoff_ms policy 1 (Some 10000)) (max_backoff_ms policy)].

Definition effective_backoff_falls_back_to_jitter_when_pushback_absent : bool :=
  let policy := for_profile ResilienceProfile.RpcDefault in
  let backoff := effective_retry_backoff_ms policy 0 None in
  asserts [assert_eq backoff (initial_backoff_ms policy)].

Definition no_idempotency : RetryAdmission :=
  {| method_requires_idempotency := false; has_idempotency_key := false |}.

Definition resource_exhausted_not_retryable_without_pushback : bool :=
  let policy := for_profile ResilienceProfile.RpcReadOnly in
  let budget := Tracker.new 10 in
  expect_some (status_with Code.ResourceExhausted None) (λ status,
  let (decision, budget) :=
    should_retry_call_with_pushback policy status 1 budget no_idempotency
      (Duration.from_secs 10) in
  asserts [assert_eq decision Stop; assert_eq (remaining budget) 10]).

Definition resource_exhausted_retryable_with_pushback : bool :=
  let policy := for_profile ResilienceProfile.RpcReadOnly in
  let budget := Tracker.new 10 in
  expect_some (status_with Code.ResourceExhausted (Some "100")) (λ status,
  let (decision, budget) :=
    should_retry_call_with_pushback policy status 1 budget no_idempotency
      (Duration.from_secs 10) in
  match decision with
  | Retry backoff_ms => asserts [assert_eq backoff_ms 100; assert_eq (remaining budget) 9]
  | Stop => false
  end).

Definition unavailable_ignores_pushback_and_uses_jitter : bool :=
  let policy := for_profile ResilienceProfile.RpcDefault in
  let budget := Tracker.new 10 in
  expect_some (status_with Code.Unavailable (Some "99999")) (λ status,
  let (decision, budget) :=
    should_retry_call_with_pushback policy status 0 budget no_idempotency
      (Duration.from_secs 10) in
  match decision with
  | Retry backoff_ms =>
      asserts [assert_eq backoff_ms (initial_backoff_ms policy); assert_eq (remaining budget) 9]
  | Stop => false
  end).

Definition pushback_skips_when_deadline_insufficient : bool :=
  let policy := for_profile ResilienceProfile.RpcReadOnly in
  let budget := Tracker.new 10 in
  expect_some (status_with Code.ResourceExhausted (Some "100")) (λ status,
  let (decision, budget) :=
    should_retry_call_with_pushback policy status 1 budget no_idempotency
      (Duration.from_millis 1) in
  asserts [assert_eq decision Stop; assert_eq (remaining budget) 10]).

Definition idempotency_admission_still_enforced_with_pushback : bool :=
  let policy := for_profile ResilienceProfile.RpcIdempotentWrite in
  let budget := Tracker.new 10 in
  let admission :=
    {| method_requires_idempotency := true; has_idempotency_key := false |} in
  expect_some (status_with Code.Unavailable None) (λ status,
  let (decision, budget) :=
    should_retry_call_with_pushback policy status 1 budget admission
      (Duration.from_secs 10) in
  asserts [assert_eq decision Stop; assert_eq (remaining budget) 10]).
End Draws.
End PushbackTests.

(** ** The tests pass *)

Section Pass.
Context `{RandomApi, !RandomLaws, MetadataApi, !MetadataLaws}.

(** The first retry of the default policies fits ten seconds and not one
    millisecond, whatever is drawn. *)
Lemma first_retry_backoff profile :
  0 ≤ retry_backoff_ms (for_profile profile) 1 ≤ 100.
Proof.
  unfold retry_backoff_ms. change (1 =? 0) with false. cbn match.
  destruct profile; cbn [Z.eqb backoff_base initial_backoff_ms max_backoff_ms for_profile];
    match goal with |- context [random_range 0 ?b] =>
      let b' := eval vm_compute in b in
      change b with b'; pose proof (random_range_bounds 0 b'); simpl; lia end.
Qed.

Lemma covers_ten_seconds b : 0 ≤ b ≤ 100 → deadline_covers_backoff b (Duration.from_secs 10) = true.
Proof.
  intros Hb. unfold deadline_covers_backoff.
  change (u64_try_from (Duration.as_millis (Duration.from_secs 10))) with (Some 10000).
  unfold required_ms, MIN_RPC_DEADLINE_RESERVE_MS. apply Z.leb_le. zlia.
Qed.

Lemma one_ms_never_covers b : 0 ≤ b ≤ 100 → deadline_covers_backoff b (Duration.from_millis 1) = false.
Proof.
  intros Hb. unfold deadline_covers_backoff.
  change (u64_try_from (Duration.as_millis (Duration.from_millis 1))) with (Some 1).
  unfold required_ms, MIN_RPC_DEADLINE_RESERVE_MS. apply Z.leb_gt. zlia.
Qed.

Lemma covers_max b : deadline_covers_backoff b Duration.MAX = true.
Proof. done. Qed.

Theorem lib_tests_pass :
  asserts
    [LibTests.critical_write_profile_does_not_retry;
     LibTests.default_profile_retries_unavailable_within_budget;
     LibTests.should_retry_respects_budget_and_attempt_limits;
     LibTests.should_retry_with_deadline_skips_when_remaining_is_insufficient;
     LibTests.should_retry_with_deadline_proceeds_when_remaining_is_sufficient] = true.
Proof.
  pose proof (first_retry_backoff ResilienceProfile.RpcDefault) as Hb.
  by_asserts.
  - unfold LibTests.should_retry_with_deadline_skips_when_remaining_is_insufficient,
      should_retry_with_deadline. by rewrite one_ms_never_covers.
  - unfold LibTests.should_retry_with_deadline_proceeds_when_remaining_is_sufficient,
      should_retry_with_deadline. by rewrite covers_ten_seconds.
Qed.

Theorem idempotency_tests_pass :
  asserts
    [IdempotencyTests.blocks_retry_without_idempotency_key_when_required;
     IdempotencyTests.allows_retry_when_idempotency_key_is_present;
     IdempotencyTests.should_retry_call_with_deadline_skips_when_remaining_is_insufficient;
     IdempotencyTests.should_retry_call_with_deadline_still_enforces_idempotency_admission;
     IdempotencyTests.should_retry_call_with_deadline_proceeds_when_admission_and_deadline_ok]
  = true.
Proof.
  pose proof (first_retry_backoff ResilienceProfile.RpcDefault) as Hd.
  pose proof (first_retry_backoff ResilienceProfile.RpcIdempotentWrite) as Hw.
  by_asserts.
  - unfold IdempotencyTests.should_retry_call_with_deadline_skips_when_remaining_is_insufficient,
      should_retry_call_with_deadline, should_retry_with_deadline. by rewrite one_ms_never_covers.
  - unfold
      IdempotencyTests.should_retry_call_with_deadline_proceeds_when_admission_and_deadline_ok,
      should_retry_call_with_deadline, should_retry_with_deadline. by rewrite covers_ten_seconds.
Qed.

Lemma status_with_some code text :
  visible_ascii text = true →
  ∃ st, PushbackTests.status_with code (Some text) = Some st ∧ Status.code st = code ∧
        extract_retry_pushback_ms st = parse_u64 text.
Proof.
  intros Hv. destruct (value_try_from_visible text Hv) as [v Hp].
  unfold PushbackTests.status_with. rewrite Hp. cbn. eexists. split_and!; [done..|].
  unfold extract_retry_pushback_ms. cbn.
  rewrite metadata_get_insert by done. cbn. by rewrite (value_to_str_try_from text v).
Qed.

Lemma extract_none code msg :
  extract_retry_pushback_ms {| Status.code := code; Status.message := msg;
                               Status.metadata := metadata_new |} = None.
Proof. unfold extract_retry_pushback_ms. cbn. by rewrite metadata_get_new. Qed.

(** Replaces the status a test builds by what is known about it. *)
Ltac with_status code text :=
  let st := fresh "st" in let Hst := fresh in let Hc := fresh in let He := fresh in
  destruct (status_with_some code text) as (st & Hst & Hc & He); [reflexivity|];
  rewrite Hst; cbn [expect_some]; unfold should_retry_call_with_pushback;
  rewrite ?Hc, ?He.

Theorem pushback_tests_pass :
  asserts
    [PushbackTests.extract_pushback_parses_valid_ascii_ms;
     PushbackTests.extract_pushback_returns_none_when_trailer_absent;
     PushbackTests.extract_pushback_returns_none_for_non_numeric;
     PushbackTests.effective_backoff_uses_pushback_clamped_to_max;
     PushbackTests.effective_backoff_falls_back_to_jitter_when_pushback_absent;
     PushbackTests.resource_exhausted_not_retryable_without_pushback;
     PushbackTests.resource_exhausted_retryable_with_pushback;
     PushbackTests.unavailable_ignores_pushback_and_uses_jitter;
     PushbackTests.pushback_skips_when_deadline_insufficient;
     PushbackTests.idempotency_admission_still_enforced_with_pushback] = true.
Proof.
  by_asserts.
  - unfold PushbackTests.extract_pushback_parses_valid_ascii_ms.
    by with_status Code.ResourceExhausted "250".
  - unfold PushbackTests.extract_pushback_returns_none_when_trailer_absent. cbn.
    by rewrite extract_none.
  - unfold PushbackTests.extract_pushback_returns_none_for_non_numeric.
    by with_status Code.ResourceExhausted "soon".
  - unfold PushbackTests.resource_exhausted_not_retryable_without_pushback. cbn.
    unfold should_retry_call_with_pushback. cbn. by rewrite extract_none.
  - unfold PushbackTests.resource_exhausted_retryable_with_pushback.
    by with_status Code.ResourceExhausted "100".
  - unfold PushbackTests.unavailable_ignores_pushback_and_uses_jitter.
    by with_status Code.Unavailable "99999".
  - unfold PushbackTests.pushback_skips_when_deadline_insufficient.
    by with_status Code.ResourceExhausted "100".
Qed.
End Pass.

Theorem backoff_bound_test_passes (r1 r2 : RandomApi) :
  @RandomLaws r1 → @RandomLaws r2 →
  BackoffTests.backoff_grows_with_attempts_and_stays_bounded r1 r2 = true.
Proof.
  intros H1 H2. unfold BackoffTests.backoff_grows_with_attempts_and_stays_bounded.
  pose proof (@random_range_bounds r1 H1 0 50). pose proof (@random_range_bounds r2 H2 0 400).
  by_asserts; apply Z.leb_le;
    [change (@random_range r2 0 400 <= 2000)|change (@random_range r1 0 50 <= 2000)]; lia.
Qed.

(** The jitter test asks for two different draws of the range 0..=200; it
    passes exactly when the generator gives them. *)
Theorem jitter_test_passes_iff (rngs : list RandomApi) :
  BackoffTests.backoff_jitter_is_non_deterministic_across_calls rngs = true ↔
  ∃ r1 r2, r1 ∈ rngs ∧ r2 ∈ rngs ∧ @random_range r1 0 200 ≠ @random_range r2 0 200.
Proof.
  unfold BackoffTests.backoff_jitter_is_non_deterministic_across_calls, asserts. cbn [forallb].
  rewrite andb_true_r. unfold id. rewrite Nat.ltb_lt.
  set (draw := λ rng : RandomApi, @retry_backoff_ms rng _ 3).
  assert (∀ r, draw r = @random_range r 0 200) as Hdraw by done.
  pose proof (NoDup_remove_dups (draw <$> rngs)) as Hnd.
  assert (∀ x, x ∈ remove_dups (draw <$> rngs) ↔ ∃ r, x = draw r ∧ r ∈ rngs) as Hin.
  { intros x. by rewrite elem_of_remove_dups, list_elem_of_fmap. }
  destruct (remove_dups (draw <$> rngs)) as [|x [|y l]]; simpl.
  - split; [lia|]. intros (r1 & _ & H1 & _). exfalso.
    apply (not_elem_of_nil (draw r1)), Hin. by exists r1.
  - split; [lia|]. intros (r1 & r2 & H1 & H2 & Hne). exfalso. apply Hne.
    rewrite <- !Hdraw.
    assert (draw r1 = x) as -> by (apply list_elem_of_singleton, Hin; by exists r1).
    symmetry. apply list_elem_of_singleton, Hin. by exists r2.
  - split; [intros _|lia].
    destruct (proj1 (Hin x)) as (r1 & -> & H1); [by left|].
    destruct (proj1 (Hin y)) as (r2 & -> & H2); [by right; left|].
    exists r1, r2. split_and!; [done..|]. rewrite <- !Hdraw.
    apply NoDup_cons in Hnd as [Hx _]. set_solver.
Qed.
