(* ===== verification/TestsCore.v ===== *)
(** * TestsCore: the unit tests of [sdkwork-rpc-framework-core]

    The test modules of [identity.rs], [surface.rs], [service_identity.rs] and
    [caller_context.rs]. The certificates [rcgen] makes, the codec and the
    UUID draw are parameters with their documented behaviour. *)
From S2P Require Import Prelude RustStd Core Interfaces ServiceIdentity CallerContext Testing.

(** ** [identity.rs] and [surface.rs] *)

Module IdentityTests.
Definition builds_canonical_identity_uri : bool :=
  let uri := build_rpc_identity_uri
    {| Core.namespace := "acme"; Core.environment := "production"; Core.rpc_surface := "internal";
       Core.proto_package := "sdkwork.communication.internal.v1";
       Core.service := "RoomOrchestrationService"; Core.method := "CreateRoom";
       Core.operation_id := "rooms.create" |} in
  asserts [assert_eq uri
    "sdkwork-rpc://acme/production/internal/sdkwork.communication.internal.v1/RoomOrchestrationService/CreateRoom?operationId=rooms.create"].
End IdentityTests.

Module SurfaceTests.
Definition accepts_canonical_surfaces : bool :=
  expect_ok (validate_rpc_surface "internal") (λ surface,
  asserts [assert_eq surface RpcSurface.Internal; is_err (validate_rpc_surface "public")]).
End SurfaceTests.

(** ** [service_identity.rs] *)

(** [certificate_with_sans] is a self-signed certificate with the given
    alternative names, in DER; the hash is 64 hexadecimal digits. *)
Class CertificateAuthority `{X509Api} : Type := {
  certificate_with_sans : list GeneralName → bytes
}.
Class CertificateLaws `{CertificateAuthority} : Prop := {
  certificate_parses sans :
    ∃ c, x509_from_der (certificate_with_sans sans) = Ok c ∧
         x509_subject_alternative_name c = Ok (Some sans);
  sha256_hash_len b : str_len (sha256_hash b) = 64
}.

Module ServiceIdentityTests.
Section Certificates.
Context `{CertificateAuthority}.

Definition derives_allowed_spiffe_service_identity_from_certificate : bool :=
  let der := certificate_with_sans
    [URI "spiffe://sdkwork.internal/sdkwork/service/sdkwork-knowledgebase"] in
  expect_ok (policy_new "sdkwork.internal" ["sdkwork-knowledgebase"]) (λ policy,
  expect_ok (verify_tls_peer_certificate_der policy der) (λ identity,
  asserts [assert_eq (service_id identity) "sdkwork-knowledgebase";
           assert_eq (trust_domain identity) "sdkwork.internal";
           assert_eq (str_len (certificate_sha256 identity)) 64])).

Definition rejects_ambiguous_or_untrusted_spiffe_identity : bool :=
  let ambiguous := certificate_with_sans
    [URI "spiffe://sdkwork.internal/sdkwork/service/sdkwork-knowledgebase";
     URI "spiffe://sdkwork.internal/sdkwork/service/sdkwork-im"] in
  expect_ok (policy_new "sdkwork.internal" ["sdkwork-knowledgebase"]) (λ policy,
  let wrong_domain := certificate_with_sans
    [URI "spiffe://other.internal/sdkwork/service/sdkwork-knowledgebase"] in
  asserts [is_err (verify_tls_peer_certificate_der policy ambiguous);
           is_err (verify_tls_peer_certificate_der policy wrong_domain)]).
End Certificates.
End ServiceIdentityTests.

(** ** [caller_context.rs] *)

(** [[b; 32]]. *)
Definition byte_array (n : nat) (b : ascii) : bytes :=
  Nat.iter n (String b) "".

(** The text of an unpadded encoding is as long as the encoding of what it
    decodes to. *)
Class CodecLengthLaws `{CodecApi} : Prop := {
  base64url_decode_len s b :
    base64url_decode s = Some b → str_len s = str_len (base64url_encode b)
}.

Module CallerContextTests.
Definition KEY : bytes := byte_array 32 "007".

Definition caller_context : RpcFrameworkResult RpcCallerContext.t :=
  Builder.build
    (Builder.set_audience_service_id "sdkwork-im"
    (Builder.set_idempotency_key "idempotency-1"
    (Builder.set_trace_id "trace-1"
    (Builder.set_request_id "request-1"
    (Builder.set_session_id "session-1"
    (Builder.set_actor_kind User
    (Builder.set_actor_id "300001"
    (Builder.set_organization_id "200001"
    (Builder.set_tenant_id "100001" Builder.default))))))))).

Definition peer_identity : VerifiedRpcServiceIdentity :=
  {| service_id := "sdkwork-knowledgebase"; trust_domain := "sdkwork.internal";
     spiffe_uri := "spiffe://sdkwork.internal/sdkwork/service/sdkwork-knowledgebase";
     certificate_sha256 := byte_array 64 "a" |}.

Section Codec.
Context `{CodecApi, PayloadJsonApi}.
Context (uuid : string).

Definition signs_and_verifies_context_bound_to_peer_and_idempotency_key : bool :=
  expect_ok (from_secret_bytes KEY) (λ key,
  expect_ok (signer_new "sdkwork-knowledgebase" key) (λ signer,
  let now := Duration.from_secs 1700000000 in
  expect_ok caller_context (λ context,
  expect_ok (sign_at signer context (Duration.from_secs 60) now uuid) (λ signed,
  expect_ok (verifier_new "sdkwork-im" [("sdkwork-knowledgebase", key)]) (λ verifier,
  expect_ok (verify verifier signed peer_identity (Some "idempotency-1") now) (λ verified,
  asserts [assert_eq (VerifiedRpcCallerContext.actor_id verified) "300001";
           assert_eq (VerifiedRpcCallerContext.issuer_service_id verified)
             "sdkwork-knowledgebase"])))))).

Definition rejects_signature_tampering_peer_mismatch_and_expired_context : bool :=
  expect_ok (from_secret_bytes KEY) (λ key,
  expect_ok (signer_new "sdkwork-knowledgebase" key) (λ signer,
  let now := Duration.from_secs 1700000000 in
  expect_ok caller_context (λ context,
  expect_ok (sign_at signer context (Duration.from_secs 60) now uuid) (λ signed,
  expect_ok (verifier_new "sdkwork-im" [("sdkwork-knowledgebase", key)]) (λ verifier,
  let tampered :=
    {| encoded_context := encoded_context signed; signature := signature signed +:+ "A" |} in
  let wrong_peer :=
    {| service_id := "sdkwork-other"; trust_domain := trust_domain peer_identity;
       spiffe_uri := spiffe_uri peer_identity;
       certificate_sha256 := certificate_sha256 peer_identity |} in
  asserts
    [is_err (verify verifier tampered peer_identity (Some "idempotency-1") now);
     is_err (verify verifier signed wrong_peer (Some "idempotency-1") now);
     is_err (verify verifier signed peer_identity (Some "idempotency-1")
               (now + Duration.from_secs 91))]))))).
End Codec.
End CallerContextTests.

(** ** The tests pass *)

Theorem surface_and_identity_tests_pass :
  asserts [IdentityTests.builds_canonical_identity_uri; SurfaceTests.accepts_canonical_surfaces]
  = true.
Proof. by vm_compute. Qed.

Section Certificates.
Context `{CertificateAuthority, !CertificateLaws}.

Theorem service_identity_tests_pass :
  asserts
    [ServiceIdentityTests.derives_allowed_spiffe_service_identity_from_certificate;
     ServiceIdentityTests.rejects_ambiguous_or_untrusted_spiffe_identity] = true.
Proof.
  by_asserts.
  - unfold ServiceIdentityTests.derives_allowed_spiffe_service_identity_from_certificate,
      verify_tls_peer_certificate_der.
    destruct (certificate_parses
      [URI "spiffe://sdkwork.internal/sdkwork/service/sdkwork-knowledgebase"]) as (c & Hc & Hn).
    rewrite Hc. cbn -[certificate_with_sans asserts]. rewrite Hn.
    cbn -[certificate_with_sans asserts str_len]. by_asserts. apply sha256_hash_len.
  - unfold ServiceIdentityTests.rejects_ambiguous_or_untrusted_spiffe_identity,
      verify_tls_peer_certificate_der.
    destruct (certificate_parses
      [URI "spiffe://sdkwork.internal/sdkwork/service/sdkwork-knowledgebase";
       URI "spiffe://sdkwork.internal/sdkwork/service/sdkwork-im"]) as (c & Hc & Hn).
    destruct (certificate_parses
      [URI "spiffe://other.internal/sdkwork/service/sdkwork-knowledgebase"]) as (d & Hd & Hm).
    rewrite Hc, Hd. cbn -[certificate_with_sans]. by rewrite Hn, Hm.
Qed.
End Certificates.

Section CallerContext.
Context `{CodecApi, PayloadJsonApi, !CodecLaws, !PayloadJsonLaws, !CodecLengthLaws}.
Context (uuid : string) (Huuid : valid_identifier uuid).

(** The fixtures of the tests. *)
Definition issuer_signer : RpcCallerContextSigner :=
  {| signer_issuer_service_id := "sdkwork-knowledgebase"; signing_key := CallerContextTests.KEY;
     signer_max_ttl := MAX_CALLER_CONTEXT_TTL |}.
Definition im_verifier : RpcCallerContextVerifier :=
  {| verifier_audience_service_id := "sdkwork-im";
     issuer_keys := {["sdkwork-knowledgebase" := CallerContextTests.KEY]};
     verifier_max_ttl := MAX_CALLER_CONTEXT_TTL; max_clock_skew := MAX_CLOCK_SKEW |}.

Lemma key_builds : from_secret_bytes CallerContextTests.KEY = Ok CallerContextTests.KEY.
Proof. done. Qed.
Lemma signer_builds :
  signer_new "sdkwork-knowledgebase" CallerContextTests.KEY = Ok issuer_signer.
Proof. done. Qed.
Lemma context_builds : CallerContextTests.caller_context = Ok test_context.
Proof. done. Qed.
Lemma verifier_builds :
  verifier_new "sdkwork-im"
    [("sdkwork-knowledgebase", CallerContextTests.KEY : RpcCallerContextSigningKey)]
  = Ok im_verifier.
Proof. by vm_compute. Qed.

(** What the fixtures sign and how they verify it. *)
Lemma fixture_signs :
  ∃ signed text mac,
    sign_at issuer_signer test_context (Duration.from_secs 60) test_now uuid = Ok signed ∧
    encoded_context signed = base64url_encode text ∧
    payload_from_slice text =
      Ok (sign_payload issuer_signer test_context 1700000000 1700000060 uuid) ∧
    signature signed = base64url_encode mac ∧
    verify im_verifier signed CallerContextTests.peer_identity (Some "idempotency-1") test_now =
      Ok (verified_of_payload
            (sign_payload issuer_signer test_context 1700000000 1700000060 uuid)).
Proof using Type*.
  destruct (sign_at_Ok issuer_signer test_context (Duration.from_secs 60) test_now uuid)
    as (signed & text & Hs & Henc & Hsig & Hpay & _); [by_compute| |done|done|by_compute..|].
  { by apply (build_Ok test_builder), test_builder_builds. }
  destruct (sign_then_verify "sdkwork-knowledgebase" CallerContextTests.KEY issuer_signer
    test_builder test_context 60 uuid "sdkwork-im"
    [("sdkwork-knowledgebase", CallerContextTests.KEY)] im_verifier
    CallerContextTests.peer_identity test_now test_now)
    as (signed' & text' & mac & Hs' & _ & _ & Hmac & _ & Hv);
    [done|apply test_builder_builds|apply verifier_builds|by_compute|done|done|done|by_compute..|].
  rewrite Hs in Hs'. injection Hs' as <-. exists signed, text, mac. by split_and!.
Qed.

(** Everything that verifies decodes to the signed payload and carries the
    issuer's MAC. *)
Lemma fixture_verify_inv signed text peer now context :
  encoded_context signed = base64url_encode text →
  payload_from_slice text =
    Ok (sign_payload issuer_signer test_context 1700000000 1700000060 uuid) →
  verify im_verifier signed peer (Some "idempotency-1") now = Ok context →
  service_id peer = "sdkwork-knowledgebase" ∧ Duration.as_secs now ≤ 1700000090 ∧
  ∃ mac, base64url_decode (signature signed) = Some mac ∧
    hmac_sha256_base64url (signing_input (encoded_context signed)) CallerContextTests.KEY =
    base64url_encode mac.
Proof using Type*.
  intros Henc Hpay Hv. apply (verify_Ok _ _ _ _ _ _ _ _ verifier_builds) in Hv
    as (decoded & payload & secret & mac & _ & _ & Hdec & Hp & _ & _ & Hi & Hk & Hm & Hh & [_ _ Hx] & _).
  rewrite Henc, base64url_decode_encode in Hdec. injection Hdec as <-.
  rewrite Hpay in Hp. injection Hp as <-. cbn in Hi. simpl in Hx.
  assert (issuer_keys im_verifier !! "sdkwork-knowledgebase" = Some CallerContextTests.KEY) as Hkey
    by by_compute.
  rewrite <- Hi, Hkey in Hk. injection Hk as <-.
  split_and!; [done|lia|]. exists mac. split; [done|]. by apply verify_hmac_spec.
Qed.

Theorem caller_context_tests_pass :
  asserts
    [CallerContextTests.signs_and_verifies_context_bound_to_peer_and_idempotency_key uuid;
     CallerContextTests.rejects_signature_tampering_peer_mismatch_and_expired_context uuid] = true.
Proof using Type*.
  destruct fixture_signs as (signed & text & mac & Hs & Henc & Hpay & Hsig & Hv).
  unfold CallerContextTests.signs_and_verifies_context_bound_to_peer_and_idempotency_key,
    CallerContextTests.rejects_signature_tampering_peer_mismatch_and_expired_context.
  rewrite key_builds. cbn [expect_ok]. rewrite signer_builds. cbn [expect_ok].
  rewrite context_builds. cbn [expect_ok]. fold test_now. rewrite Hs. cbn [expect_ok].
  rewrite verifier_builds. cbn [expect_ok]. rewrite Hv. by_asserts.
  by_asserts; apply negb_true_iff; match goal with |- is_ok ?r = false => destruct r eqn:Hr end;
    try done; exfalso;
    (eapply (fixture_verify_inv _ text) in Hr as (Hpeer & Hnow & mac' & Hm & Hh); [|done..]).
  - cbn [signature encoded_context] in Hm, Hh. apply base64url_decode_len in Hm. rewrite <- Hh in Hm.
    rewrite str_len_app in Hm.
    destruct (sign_at_Ok issuer_signer test_context (Duration.from_secs 60) test_now uuid)
      as (signed' & text' & Hs' & _ & Hsig' & _); [by_compute| |done|done|by_compute..|].
    { by apply (build_Ok test_builder), test_builder_builds. }
    rewrite Hs in Hs'. injection Hs' as <-. cbn [signing_key issuer_signer] in Hsig'.
    rewrite <- Hsig' in Hm. change (str_len "A") with 1 in Hm. lia.
  - done.
  - vm_compute in Hnow. by apply Hnow.
Qed.
End CallerContext.
