(* ===== verification/TestsDiscovery.v ===== *)
(** * TestsDiscovery: the unit tests of [sdkwork-rpc-discovery]

    The test modules of [metadata.rs], [rpc_metadata.rs], [endpoint.rs] and
    [lifecycle.rs]. *)
From S2P Require Import Prelude RustStd Interfaces ClientMetadata Transport DiscoveryMetadata.
From S2P Require Import DiscoveryLifecycle Testing.

(** [str::split] on a character. *)
Fixpoint split (sep : ascii) (s : string) : list string :=
  match s with
  | EmptyString => [""]
  | String c s' =>
      if bool_decide (c = sep) then "" :: split sep s'
      else
        match split sep s' with
        | [] => [String c ""]
        | part :: parts => String c part :: parts
        end
  end.

(** [str::contains] with a string. *)
Fixpoint contains_str (needle s : string) : bool :=
  starts_with needle s ||
  match s with EmptyString => false | String _ s' => contains_str needle s' end.

Definition is_ascii_hexdigit (c : ascii) : bool :=
  is_ascii_digit c || byte_in 97 102 c || byte_in 65 70 c.

(** ** [metadata.rs] *)

Module MetadataTests.
Definition includes_required_discovery_metadata_keys : bool :=
  let metadata := build_registration_metadata
    {| rpc_surface := "internal"; sdk_family := "sdkwork-commerce-rpc-sdk";
       reg_domain := "commerce";
       proto_packages := ["sdkwork.commerce.app.v3"; "sdkwork.commerce.backend.v3"];
       operation_manifest_ref :=
         "sdks/sdkwork-commerce-rpc-sdk/rpc/sdkwork-commerce-rpc.manifest.json";
       deployment_profile := Some "standalone"; runtime_target := Some "server" |} in
  expect_some (metadata !! "proto_packages") (λ packages,
  asserts [assert_eq (metadata !! "rpc_surface") (Some "internal");
           assert_eq (metadata !! "sdk_family") (Some "sdkwork-commerce-rpc-sdk");
           contains_str "sdkwork.commerce.app.v3" packages]).
End MetadataTests.

(** ** [rpc_metadata.rs] *)

Module RpcMetadataTests.
Definition traceparent_is_w3c_compliant (ids : CallIds) : bool :=
  let traceparent := build_traceparent ids in
  match split "-" traceparent with
  | [version; trace_id; parent_id; flags] =>
      asserts
        [assert_eq version "00"; assert_eq (str_len trace_id) 32;
         assert_eq (str_len parent_id) 16; assert_eq flags "01";
         str_all is_ascii_hexdigit trace_id; str_all is_ascii_hexdigit parent_id;
         negb (assert_eq trace_id "00000000000000000000000000000000");
         negb (assert_eq parent_id "0000000000000000")]
  | _ => false
  end.

(** [draws] has the identifiers of the 256 headers. *)
Definition traceparent_parent_id_is_never_32_chars (draws : list CallIds) : bool :=
  forallb (λ ids,
    expect_some (split "-" (build_traceparent ids) !! 2%nat) (λ parent_id,
    assert_eq (str_len parent_id) 16)) draws.

Definition unsigned_subject_provider_returns_plaintext : bool :=
  let provider := unsigned_subject_new "svc-1" in
  asserts [assert_eq (subject_token provider) "svc-1"].

Section Keys.
Context `{MetadataKeys}.

Definition registry_metadata_includes_required_headers (ids : CallIds) : bool :=
  let provider := unsigned_subject_new "svc-1" in
  let metadata := registry_read_metadata provider ids in
  let keys := metadata.*1 in
  asserts [bool_decide ("x-sdkwork-subject-id" ∈ keys);
           bool_decide ("x-sdkwork-registry-permissions" ∈ keys);
           bool_decide ("x-request-id" ∈ keys); bool_decide ("traceparent" ∈ keys)].

Definition unsigned_convenience_wrappers_match_provider_api (ids ids' : CallIds) : bool :=
  let provider := unsigned_subject_new "svc-1" in
  let via_provider := registry_read_metadata provider ids in
  let via_convenience := unsigned_registry_read_metadata "svc-1" ids' in
  asserts [assert_eq (via_provider !! 0%nat) (via_convenience !! 0%nat);
           assert_eq (via_provider !! 1%nat) (via_convenience !! 1%nat)].
End Keys.
End RpcMetadataTests.

(** ** [endpoint.rs] *)

Module EndpointTests.
Section Utils.
Context `{UtilsApi}.

Definition normalizes_http_endpoint_without_scheme : bool :=
  asserts [assert_eq (normalize_http_endpoint "127.0.0.1:19090") "http://127.0.0.1:19090"].

Definition normalizes_grpc_endpoint_without_scheme : bool :=
  asserts [assert_eq (normalize_grpc_endpoint "127.0.0.1:50051") "grpc://127.0.0.1:50051"].
End Utils.
End EndpointTests.

(** ** [lifecycle.rs] *)

Module LifecycleTests.
Definition sample_config : DiscoveryInstanceConfig := {|
  discovery_endpoint := "http://127.0.0.1:19090";
  namespace := "sdkwork";
  environment := "development";
  service_name := "sdkwork-commerce-app-rpc";
  instance_id := "commerce-1";
  advertised_endpoint := "grpc://127.0.0.1:50051";
  protocol := "grpc";
  version := "0.1.0";
  region := "local";
  zone := "local";
  lease_ttl_seconds := 30;
  config_subject_id := "sdkwork-commerce-service-host";
  config_metadata := {["rpc_surface" := "app"]};
  revision_cas_on_register := true;
  expected_revision := None
|}.

(** [config.metadata.remove(key)]. *)
Definition remove_metadata (key : string) (c : DiscoveryInstanceConfig) :
    DiscoveryInstanceConfig := {|
  discovery_endpoint := discovery_endpoint c; namespace := namespace c;
  environment := environment c; service_name := service_name c; instance_id := instance_id c;
  advertised_endpoint := advertised_endpoint c; protocol := protocol c; version := version c;
  region := region c; zone := zone c; lease_ttl_seconds := lease_ttl_seconds c;
  config_subject_id := config_subject_id c; config_metadata := delete key (config_metadata c);
  revision_cas_on_register := revision_cas_on_register c;
  expected_revision := expected_revision c
|}.

Definition validates_required_metadata `{UtilsApi} : bool :=
  let config := remove_metadata "rpc_surface" sample_config in
  asserts [is_err (config_validate config)].

Definition builds_grpc_advertised_endpoint `{UtilsApi} : bool :=
  asserts [assert_eq (grpc_advertised_endpoint "127.0.0.1:50051") "grpc://127.0.0.1:50051"].

(** [rngs n] is the generator of the call with [n] failures. *)
Definition renew_backoff_never_exceeds_max (rngs : Z → RandomApi) : bool :=
  let initial := Duration.from_millis 500 in
  let max := Duration.from_secs 5 in
  forallb (λ failures, @renew_backoff (rngs failures) failures initial max <=? max) (seqZ 1 19).

(** The largest of the sampled delays, in milliseconds. *)
Definition max_seen (rngs : list RandomApi) (failures initial max : Z) : Z :=
  foldr Z.max 0 ((λ rng, Duration.as_millis (@renew_backoff rng failures initial max)) <$> rngs).

(** [rngs1] and [rngs5] have the generators of the two samples of 256. *)
Definition renew_backoff_grows_with_failures_before_jitter (rngs1 rngs5 : list RandomApi) : bool :=
  let initial := Duration.from_millis 100 in
  let max := Duration.from_secs 30 in
  let max_seen_1 := max_seen rngs1 1 initial max in
  let max_seen_5 := max_seen rngs5 5 initial max in
  asserts [max_seen_1 <=? max_seen_5].

Definition renew_loop_config_defaults_are_sane : bool :=
  let config := renew_config_default in
  asserts [initial_backoff config <? max_backoff config; 0 <? max_consecutive_failures config].
End LifecycleTests.

(** ** The tests pass *)

Lemma split_piece sep a b :
  str_contains sep a = false → split sep (a +:+ String sep b) = a :: split sep b.
Proof.
  intros Ha%str_contains_false. induction a as [|c a IH].
  - rewrite str_app_nil_l. cbn [split]. by rewrite bool_decide_eq_true_2.
  - cbn [str_all] in Ha. apply andb_true_iff in Ha as [Hc%negb_true_iff Ha].
    rewrite str_app_cons. cbn [split]. rewrite IH by done.
    apply bool_decide_eq_false in Hc. by rewrite bool_decide_eq_false_2.
Qed.

Lemma split_last sep a : str_contains sep a = false → split sep a = [a].
Proof.
  intros Ha%str_contains_false. induction a as [|c a IH]; [done|].
  cbn [str_all] in Ha. apply andb_true_iff in Ha as [Hc%negb_true_iff Ha].
  cbn [split]. rewrite IH by done. apply bool_decide_eq_false in Hc.
  by rewrite bool_decide_eq_false_2.
Qed.

Lemma lower_hex_no_dash s : str_all is_lower_hex s = true → str_contains "-" s = false.
Proof.
  intros Hs. apply str_contains_false. eapply str_all_impl; [|exact Hs].
  intros c. destruct c as [[] [] [] [] [] [] [] []]; vm_compute; done.
Qed.

Lemma lower_hex_hexdigit s : str_all is_lower_hex s = true → str_all is_ascii_hexdigit s = true.
Proof.
  apply str_all_impl. intros c Hc. unfold is_ascii_hexdigit. unfold is_lower_hex in Hc.
  by rewrite Hc.
Qed.

(** The four fields of a trace header. *)
Lemma split_traceparent ids :
  uuid_simple (trace_uuid ids) → u64 (parent_random ids) →
  split "-" (build_traceparent ids) =
  ["00"; trace_uuid ids; hex_digits 16 (Z.lor (parent_random ids) 1); "01"].
Proof.
  intros [_ Ht] Hr. destruct (parent_id_ok _ Hr) as (_ & Hp & _).
  unfold build_traceparent.
  change ("00-" +:+ ?s) with ("00" +:+ String "-" s). rewrite split_piece by done.
  change ("-" +:+ ?s) with (String "-" s). rewrite split_piece by (by apply lower_hex_no_dash).
  change "-01" with (String "-" "01"). rewrite split_piece by (by apply lower_hex_no_dash).
  by rewrite split_last.
Qed.

(** The draws of a header set: a UUID of 32 digits that is not zero (its
    version digit is 4) and any 64-bit number. *)
Definition drawn (ids : CallIds) : Prop :=
  uuid_simple (trace_uuid ids) ∧ trace_uuid ids ≠ "00000000000000000000000000000000" ∧
  u64 (parent_random ids).

Theorem rpc_metadata_tests_pass `{MetadataKeys} ids ids' draws :
  RPC_REQUEST_ID_METADATA = "x-request-id" → RPC_TRACEPARENT_METADATA = "traceparent" →
  drawn ids → Forall drawn draws →
  asserts
    [RpcMetadataTests.traceparent_is_w3c_compliant ids;
     RpcMetadataTests.traceparent_parent_id_is_never_32_chars draws;
     RpcMetadataTests.unsigned_subject_provider_returns_plaintext;
     RpcMetadataTests.registry_metadata_includes_required_headers ids;
     RpcMetadataTests.unsigned_convenience_wrappers_match_provider_api ids ids'] = true.
Proof.
  intros Hid Htp (Hu & Hnz & Hr) Hdraws. by_asserts.
  - unfold RpcMetadataTests.traceparent_is_w3c_compliant. rewrite split_traceparent by done.
    destruct Hu as [Hl Ha]. destruct (parent_id_ok _ Hr) as (Hpl & Hpa & _ & Hpn).
    by_asserts; [done|by apply lower_hex_hexdigit|by apply lower_hex_hexdigit|..];
      apply negb_true_iff, bool_decide_eq_false; [done|].
    intros Heq. apply Hpn. by rewrite Heq.
  - apply forallb_forall. intros d Hd%list_elem_of_In.
    rewrite Forall_forall in Hdraws. destruct (Hdraws d Hd) as (Hdu & _ & Hdr).
    rewrite split_traceparent by done. cbn [lookup list_lookup expect_some].
    apply assert_eq_spec, (parent_id_ok _ Hdr).
  - unfold RpcMetadataTests.registry_metadata_includes_required_headers.
    cbn [fmap list_fmap registry_read_metadata registry_metadata fst]. rewrite Hid, Htp.
    by vm_compute.
Qed.

Theorem discovery_tests_pass `{UtilsApi} `{!UtilsLaws} :
  asserts
    [MetadataTests.includes_required_discovery_metadata_keys;
     EndpointTests.normalizes_http_endpoint_without_scheme;
     EndpointTests.normalizes_grpc_endpoint_without_scheme;
     LifecycleTests.validates_required_metadata;
     LifecycleTests.builds_grpc_advertised_endpoint;
     LifecycleTests.renew_loop_config_defaults_are_sane] = true.
Proof.
  by_asserts.
  - unfold EndpointTests.normalizes_http_endpoint_without_scheme, normalize_http_endpoint.
    by rewrite utils_trim_std.
  - unfold EndpointTests.normalizes_grpc_endpoint_without_scheme, normalize_grpc_endpoint.
    by rewrite utils_trim_std.
  - unfold LifecycleTests.validates_required_metadata. by_asserts. apply negb_true_iff.
    destruct (config_validate_cases (LifecycleTests.remove_metadata "rpc_surface"
      LifecycleTests.sample_config)) as [[_ [_ _ Hs]]|(m & -> & _)]; [|done].
    cbn [config_metadata LifecycleTests.remove_metadata] in Hs.
    rewrite lookup_delete_eq in Hs. by destruct Hs.
  - unfold LifecycleTests.builds_grpc_advertised_endpoint, grpc_advertised_endpoint,
      normalize_grpc_endpoint. by rewrite utils_trim_std.
Qed.

Theorem renew_backoff_test_passes (rngs : Z → RandomApi) :
  (∀ n, @RandomLaws (rngs n)) → LifecycleTests.renew_backoff_never_exceeds_max rngs = true.
Proof.
  intros HL. apply forallb_forall. intros n Hn%list_elem_of_In%elem_of_seqZ. apply Z.leb_le.
  destruct (@renew_backoff_bounds (rngs n) (HL n) n (Duration.from_millis 500)
    (Duration.from_secs 5)); [lia|done|done|]. lia.
Qed.

(** The growth test compares the largest of two samples: it passes when the
    second has a draw of at least the first's range, and some draws the
    generator may make fail it. *)
Lemma max_seen_ge rngs failures initial max rng :
  rng ∈ rngs →
  Duration.as_millis (@renew_backoff rng failures initial max)
  ≤ LifecycleTests.max_seen rngs failures initial max.
Proof.
  unfold LifecycleTests.max_seen. induction rngs as [|r rngs IH]; [by intros ?%elem_of_nil|].
  intros [->|Hin]%elem_of_cons; csimpl; [lia|]. specialize (IH Hin). lia.
Qed.

Lemma max_seen_le rngs failures initial max bound :
  0 ≤ bound →
  Forall (λ rng, Duration.as_millis (@renew_backoff rng failures initial max) ≤ bound) rngs →
  LifecycleTests.max_seen rngs failures initial max ≤ bound.
Proof.
  intros Hb. unfold LifecycleTests.max_seen. induction 1 as [|r rngs Hr _ IH]; csimpl; [done|lia].
Qed.

Theorem renew_growth_test_passes_when rngs1 rngs5 :
  Forall (λ r, @RandomLaws r) rngs1 →
  (∃ r, r ∈ rngs5 ∧ @RandomLaws r ∧ 200 ≤ @random_range r 0 3200) →
  LifecycleTests.renew_backoff_grows_with_failures_before_jitter rngs1 rngs5 = true.
Proof.
  intros H1 (r & Hr & HL & Hdraw). unfold asserts. apply asserts_spec.
  apply Forall_cons. split; [|done]. apply Z.leb_le.
  transitivity 200.
  - apply max_seen_le; [done|]. eapply Forall_impl; [exact H1|]. intros r1 HL1. cbv beta.
    change (@renew_backoff r1 1 _ _) with (Duration.from_millis (@random_range r1 0 200)).
    pose proof (@random_range_bounds r1 HL1 0 200). zlia.
  - etransitivity; [|by apply max_seen_ge].
    change (@renew_backoff r 5 _ _) with (Duration.from_millis (@random_range r 0 3200)). zlia.
Qed.

Theorem renew_growth_test_can_fail :
  ∃ r1 r5, @RandomLaws r1 ∧ @RandomLaws r5 ∧
    LifecycleTests.renew_backoff_grows_with_failures_before_jitter
      (replicate 256 r1) (replicate 256 r5) = false.
Proof.
  exists toy_random, {| random_range lo hi := lo |}.
  split_and!; [exact toy_random_laws|split; simpl; lia|by vm_compute].
Qed.
