(* ===== verification/TestsClient.v ===== *)
(** * TestsClient: the unit tests of [sdkwork-rpc-client]

    The test modules of [metadata.rs], [retry_budget.rs],
    [discovery_resolver.rs], [load_balance.rs], [tls.rs], [transport.rs],
    [resolver.rs] and [watching_discovery_resolver.rs]. Clock readings, random
    draws and the services outside the repository are parameters. *)
From S2P Require Import Prelude RustStd Core Interfaces ServiceIdentity CallerContext Tls.
From S2P Require Import ClientMetadata LoadBalance Transport DiscoveryMetadata DiscoveryLifecycle.
From S2P Require Import DiscoveryResolver WatchingResolver Binary64 RetryBudget Testing TestsCore.
From S2P Require Import TestsDiscovery.

(** [matches!(error, RpcFrameworkError::Validation(_))] and the like. *)
Definition is_validation (e : RpcFrameworkError) : bool :=
  match e with Validation _ => true | _ => false end.
Definition is_configuration (e : RpcFrameworkError) : bool :=
  match e with Configuration _ => true | _ => false end.

(** ** [metadata.rs] *)

Module MetadataTests.
Section Metadata.
Context `{MetadataApi, UtilsApi, MetadataKeys}.

Definition applies_standard_metadata_keys : bool :=
  let map := metadata_new in
  let map := call_apply_to
    {| authorization := None; access_token := None; call_request_id := Some "req-1";
       traceparent := Some "00-abc-def-01"; call_idempotency_key := Some "idem-1";
       request_hash := None |} map in
  asserts
    [assert_eq (value_to_str <$> metadata_get RPC_REQUEST_ID_METADATA map) (Some (Some "req-1"));
     has_idempotency_key
       {| authorization := None; access_token := None; call_request_id := None;
          traceparent := None; call_idempotency_key := Some "idem-1"; request_hash := None |}].

Context `{CodecApi, PayloadJsonApi}.

(** The credential the three tests below issue, with or without a key. *)
Definition issued_credential (idempotency : option string) (now : Z) (uuid : string) :
    RpcFrameworkResult RpcServiceCredential :=
  let? key := from_secret_bytes (byte_array 32 "009") in
  let? signer := signer_new "sdkwork-knowledgebase" key in
  let? provider := provider_new signer (Duration.from_secs 60) in
  let builder :=
    Builder.set_request_id "request-1"
    (Builder.set_session_id "session-1"
    (Builder.set_actor_kind User
    (Builder.set_actor_id "300001"
    (Builder.set_organization_id "200001"
    (Builder.set_tenant_id "100001" Builder.default))))) in
  let builder :=
    match idempotency with Some k => Builder.set_idempotency_key k builder | None => builder end in
  let? context := Builder.build (Builder.set_audience_service_id "sdkwork-im" builder) in
  issue provider context now uuid.

Definition signed_service_credential_writes_only_framework_owned_metadata
    (now : Z) (uuid : string) : bool :=
  expect_ok (issued_credential (Some "idempotency-1") now uuid) (λ credential,
  let (metadata, applied) := credential_apply_to credential metadata_new in
  expect_ok applied (λ _,
  asserts
    [bool_decide (is_Some (metadata_get RPC_CALLER_CONTEXT_METADATA metadata));
     bool_decide (is_Some (metadata_get RPC_CALLER_CONTEXT_SIGNATURE_METADATA metadata));
     assert_eq (metadata_get RPC_IDEMPOTENCY_KEY_METADATA metadata ≫= value_to_str)
       (Some "idempotency-1")])).

Definition signed_service_credential_omits_absent_idempotency_metadata
    (now : Z) (uuid : string) : bool :=
  expect_ok (issued_credential None now uuid) (λ credential,
  let (metadata, applied) := credential_apply_to credential metadata_new in
  expect_ok applied (λ _,
  asserts [bool_decide (¬ is_Some (metadata_get RPC_IDEMPOTENCY_KEY_METADATA metadata))])).

Definition signed_service_credential_rejects_conflicting_idempotency_metadata
    (now : Z) (uuid : string) : bool :=
  expect_ok (issued_credential (Some "idempotency-1") now uuid) (λ credential,
  expect_some (value_try_from "different-idempotency-key") (λ value,
  let metadata := metadata_insert RPC_IDEMPOTENCY_KEY_METADATA value metadata_new in
  let (metadata, applied) := credential_apply_to credential metadata in
  expect_err applied (λ error,
  asserts
    [is_validation error;
     bool_decide (¬ is_Some (metadata_get RPC_CALLER_CONTEXT_METADATA metadata))]))).
End Metadata.
End MetadataTests.

(** ** [retry_budget.rs] *)

Module RetryBudgetTests.
(** Calls of [try_acquire] on one registry, each with the clock reading at
    which it runs. *)
Fixpoint acquires (registry : RetryBudgetRegistry) (calls : list (string * Z)) : list bool :=
  match calls with
  | [] => []
  | (service, now) :: calls' =>
      let (admitted, registry) := registry_try_acquire service now now registry in
      admitted :: acquires registry calls'
  end.

Definition first_acquire_for_new_service_succeeds (t : Z) : bool :=
  let registry := registry_default in
  bool_decide (acquires registry [("svc-a", t)] = [true]).

Definition budget_exhaustion_fails_fast (t1 t2 t3 : Z) : bool :=
  let registry := registry_new {| capacity := 2; refill_per_second := F64.zero |} in
  bool_decide (
    acquires registry [("svc-b", t1); ("svc-b", t2); ("svc-b", t3)] = [true; true; false]).

Definition budgets_are_isolated_per_service (t1 t2 t3 : Z) : bool :=
  let registry := registry_new {| capacity := 1; refill_per_second := F64.zero |} in
  bool_decide (
    acquires registry [("svc-c", t1); ("svc-d", t2); ("svc-c", t3)] = [true; true; false]).

(** [t2] is at least 20 milliseconds after [t1]. *)
Definition refill_restores_tokens_over_time (t1 t2 : Z) : bool :=
  let registry := registry_new {| capacity := 1; refill_per_second := F64.of_Z 10000 |} in
  bool_decide (acquires registry [("svc-e", t1); ("svc-e", t2)] = [true; true]).

(** A clone shares the buckets, so its call runs on the same registry. *)
Definition clones_share_state (t1 t2 : Z) : bool :=
  let registry := registry_new {| capacity := 1; refill_per_second := F64.zero |} in
  bool_decide (acquires registry [("svc-f", t1); ("svc-f", t2)] = [true; false]).
End RetryBudgetTests.

(** ** [discovery_resolver.rs] *)

Module DiscoveryResolverTests.
Section Resolver.
Context `{MetadataApi, UtilsApi, MetadataKeys, DiscoveryProto}.
Context `{!DiscoveryApi}.

Definition discovery_resolver_config_requires_endpoint : bool :=
  let config :=
    {| res_discovery_endpoint := ""; res_namespace := "sdkwork";
       res_environment := "development"; res_subject_id := "resolver-1";
       healthy_only := true; res_protocol := "grpc" |} in
  asserts [is_err (resolver_new config)].

Definition discovery_resolver_rejects_blank_service_name (w : World) : bool :=
  expect_ok (resolver_new
    {| res_discovery_endpoint := "http://127.0.0.1:50051"; res_namespace := "sdkwork";
       res_environment := "development"; res_subject_id := "resolver-1";
       healthy_only := true; res_protocol := "grpc" |}) (λ resolver,
  expect_err (resolve "  " (resolver, w)).1 (λ error,
  asserts [is_validation error])).
End Resolver.
End DiscoveryResolverTests.

(** ** [load_balance.rs] *)

Module LoadBalanceTests.
Definition endpoint_of (uri : string) (weight : Z) (healthy : bool) : ResolvedEndpoint :=
  {| endpoint := uri; LoadBalance.weight := weight; LoadBalance.healthy := healthy |}.

Definition pick_first_prefers_healthy_endpoint : bool :=
  let endpoints :=
    [endpoint_of "grpc://unhealthy:1" 100 false; endpoint_of "grpc://healthy:2" 100 true] in
  expect_some (pick_endpoint endpoints PickFirst {| next := 0 |}).1 (λ picked,
  asserts [assert_eq (endpoint picked) "grpc://healthy:2"]).

Definition round_robin_cycles_through_healthy_endpoints : bool :=
  let endpoints := [endpoint_of "grpc://a:1" 100 true; endpoint_of "grpc://b:2" 100 true] in
  let (first, cursor) := pick_endpoint endpoints RoundRobin {| next := 0 |} in
  let (second, cursor) := pick_endpoint endpoints RoundRobin cursor in
  let (third, cursor) := pick_endpoint endpoints RoundRobin cursor in
  expect_some first (λ first, expect_some second (λ second, expect_some third (λ third,
  asserts [negb (assert_eq (endpoint first) (endpoint second));
           assert_eq (endpoint first) (endpoint third)]))).

Definition weighted_honors_higher_weight : bool :=
  let endpoints := [endpoint_of "grpc://light:1" 1 true; endpoint_of "grpc://heavy:2" 9 true] in
  let picks := (pick_many 100 endpoints Weighted {| next := 0 |}).1 in
  forallb (λ picked, bool_decide (is_Some picked)) picks &&
  asserts
    [(50 <? length (filter (λ picked, endpoint <$> picked = Some "grpc://heavy:2") picks))%nat].
End LoadBalanceTests.

(** ** [tls.rs] *)

Module TlsTests.
Section Files.
Context `{FsApi, TransportApi}.

Definition server_verified_config_has_no_paths : bool :=
  let config := server_verified in
  asserts [bool_decide (server_ca_certificate_path config = None);
           bool_decide (client_cert_path config = None);
           bool_decide (client_key_path config = None); is_ok (tls_validate config)].

Definition validate_rejects_nonexistent_ca_path : bool :=
  let config := with_server_ca "/nonexistent/ca.pem" server_verified in
  expect_err (tls_validate config) (λ error, asserts [is_configuration error]).

Definition validate_rejects_nonexistent_client_cert_path : bool :=
  let config :=
    with_client_identity "/nonexistent/client.crt" "/nonexistent/client.key" server_verified in
  expect_err (tls_validate config) (λ error, asserts [is_configuration error]).

Definition validate_rejects_cert_without_key : bool :=
  let config :=
    {| server_ca_certificate_path := server_ca_certificate_path server_verified;
       client_cert_path := Some "/tmp/client.crt"; client_key_path := None;
       domain := domain server_verified |} in
  expect_err (tls_validate config) (λ error, asserts [is_configuration error]).

Definition validate_rejects_key_without_cert : bool :=
  let config :=
    {| server_ca_certificate_path := server_ca_certificate_path server_verified;
       client_cert_path := None; client_key_path := Some "/tmp/client.key";
       domain := domain server_verified |} in
  expect_err (tls_validate config) (λ error, asserts [is_configuration error]).

Definition builder_methods_are_chainable : bool :=
  let config :=
    with_client_identity "/tmp/client.crt" "/tmp/client.key"
      (with_server_ca "/tmp/ca.pem" (with_domain "rpc.internal" server_verified)) in
  asserts [assert_eq (domain config) (Some "rpc.internal");
           assert_eq (client_cert_path config) (Some "/tmp/client.crt");
           assert_eq (client_key_path config) (Some "/tmp/client.key")].

(** Compiled without the feature. *)
Definition build_without_feature_returns_configuration_error : bool :=
  let config := server_verified in
  expect_err (build_client_tls_config false config) (λ error, asserts [is_configuration error]).
End Files.
End TlsTests.

(** ** [transport.rs] and [resolver.rs] *)

Module TransportTests.
Section Utils.
Context `{UtilsApi}.

Definition converts_grpc_scheme_to_http_for_tonic : bool :=
  expect_ok (tonic_endpoint_uri "grpc://127.0.0.1:50051") (λ plain,
  expect_ok (tonic_endpoint_uri "grpcs://example.com:443") (λ secure,
  asserts [assert_eq plain "http://127.0.0.1:50051"; assert_eq secure "https://example.com:443"])).

Definition rejects_blank_endpoint : bool := asserts [is_err (tonic_endpoint_uri "  ")].
End Utils.

Definition default_channel_config_uses_keepalive : bool :=
  let config := channel_config_default in
  asserts [keepalive_while_idle config; Duration.from_secs 30 <=? keepalive_interval config].

Definition default_channel_config_has_no_tls : bool :=
  let config := channel_config_default in
  asserts [bool_decide (channel_tls config = None)].

Definition channel_config_accepts_tls_override : bool :=
  let config :=
    {| connect_timeout := connect_timeout channel_config_default;
       keepalive_interval := keepalive_interval channel_config_default;
       keepalive_timeout := keepalive_timeout channel_config_default;
       keepalive_while_idle := keepalive_while_idle channel_config_default;
       channel_tls := Some server_verified |} in
  asserts [bool_decide (is_Some (channel_tls config))].
End TransportTests.

Module ResolverTests.
Definition static_resolver_returns_configured_endpoint : bool :=
  let resolver := single "grpc://127.0.0.1:50051" in
  expect_ok (resolve "sdkwork-commerce-app-rpc" resolver).1 (λ endpoints,
  asserts [assert_eq (length endpoints) 1%nat;
           assert_eq (endpoint <$> endpoints !! 0%nat) (Some "grpc://127.0.0.1:50051")]).
End ResolverTests.

(** ** [watching_discovery_resolver.rs] *)

Module WatchingTests.
(** [rngs n] is the generator of the call with attempt [n]. *)
Definition reconnect_backoff_never_exceeds_max (rngs : Z → RandomApi) : bool :=
  let initial := Duration.from_millis 100 in
  let max := Duration.from_millis 500 in
  forallb (λ attempt, @reconnect_backoff (rngs attempt) attempt initial max <=? max) (seqZ 0 20).

Definition max_seen (rngs : list RandomApi) (attempt initial max : Z) : Z :=
  foldr Z.max 0 ((λ rng, Duration.as_millis (@reconnect_backoff rng attempt initial max)) <$> rngs).

Definition reconnect_backoff_grows_with_attempt_before_jitter (rngs0 rngs5 : list RandomApi) :
    bool :=
  let initial := Duration.from_millis 100 in
  let max := Duration.from_secs 10 in
  let max_seen_0 := max_seen rngs0 0 initial max in
  let max_seen_5 := max_seen rngs5 5 initial max in
  asserts [max_seen_0 <=? max_seen_5].

Section Resolver.
Context `{MetadataApi, UtilsApi}.
Context `{!DiscoveryApi}.

Definition last_revision_starts_at_zero : bool :=
  expect_ok (watching_new
    {| res_discovery_endpoint := "http://127.0.0.1:50051"; res_namespace := "sdkwork";
       res_environment := "development"; res_subject_id := "watcher-1";
       healthy_only := true; res_protocol := "grpc" |}) (λ resolver,
  asserts [assert_eq (last_revision (shared resolver)) 0]).
End Resolver.

Definition watch_loop_config_defaults_are_sane : bool :=
  let config := watch_config_default in
  asserts [initial_reconnect_backoff config <? max_reconnect_backoff config; 0 <? cache_ttl config].
End WatchingTests.

(** ** The tests pass *)

Section Metadata.
Context `{MetadataApi, UtilsApi, MetadataKeys, CodecApi, PayloadJsonApi}.
Context `{!MetadataLaws, !UtilsLaws, !MetadataKeysLaws, !CodecLaws, !PayloadJsonLaws}.
Context (Hkeys : RPC_IDEMPOTENCY_KEY_METADATA ∉
  [RPC_CALLER_CONTEXT_METADATA; RPC_CALLER_CONTEXT_SIGNATURE_METADATA]).
Context (now : Z) (uuid : string).
Context (Huuid : valid_identifier uuid) (Hnow : 0 ≤ now) (Hmax : Duration.as_secs now + 300 ≤ i64_max).

Lemma idempotency_key_text : header_text "idempotency-1".
Proof. by vm_compute. Qed.

(** The credential carries the key and two headers tonic accepts. *)
Lemma credential_issued idempotency :
  idempotency = None ∨ idempotency = Some "idempotency-1" →
  ∃ c, MetadataTests.issued_credential idempotency now uuid = Ok c ∧
    credential_idempotency_key c = idempotency ∧
    header_text (encoded_context (signed_caller_context c)) ∧
    header_text (signature (signed_caller_context c)).
Proof using Type*.
  intros Hi. set (context := RpcCallerContext.Build_t "100001" "200001" "300001" User
    (Some "session-1") "request-1" None idempotency "sdkwork-im").
  set (signer := {| signer_issuer_service_id := "sdkwork-knowledgebase";
    signing_key := byte_array 32 "009"; signer_max_ttl := MAX_CALLER_CONTEXT_TTL |}).
  assert (MetadataTests.issued_credential idempotency now uuid =
    issue {| provider_signer := signer; provider_ttl := Duration.from_secs 60 |} context now uuid)
    as -> by (by destruct Hi as [->| ->]).
  destruct (sign_at_Ok signer context (Duration.from_secs 60) now uuid)
    as (signed & text & Hs & Henc & Hsig & _ & Hl); [by_compute| |done|done|by_compute|done|done|].
  { by destruct Hi as [->| ->]; split; simpl; first [exact I|by eexists|by_compute|by intros]. }
  unfold issue. cbn [provider_signer provider_ttl]. rewrite Hs. eexists. split; [done|].
  split; [done|]. cbn [signed_caller_context]. rewrite Hsig, Henc.
  destruct (hmac_base64url (signing_input (base64url_encode text)) (signing_key signer))
    as (mac & -> & Hm).
  split; apply base64url_header_text; lia.
Qed.

Theorem metadata_tests_pass :
  asserts
    [MetadataTests.applies_standard_metadata_keys;
     MetadataTests.signed_service_credential_writes_only_framework_owned_metadata now uuid;
     MetadataTests.signed_service_credential_omits_absent_idempotency_metadata now uuid;
     MetadataTests.signed_service_credential_rejects_conflicting_idempotency_metadata now uuid]
  = true.
Proof using Type*.
  by_asserts.
  - unfold MetadataTests.applies_standard_metadata_keys. by_asserts.
    + match goal with |- context [call_apply_to ?self ?m] =>
        change (call_apply_to self m) with (insert_fields m (call_fields self)) end.
      rewrite (insert_fields_get RPC_REQUEST_ID_METADATA (Some "req-1"));
        [|exact standard_keys_canonical|exact standard_keys_nodup|unfold call_fields; set_solver].
      unfold insert_optional. rewrite is_blank_Some. change (str_is_empty _) with false.
      destruct (value_try_from_visible "req-1") as [v Hv]; [done|].
      assert (canonical_key RPC_REQUEST_ID_METADATA = true) as Hc.
      { pose proof standard_keys_canonical as Hall. rewrite Forall_forall in Hall. apply Hall.
        unfold standard_keys. set_solver. }
      rewrite key_from_bytes_canonical, Hv, metadata_get_insert by done. simpl.
      by rewrite (value_to_str_try_from "req-1").
    + unfold has_idempotency_key. simpl. by rewrite is_blank_Some.
  - unfold MetadataTests.signed_service_credential_writes_only_framework_owned_metadata.
    destruct (credential_issued (Some "idempotency-1")) as (c & -> & Hk & He & Hs); [by right|].
    cbn [expect_ok]. destruct (credential_applied c metadata_new) as (m & -> & Hctx & Hsig & Hidem & _);
      [done..|intros s; rewrite Hk; intros [= <-]; apply idempotency_key_text| |].
    { unfold idempotency_compatible. by rewrite metadata_get_new. }
    cbn [expect_ok]. unfold header in Hctx, Hsig, Hidem. by_asserts.
    + apply bool_decide_eq_true. destruct (metadata_get _ m); [by eexists|done].
    + apply bool_decide_eq_true.
      destruct (metadata_get RPC_CALLER_CONTEXT_SIGNATURE_METADATA m); [by eexists|done].
    + by rewrite Hidem, Hk.
  - unfold MetadataTests.signed_service_credential_omits_absent_idempotency_metadata.
    destruct (credential_issued None) as (c & -> & Hk & He & Hs); [by left|].
    cbn [expect_ok]. destruct (credential_applied c metadata_new) as (m & -> & _ & _ & _ & Hnone & _);
      [done..|intros s; by rewrite Hk| |].
    { unfold idempotency_compatible. by rewrite metadata_get_new. }
    cbn [expect_ok]. by_asserts. apply bool_decide_eq_true. rewrite Hnone by done. by intros [].
  - unfold MetadataTests.signed_service_credential_rejects_conflicting_idempotency_metadata.
    destruct (credential_issued (Some "idempotency-1")) as (c & -> & Hk & He & Hs); [by right|].
    cbn [expect_ok]. destruct (value_try_from_visible "different-idempotency-key") as [v Hv]; [done|].
    rewrite Hv. cbn [expect_some]. unfold credential_apply_to. rewrite Hk.
    unfold validate_bound_idempotency_metadata.
    rewrite metadata_get_insert by apply idempotency_header_canonical. simpl.
    rewrite (value_to_str_try_from "different-idempotency-key") by done. simpl.
    rewrite metadata_get_insert_ne, metadata_get_new; [done|done|apply idempotency_header_canonical|].
    set_solver.
Qed.
End Metadata.

(** With the clock readings of a run in which a microsecond passes between
    two calls and the sleep takes 20 milliseconds. *)
Theorem retry_budget_tests_pass :
  asserts
    [RetryBudgetTests.first_acquire_for_new_service_succeeds 5000;
     RetryBudgetTests.budget_exhaustion_fails_fast 5000 6000 7000;
     RetryBudgetTests.budgets_are_isolated_per_service 5000 6000 7000;
     RetryBudgetTests.refill_restores_tokens_over_time 5000 20006000;
     RetryBudgetTests.clones_share_state 5000 6000] = true.
Proof. by vm_compute. Qed.

Theorem discovery_resolver_tests_pass
    `{MetadataApi, UtilsApi, MetadataKeys, DiscoveryProto} `{!DiscoveryApi} `{!UtilsLaws} w :
  asserts
    [DiscoveryResolverTests.discovery_resolver_config_requires_endpoint;
     DiscoveryResolverTests.discovery_resolver_rejects_blank_service_name w;
     WatchingTests.last_revision_starts_at_zero] = true.
Proof.
  by_asserts.
  - unfold DiscoveryResolverTests.discovery_resolver_config_requires_endpoint, resolver_new,
      resolver_config_validate, require_non_blank. by rewrite !is_blank_Some.
  - unfold DiscoveryResolverTests.discovery_resolver_rejects_blank_service_name, resolver_new,
      resolver_config_validate, require_non_blank. rewrite !is_blank_Some.
    cbn [expect_ok resolve discovery_resolver]. unfold discovery_resolve. by rewrite !is_blank_Some.
  - unfold WatchingTests.last_revision_starts_at_zero, watching_new, with_watch_config,
      resolver_new, resolver_config_validate, require_non_blank. by rewrite !is_blank_Some.
Qed.

Theorem client_tests_pass `{UtilsApi, FsApi, TransportApi} `{!UtilsLaws} :
  path_exists "/nonexistent/ca.pem" = false → path_exists "/nonexistent/client.crt" = false →
  asserts
    [LoadBalanceTests.pick_first_prefers_healthy_endpoint;
     LoadBalanceTests.round_robin_cycles_through_healthy_endpoints;
     LoadBalanceTests.weighted_honors_higher_weight;
     TlsTests.server_verified_config_has_no_paths;
     TlsTests.validate_rejects_nonexistent_ca_path;
     TlsTests.validate_rejects_nonexistent_client_cert_path;
     TlsTests.validate_rejects_cert_without_key;
     TlsTests.validate_rejects_key_without_cert;
     TlsTests.builder_methods_are_chainable;
     TlsTests.build_without_feature_returns_configuration_error;
     TransportTests.converts_grpc_scheme_to_http_for_tonic;
     TransportTests.rejects_blank_endpoint;
     TransportTests.default_channel_config_uses_keepalive;
     TransportTests.default_channel_config_has_no_tls;
     TransportTests.channel_config_accepts_tls_override;
     ResolverTests.static_resolver_returns_configured_endpoint;
     WatchingTests.watch_loop_config_defaults_are_sane] = true.
Proof.
  intros Hca Hcert. by_asserts.
  - unfold TlsTests.validate_rejects_nonexistent_ca_path, tls_validate. cbn. by rewrite Hca.
  - unfold TlsTests.validate_rejects_nonexistent_client_cert_path, tls_validate. cbn.
    by rewrite Hcert.
  - unfold TransportTests.converts_grpc_scheme_to_http_for_tonic, tonic_endpoint_uri.
    by rewrite !utils_trim_std, !is_blank_Some.
  - unfold TransportTests.rejects_blank_endpoint, tonic_endpoint_uri.
    by rewrite !utils_trim_std, !is_blank_Some.
Qed.

Theorem reconnect_backoff_test_passes (rngs : Z → RandomApi) :
  (∀ n, @RandomLaws (rngs n)) → WatchingTests.reconnect_backoff_never_exceeds_max rngs = true.
Proof.
  intros HL. apply forallb_forall. intros n Hn%list_elem_of_In%elem_of_seqZ. apply Z.leb_le.
  destruct (@renew_backoff_bounds (rngs n) (HL n) n (Duration.from_millis 100)
    (Duration.from_millis 500)) as [_ Hb]; [lia|done|done|].
  etransitivity; [exact Hb|]. lia.
Qed.

(** The growth test of the reconnect delays, like the one of the renewals. *)
Theorem reconnect_growth_test_passes_when rngs0 rngs5 :
  Forall (λ r, @RandomLaws r) rngs0 →
  (∃ r, r ∈ rngs5 ∧ @RandomLaws r ∧ 100 ≤ @random_range r 0 3200) →
  WatchingTests.reconnect_backoff_grows_with_attempt_before_jitter rngs0 rngs5 = true.
Proof.
  intros Hl0 (r & Hr & HL & Hdraw). apply asserts_spec, Forall_cons. split; [|done].
  apply Z.leb_le. transitivity 100.
  - apply TestsDiscovery.max_seen_le; [done|]. eapply Forall_impl; [exact Hl0|]. intros r0 HL0.
    cbv beta. change (@renew_backoff r0 0 _ _)
      with (Duration.from_millis (@random_range r0 0 100)).
    pose proof (@random_range_bounds r0 HL0 0 100). zlia.
  - etransitivity; [|by apply TestsDiscovery.max_seen_ge].
    change (@renew_backoff r 5 _ _) with (Duration.from_millis (@random_range r 0 3200)). zlia.
Qed.
