(* ===== verification/TestsServer.v ===== *)
(** * TestsServer: the unit tests of [sdkwork-rpc-server]

    The test modules of [security.rs] and [lib.rs]. In the mTLS integration
    tests the handshake is tonic's: what the server sees of it is the client's
    certificate, so a call is the interceptor on a request with that
    certificate. *)
From S2P Require Import Prelude RustStd Core Interfaces ServiceIdentity CallerContext Tls.
From S2P Require Import ClientMetadata Security Testing TestsCore TestsDiscovery.

(** ** [lib.rs] *)

Module LibTests.
Definition serve_error_display_distinguishes_variants : bool :=
  asserts
    [contains_str "transport" (ServeError_to_string (ServeTransport "bind failed"));
     contains_str "deregister" (ServeError_to_string (DiscoveryDeregister "not found"));
     contains_str "signal" (ServeError_to_string (Signal "no tty"))].
End LibTests.

(** ** [security.rs] *)

Module SecurityTests.
Definition security : RpcFrameworkResult RpcInternalServiceSecurity :=
  let? policy := policy_new "sdkwork.internal" ["sdkwork-knowledgebase"] in
  Ok (security_new policy None).

Section Requests.
Context `{MetadataApi, X509Api, CodecApi, PayloadJsonApi}.

(** [Request::new(())]: no connection, no headers. *)
Definition request_new : Request :=
  {| peer_certs := None; request_metadata := metadata_new;
     extension_identity := None; extension_context := None |}.

Definition with_header (key value : string) (r : Request) : option Request :=
  v ← value_try_from value;
  Some {| peer_certs := peer_certs r;
          request_metadata := metadata_insert key v (request_metadata r);
          extension_identity := extension_identity r;
          extension_context := extension_context r |}.

Definition fails_closed_without_a_tls_peer_certificate (feature_tls : bool) (now : Z) : bool :=
  let request := request_new in
  expect_ok security (λ security,
  expect_err (verify_and_inject feature_tls security request now).2 (λ error,
  asserts
    [bool_decide (Status.code error = Code.FailedPrecondition)
     || bool_decide (Status.code error = Code.Unauthenticated)])).

Definition no_header_value_can_create_a_verified_identity (feature_tls : bool) (now : Z) : bool :=
  expect_some
    (with_header RPC_SERVICE_IDENTITY_ASSERTION_METADATA "sdkwork-knowledgebase" request_new)
    (λ request,
  expect_ok security (λ security,
  let (request, verified) := verify_and_inject feature_tls security request now in
  asserts [is_err verified; bool_decide (extension_identity request = None)])).

Definition internal_security_rejects_a_non_mtls_listener_config `{FsApi} : bool :=
  let tls :=
    {| server_cert_path := "server.pem"; server_key_path := "server.key";
       client_ca_certificate_path := None; client_auth_optional := false |} in
  expect_ok security (λ security, asserts [is_err (validate_mtls_listener security tls)]).
End Requests.
End SecurityTests.

Module MtlsIntegration.
Definition SIGNING_KEY : bytes := byte_array 32 "004".

Definition security : RpcFrameworkResult RpcInternalServiceSecurity :=
  let? signing_key := from_secret_bytes SIGNING_KEY in
  let? policy := policy_new "sdkwork.internal" ["sdkwork-knowledgebase"] in
  let? verifier :=
    verifier_new "sdkwork-im" [("sdkwork-knowledgebase", signing_key)] in
  Ok (security_new policy (Some verifier)).

Section Requests.
Context `{MetadataApi, X509Api, CodecApi, PayloadJsonApi, MetadataKeys}.
Context `{!CertificateAuthority}.

(** The certificate [issue_client_certificate] makes, as the server sees it. *)
Definition client_certificate (spiffe_uri : string) : bytes :=
  certificate_with_sans [URI spiffe_uri].

Definition valid_client : bytes :=
  client_certificate "spiffe://sdkwork.internal/sdkwork/service/sdkwork-knowledgebase".
Definition rejected_client : bytes :=
  client_certificate "spiffe://sdkwork.internal/sdkwork/service/sdkwork-untrusted".

(** A request on the connection of a client. *)
Definition on_connection (der : bytes) (r : Request) : Request :=
  {| peer_certs := Some [der]; request_metadata := request_metadata r;
     extension_identity := extension_identity r; extension_context := extension_context r |}.

(** [sign] reads the clock; [now] is the reading. *)
Definition signed_health_request (now : Z) (uuid : string) : option Request :=
  signed ← result_ok (
    let? key := from_secret_bytes SIGNING_KEY in
    let? signer := signer_new "sdkwork-knowledgebase" key in
    let? context :=
      Builder.build
        (Builder.set_audience_service_id "sdkwork-im"
        (Builder.set_idempotency_key "idempotency-1"
        (Builder.set_request_id "request-1"
        (Builder.set_session_id "session-1"
        (Builder.set_actor_kind User
        (Builder.set_actor_id "300001"
        (Builder.set_organization_id "200001"
        (Builder.set_tenant_id "100001" Builder.default)))))))) in
    sign signer context (Duration.from_secs 60) now uuid);
  r ← SecurityTests.with_header RPC_CALLER_CONTEXT_METADATA (encoded_context signed)
        SecurityTests.request_new;
  r ← SecurityTests.with_header RPC_CALLER_CONTEXT_SIGNATURE_METADATA (signature signed) r;
  SecurityTests.with_header RPC_IDEMPOTENCY_KEY_METADATA "idempotency-1" r.

(** The service behind the interceptor answers every admitted call. *)
Definition accepts_the_expected_mtls_spiffe_identity_and_signed_caller_context
    (sent received : Z) (uuid : string) : bool :=
  expect_ok security (λ security,
  expect_some (signed_health_request sent uuid) (λ request,
  is_ok (intercept true (interceptor security) (on_connection valid_client request) received))).

Definition rejects_wrong_spiffe_identity_and_spoofed_service_assertion
    (sent received : Z) (uuid : string) : bool :=
  expect_ok security (λ security,
  expect_err
    (intercept true (interceptor security) (on_connection rejected_client SecurityTests.request_new)
       received) (λ error,
  expect_some (signed_health_request sent uuid) (λ request,
  expect_some
    (SecurityTests.with_header RPC_SERVICE_IDENTITY_ASSERTION_METADATA "sdkwork-untrusted" request)
    (λ spoofed,
  expect_err (intercept true (interceptor security) (on_connection valid_client spoofed) received)
    (λ error',
  asserts [assert_eq (Status.code error) Code.Unauthenticated;
           assert_eq (Status.code error') Code.Unauthenticated]))))).
End Requests.
End MtlsIntegration.

(** ** The tests pass *)

Theorem server_lib_test_passes : LibTests.serve_error_display_distinguishes_variants = true.
Proof. by vm_compute. Qed.

Section Pass.
Context `{MetadataApi, X509Api, CodecApi, PayloadJsonApi, MetadataKeys}.
Context `{!MetadataLaws, !CodecLaws, !PayloadJsonLaws, !MetadataKeysLaws}.
Context `{!CertificateAuthority, !CertificateLaws}.

Theorem security_tests_pass `{FsApi} feature_tls now :
  asserts
    [SecurityTests.fails_closed_without_a_tls_peer_certificate feature_tls now;
     SecurityTests.no_header_value_can_create_a_verified_identity feature_tls now;
     SecurityTests.internal_security_rejects_a_non_mtls_listener_config] = true.
Proof using Type*.
  by_asserts.
  - by destruct feature_tls.
  - unfold SecurityTests.no_header_value_can_create_a_verified_identity, SecurityTests.with_header.
    destruct (value_try_from_visible "sdkwork-knowledgebase") as [v ->]; [done|].
    by destruct feature_tls.
Qed.

(** The effect of one header. *)
Lemma with_header_ok k s r :
  header_text s →
  ∃ v, value_to_str v = Some s ∧
    SecurityTests.with_header k s r =
    Some {| peer_certs := peer_certs r; request_metadata := metadata_insert k v (request_metadata r);
            extension_identity := extension_identity r; extension_context := extension_context r |}.
Proof using Type*.
  intros Hs. destruct (value_try_from_visible s) as [v Hv]; [by apply header_text_visible|].
  exists v. unfold SecurityTests.with_header. rewrite Hv. split; [|done].
  by apply value_to_str_try_from.
Qed.

Definition mtls_policy : RpcServiceIdentityPolicy :=
  {| policy_trust_domain := "sdkwork.internal"; allowed_service_ids := ["sdkwork-knowledgebase"] |}.
Definition mtls_verifier : RpcCallerContextVerifier :=
  {| verifier_audience_service_id := "sdkwork-im";
     issuer_keys := {["sdkwork-knowledgebase" := MtlsIntegration.SIGNING_KEY]};
     verifier_max_ttl := MAX_CALLER_CONTEXT_TTL; max_clock_skew := MAX_CLOCK_SKEW |}.

Lemma mtls_verifier_builds :
  verifier_new "sdkwork-im"
    [("sdkwork-knowledgebase", MtlsIntegration.SIGNING_KEY : RpcCallerContextSigningKey)]
  = Ok mtls_verifier.
Proof. by vm_compute. Qed.

Lemma mtls_security_builds :
  MtlsIntegration.security = Ok (security_new mtls_policy (Some mtls_verifier)).
Proof. by vm_compute. Qed.

(** What the two certificates identify. *)
Lemma valid_client_identity :
  ∃ identity, verify_tls_peer_certificate_der mtls_policy MtlsIntegration.valid_client = Ok identity ∧
    service_id identity = "sdkwork-knowledgebase".
Proof using Type*.
  unfold MtlsIntegration.valid_client, MtlsIntegration.client_certificate,
    verify_tls_peer_certificate_der.
  edestruct certificate_parses as (c & -> & Hn). cbn -[certificate_with_sans]. rewrite Hn.
  eexists. split; [cbn -[certificate_with_sans]; reflexivity|done].
Qed.

Lemma rejected_client_identity :
  ∃ m, verify_tls_peer_certificate_der mtls_policy MtlsIntegration.rejected_client
       = Err (Validation m).
Proof using Type*.
  unfold MtlsIntegration.rejected_client, MtlsIntegration.client_certificate,
    verify_tls_peer_certificate_der.
  edestruct certificate_parses as (c & -> & Hn). cbn -[certificate_with_sans]. rewrite Hn.
  eexists. cbn -[certificate_with_sans]. reflexivity.
Qed.

Context (sent received : Z) (uuid : string).
Context (Huuid : valid_identifier uuid) (Hidem : RPC_IDEMPOTENCY_KEY_METADATA = "idempotency-key").
Context (Hsent : 0 ≤ sent) (Hsent' : Duration.as_secs sent + 300 ≤ i64_max).
Context (Hreceived : sent ≤ received) (Hfast : received ≤ sent + Duration.from_secs 60).

(** The signed request and what the server reads from it. *)
Lemma signed_health_request_ok identity :
  service_id identity = "sdkwork-knowledgebase" →
  ∃ r encoded sig c,
    MtlsIntegration.signed_health_request sent uuid = Some r ∧
    header RPC_CALLER_CONTEXT_METADATA (request_metadata r) = Some encoded ∧
    header RPC_CALLER_CONTEXT_SIGNATURE_METADATA (request_metadata r) = Some sig ∧
    optional_metadata (request_metadata r) "idempotency-key" = Ok (Some "idempotency-1") ∧
    metadata_get RPC_SERVICE_IDENTITY_ASSERTION_METADATA (request_metadata r) = None ∧
    verify mtls_verifier (from_transport_metadata encoded sig) identity (Some "idempotency-1")
      received = Ok c.
Proof using Type*.
  intros Hid.
  destruct (sign_then_verify "sdkwork-knowledgebase" MtlsIntegration.SIGNING_KEY
    {| signer_issuer_service_id := "sdkwork-knowledgebase";
       signing_key := MtlsIntegration.SIGNING_KEY; signer_max_ttl := MAX_CALLER_CONTEXT_TTL |}
    (Builder.set_audience_service_id "sdkwork-im"
      (Builder.set_idempotency_key "idempotency-1"
      (Builder.set_request_id "request-1" (Builder.set_session_id "session-1"
      (Builder.set_actor_kind User (Builder.set_actor_id "300001"
      (Builder.set_organization_id "200001" (Builder.set_tenant_id "100001" Builder.default))))))))
    (RpcCallerContext.Build_t "100001" "200001" "300001" User (Some "session-1") "request-1" None
      (Some "idempotency-1") "sdkwork-im")
    60 uuid "sdkwork-im"
    [("sdkwork-knowledgebase", MtlsIntegration.SIGNING_KEY : RpcCallerContextSigningKey)]
    mtls_verifier identity sent received)
    as (signed & text & mac & Hs & He & Htl & Hsig & Hml & Hver);
    [done|by vm_compute|apply mtls_verifier_builds|by_compute|done|done|done|lia|done|done|lia|zlia..|].
  unfold MtlsIntegration.signed_health_request.
  match goal with |- context [result_ok ?p] =>
    change p with (sign_at
      {| signer_issuer_service_id := "sdkwork-knowledgebase";
         signing_key := MtlsIntegration.SIGNING_KEY; signer_max_ttl := MAX_CALLER_CONTEXT_TTL |}
      (RpcCallerContext.Build_t "100001" "200001" "300001" User (Some "session-1") "request-1" None
        (Some "idempotency-1") "sdkwork-im") (Duration.from_secs 60) sent uuid) end.
  rewrite Hs, Hidem. cbn [result_ok mbind option_bind].
  destruct (with_header_ok RPC_CALLER_CONTEXT_METADATA (encoded_context signed)
    SecurityTests.request_new) as (v1 & Hv1 & ->); [rewrite He; by apply base64url_header_text|].
  cbn [mbind option_bind].
  edestruct (with_header_ok RPC_CALLER_CONTEXT_SIGNATURE_METADATA (signature signed))
    as (v2 & Hv2 & ->); [rewrite Hsig; by apply base64url_header_text|].
  cbn [mbind option_bind].
  edestruct (with_header_ok "idempotency-key" "idempotency-1") as (v3 & Hv3 & ->); [by vm_compute|].
  eexists _, (encoded_context signed), (signature signed), _. split; [done|].
  cbn [request_metadata SecurityTests.request_new]. unfold header. split_and!.
  - by rewrite !metadata_get_insert_ne, metadata_get_insert by done.
  - by rewrite metadata_get_insert_ne, metadata_get_insert by done.
  - apply optional_metadata_header. unfold header. by rewrite metadata_get_insert by done.
  - by rewrite !metadata_get_insert_ne, metadata_get_new by done.
  - by destruct signed.
Qed.

Theorem mtls_integration_tests_pass :
  asserts
    [MtlsIntegration.accepts_the_expected_mtls_spiffe_identity_and_signed_caller_context
       sent received uuid;
     MtlsIntegration.rejects_wrong_spiffe_identity_and_spoofed_service_assertion
       sent received uuid] = true.
Proof using Type*.
  destruct valid_client_identity as (identity & Hid & Hsvc).
  destruct (signed_health_request_ok identity Hsvc)
    as (r & encoded & sig & c & Hr & Henc & Hsig & Hkey & Hassert & Hver).
  unfold MtlsIntegration.accepts_the_expected_mtls_spiffe_identity_and_signed_caller_context,
    MtlsIntegration.rejects_wrong_spiffe_identity_and_spoofed_service_assertion.
  rewrite mtls_security_builds, Hr. unfold intercept.
  cbn [expect_ok expect_some interceptor interceptor_security]. by_asserts.
  - erewrite interceptor_admits; [reflexivity|]. split.
    + eexists _, _. split; [reflexivity|exact Hid].
    + by left.
    + right. eexists _, _, _, _, c. split_and!; [reflexivity|reflexivity|exact Henc|exact Hsig
        |exact Hkey|exact Hver].
  - destruct rejected_client_identity as [m Hrej].
    unfold interceptor_call at 1, verify_and_inject at 1.
    cbn [negb peer_certs MtlsIntegration.on_connection ok_or result_bind head
      service_identity_policy security_new]. rewrite Hrej. cbn [map_err result_bind expect_err].
    destruct (with_header_ok RPC_SERVICE_IDENTITY_ASSERTION_METADATA "sdkwork-untrusted" r)
      as (v & Hv & ->); [by vm_compute|]. cbn [expect_some].
    unfold interceptor_call, verify_and_inject.
    cbn [negb peer_certs MtlsIntegration.on_connection ok_or result_bind head
      service_identity_policy security_new]. rewrite Hid. cbn [map_err result_bind].
    unfold validate_optional_service_assertion.
    rewrite (optional_metadata_header _ _ "sdkwork-untrusted")
      by (cbn; unfold header; by rewrite metadata_get_insert).
    cbn [result_bind]. by rewrite Hsvc.
Qed.
End Pass.
