(* ===== verification/TestsArchitecture.v ===== *)
(** * TestsArchitecture: the cross-crate tests

    The tests under [tests/architecture/tests]: [resilience_alignment.rs],
    [framework_alignment.rs] and [discovery_e2e.rs]. The end-to-end tests take
    the control plane they start as a parameter: [view] is the world its
    clients see when its servers left it in a given world. They pass on the
    in-memory plane of [ControlPlane]. *)
From S2P Require Import Prelude RustStd Core Interfaces Retry CircuitBreaker BreakerTests LoadBalance.
From S2P Require Import Tls ClientMetadata Transport DiscoveryMetadata DiscoveryLifecycle Server.
From S2P Require Import DiscoveryResolver ControlPlane WatchingResolver Binary64 RetryBudget.
From S2P Require Import Testing TestsResilience TestsCore TestsDiscovery TestsClient.

(** ** [resilience_alignment.rs] *)

Module ResilienceAlignment.
Definition resilience_profiles_match_retry_whitelists : bool :=
  let default_policy := for_profile ResilienceProfile.RpcDefault in
  let critical_policy := for_profile ResilienceProfile.RpcCriticalWrite in
  asserts [allows_retry default_policy Code.Unavailable 1;
           negb (allows_retry default_policy Code.InvalidArgument 1);
           negb (allows_retry critical_policy Code.Unavailable 10)].

Definition retry_budget_exhaustion_fails_fast `{RandomApi} : bool :=
  let policy := for_profile ResilienceProfile.RpcDefault in
  let budget := Tracker.new 1 in
  let (first, budget) := should_retry policy Code.Unavailable 1 budget in
  let (second, budget) := should_retry policy Code.Unavailable 2 budget in
  asserts [first; negb second].

(** [r1] and [r2] are the generators of the two calls. *)
Definition retry_backoff_is_monotonic_and_bounded (r1 r2 : RandomApi) : bool :=
  let policy := for_profile ResilienceProfile.RpcReadOnly in
  let first := @retry_backoff_ms r1 policy 1 in
  let later := @retry_backoff_ms r2 policy 3 in
  asserts [first <=? later; later <=? max_backoff_ms policy].

Definition circuit_breaker_opens_and_recovers (lead slept : Z) : bool :=
  let config := {| failure_threshold := 2; recovery_timeout := Duration.from_millis 1;
                   half_open_max_probes := 1 |} in
  bool_decide (
    answers_of config
      [OpTick lead; OpFailure; OpFailure; OpState; OpAllow;
       OpTick slept; OpAllow; OpSuccess; OpState] =
    Some [AnsUnit; AnsUnit; AnsUnit; AnsState Open; AnsAllow false;
          AnsUnit; AnsAllow true; AnsUnit; AnsState Closed]).

Definition load_balancer_prefers_healthy_endpoints : bool :=
  let endpoints :=
    [{| endpoint := "grpc://bad:1"; weight := 100; healthy := false |};
     {| endpoint := "grpc://good:2"; weight := 100; healthy := true |}] in
  expect_some (pick_endpoint endpoints PickFirst {| next := 0 |}).1 (λ picked,
  asserts [assert_eq (endpoint picked) "grpc://good:2"]).

Definition idempotency_admission_blocks_unsafe_retries `{RandomApi} : bool :=
  let policy := for_profile ResilienceProfile.RpcIdempotentWrite in
  let budget := Tracker.new 10 in
  let (blocked, budget) :=
    should_retry_call policy Code.Unavailable 1 budget
      {| method_requires_idempotency := true; Retry.has_idempotency_key := false |} in
  asserts [negb blocked].

Definition bootstrap_and_shutdown_stage_names_are_canonical : bool :=
  expect_ok (validate_rpc_surface "backend") (λ surface,
  asserts [bool_decide (STAGE_INITIALIZE_RPC_FRAMEWORK ∈ BOOTSTRAP_STAGES);
           bool_decide (STAGE_DEREGISTER_DISCOVERY_INSTANCE ∈ SHUTDOWN_STAGES);
           assert_eq surface RpcSurface.Backend]).

Definition pushback_governs_resource_exhausted_retry `{RandomApi, MetadataApi} : bool :=
  let policy := for_profile ResilienceProfile.RpcReadOnly in
  let admission :=
    {| method_requires_idempotency := false; Retry.has_idempotency_key := false |} in
  let no_pushback :=
    {| Status.code := Code.ResourceExhausted; Status.message := "no pushback";
       Status.metadata := metadata_new |} in
  let budget := Tracker.new 10 in
  let (stopped, budget) :=
    should_retry_call_with_pushback policy no_pushback 1 budget admission
      (Duration.from_secs 10) in
  expect_some (value_try_from "120") (λ value,
  let with_pushback :=
    {| Status.code := Code.ResourceExhausted; Status.message := "pushback";
       Status.metadata := metadata_insert GRPC_RETRY_PUSHBACK_MS value metadata_new |} in
  let (decision, budget) :=
    should_retry_call_with_pushback policy with_pushback 1 budget admission
      (Duration.from_secs 10) in
  match decision with
  | Retry backoff_ms =>
      asserts [assert_eq stopped Stop;
               assert_eq (extract_retry_pushback_ms with_pushback) (Some 120);
               assert_eq backoff_ms 120]
  | Stop => false
  end).

Definition cross_call_retry_budget_fails_fast_per_service (t1 t2 t3 : Z) : bool :=
  let registry := registry_new {| capacity := 1; refill_per_second := F64.zero |} in
  bool_decide (
    RetryBudgetTests.acquires registry
      [("billing-svc", t1); ("billing-svc", t2); ("catalog-svc", t3)] = [true; false; true]).
End ResilienceAlignment.

(** ** [framework_alignment.rs] *)

Module FrameworkAlignment.
Definition framework_exports_identity_and_profiles : bool :=
  let uri := build_rpc_identity_uri
    {| Core.namespace := "sdkwork"; Core.environment := "development"; Core.rpc_surface := "app";
       proto_package := "sdkwork.commerce.app.v3"; service := "WalletService";
       method := "RetrieveWalletOverview"; operation_id := "wallet.overview.retrieve" |} in
  asserts [contains_str "wallet.overview.retrieve" uri;
           assert_eq (ResolverProfile.parse "discovery") (Some ResolverProfile.Discovery);
           assert_eq (ResilienceProfile.parse "rpc-default") (Some ResilienceProfile.RpcDefault)].

(** The labels the tests register with. *)
Definition app_metadata : gmap string string :=
  build_registration_metadata
    {| rpc_surface := "app"; sdk_family := "sdkwork-commerce-rpc-sdk"; reg_domain := "commerce";
       proto_packages := ["sdkwork.commerce.app.v3"];
       operation_manifest_ref :=
         "sdks/sdkwork-commerce-rpc-sdk/rpc/sdkwork-commerce-rpc.manifest.json";
       deployment_profile := None; runtime_target := None |}.

Definition registration_metadata_and_retry_policy_align_with_specs `{UtilsApi} : bool :=
  let metadata := app_metadata in
  let policy := for_profile ResilienceProfile.RpcDefault in
  asserts [assert_eq (metadata !! "rpc_surface") (Some "app");
           allows_retry policy Code.Unavailable 1;
           assert_eq (grpc_advertised_endpoint "127.0.0.1:50051") "grpc://127.0.0.1:50051";
           assert_eq (normalize_http_endpoint "127.0.0.1:19090") "http://127.0.0.1:19090"].

Definition static_resolver_is_usable_from_client_crate : bool :=
  let resolver := single "grpc://127.0.0.1:50051" in
  expect_ok (resolve "sdkwork-commerce-app-rpc" resolver).1 (λ endpoints,
  asserts [assert_eq (endpoint <$> endpoints !! 0%nat) (Some "grpc://127.0.0.1:50051")]).

Inductive FailingResolver : Type := failing.
#[global] Instance failing_resolver : NameResolver FailingResolver :=
  {| resolve _ r := (Err (Configuration "discovery unavailable"), r) |}.

Definition composite_resolver_falls_back_to_static_endpoints : bool :=
  let composite := composite_new failing (single "grpc://127.0.0.1:51052") in
  expect_ok (resolve "sdkwork-commerce-app-rpc" composite).1 (λ endpoints,
  asserts [assert_eq (endpoint <$> endpoints !! 0%nat) (Some "grpc://127.0.0.1:51052")]).

Definition discovery_resolver_is_exported_from_client_crate
    `{MetadataApi, UtilsApi} `{!DiscoveryApi} : bool :=
  asserts [is_ok (resolver_new
    {| res_discovery_endpoint := "http://127.0.0.1:50051"; res_namespace := "sdkwork";
       res_environment := "development"; res_subject_id := "resolver-1";
       healthy_only := true; res_protocol := "grpc" |})].
End FrameworkAlignment.

(** ** [discovery_e2e.rs] *)

Module DiscoveryE2e.
Section Plane.
Context `{MetadataApi, UtilsApi, MetadataKeys, DiscoveryProto}.
Context `{!RegistryApi, !DiscoveryApi}.
Context (view : DiscoveryLifecycle.World → DiscoveryResolver.World).
Context (discovery_endpoint : string) (ids : CallIds).

Definition service_under_test : string := "sdkwork-commerce-app-rpc".

Definition instance_config (id advertised : string) : DiscoveryInstanceConfig := {|
  DiscoveryLifecycle.discovery_endpoint := discovery_endpoint;
  namespace := "sdkwork"; environment := "development"; service_name := service_under_test;
  instance_id := id; advertised_endpoint := advertised; protocol := "grpc"; version := "0.1.0";
  region := "local"; zone := "local"; lease_ttl_seconds := 30;
  config_subject_id := "sdkwork-commerce-service-host";
  config_metadata := FrameworkAlignment.app_metadata;
  revision_cas_on_register := true; expected_revision := None
|}.

Definition client_config : DiscoveryNameResolverConfig :=
  {| res_discovery_endpoint := discovery_endpoint; res_namespace := "sdkwork";
     res_environment := "development"; res_subject_id := "sdkwork-commerce-rpc-client";
     healthy_only := true; res_protocol := "grpc" |}.

Definition framework_register_and_resolve_round_trip_against_local_discovery
    (w : DiscoveryLifecycle.World) : bool :=
  let advertised_endpoint := "grpc://127.0.0.1:51051" in
  let (registered, w) :=
    register (instance_config "commerce-rpc-e2e-1" advertised_endpoint) ids ids w in
  expect_ok registered (λ handle,
  expect_ok (resolver_new client_config) (λ resolver,
  expect_ok (resolve service_under_test (resolver, view w)).1 (λ endpoints,
  expect_ok (deregister handle w).1 (λ _,
  asserts [assert_eq (length endpoints) 1%nat;
           assert_eq (endpoint <$> endpoints !! 0%nat) (Some advertised_endpoint);
           assert_eq (healthy <$> endpoints !! 0%nat) (Some true)])))).

(** At most [n] polls of the watching resolver, 50 milliseconds apart. *)
Fixpoint poll (n : nat) (advertised : string)
    (r : WatchingDiscoveryNameResolver * DiscoveryResolver.World) :
    option (list ResolvedEndpoint) :=
  match n with
  | O => None
  | S n' =>
      let (res, r) := resolve service_under_test r in
      let again := poll n' advertised (r.1, discovery_sleep (Duration.from_millis 50) r.2) in
      match res with
      | Ok endpoints =>
          if bool_decide (advertised ∈ endpoint <$> endpoints) then Some endpoints else again
      | Err _ => again
      end
  end.

(** [rngs] serves the iterations of the watch loop before the first poll. *)
Definition watching_resolver_refreshes_after_registration (rngs : list RandomApi)
    (w : DiscoveryLifecycle.World) : bool :=
  let advertised_endpoint := "grpc://127.0.0.1:52051" in
  expect_ok (watching_new client_config) (λ resolver,
  let (registered, w) :=
    register (instance_config "commerce-rpc-watch-e2e-1" advertised_endpoint) ids ids w in
  expect_ok registered (λ handle,
  let '(_, resolver, v) := spawn_watch_loop rngs resolver service_under_test (view w) in
  expect_some (poll 20 advertised_endpoint (resolver, v)) (λ endpoints,
  expect_ok (deregister handle w).1 (λ _,
  asserts [assert_eq (endpoint <$> endpoints !! 0%nat) (Some advertised_endpoint)])))).

Definition revision_cas_allows_safe_reregister_with_same_instance_id
    (w : DiscoveryLifecycle.World) : bool :=
  let instance_id := "commerce-rpc-cas-e2e-1" in
  let first_endpoint := "grpc://127.0.0.1:53051" in
  let second_endpoint := "grpc://127.0.0.1:53052" in
  let (first, w) := register (instance_config instance_id first_endpoint) ids ids w in
  expect_ok first (λ first_handle,
  let (second, w) := register (instance_config instance_id second_endpoint) ids ids w in
  expect_ok second (λ second_handle,
  expect_ok (resolver_new client_config) (λ resolver,
  expect_ok (resolve service_under_test (resolver, view w)).1 (λ endpoints,
  expect_ok (deregister second_handle w).1 (λ _,
  asserts [assert_eq (length endpoints) 1%nat;
           assert_eq (endpoint <$> endpoints !! 0%nat) (Some second_endpoint)]))))).
End Plane.
End DiscoveryE2e.

(** ** The tests pass *)

Section Pass.
Context `{RandomApi, MetadataApi, UtilsApi} `{!RandomLaws, !MetadataLaws, !UtilsLaws}.
Context `{!DiscoveryApi}.

Theorem alignment_tests_pass :
  asserts
    [ResilienceAlignment.resilience_profiles_match_retry_whitelists;
     ResilienceAlignment.retry_budget_exhaustion_fails_fast;
     ResilienceAlignment.load_balancer_prefers_healthy_endpoints;
     ResilienceAlignment.idempotency_admission_blocks_unsafe_retries;
     ResilienceAlignment.bootstrap_and_shutdown_stage_names_are_canonical;
     ResilienceAlignment.pushback_governs_resource_exhausted_retry;
     ResilienceAlignment.cross_call_retry_budget_fails_fast_per_service 5000 6000 7000;
     FrameworkAlignment.framework_exports_identity_and_profiles;
     FrameworkAlignment.registration_metadata_and_retry_policy_align_with_specs;
     FrameworkAlignment.static_resolver_is_usable_from_client_crate;
     FrameworkAlignment.composite_resolver_falls_back_to_static_endpoints;
     FrameworkAlignment.discovery_resolver_is_exported_from_client_crate] = true.
Proof using Type*.
  apply asserts_spec. repeat (apply Forall_cons; split); [..|done].
  - done.
  - done.
  - done.
  - done.
  - by vm_compute.
  - unfold ResilienceAlignment.pushback_governs_resource_exhausted_retry,
      should_retry_call_with_pushback. cbn. rewrite extract_none. cbn.
    destruct (value_try_from_visible "120") as [v Hv]; [done|]. rewrite Hv. cbn.
    unfold extract_retry_pushback_ms. cbn. rewrite metadata_get_insert by done. cbn.
    by rewrite (value_to_str_try_from "120" v).
  - by vm_compute.
  - by vm_compute.
  - unfold FrameworkAlignment.registration_metadata_and_retry_policy_align_with_specs,
      grpc_advertised_endpoint, normalize_grpc_endpoint, normalize_http_endpoint.
    rewrite !utils_trim_std. by vm_compute.
  - done.
  - done.
  - unfold FrameworkAlignment.discovery_resolver_is_exported_from_client_crate, resolver_new,
      resolver_config_validate, require_non_blank. by rewrite !is_blank_Some.
Qed.
End Pass.

Theorem breaker_alignment_test_passes lead slept :
  0 < lead → Duration.from_millis 2 ≤ slept → lead + slept ≤ u64_max →
  ResilienceAlignment.circuit_breaker_opens_and_recovers lead slept = true.
Proof.
  intros Hl Hs Hmax. by_history Hl Hs Hmax.
Qed.

(** The test of monotone delays compares single draws of full jitter: some
    draws the generator may make fail it. *)
Theorem monotonic_backoff_test_can_fail :
  ∃ r1 r2, @RandomLaws r1 ∧ @RandomLaws r2 ∧
    ResilienceAlignment.retry_backoff_is_monotonic_and_bounded r1 r2 = false.
Proof.
  exists toy_random, {| random_range lo hi := lo |}.
  split_and!; [exact toy_random_laws|split; simpl; lia|by vm_compute].
Qed.

(** The end-to-end tests pass on the in-memory control plane. *)
Theorem discovery_e2e_tests_pass :
  @DiscoveryE2e.framework_register_and_resolve_round_trip_against_local_discovery
    toy_metadata toy_utils toy_keys toy_proto memory_registry memory_discovery id
    "http://127.0.0.1:19090" test_ids [] = true ∧
  @DiscoveryE2e.watching_resolver_refreshes_after_registration
    toy_metadata toy_utils toy_keys toy_proto memory_registry memory_discovery id
    "http://127.0.0.1:19090" test_ids [toy_random] [] = true ∧
  @DiscoveryE2e.revision_cas_allows_safe_reregister_with_same_instance_id
    toy_metadata toy_utils toy_keys toy_proto memory_registry memory_discovery id
    "http://127.0.0.1:19090" test_ids [] = true.
Proof. split_and!; reflexivity. Qed.
